(** * Contra HD: the 2D physics engine (src/PhysicsEngine.js)

    A shallow embedding of [PhysicsEngine], [PhysicsBody], [SpatialHash]
    and of the [Vector2] helper class, followed by the properties of the
    engine that its specification states, and by further properties of
    the engine, of the event bus it notifies ([EventBus]) and of the
    methods of [Entity] that call it.

    Numbers.  A JavaScript number that holds a coordinate, a velocity, a
    mass or a material coefficient is modelled by a real number: arithmetic
    is exact, and every such value is finite.  Every division of the engine
    outside the ray caster is guarded by a test on its divisor
    ([Vector2.divide], [resolvePosition], [resolveVelocity],
    [applyFriction]) or divides by a constant (2, or the cell size 64 of
    the engine's hash), except [1 / mass], whose divisor the constructor
    makes non-zero: the statements about the resolver are about such
    bodies ([wellFormed]).  The ray caster divides by the components of a
    direction, which are zero for every axis-aligned ray: there a number is
    an extended real [JsNum.t] (finite, plus or minus infinity, NaN) with
    the IEEE 754 rules for division, comparison, [Math.min] and
    [Math.max].  Collision layers and masks are integers, and [&] works on
    their 32-bit two's complement images.  [Math.pow] is a parameter of the
    tick, and the id [Math.random] draws for a new body is an argument of
    [createBody].

    Objects.  Bodies are mutable objects held by reference in several
    containers at once (the registry map, the static and dynamic sets, the
    cells of the spatial hash, the manifolds).  A reference is an index
    into a heap of body records; [Map] and [Set] are lists in insertion
    order, which is the order [forEach] visits them in.  The constraint
    list, the table of named materials and the debug flag of the engine
    take no part in what follows and are left out. *)

From Stdlib Require Import Reals Lra Lia ZArith List String Ascii Bool.
From Stdlib Require Import Sorting.Sorted Sorting.Permutation.
Import ListNotations.

Open Scope R_scope.

(** ** Vector2 *)

Module Vector2.

Record t : Type := mk { x : R; y : R }.

(** [new Vector2()] *)
Definition zero : t := mk 0 0.

Definition add (v1 v2 : t) : t := mk (x v1 + x v2) (y v1 + y v2).

Definition subtract (v1 v2 : t) : t := mk (x v1 - x v2) (y v1 - y v2).

Definition multiply (v : t) (scalar : R) : t :=
  mk (x v * scalar) (y v * scalar).

Definition divide (v : t) (scalar : R) : t :=
  if Req_dec_T scalar 0 then v else mk (x v / scalar) (y v / scalar).

Definition magnitude (v : t) : R := sqrt (x v * x v + y v * y v).

Definition magnitudeSquared (v : t) : R := x v * x v + y v * y v.

Definition normalize (v : t) : t :=
  let mag := magnitude v in
  if Rlt_dec 0 mag then divide v mag else v.

(** [clone().normalize()] *)
Definition normalized (v : t) : t := normalize v.

Definition distanceTo (v w : t) : R :=
  let dx := x v - x w in
  let dy := y v - y w in
  sqrt (dx * dx + dy * dy).

Definition dot (v w : t) : R := x v * x w + y v * y w.

Definition limit (v : t) (max : R) : t :=
  if Rlt_dec (max * max) (magnitudeSquared v)
  then multiply (normalize v) max
  else v.

Definition distanceToSquared (v w : t) : R :=
  let dx := x v - x w in
  let dy := y v - y w in
  dx * dx + dy * dy.

Definition cross (v w : t) : R := x v * y w - y v * x w.

(** [Vector2.fromAngle(angle)] *)
Definition fromAngle (angle : R) : t := mk (cos angle) (sin angle).

Definition rotate (v : t) (angle : R) : t :=
  mk (x v * cos angle - y v * sin angle) (x v * sin angle + y v * cos angle).


Definition negate (v : t) : t := mk (- x v) (- y v).

End Vector2.

(** ** JavaScript operators on integers and optional fields *)

(** [ToInt32], the conversion [&] applies to both operands. *)
Definition ToInt32 (z : Z) : Z := ((z + 2 ^ 31) mod 2 ^ 32 - 2 ^ 31)%Z.

(** [a & b] *)
Definition bitand (a b : Z) : Z := Z.land (ToInt32 a) (ToInt32 b).

(** [o || d] for a numeric field: an absent field and the falsy number 0
    both give the default. *)
Definition orR (o : option R) (d : R) : R :=
  match o with
  | Some v => if Req_dec_T v 0 then d else v
  | None => d
  end.

Definition orZ (o : option Z) (d : Z) : Z :=
  match o with
  | Some v => if (v =? 0)%Z then d else v
  | None => d
  end.

(** [o || d] for an object or a non-empty string: only absence is falsy. *)
Definition orObj {A : Type} (o : option A) (d : A) : A :=
  match o with
  | Some v => v
  | None => d
  end.

(** [o || false] *)
Definition orFalse (o : option bool) : bool :=
  match o with
  | Some b => b
  | None => false
  end.

(** [o !== false] *)
Definition notFalse (o : option bool) : bool :=
  match o with
  | Some false => false
  | _ => true
  end.

(** ** Bodies *)

Inductive BodyType : Type := Static | Dynamic | Kinematic.

Definition BodyType_eqb (a b : BodyType) : bool :=
  match a, b with
  | Static, Static | Dynamic, Dynamic | Kinematic, Kinematic => true
  | _, _ => false
  end.

(** [shape.type] is ['circle'], ['rect'], or a string no routine knows. *)
Inductive Shape : Type :=
| Circle (radius : R)
| Rect (width height : R)
| OtherShape.

Record Material : Type := mkMaterial {
  friction : R;
  restitution : R;
  density : R
}.

Module Bounds.
Record t : Type := mk { left : R; top : R; right : R; bottom : R }.
End Bounds.

(** [userData]: the entity is opaque to the engine, only the type tag is read. *)
Record UserData : Type := mkUserData { tag : string }.

(** The [options] object of [createBody] and of the constructor. *)
Module Options.
Record t : Type := mk {
  position : option Vector2.t;
  velocity : option Vector2.t;
  rotation : option R;
  angularVelocity : option R;
  mass : option R;
  type : option BodyType;
  useGravity : option bool;
  enabled : option bool;
  linearDamping : option R;
  angularDamping : option R;
  maxVelocity : option R;
  shape : option Shape;
  material : option Material;
  collisionLayer : option Z;
  collisionMask : option Z;
  isTrigger : option bool;
  userData : option UserData
}.

(** [{}] *)
Definition empty : t :=
  mk None None None None None None None None None None None None None None
     None None None.

Definition with_mass (o : t) (m : option R) : t :=
  mk (position o) (velocity o) (rotation o) (angularVelocity o) m (type o)
     (useGravity o) (enabled o) (linearDamping o) (angularDamping o)
     (maxVelocity o) (shape o) (material o) (collisionLayer o)
     (collisionMask o) (isTrigger o) (userData o).

Definition with_linearDamping (o : t) (d : option R) : t :=
  mk (position o) (velocity o) (rotation o) (angularVelocity o) (mass o)
     (type o) (useGravity o) (enabled o) d (angularDamping o)
     (maxVelocity o) (shape o) (material o) (collisionLayer o)
     (collisionMask o) (isTrigger o) (userData o).

Definition with_angularDamping (o : t) (d : option R) : t :=
  mk (position o) (velocity o) (rotation o) (angularVelocity o) (mass o)
     (type o) (useGravity o) (enabled o) (linearDamping o) d
     (maxVelocity o) (shape o) (material o) (collisionLayer o)
     (collisionMask o) (isTrigger o) (userData o).

Definition with_collisionLayer (o : t) (l : option Z) : t :=
  mk (position o) (velocity o) (rotation o) (angularVelocity o) (mass o)
     (type o) (useGravity o) (enabled o) (linearDamping o)
     (angularDamping o) (maxVelocity o) (shape o) (material o) l
     (collisionMask o) (isTrigger o) (userData o).
End Options.

Module PhysicsBody.

Record t : Type := mk {
  id : string;
  position : Vector2.t;
  velocity : Vector2.t;
  rotation : R;
  angularVelocity : R;
  mass : R;
  type : BodyType;
  useGravity : bool;
  enabled : bool;
  linearDamping : R;
  angularDamping : R;
  maxVelocity : R;
  shape : Shape;
  material : Material;
  collisionLayer : Z;
  collisionMask : Z;
  isTrigger : bool;
  bounds : Bounds.t;
  userData : option UserData
}.

Definition set_position (b : t) (p : Vector2.t) : t :=
  mk (id b) p (velocity b) (rotation b) (angularVelocity b) (mass b)
     (type b) (useGravity b) (enabled b) (linearDamping b)
     (angularDamping b) (maxVelocity b) (shape b) (material b)
     (collisionLayer b) (collisionMask b) (isTrigger b) (bounds b)
     (userData b).

Definition set_velocity (b : t) (v : Vector2.t) : t :=
  mk (id b) (position b) v (rotation b) (angularVelocity b) (mass b)
     (type b) (useGravity b) (enabled b) (linearDamping b)
     (angularDamping b) (maxVelocity b) (shape b) (material b)
     (collisionLayer b) (collisionMask b) (isTrigger b) (bounds b)
     (userData b).

Definition set_rotation (b : t) (r : R) : t :=
  mk (id b) (position b) (velocity b) r (angularVelocity b) (mass b)
     (type b) (useGravity b) (enabled b) (linearDamping b)
     (angularDamping b) (maxVelocity b) (shape b) (material b)
     (collisionLayer b) (collisionMask b) (isTrigger b) (bounds b)
     (userData b).

Definition set_angularVelocity (b : t) (w : R) : t :=
  mk (id b) (position b) (velocity b) (rotation b) w (mass b)
     (type b) (useGravity b) (enabled b) (linearDamping b)
     (angularDamping b) (maxVelocity b) (shape b) (material b)
     (collisionLayer b) (collisionMask b) (isTrigger b) (bounds b)
     (userData b).

Definition set_bounds (b : t) (bd : Bounds.t) : t :=
  mk (id b) (position b) (velocity b) (rotation b) (angularVelocity b)
     (mass b) (type b) (useGravity b) (enabled b) (linearDamping b)
     (angularDamping b) (maxVelocity b) (shape b) (material b)
     (collisionLayer b) (collisionMask b) (isTrigger b) bd (userData b).

(** The box [updateBounds] writes for a position and a shape; a shape
    that is neither a rectangle nor a circle leaves the old box. *)
Definition boundsOf (p : Vector2.t) (s : Shape) (old : Bounds.t) : Bounds.t :=
  match s with
  | Rect width height =>
      let halfWidth := width / 2 in
      let halfHeight := height / 2 in
      Bounds.mk (Vector2.x p - halfWidth) (Vector2.y p - halfHeight)
                (Vector2.x p + halfWidth) (Vector2.y p + halfHeight)
  | Circle radius =>
      Bounds.mk (Vector2.x p - radius) (Vector2.y p - radius)
                (Vector2.x p + radius) (Vector2.y p + radius)
  | OtherShape => old
  end.

Definition updateBounds (b : t) : t :=
  set_bounds b (boundsOf (position b) (shape b) (bounds b)).

Definition getInverseMass (b : t) : R :=
  match type b with
  | Static => 0
  | _ => 1 / mass b
  end.

Definition defaultShape : Shape := Rect 32 32.

Definition defaultMaterial : Material := mkMaterial (3 / 10) (2 / 10) 1.

(** [new PhysicsBody(options)]; [newId] is the string drawn by
    [Math.random().toString(36).substr(2, 9)]. *)
Definition new (options : Options.t) (newId : string) : t :=
  updateBounds
    (mk newId
        (orObj (Options.position options) Vector2.zero)
        (orObj (Options.velocity options) Vector2.zero)
        (orR (Options.rotation options) 0)
        (orR (Options.angularVelocity options) 0)
        (orR (Options.mass options) 1)
        (orObj (Options.type options) Dynamic)
        (notFalse (Options.useGravity options))
        (notFalse (Options.enabled options))
        (orR (Options.linearDamping options) (1 / 100))
        (orR (Options.angularDamping options) (5 / 100))
        (orR (Options.maxVelocity options) 0)
        (orObj (Options.shape options) defaultShape)
        (orObj (Options.material options) defaultMaterial)
        (orZ (Options.collisionLayer options) 1)
        (orZ (Options.collisionMask options) 4294967295)
        (orFalse (Options.isTrigger options))
        (Bounds.mk 0 0 0 0)
        (Options.userData options)).

(** [applyForce] and [applyImpulse] have the same body: the vector, scaled
    by the inverse mass, is added to the velocity of a body of type
    ['dynamic']. *)
Definition applyForce (b : t) (force : Vector2.t) : t :=
  match type b with
  | Dynamic =>
      set_velocity b
        (Vector2.add (velocity b) (Vector2.multiply force (getInverseMass b)))
  | _ => b
  end.

Definition applyImpulse (b : t) (impulse : Vector2.t) : t :=
  match type b with
  | Dynamic =>
      set_velocity b
        (Vector2.add (velocity b) (Vector2.multiply impulse (getInverseMass b)))
  | _ => b
  end.

End PhysicsBody.

(** ** The object store and the JavaScript containers *)

(** A reference to a body object. *)
Definition ref : Type := nat.
Bind Scope nat_scope with ref.

(** The body objects allocated so far; [new] appends, nothing is freed. *)
Definition Heap : Type := list PhysicsBody.t.

Definition deref (hp : Heap) (r : ref) : option PhysicsBody.t := nth_error hp r.

(** Writing a field of the object behind [r]. *)
Fixpoint store (hp : Heap) (r : ref) (b : PhysicsBody.t) : Heap :=
  match hp, r with
  | [], _ => []
  | _ :: rest, O => b :: rest
  | b0 :: rest, S r' => b0 :: store rest r' b
  end.

(** [obj.method()] for a method that mutates its receiver. *)
Definition modify (hp : Heap) (r : ref) (f : PhysicsBody.t -> PhysicsBody.t) : Heap :=
  match deref hp r with
  | Some b => store hp r (f b)
  | None => hp
  end.

(** [Set]: no duplicates, insertion order. *)
Module JsSet.
Section WithEq.
Context {A : Type} (eqb : A -> A -> bool).

Definition has (s : list A) (a : A) : bool := existsb (eqb a) s.

Definition add (s : list A) (a : A) : list A :=
  if has s a then s else s ++ [a].

Definition delete (s : list A) (a : A) : list A :=
  filter (fun a' => negb (eqb a a')) s.
End WithEq.
End JsSet.

(** [Map]: one entry per key, insertion order; [set] on a present key
    replaces the value where it stands. *)
Module JsMap.
Section WithEq.
Context {K V : Type} (eqb : K -> K -> bool).

Fixpoint get (m : list (K * V)) (k : K) : option V :=
  match m with
  | [] => None
  | (k', v) :: rest => if eqb k k' then Some v else get rest k
  end.

Definition has (m : list (K * V)) (k : K) : bool :=
  match get m k with
  | Some _ => true
  | None => false
  end.

Fixpoint set (m : list (K * V)) (k : K) (v : V) : list (K * V) :=
  match m with
  | [] => [(k, v)]
  | (k', v') :: rest =>
      if eqb k k' then (k', v) :: rest else (k', v') :: set rest k v
  end.

Definition delete (m : list (K * V)) (k : K) : list (K * V) :=
  filter (fun kv => negb (eqb k (fst kv))) m.
End WithEq.
End JsMap.

(** ** Collision manifolds and notifications *)

Record Manifold : Type := mkManifold {
  bodyA : ref;
  bodyB : ref;
  normal : Vector2.t;
  penetration : R;
  contactPoint : Vector2.t
}.

(** What [gameEventBus.emit] receives from the engine. *)
Inductive GameEvent : Type :=
| PHYSICS_UPDATE (deltaTime : R) (bodyCount : Z)
| COLLISION_PLAYER_ENEMY (a b : ref) (collision : Manifold)
| COLLISION_BULLET_ENEMY (a b : ref) (collision : Manifold)
| COLLISION_PLAYER_POWERUP (a b : ref) (collision : Manifold).

(** ** SpatialHash *)

(** [Math.floor] *)
Definition Math_floor (r : R) : Z := Int_part r.

(** The values of [x] in [for (let x = lo; x <= hi; x++)]. *)
Definition range (lo hi : Z) : list Z :=
  map (fun i => (lo + Z.of_nat i)%Z) (seq 0 (Z.to_nat (hi - lo + 1))).

Module SpatialHash.

(** The key [`${x},${y}`] of a cell is the pair of its integer
    coordinates. *)
Definition cell : Type := (Z * Z)%type.

Definition cell_eqb (c d : cell) : bool :=
  ((fst c =? fst d)%Z && (snd c =? snd d)%Z)%bool.

Record t : Type := mk {
  cellSize : R;
  grid : list (cell * list ref)
}.

Definition new (size : R) : t := mk size [].

Definition clear (h : t) : t := mk (cellSize h) [].

Definition getCells (h : t) (bounds : Bounds.t) : list cell :=
  let startX := Math_floor (Bounds.left bounds / cellSize h) in
  let endX := Math_floor (Bounds.right bounds / cellSize h) in
  let startY := Math_floor (Bounds.top bounds / cellSize h) in
  let endY := Math_floor (Bounds.bottom bounds / cellSize h) in
  flat_map (fun x => map (fun y => (x, y)) (range startY endY))
           (range startX endX).

(** The body of [cells.forEach] in [insert]. *)
Definition addToCell (g : list (cell * list ref)) (cellKey : cell) (body : ref)
  : list (cell * list ref) :=
  let g1 := if JsMap.has cell_eqb g cellKey then g
            else JsMap.set cell_eqb g cellKey [] in
  match JsMap.get cell_eqb g1 cellKey with
  | Some s => JsMap.set cell_eqb g1 cellKey (JsSet.add Nat.eqb s body)
  | None => g1
  end.

Definition insert (hp : Heap) (h : t) (body : ref) : t :=
  match deref hp body with
  | Some b =>
      mk (cellSize h)
         (fold_left (fun g cellKey => addToCell g cellKey body)
                    (getCells h (PhysicsBody.bounds b)) (grid h))
  | None => h
  end.

(** [bodyA.id < bodyB.id ? `${bodyA.id}-${bodyB.id}` : `${bodyB.id}-${bodyA.id}`] *)
Definition pairKey (idA idB : string) : string :=
  if String.ltb idA idB
  then (idA ++ "-" ++ idB)%string
  else (idB ++ "-" ++ idA)%string.

(** The pairs [(bodyArray[i], bodyArray[j])], [i < j], in the order the
    two nested loops of [getPotentialCollisions] reach them. *)
Fixpoint cellPairs (bodyArray : list ref) : list (ref * ref) :=
  match bodyArray with
  | [] => []
  | a :: rest => map (fun b => (a, b)) rest ++ cellPairs rest
  end.

(** The body of the inner loop: the state is [(pairs, processed)]. *)
Definition visitPair (hp : Heap) (st : list (ref * ref) * list string)
           (p : ref * ref) : list (ref * ref) * list string :=
  match deref hp (fst p), deref hp (snd p) with
  | Some a, Some b =>
      let key := pairKey (PhysicsBody.id a) (PhysicsBody.id b) in
      if JsSet.has String.eqb (snd st) key then st
      else (fst st ++ [p], snd st ++ [key])
  | _, _ => st
  end.

Definition visitCell (hp : Heap) (st : list (ref * ref) * list string)
           (entry : cell * list ref) : list (ref * ref) * list string :=
  fold_left (visitPair hp) (cellPairs (snd entry)) st.

Definition getPotentialCollisions (hp : Heap) (h : t) : list (ref * ref) :=
  fst (fold_left (visitCell hp) (grid h) ([], [])).

End SpatialHash.

(** ** PhysicsEngine: state, registry *)

Record Stats : Type := mkStats {
  bodyCount : Z;
  collisionChecks : Z;
  collisionsDetected : Z
}.

Module PhysicsEngine.

Record t : Type := mk {
  gravity : Vector2.t;
  timeStep : R;
  velocityIterations : Z;
  positionIterations : Z;
  bodies : list (string * ref);
  staticBodies : list ref;
  dynamicBodies : list ref;
  collisionPairs : list Manifold;
  broadPhase : SpatialHash.t;
  stats : Stats
}.

(** [new PhysicsEngine()] *)
Definition new : t :=
  mk (Vector2.mk 0 980) (1 / 60) 8 3 [] [] [] [] (SpatialHash.new 64)
     (mkStats 0 0 0).

Definition set_registry (e : t) (bs : list (string * ref)) (st dy : list ref)
           (count : Z) : t :=
  mk (gravity e) (timeStep e) (velocityIterations e) (positionIterations e)
     bs st dy (collisionPairs e) (broadPhase e)
     (mkStats count (collisionChecks (stats e)) (collisionsDetected (stats e))).

Definition set_collisions (e : t) (cs : list Manifold) (checks detected : Z) : t :=
  mk (gravity e) (timeStep e) (velocityIterations e) (positionIterations e)
     (bodies e) (staticBodies e) (dynamicBodies e) cs (broadPhase e)
     (mkStats (bodyCount (stats e)) checks detected).

Definition set_broadPhase (e : t) (h : SpatialHash.t) : t :=
  mk (gravity e) (timeStep e) (velocityIterations e) (positionIterations e)
     (bodies e) (staticBodies e) (dynamicBodies e) (collisionPairs e) h
     (stats e).

Definition setGravity (e : t) (gx gy : R) : t :=
  mk (Vector2.mk gx gy) (timeStep e) (velocityIterations e)
     (positionIterations e) (bodies e) (staticBodies e) (dynamicBodies e)
     (collisionPairs e) (broadPhase e) (stats e).

End PhysicsEngine.

(** The engine together with the objects it points to and the
    notifications it has sent. *)
Record World : Type := mkWorld {
  heap : Heap;
  physics : PhysicsEngine.t;
  bus : list GameEvent
}.

Definition newWorld : World := mkWorld [] PhysicsEngine.new [].

(** [createBody(options)]: returns the world and the new body. *)
Definition createBody (w : World) (options : Options.t) (newId : string)
  : World * ref :=
  let body := PhysicsBody.new options newId in
  let r := List.length (heap w) in
  let e := physics w in
  let bs := JsMap.set String.eqb (PhysicsEngine.bodies e) (PhysicsBody.id body) r in
  let st := match PhysicsBody.type body with
            | Static => JsSet.add Nat.eqb (PhysicsEngine.staticBodies e) r
            | _ => PhysicsEngine.staticBodies e
            end in
  let dy := match PhysicsBody.type body with
            | Static => PhysicsEngine.dynamicBodies e
            | _ => JsSet.add Nat.eqb (PhysicsEngine.dynamicBodies e) r
            end in
  (mkWorld (heap w ++ [body])
           (PhysicsEngine.set_registry e bs st dy
              (bodyCount (PhysicsEngine.stats e) + 1)%Z)
           (bus w),
   r).

(** [removeBody(body)] *)
Definition removeBody (w : World) (body : ref) : World :=
  match deref (heap w) body with
  | Some b =>
      let e := physics w in
      if JsMap.has String.eqb (PhysicsEngine.bodies e) (PhysicsBody.id b)
      then
        mkWorld (heap w)
          (PhysicsEngine.set_registry e
             (JsMap.delete String.eqb (PhysicsEngine.bodies e) (PhysicsBody.id b))
             (JsSet.delete Nat.eqb (PhysicsEngine.staticBodies e) body)
             (JsSet.delete Nat.eqb (PhysicsEngine.dynamicBodies e) body)
             (bodyCount (PhysicsEngine.stats e) - 1)%Z)
          (bus w)
      else w
  | None => w
  end.

(** ** Comparisons of numbers as tests *)

Definition Rlt_b (a b : R) : bool := if Rlt_dec a b then true else false.
Definition Rgt_b (a b : R) : bool := if Rgt_dec a b then true else false.
Definition Rle_b (a b : R) : bool := if Rle_dec a b then true else false.

(** ** Narrow phase *)

Definition shouldCollide (a b : PhysicsBody.t) : bool :=
  (negb (bitand (PhysicsBody.collisionMask a) (PhysicsBody.collisionLayer b) =? 0)%Z
   || negb (bitand (PhysicsBody.collisionMask b) (PhysicsBody.collisionLayer a) =? 0)%Z)%bool.

Definition aabbOverlap (boundsA boundsB : Bounds.t) : bool :=
  negb (Rlt_b (Bounds.right boundsA) (Bounds.left boundsB)
        || Rgt_b (Bounds.left boundsA) (Bounds.right boundsB)
        || Rlt_b (Bounds.bottom boundsA) (Bounds.top boundsB)
        || Rgt_b (Bounds.top boundsA) (Bounds.bottom boundsB))%bool.

(** A shape without a radius makes [radiusSum] NaN and the test
    [distance < radiusSum] false. *)
Definition circleCircleCollision (ra rb : ref) (a b : PhysicsBody.t)
  : option Manifold :=
  match PhysicsBody.shape a, PhysicsBody.shape b with
  | Circle radiusA, Circle radiusB =>
      let distance :=
        Vector2.distanceTo (PhysicsBody.position a) (PhysicsBody.position b) in
      let radiusSum := radiusA + radiusB in
      if Rlt_b distance radiusSum then
        let normal :=
          Vector2.normalize
            (Vector2.subtract (PhysicsBody.position b) (PhysicsBody.position a)) in
        let penetration := radiusSum - distance in
        Some (mkManifold ra rb normal penetration
                (Vector2.add (PhysicsBody.position a)
                             (Vector2.multiply normal radiusA)))
      else None
  | _, _ => None
  end.

Definition rectRectCollision (ra rb : ref) (a b : PhysicsBody.t)
  : option Manifold :=
  let boundsA := PhysicsBody.bounds a in
  let boundsB := PhysicsBody.bounds b in
  let overlapX := Rmin (Bounds.right boundsA) (Bounds.right boundsB)
                  - Rmax (Bounds.left boundsA) (Bounds.left boundsB) in
  let overlapY := Rmin (Bounds.bottom boundsA) (Bounds.bottom boundsB)
                  - Rmax (Bounds.top boundsA) (Bounds.top boundsB) in
  if (Rgt_b overlapX 0 && Rgt_b overlapY 0)%bool then
    let contact :=
      Vector2.mk
        ((Rmax (Bounds.left boundsA) (Bounds.left boundsB)
          + Rmin (Bounds.right boundsA) (Bounds.right boundsB)) / 2)
        ((Rmax (Bounds.top boundsA) (Bounds.top boundsB)
          + Rmin (Bounds.bottom boundsA) (Bounds.bottom boundsB)) / 2) in
    if Rlt_b overlapX overlapY then
      Some (mkManifold ra rb
              (Vector2.mk
                 (if Rlt_b (Vector2.x (PhysicsBody.position a))
                           (Vector2.x (PhysicsBody.position b))
                  then -1 else 1) 0)
              overlapX contact)
    else
      Some (mkManifold ra rb
              (Vector2.mk 0
                 (if Rlt_b (Vector2.y (PhysicsBody.position a))
                           (Vector2.y (PhysicsBody.position b))
                  then -1 else 1))
              overlapY contact)
  else None.

Definition circleRectCollision (rc rr : ref) (circleBody rectBody : PhysicsBody.t)
  : option Manifold :=
  match PhysicsBody.shape circleBody with
  | Circle radius =>
      let circle := PhysicsBody.position circleBody in
      let rect := PhysicsBody.bounds rectBody in
      let closestX :=
        Rmax (Bounds.left rect) (Rmin (Vector2.x circle) (Bounds.right rect)) in
      let closestY :=
        Rmax (Bounds.top rect) (Rmin (Vector2.y circle) (Bounds.bottom rect)) in
      let distance := Vector2.distanceTo circle (Vector2.mk closestX closestY) in
      if Rlt_b distance radius then
        Some (mkManifold rc rr
                (Vector2.normalize
                   (Vector2.subtract circle (Vector2.mk closestX closestY)))
                (radius - distance)
                (Vector2.mk closestX closestY))
      else None
  | _ => None
  end.

Definition checkCollision (ra rb : ref) (a b : PhysicsBody.t) : option Manifold :=
  if negb (aabbOverlap (PhysicsBody.bounds a) (PhysicsBody.bounds b)) then None
  else
    match PhysicsBody.shape a, PhysicsBody.shape b with
    | Circle _, Circle _ => circleCircleCollision ra rb a b
    | Rect _ _, Rect _ _ => rectRectCollision ra rb a b
    | Circle _, Rect _ _ => circleRectCollision ra rb a b
    | Rect _ _, Circle _ => circleRectCollision rb ra b a
    | _, _ => None
    end.

(** ** Resolver *)

Definition resolvePosition (hp : Heap) (ra rb : ref) (n : Vector2.t)
           (pen : R) : Heap :=
  match deref hp ra, deref hp rb with
  | Some a, Some b =>
      let totalInvMass :=
        PhysicsBody.getInverseMass a + PhysicsBody.getInverseMass b in
      if Req_dec_T totalInvMass 0 then hp
      else
        let correction := Vector2.multiply n (pen / totalInvMass * (8 / 10)) in
        let hp1 :=
          match PhysicsBody.type a with
          | Dynamic =>
              modify hp ra (fun a =>
                PhysicsBody.updateBounds
                  (PhysicsBody.set_position a
                     (Vector2.subtract (PhysicsBody.position a)
                        (Vector2.multiply correction
                           (PhysicsBody.getInverseMass a)))))
          | _ => hp
          end in
        match PhysicsBody.type b with
        | Dynamic =>
            modify hp1 rb (fun b =>
              PhysicsBody.updateBounds
                (PhysicsBody.set_position b
                   (Vector2.add (PhysicsBody.position b)
                      (Vector2.multiply correction
                         (PhysicsBody.getInverseMass b)))))
        | _ => hp1
        end
  | _, _ => hp
  end.

(** The two guarded updates that end [resolveVelocity] and [applyFriction]:
    [v] is subtracted from A's velocity and added to B's, each scaled by the
    body's inverse mass, for bodies of type ['dynamic']. *)
Definition applyToVelocities (hp : Heap) (ra rb : ref) (v : Vector2.t) : Heap :=
  let hp1 :=
    match deref hp ra with
    | Some a =>
        match PhysicsBody.type a with
        | Dynamic =>
            store hp ra
              (PhysicsBody.set_velocity a
                 (Vector2.subtract (PhysicsBody.velocity a)
                    (Vector2.multiply v (PhysicsBody.getInverseMass a))))
        | _ => hp
        end
    | None => hp
    end in
  match deref hp1 rb with
  | Some b =>
      match PhysicsBody.type b with
      | Dynamic =>
          store hp1 rb
            (PhysicsBody.set_velocity b
               (Vector2.add (PhysicsBody.velocity b)
                  (Vector2.multiply v (PhysicsBody.getInverseMass b))))
      | _ => hp1
      end
  | None => hp1
  end.

Definition applyFriction (hp : Heap) (ra rb : ref) (n : Vector2.t)
           (impulseScalar : R) : Heap :=
  match deref hp ra, deref hp rb with
  | Some a, Some b =>
      let relativeVelocity :=
        Vector2.subtract (PhysicsBody.velocity b) (PhysicsBody.velocity a) in
      let tangent :=
        Vector2.normalize
          (Vector2.subtract relativeVelocity
             (Vector2.multiply n (Vector2.dot relativeVelocity n))) in
      let frictionImpulse := - Vector2.dot relativeVelocity tangent in
      let totalInvMass :=
        PhysicsBody.getInverseMass a + PhysicsBody.getInverseMass b in
      if Req_dec_T totalInvMass 0 then hp
      else
        let mu := sqrt (friction (PhysicsBody.material a)
                        * friction (PhysicsBody.material b)) in
        let fr :=
          if Rlt_b (Rabs frictionImpulse) (impulseScalar * mu)
          then Vector2.multiply tangent (frictionImpulse / totalInvMass)
          else Vector2.multiply tangent (- impulseScalar * mu / totalInvMass) in
        applyToVelocities hp ra rb fr
  | _, _ => hp
  end.

Definition resolveVelocity (hp : Heap) (ra rb : ref) (n : Vector2.t) : Heap :=
  match deref hp ra, deref hp rb with
  | Some a, Some b =>
      let relativeVelocity :=
        Vector2.subtract (PhysicsBody.velocity b) (PhysicsBody.velocity a) in
      let velocityAlongNormal := Vector2.dot relativeVelocity n in
      if Rgt_b velocityAlongNormal 0 then hp
      else
        let e := Rmin (restitution (PhysicsBody.material a))
                      (restitution (PhysicsBody.material b)) in
        let impulseScalar := - (1 + e) * velocityAlongNormal in
        let totalInvMass :=
          PhysicsBody.getInverseMass a + PhysicsBody.getInverseMass b in
        if Req_dec_T totalInvMass 0 then hp
        else
          let impulse := Vector2.multiply n (impulseScalar / totalInvMass) in
          applyFriction (applyToVelocities hp ra rb impulse) ra rb n
                        impulseScalar
  | _, _ => hp
  end.

Definition resolveCollision (hp : Heap) (c : Manifold) : Heap :=
  resolveVelocity
    (resolvePosition hp (bodyA c) (bodyB c) (normal c) (penetration c))
    (bodyA c) (bodyB c) (normal c).

Definition resolveCollisions (hp : Heap) (cs : list Manifold) : Heap :=
  fold_left resolveCollision cs hp.

(** ** The tick *)

Definition emitCollisionEvent (ra rb : ref) (a b : PhysicsBody.t)
           (collision : Manifold) : list GameEvent :=
  match PhysicsBody.userData a, PhysicsBody.userData b with
  | Some ua, Some ub =>
      let typeA := tag ua in
      let typeB := tag ub in
      let same (s t : string) := String.eqb s t in
      if ((same typeA "player"%string && same typeB "enemy"%string)
          || (same typeA "enemy"%string && same typeB "player"%string))%bool
      then [COLLISION_PLAYER_ENEMY ra rb collision]
      else if ((same typeA "bullet"%string && same typeB "enemy"%string)
               || (same typeA "enemy"%string && same typeB "bullet"%string))%bool
      then [COLLISION_BULLET_ENEMY ra rb collision]
      else if ((same typeA "player"%string && same typeB "powerup"%string)
               || (same typeA "powerup"%string && same typeB "player"%string))%bool
      then [COLLISION_PLAYER_POWERUP ra rb collision]
      else []
  | _, _ => []
  end.

(** What [detectCollisions] accumulates while it walks the candidate pairs. *)
Record Detection : Type := mkDetection {
  found : list Manifold;
  checks : Z;
  detected : Z;
  sent : list GameEvent
}.

(** The body of [potentialPairs.forEach] in [detectCollisions]. *)
Definition examinePair (hp : Heap) (d : Detection) (pair : ref * ref) : Detection :=
  let d1 := mkDetection (found d) (checks d + 1)%Z (detected d) (sent d) in
  match deref hp (fst pair), deref hp (snd pair) with
  | Some a, Some b =>
      if Nat.eqb (fst pair) (snd pair) then d1
      else if (BodyType_eqb (PhysicsBody.type a) Static
               && BodyType_eqb (PhysicsBody.type b) Static)%bool then d1
      else if negb (shouldCollide a b) then d1
      else
        match checkCollision (fst pair) (snd pair) a b with
        | Some collision =>
            mkDetection (found d1 ++ [collision]) (checks d1)
                        (detected d1 + 1)%Z
                        (sent d1 ++ emitCollisionEvent (fst pair) (snd pair) a b
                                      collision)
        | None => d1
        end
  | _, _ => d1
  end.

Definition detectCollisions (w : World) : World :=
  let e := physics w in
  let potentialPairs :=
    SpatialHash.getPotentialCollisions (heap w) (PhysicsEngine.broadPhase e) in
  let d := fold_left (examinePair (heap w)) potentialPairs
             (mkDetection [] (collisionChecks (PhysicsEngine.stats e))
                          (collisionsDetected (PhysicsEngine.stats e)) []) in
  mkWorld (heap w)
          (PhysicsEngine.set_collisions e (found d) (checks d) (detected d))
          (bus w ++ sent d).

Definition updateSpatialHash (w : World) : World :=
  let e := physics w in
  let h :=
    fold_left
      (fun h entry =>
         match deref (heap w) (snd entry) with
         | Some body =>
             if PhysicsBody.enabled body
             then SpatialHash.insert (heap w) h (snd entry)
             else h
         | None => h
         end)
      (PhysicsEngine.bodies e)
      (SpatialHash.clear (PhysicsEngine.broadPhase e)) in
  mkWorld (heap w) (PhysicsEngine.set_broadPhase e h) (bus w).

Section Tick.

(** [Math.pow], which the engine applies to damping factors. *)
Variable Math_pow : R -> R -> R.

(** The body of [dynamicBodies.forEach] in [updateDynamicBodies]. *)
Definition integrate (g : Vector2.t) (deltaTime : R) (body : PhysicsBody.t)
  : PhysicsBody.t :=
  if negb (PhysicsBody.enabled body) then body
  else
    let v1 :=
      if PhysicsBody.useGravity body
      then Vector2.add (PhysicsBody.velocity body) (Vector2.multiply g deltaTime)
      else PhysicsBody.velocity body in
    let v2 :=
      Vector2.multiply v1
        (Math_pow (1 - PhysicsBody.linearDamping body) deltaTime) in
    let w2 :=
      PhysicsBody.angularVelocity body
      * Math_pow (1 - PhysicsBody.angularDamping body) deltaTime in
    let v3 :=
      if Rgt_b (PhysicsBody.maxVelocity body) 0
      then Vector2.limit v2 (PhysicsBody.maxVelocity body)
      else v2 in
    let deltaPos := Vector2.multiply v3 deltaTime in
    let p := Vector2.add (PhysicsBody.position body) deltaPos in
    let rot := PhysicsBody.rotation body + w2 * deltaTime in
    PhysicsBody.updateBounds
      (PhysicsBody.set_rotation
         (PhysicsBody.set_position
            (PhysicsBody.set_angularVelocity
               (PhysicsBody.set_velocity body v3) w2) p) rot).

Definition updateDynamicBodies (w : World) (deltaTime : R) : World :=
  mkWorld
    (fold_left
       (fun hp r =>
          modify hp r (integrate (PhysicsEngine.gravity (physics w)) deltaTime))
       (PhysicsEngine.dynamicBodies (physics w)) (heap w))
    (physics w) (bus w).

Definition resolveAll (w : World) : World :=
  mkWorld (resolveCollisions (heap w) (PhysicsEngine.collisionPairs (physics w)))
          (physics w) (bus w).

Definition update (w : World) (deltaTime : R) : World :=
  let w0 :=
    mkWorld (heap w)
      (PhysicsEngine.set_collisions (physics w)
         (PhysicsEngine.collisionPairs (physics w)) 0 0)
      (bus w) in
  let w1 := updateDynamicBodies w0 deltaTime in
  let w2 := detectCollisions w1 in
  let w3 := resolveAll w2 in
  let w4 := updateSpatialHash w3 in
  mkWorld (heap w4) (physics w4)
    (bus w4 ++ [PHYSICS_UPDATE deltaTime
                  (bodyCount (PhysicsEngine.stats (physics w4)))]).

End Tick.

(** ** Numbers of the ray caster *)

(** A number that may be infinite or NaN.  Zero carries no sign: a division
    by zero takes the sign of its numerator. *)
Module JsNum.

Inductive t : Type := Fin (r : R) | PInf | NInf | NaN.

(** [a / b] for finite operands *)
Definition div (a b : R) : t :=
  if Req_dec_T b 0 then
    if Rlt_dec 0 a then PInf else if Rlt_dec a 0 then NInf else NaN
  else Fin (a / b).

(** [Math.min] *)
Definition min (a b : t) : t :=
  match a, b with
  | NaN, _ | _, NaN => NaN
  | NInf, _ | _, NInf => NInf
  | PInf, c | c, PInf => c
  | Fin u, Fin v => Fin (Rmin u v)
  end.

(** [Math.max] *)
Definition max (a b : t) : t :=
  match a, b with
  | NaN, _ | _, NaN => NaN
  | PInf, _ | _, PInf => PInf
  | NInf, c | c, NInf => c
  | Fin u, Fin v => Fin (Rmax u v)
  end.

(** [a <= b] *)
Definition leb (a b : t) : bool :=
  match a, b with
  | NaN, _ | _, NaN => false
  | NInf, _ | _, PInf => true
  | PInf, _ | _, NInf => false
  | Fin u, Fin v => Rle_b u v
  end.

(** [a < b] *)
Definition ltb (a b : t) : bool :=
  match a, b with
  | NaN, _ | _, NaN => false
  | PInf, _ | _, NInf => false
  | NInf, _ | _, PInf => true
  | Fin u, Fin v => Rlt_b u v
  end.

(** [a >= b] and [a > b] *)
Definition geb (a b : t) : bool := leb b a.
Definition gtb (a b : t) : bool := ltb b a.

Definition opp (a : t) : t :=
  match a with
  | Fin u => Fin (- u)
  | PInf => NInf
  | NInf => PInf
  | NaN => NaN
  end.

Definition add (a b : t) : t :=
  match a, b with
  | NaN, _ | _, NaN => NaN
  | PInf, NInf | NInf, PInf => NaN
  | PInf, _ | _, PInf => PInf
  | NInf, _ | _, NInf => NInf
  | Fin u, Fin v => Fin (u + v)
  end.

Definition sub (a b : t) : t := add a (opp b).

(** The product of a finite number and an infinity of sign [pos]. *)
Definition scaleInf (u : R) (pos : bool) : t :=
  if Rlt_dec 0 u then (if pos then PInf else NInf)
  else if Rlt_dec u 0 then (if pos then NInf else PInf)
  else NaN.

Definition mul (a b : t) : t :=
  match a, b with
  | NaN, _ | _, NaN => NaN
  | Fin u, Fin v => Fin (u * v)
  | Fin u, PInf | PInf, Fin u => scaleInf u true
  | Fin u, NInf | NInf, Fin u => scaleInf u false
  | PInf, PInf | NInf, NInf => PInf
  | PInf, NInf | NInf, PInf => NInf
  end.

(** [Math.abs] *)
Definition abs (a : t) : t :=
  match a with
  | Fin u => Fin (Rabs u)
  | PInf | NInf => PInf
  | NaN => NaN
  end.

End JsNum.

(** ** Raycaster *)

(** A point whose coordinates come out of the ray parameter. *)
Record RayPoint : Type := mkRayPoint { px : JsNum.t; py : JsNum.t }.

Record Hit : Type := mkHit {
  body : ref;
  point : RayPoint;
  distance : JsNum.t;
  hitNormal : Vector2.t
}.

Definition calculateHitNormal (p : RayPoint) (bounds : Bounds.t) : Vector2.t :=
  let centerX := (Bounds.left bounds + Bounds.right bounds) / 2 in
  let centerY := (Bounds.top bounds + Bounds.bottom bounds) / 2 in
  let diffX := JsNum.sub (px p) (JsNum.Fin centerX) in
  let diffY := JsNum.sub (py p) (JsNum.Fin centerY) in
  let absX := JsNum.abs diffX in
  let absY := JsNum.abs diffY in
  if JsNum.gtb absX absY
  then Vector2.mk (if JsNum.gtb diffX (JsNum.Fin 0) then 1 else -1) 0
  else Vector2.mk 0 (if JsNum.gtb diffY (JsNum.Fin 0) then 1 else -1).

(** The entry and exit parameters of the slab test on a box. *)
Definition slabNear (origin dirNorm : Vector2.t) (bounds : Bounds.t) : JsNum.t :=
  let tMin := JsNum.div (Bounds.left bounds - Vector2.x origin) (Vector2.x dirNorm) in
  let tMax := JsNum.div (Bounds.right bounds - Vector2.x origin) (Vector2.x dirNorm) in
  let tYMin := JsNum.div (Bounds.top bounds - Vector2.y origin) (Vector2.y dirNorm) in
  let tYMax := JsNum.div (Bounds.bottom bounds - Vector2.y origin) (Vector2.y dirNorm) in
  JsNum.max (JsNum.min tMin tMax) (JsNum.min tYMin tYMax).

Definition slabFar (origin dirNorm : Vector2.t) (bounds : Bounds.t) : JsNum.t :=
  let tMin := JsNum.div (Bounds.left bounds - Vector2.x origin) (Vector2.x dirNorm) in
  let tMax := JsNum.div (Bounds.right bounds - Vector2.x origin) (Vector2.x dirNorm) in
  let tYMin := JsNum.div (Bounds.top bounds - Vector2.y origin) (Vector2.y dirNorm) in
  let tYMax := JsNum.div (Bounds.bottom bounds - Vector2.y origin) (Vector2.y dirNorm) in
  JsNum.min (JsNum.max tMin tMax) (JsNum.max tYMin tYMax).

Definition raycastBody (origin direction : Vector2.t) (maxDistance : JsNum.t)
           (r : ref) (b : PhysicsBody.t) : option Hit :=
  match PhysicsBody.shape b with
  | Rect _ _ =>
      let bounds := PhysicsBody.bounds b in
      let dirNorm := Vector2.normalized direction in
      let tNear := slabNear origin dirNorm bounds in
      let tFar := slabFar origin dirNorm bounds in
      if (JsNum.leb tNear tFar && JsNum.geb tNear (JsNum.Fin 0)
          && JsNum.leb tNear maxDistance)%bool
      then
        let hitPoint :=
          mkRayPoint
            (JsNum.add (JsNum.Fin (Vector2.x origin))
                       (JsNum.mul (JsNum.Fin (Vector2.x dirNorm)) tNear))
            (JsNum.add (JsNum.Fin (Vector2.y origin))
                       (JsNum.mul (JsNum.Fin (Vector2.y dirNorm)) tNear)) in
        Some (mkHit r hitPoint tNear (calculateHitNormal hitPoint bounds))
      else None
  | _ => None
  end.

(** [Array.prototype.sort] with the comparator [(a, b) => a.distance -
    b.distance]: the sort is stable, and [a] goes before [b] when the
    comparator is negative; a NaN result counts as zero. *)
Definition comesBefore (a b : Hit) : bool :=
  JsNum.ltb (JsNum.sub (distance a) (distance b)) (JsNum.Fin 0).

Fixpoint insertHit (h : Hit) (sorted : list Hit) : list Hit :=
  match sorted with
  | [] => [h]
  | h' :: rest =>
      if comesBefore h h' then h :: h' :: rest else h' :: insertHit h rest
  end.

Definition sortHits (hits : list Hit) : list Hit :=
  fold_left (fun sorted h => insertHit h sorted) hits [].

(** The body of [bodies.forEach] in [raycast]. *)
Definition castAt (hp : Heap) (origin direction : Vector2.t)
           (maxDistance : JsNum.t) (layerMask : Z) (hits : list Hit)
           (entry : string * ref) : list Hit :=
  match deref hp (snd entry) with
  | Some b =>
      if (negb (PhysicsBody.enabled b)
          || (bitand (PhysicsBody.collisionLayer b) layerMask =? 0)%Z)%bool
      then hits
      else
        match raycastBody origin direction maxDistance (snd entry) b with
        | Some hit => hits ++ [hit]
        | None => hits
        end
  | None => hits
  end.

Definition raycast (w : World) (origin direction : Vector2.t)
           (maxDistance : JsNum.t) (layerMask : Z) : list Hit :=
  sortHits
    (fold_left (castAt (heap w) origin direction maxDistance layerMask)
               (PhysicsEngine.bodies (physics w)) []).

(** ** Registry vocabulary *)

(** The body behind [r] is in the registry map under its own id. *)
Definition registered (w : World) (r : ref) : Prop :=
  exists b, deref (heap w) r = Some b
            /\ JsMap.get String.eqb (PhysicsEngine.bodies (physics w))
                          (PhysicsBody.id b) = Some r.

(** The type set a body of type [ty] belongs to. *)
Definition typeSet (e : PhysicsEngine.t) (ty : BodyType) : list ref :=
  match ty with
  | Static => PhysicsEngine.staticBodies e
  | _ => PhysicsEngine.dynamicBodies e
  end.

(** The cached box of a body is the one [updateBounds] computes from its
    position and shape. *)
Definition boundsFresh (b : PhysicsBody.t) : Prop :=
  PhysicsBody.bounds b
  = PhysicsBody.boundsOf (PhysicsBody.position b) (PhysicsBody.shape b)
                         (PhysicsBody.bounds b).

(** A call to the registry. *)
Inductive RegistryCall : Type :=
| CallCreate (options : Options.t) (newId : string)
| CallRemove (body : ref).

Definition step (w : World) (c : RegistryCall) : World :=
  match c with
  | CallCreate options newId => fst (createBody w options newId)
  | CallRemove body => removeBody w body
  end.

Definition run (calls : list RegistryCall) (w : World) : World :=
  fold_left step calls w.

(** The id drawn for a new body differs from the id of every body object
    made so far. *)
Definition idFresh (w : World) (newId : string) : Prop :=
  ~ In newId (map PhysicsBody.id (heap w)).

Fixpoint idsFresh (calls : list RegistryCall) (w : World) : Prop :=
  match calls with
  | [] => True
  | c :: rest =>
      match c with
      | CallCreate _ newId => idFresh w newId
      | CallRemove _ => True
      end
      /\ idsFresh rest (step w c)
  end.

(** The registry is consistent: the map has one entry per id, every entry
    points to a body whose id is the key, the static set holds exactly the
    registered bodies of type ['static'], the dynamic set exactly the other
    registered bodies, and [bodyCount] is the size of the map. *)
Record registryInvariant (w : World) : Prop := mkRegistryInvariant {
  keys_unique : NoDup (map fst (PhysicsEngine.bodies (physics w)));
  ids_unique : NoDup (map PhysicsBody.id (heap w));
  keyed_by_id : forall k r,
    In (k, r) (PhysicsEngine.bodies (physics w)) ->
    exists b, deref (heap w) r = Some b /\ PhysicsBody.id b = k;
  static_set : forall r,
    In r (PhysicsEngine.staticBodies (physics w)) <->
    exists k b, In (k, r) (PhysicsEngine.bodies (physics w))
                /\ deref (heap w) r = Some b
                /\ PhysicsBody.type b = Static;
  dynamic_set : forall r,
    In r (PhysicsEngine.dynamicBodies (physics w)) <->
    exists k b, In (k, r) (PhysicsEngine.bodies (physics w))
                /\ deref (heap w) r = Some b
                /\ PhysicsBody.type b <> Static;
  count_is_size :
    bodyCount (PhysicsEngine.stats (physics w))
    = Z.of_nat (List.length (PhysicsEngine.bodies (physics w)))
}.

(** The three statements of the registry property, on their own. *)
Definition registryPartition (w : World) : Prop :=
  (forall k r,
     In (k, r) (PhysicsEngine.bodies (physics w)) ->
     exists b,
       deref (heap w) r = Some b
       /\ match PhysicsBody.type b with
          | Static => In r (PhysicsEngine.staticBodies (physics w))
                      /\ ~ In r (PhysicsEngine.dynamicBodies (physics w))
          | _ => In r (PhysicsEngine.dynamicBodies (physics w))
                 /\ ~ In r (PhysicsEngine.staticBodies (physics w))
          end)
  /\ (forall r,
        In r (PhysicsEngine.staticBodies (physics w))
        \/ In r (PhysicsEngine.dynamicBodies (physics w)) ->
        In r (map snd (PhysicsEngine.bodies (physics w))))
  /\ bodyCount (PhysicsEngine.stats (physics w))
     = Z.of_nat (List.length (PhysicsEngine.bodies (physics w))).

(** ** Raycaster vocabulary *)

(** Ascending order of hits by distance. *)
Definition hitLe (h1 h2 : Hit) : Prop :=
  JsNum.leb (distance h1) (distance h2) = true.

Definition isNumber (a : JsNum.t) : Prop := a <> JsNum.NaN.

(** The hits [castAt] appends for one entry of the registry. *)
Definition entryHits (hp : Heap) (origin direction : Vector2.t)
           (maxDistance : JsNum.t) (layerMask : Z) (entry : string * ref)
  : list Hit :=
  castAt hp origin direction maxDistance layerMask [] entry.

(** The hits of a result that belong to body [r]. *)
Definition hitsOn (r : ref) (hits : list Hit) : list Hit :=
  filter (fun h => Nat.eqb (body h) r) hits.

(** The test of [raycastBody]: entry before exit, entry not behind the
    origin, entry within range. *)
Definition slabHit (origin direction : Vector2.t) (maxDistance : JsNum.t)
           (bounds : Bounds.t) : bool :=
  let tNear := slabNear origin (Vector2.normalized direction) bounds in
  let tFar := slabFar origin (Vector2.normalized direction) bounds in
  (JsNum.leb tNear tFar && JsNum.geb tNear (JsNum.Fin 0)
   && JsNum.leb tNear maxDistance)%bool.

(** ** Spatial hash vocabulary *)

(** The deduplication key [getPotentialCollisions] computes for a pair. *)
Definition keyOfPair (hp : Heap) (p : ref * ref) : option string :=
  match deref hp (fst p), deref hp (snd p) with
  | Some a, Some b =>
      Some (SpatialHash.pairKey (PhysicsBody.id a) (PhysicsBody.id b))
  | _, _ => None
  end.

(** Every key marked as processed belongs to a pair already emitted. *)
Definition keysCovered (hp : Heap) (st : list (ref * ref) * list string) : Prop :=
  forall k, In k (snd st) -> exists p, In p (fst st) /\ keyOfPair hp p = Some k.

(** Cell [c] of a grid lists body [r]. *)
Definition cellHolds (g : list (SpatialHash.cell * list ref))
           (c : SpatialHash.cell) (r : ref) : Prop :=
  exists s, JsMap.get SpatialHash.cell_eqb g c = Some s /\ In r s.

(** An id without the separator of the pair keys; the ids the constructor
    draws are made of digits and lower-case letters. *)
Fixpoint dashFree (s : string) : Prop :=
  match s with
  | EmptyString => True
  | String c rest => c <> "-"%char /\ dashFree rest
  end.

(** ** Option objects of the scenarios *)

(** [{ position: new Vector2(cx, cy), shape: { type: 'circle', radius }, type }] *)
Definition circleOptions (cx cy radius : R) (ty : BodyType) : Options.t :=
  Options.mk (Some (Vector2.mk cx cy)) None None None None (Some ty) None None
             None None None (Some (Circle radius)) None None None None None.

(** [{ position: new Vector2(cx, cy), shape: { type: 'rect', width, height }, type }] *)
Definition rectOptions (cx cy width height : R) (ty : BodyType) : Options.t :=
  Options.mk (Some (Vector2.mk cx cy)) None None None None (Some ty) None None
             None None None (Some (Rect width height)) None None None None None.

(** [{ ...o, collisionLayer: layer, collisionMask: mask }] *)
Definition withFilter (o : Options.t) (layer mask : Z) : Options.t :=
  Options.mk (Options.position o) (Options.velocity o) (Options.rotation o)
             (Options.angularVelocity o) (Options.mass o) (Options.type o)
             (Options.useGravity o) (Options.enabled o)
             (Options.linearDamping o) (Options.angularDamping o)
             (Options.maxVelocity o) (Options.shape o) (Options.material o)
             (Some layer) (Some mask) (Options.isTrigger o) (Options.userData o).

(** [{ ...o, velocity: new Vector2(velX, velY) }] *)
Definition withVelocity (o : Options.t) (velX velY : R) : Options.t :=
  Options.mk (Options.position o) (Some (Vector2.mk velX velY))
             (Options.rotation o)
             (Options.angularVelocity o) (Options.mass o) (Options.type o)
             (Options.useGravity o) (Options.enabled o)
             (Options.linearDamping o) (Options.angularDamping o)
             (Options.maxVelocity o) (Options.shape o) (Options.material o)
             (Options.collisionLayer o) (Options.collisionMask o)
             (Options.isTrigger o) (Options.userData o).

(** Two static circles of radius 10, centres 15 apart, and a manifold
    between them. *)
Definition staticPair : Heap :=
  [PhysicsBody.new (circleOptions 0 0 10 Static) "s1";
   PhysicsBody.new (circleOptions 15 0 10 Static) "s2"].

Definition staticManifold : Manifold :=
  mkManifold 0 1 (Vector2.mk 1 0) 5 (Vector2.mk 10 0).


(** Two circles of radius 10 with centres (0,0) and (15,0). *)
Definition circleA (ty : BodyType) : PhysicsBody.t :=
  PhysicsBody.new (circleOptions 0 0 10 ty) "c1".

Definition circleB (ty : BodyType) : PhysicsBody.t :=
  PhysicsBody.new (circleOptions 15 0 10 ty) "c2".

(** ** Resolver vocabulary *)

(** The mass of a body is not zero, as the constructor ensures; [1 / mass]
    is then the finite number the code computes. *)
Definition wellFormed (b : PhysicsBody.t) : Prop := PhysicsBody.mass b <> 0.

(** The [correction] vector of [resolvePosition]. *)
Definition correctionOf (a b : PhysicsBody.t) (n : Vector2.t) (pen : R)
  : Vector2.t :=
  Vector2.multiply n
    (pen / (PhysicsBody.getInverseMass a + PhysicsBody.getInverseMass b)
     * (8 / 10)).

(** Body A and body B after [resolvePosition] has gone past its guard. *)
Definition correctedA (a : PhysicsBody.t) (correction : Vector2.t)
  : PhysicsBody.t :=
  match PhysicsBody.type a with
  | Dynamic =>
      PhysicsBody.updateBounds
        (PhysicsBody.set_position a
           (Vector2.subtract (PhysicsBody.position a)
              (Vector2.multiply correction (PhysicsBody.getInverseMass a))))
  | _ => a
  end.

Definition correctedB (b : PhysicsBody.t) (correction : Vector2.t)
  : PhysicsBody.t :=
  match PhysicsBody.type b with
  | Dynamic =>
      PhysicsBody.updateBounds
        (PhysicsBody.set_position b
           (Vector2.add (PhysicsBody.position b)
              (Vector2.multiply correction (PhysicsBody.getInverseMass b))))
  | _ => b
  end.

(** The inverse mass of a body if [resolvePosition] moves it, else 0. *)
Definition movedInverseMass (b : PhysicsBody.t) : R :=
  match PhysicsBody.type b with
  | Dynamic => PhysicsBody.getInverseMass b
  | _ => 0
  end.

(** A kinematic and a dynamic circle, overlapping. *)
Definition kinematicPair : Heap := [circleA Kinematic; circleB Dynamic].

(** The relative velocity of a pair along a normal. *)
Definition velocityAlongNormal (a b : PhysicsBody.t) (n : Vector2.t) : R :=
  Vector2.dot (Vector2.subtract (PhysicsBody.velocity b) (PhysicsBody.velocity a)) n.

(** The restitution of a pair, [impulseScalar] and [impulse] of
    [resolveVelocity]. *)
Definition restitutionOf (a b : PhysicsBody.t) : R :=
  Rmin (restitution (PhysicsBody.material a)) (restitution (PhysicsBody.material b)).

Definition impulseScalarOf (a b : PhysicsBody.t) (n : Vector2.t) : R :=
  - (1 + restitutionOf a b) * velocityAlongNormal a b n.

Definition impulseOf (a b : PhysicsBody.t) (n : Vector2.t) : Vector2.t :=
  Vector2.multiply n
    (impulseScalarOf a b n
     / (PhysicsBody.getInverseMass a + PhysicsBody.getInverseMass b)).

(** Body A and body B after the two guarded velocity updates with [v]. *)
Definition impulsedA (a : PhysicsBody.t) (v : Vector2.t) : PhysicsBody.t :=
  match PhysicsBody.type a with
  | Dynamic =>
      PhysicsBody.set_velocity a
        (Vector2.subtract (PhysicsBody.velocity a)
           (Vector2.multiply v (PhysicsBody.getInverseMass a)))
  | _ => a
  end.

Definition impulsedB (b : PhysicsBody.t) (v : Vector2.t) : PhysicsBody.t :=
  match PhysicsBody.type b with
  | Dynamic =>
      PhysicsBody.set_velocity b
        (Vector2.add (PhysicsBody.velocity b)
           (Vector2.multiply v (PhysicsBody.getInverseMass b)))
  | _ => b
  end.

(** The [friction] vector of [applyFriction]. *)
Definition frictionOf (a b : PhysicsBody.t) (n : Vector2.t) (impulseScalar : R)
  : Vector2.t :=
  let relativeVelocity :=
    Vector2.subtract (PhysicsBody.velocity b) (PhysicsBody.velocity a) in
  let tangent :=
    Vector2.normalize
      (Vector2.subtract relativeVelocity
         (Vector2.multiply n (Vector2.dot relativeVelocity n))) in
  let frictionImpulse := - Vector2.dot relativeVelocity tangent in
  let totalInvMass :=
    PhysicsBody.getInverseMass a + PhysicsBody.getInverseMass b in
  let mu := sqrt (friction (PhysicsBody.material a)
                  * friction (PhysicsBody.material b)) in
  if Rlt_b (Rabs frictionImpulse) (impulseScalar * mu)
  then Vector2.multiply tangent (frictionImpulse / totalInvMass)
  else Vector2.multiply tangent (- impulseScalar * mu / totalInvMass).

(** Two circles moving head-on along the x axis, A to the right at speed 1
    and B to the left at speed 1, with the default mass and material. *)
Definition headOnA (ty : BodyType) : PhysicsBody.t :=
  PhysicsBody.new (withVelocity (circleOptions 0 0 10 ty) 1 0) "h1".

Definition headOnB (ty : BodyType) : PhysicsBody.t :=
  PhysicsBody.new (withVelocity (circleOptions 15 0 10 ty) (-1) 0) "h2".

(** A short history of the registry: a dynamic circle, a static
    rectangle, then the removal of the circle. *)
Definition demoCalls : list RegistryCall :=
  [CallCreate (circleOptions 0 0 10 Dynamic) "c1";
   CallCreate (rectOptions 105 0 10 10 Static) "r1";
   CallRemove 0].

(** A world with one registered body: a 10 by 10 rectangle centred at
    (105, 0), which spans x in [100, 110] and y in [-5, 5]. *)
Definition rayWorld : World :=
  fst (createBody newWorld (rectOptions 105 0 10 10 Dynamic) "r1").

(** Two dynamic circles of radius 10 centred at (20,20) and (35,20): they
    overlap by 5 and both lie inside the grid cell (0,0) of a hash with
    cells of size 64.  [twoCircles] is a fresh engine after the two
    [createBody] calls. *)
Definition tickOptionsA : Options.t := circleOptions 20 20 10 Dynamic.
Definition tickOptionsB : Options.t := circleOptions 35 20 10 Dynamic.

Definition twoCircles : World :=
  fst (createBody (fst (createBody newWorld tickOptionsA "t1")) tickOptionsB "t2").

(** The two circles after a tick of length 0. *)
Definition tickedA (Math_pow : R -> R -> R) : PhysicsBody.t :=
  integrate Math_pow (Vector2.mk 0 980) 0 (PhysicsBody.new tickOptionsA "t1").

Definition tickedB (Math_pow : R -> R -> R) : PhysicsBody.t :=
  integrate Math_pow (Vector2.mk 0 980) 0 (PhysicsBody.new tickOptionsB "t2").

(** Two dynamic 32 by 32 rectangles centred at (0,0) and (10,0). *)
Definition squareA : PhysicsBody.t :=
  PhysicsBody.new (rectOptions 0 0 32 32 Dynamic) "q1".

Definition squareB : PhysicsBody.t :=
  PhysicsBody.new (rectOptions 10 0 32 32 Dynamic) "q2".

(** ** Engine vocabulary *)

(** The fields of a body that no routine of the engine writes after the
    constructor: the body with its position, velocity, rotation, angular
    velocity and cached box blanked. *)
Definition constants (b : PhysicsBody.t) : PhysicsBody.t :=
  PhysicsBody.mk (PhysicsBody.id b) Vector2.zero Vector2.zero 0 0
    (PhysicsBody.mass b) (PhysicsBody.type b) (PhysicsBody.useGravity b)
    (PhysicsBody.enabled b) (PhysicsBody.linearDamping b)
    (PhysicsBody.angularDamping b) (PhysicsBody.maxVelocity b)
    (PhysicsBody.shape b) (PhysicsBody.material b)
    (PhysicsBody.collisionLayer b) (PhysicsBody.collisionMask b)
    (PhysicsBody.isTrigger b) (Bounds.mk 0 0 0 0) (PhysicsBody.userData b).

(** Two heaps hold the same objects, related one by one. *)
Definition heapRel (R : PhysicsBody.t -> PhysicsBody.t -> Prop)
           (hp hp' : Heap) : Prop :=
  List.length hp' = List.length hp
  /\ forall r b, deref hp r = Some b ->
       exists b', deref hp' r = Some b' /\ R b b'.

(** What the resolver may do to a body: it keeps the constants, leaves a
    body that is not dynamic as it is, and keeps a fresh box fresh. *)
Definition resolved (b b' : PhysicsBody.t) : Prop :=
  constants b' = constants b
  /\ (PhysicsBody.type b <> Dynamic -> b' = b)
  /\ (boundsFresh b -> boundsFresh b').

(** What a whole tick may do to a body. *)
Definition ticked (b b' : PhysicsBody.t) : Prop :=
  constants b' = constants b /\ (boundsFresh b -> boundsFresh b').

(** A call to the engine: a call to the registry or a tick. *)
Inductive EngineCall : Type :=
| Registry (c : RegistryCall)
| Tick (deltaTime : R).

Definition engineStep (Math_pow : R -> R -> R) (w : World) (c : EngineCall)
  : World :=
  match c with
  | Registry c => step w c
  | Tick deltaTime => update Math_pow w deltaTime
  end.

Definition engineRun (Math_pow : R -> R -> R) (calls : list EngineCall)
           (w : World) : World :=
  fold_left (engineStep Math_pow) calls w.

Fixpoint engineIdsFresh (Math_pow : R -> R -> R) (calls : list EngineCall)
         (w : World) : Prop :=
  match calls with
  | [] => True
  | c :: rest =>
      match c with
      | Registry (CallCreate _ newId) => idFresh w newId
      | _ => True
      end
      /\ engineIdsFresh Math_pow rest (engineStep Math_pow w c)
  end.

(** What [detectCollisions] requires of a candidate pair before it records
    the manifold [m]. *)
Definition manifoldOf (hp : Heap) (pair : ref * ref) (m : Manifold) : Prop :=
  exists a b,
    deref hp (fst pair) = Some a
    /\ deref hp (snd pair) = Some b
    /\ fst pair <> snd pair
    /\ ~ (PhysicsBody.type a = Static /\ PhysicsBody.type b = Static)
    /\ shouldCollide a b = true
    /\ checkCollision (fst pair) (snd pair) a b = Some m.

(** A world with one static rectangle. *)
Definition groundWorld : World :=
  fst (createBody newWorld (rectOptions 0 100 200 20 Static) "g1").

(** A short history of the engine: two bodies, a tick, a removal, a tick. *)
Definition engineDemo : list EngineCall :=
  [Registry (CallCreate (circleOptions 0 0 10 Dynamic) "c1");
   Registry (CallCreate (rectOptions 0 100 200 20 Static) "g1");
   Tick (1 / 60);
   Registry (CallRemove 0);
   Tick (1 / 60)].

(** ** Collision events vocabulary *)

(** Both bodies carry user data, and their type tags are [s] and [t], in
    one order or the other. *)
Definition tagsAre (a b : PhysicsBody.t) (s t : string) : Prop :=
  exists ua ub,
    PhysicsBody.userData a = Some ua /\ PhysicsBody.userData b = Some ub
    /\ ((tag ua = s /\ tag ub = t) \/ (tag ua = t /\ tag ub = s)).

(** ** Narrow phase vocabulary *)

(** [overlapX] and [overlapY] of [rectRectCollision]. *)
Definition overlapX (boundsA boundsB : Bounds.t) : R :=
  Rmin (Bounds.right boundsA) (Bounds.right boundsB)
  - Rmax (Bounds.left boundsA) (Bounds.left boundsB).

Definition overlapY (boundsA boundsB : Bounds.t) : R :=
  Rmin (Bounds.bottom boundsA) (Bounds.bottom boundsB)
  - Rmax (Bounds.top boundsA) (Bounds.top boundsB).

(** A point lies in a box, borders included. *)
Definition inBox (p : Vector2.t) (bounds : Bounds.t) : Prop :=
  Bounds.left bounds <= Vector2.x p <= Bounds.right bounds
  /\ Bounds.top bounds <= Vector2.y p <= Bounds.bottom bounds.

(** The point of [circleRectCollision] closest to the centre of the circle. *)
Definition closestPoint (circle : Vector2.t) (rect : Bounds.t) : Vector2.t :=
  Vector2.mk
    (Rmax (Bounds.left rect) (Rmin (Vector2.x circle) (Bounds.right rect)))
    (Rmax (Bounds.top rect) (Rmin (Vector2.y circle) (Bounds.bottom rect))).

(** One of the four unit vectors along the axes. *)
Definition axisUnit (n : Vector2.t) : Prop :=
  n = Vector2.mk (-1) 0 \/ n = Vector2.mk 1 0
  \/ n = Vector2.mk 0 (-1) \/ n = Vector2.mk 0 1.

(** A circle of radius 10 centred at (0,0) and a 20 by 20 rectangle centred
    at (15,0): the circle reaches 5 into the rectangle. *)
Definition ballBody : PhysicsBody.t :=
  PhysicsBody.new (circleOptions 0 0 10 Dynamic) "k1".

Definition wallBody : PhysicsBody.t :=
  PhysicsBody.new (rectOptions 15 0 20 20 Static) "k2".

(** ** More spatial hash vocabulary *)

(** The cell a point falls into. *)
Definition cellOf (size : R) (p : Vector2.t) : SpatialHash.cell :=
  (Math_floor (Vector2.x p / size), Math_floor (Vector2.y p / size)).

(** Every cell of a grid lists each body once, and no cell key is repeated:
    what the [Map] of [Set]s of the hash guarantees. *)
Definition gridWellFormed (g : list (SpatialHash.cell * list ref)) : Prop :=
  NoDup (map fst g) /\ forall c s, In (c, s) g -> NoDup s.

(** The deduplication state of [getPotentialCollisions] is in step: the
    keys of the pairs emitted are the processed keys, none twice. *)
Definition inStep (hp : Heap) (st : list (ref * ref) * list string) : Prop :=
  map (keyOfPair hp) (fst st) = map Some (snd st) /\ NoDup (snd st).

(** Every pair emitted so far comes from a cell among [cells]. *)
Definition fromCells (hp : Heap) (cells : list (SpatialHash.cell * list ref))
           (pairs : list (ref * ref)) : Prop :=
  forall p, In p pairs ->
    keyOfPair hp p <> None
    /\ exists c s, In (c, s) cells /\ In p (SpatialHash.cellPairs s).

(** The body of [bodies.forEach] in [updateSpatialHash]. *)
Definition rehash (hp : Heap) (h : SpatialHash.t) (entry : string * ref)
  : SpatialHash.t :=
  match deref hp (snd entry) with
  | Some body =>
      if PhysicsBody.enabled body then SpatialHash.insert hp h (snd entry) else h
  | None => h
  end.

(** Two registered, enabled bodies whose boxes have a grid cell in common. *)
Definition shareCell (w : World) (ra rb : ref) : Prop :=
  exists c ka kb a b,
    In (ka, ra) (PhysicsEngine.bodies (physics w))
    /\ In (kb, rb) (PhysicsEngine.bodies (physics w))
    /\ deref (heap w) ra = Some a /\ deref (heap w) rb = Some b
    /\ PhysicsBody.enabled a = true /\ PhysicsBody.enabled b = true
    /\ In c (SpatialHash.getCells (PhysicsEngine.broadPhase (physics w))
                                  (PhysicsBody.bounds a))
    /\ In c (SpatialHash.getCells (PhysicsEngine.broadPhase (physics w))
                                  (PhysicsBody.bounds b)).

(** ** More raycaster vocabulary *)

(** The entry and exit parameters of the slab between [lo] and [hi] for a
    ray that starts at [o] and advances by [d]. *)
Definition slabMin (lo hi o d : R) : JsNum.t :=
  JsNum.min (JsNum.div (lo - o) d) (JsNum.div (hi - o) d).

Definition slabMax (lo hi o d : R) : JsNum.t :=
  JsNum.max (JsNum.div (lo - o) d) (JsNum.div (hi - o) d).

(** A finite point of the ray caster lies in a box whose borders may come
    in either order. *)
Definition inSpan (p : RayPoint) (bounds : Bounds.t) : Prop :=
  exists x y,
    p = mkRayPoint (JsNum.Fin x) (JsNum.Fin y)
    /\ Rmin (Bounds.left bounds) (Bounds.right bounds) <= x
       <= Rmax (Bounds.left bounds) (Bounds.right bounds)
    /\ Rmin (Bounds.top bounds) (Bounds.bottom bounds) <= y
       <= Rmax (Bounds.top bounds) (Bounds.bottom bounds).

(** A finite point of the ray caster lies on a border line of a box. *)
Definition onBorder (p : RayPoint) (bounds : Bounds.t) : Prop :=
  px p = JsNum.Fin (Bounds.left bounds) \/ px p = JsNum.Fin (Bounds.right bounds)
  \/ py p = JsNum.Fin (Bounds.top bounds) \/ py p = JsNum.Fin (Bounds.bottom bounds).

(** The rectangle of [rayWorld]. *)
Definition rayTarget : PhysicsBody.t :=
  PhysicsBody.new (rectOptions 105 0 10 10 Dynamic) "r1".

(** ** Integration vocabulary *)

(** The velocity of a body after gravity, before damping. *)
Definition acceleratedVelocity (g : Vector2.t) (deltaTime : R)
           (body : PhysicsBody.t) : Vector2.t :=
  if PhysicsBody.useGravity body
  then Vector2.add (PhysicsBody.velocity body) (Vector2.multiply g deltaTime)
  else PhysicsBody.velocity body.

(** A dynamic circle with a speed limit of 50, moving at speed 100. *)
Definition fastBody : PhysicsBody.t :=
  PhysicsBody.new
    (Options.mk (Some (Vector2.mk 0 0)) (Some (Vector2.mk 100 0)) None None None
                (Some Dynamic) None None None None (Some 50)
                (Some (Circle 10)) None None None None None) "f1".

(** ** EventBus (src/unnamed/part_001)

    The bus the engine sends its notifications to.  A callback and a
    context are objects, known by their identity (a number); a listener
    record is an object too, and [emit] looks listeners up by identity
    ([toRemove.includes]), so every listener carries the number [lid] it
    was allocated under.  What a callback does is outside the bus: [emit]
    is given, for each listener, whether its callback throws this time,
    and returns the calls it made.  Callbacks are taken not to call back
    into the bus while [emit] runs. *)

Module EventBus.

Record Listener : Type := mkListener {
  lid : nat;
  callback : nat;
  context : option nat;
  once_ : bool  (* the field [once]; the name is taken by the method *)
}.

Record t : Type := mk {
  events : list (string * list Listener);
  allocated : nat
}.

(** [new EventBus()] *)
Definition new : t := mk [] 0.

Definition on (bus : t) (eventName : string) (cb : nat) (ctx : option nat) : t :=
  let ev := if negb (JsMap.has String.eqb (events bus) eventName)
            then JsMap.set String.eqb (events bus) eventName []
            else events bus in
  match JsMap.get String.eqb ev eventName with
  | Some listeners =>
      mk (JsMap.set String.eqb ev eventName
            (listeners ++ [mkListener (allocated bus) cb ctx false]))
         (S (allocated bus))
  | None => mk ev (allocated bus)
  end.

Definition once (bus : t) (eventName : string) (cb : nat) (ctx : option nat) : t :=
  let ev := if negb (JsMap.has String.eqb (events bus) eventName)
            then JsMap.set String.eqb (events bus) eventName []
            else events bus in
  match JsMap.get String.eqb ev eventName with
  | Some listeners =>
      mk (JsMap.set String.eqb ev eventName
            (listeners ++ [mkListener (allocated bus) cb ctx true]))
         (S (allocated bus))
  | None => mk ev (allocated bus)
  end.

(** [listener.callback === callback && (context === null ||
    listener.context === context)] *)
Definition selected (cb : nat) (ctx : option nat) (listener : Listener) : bool :=
  (Nat.eqb (callback listener) cb
   && match ctx with
      | None => true
      | Some c =>
          match context listener with
          | Some c' => Nat.eqb c' c
          | None => false
          end
      end)%bool.

Definition off (bus : t) (eventName : string) (cb : option nat)
           (ctx : option nat) : t :=
  if negb (JsMap.has String.eqb (events bus) eventName) then bus
  else
    match JsMap.get String.eqb (events bus) eventName with
    | Some listeners =>
        match cb with
        | None => mk (JsMap.delete String.eqb (events bus) eventName) (allocated bus)
        | Some cb =>
            let filteredListeners :=
              filter (fun listener => negb (selected cb ctx listener)) listeners in
            match filteredListeners with
            | [] => mk (JsMap.delete String.eqb (events bus) eventName)
                       (allocated bus)
            | _ => mk (JsMap.set String.eqb (events bus) eventName
                         filteredListeners)
                      (allocated bus)
            end
        end
    | None => bus
    end.

(** [toRemove.includes(listener)] *)
Definition includes (toRemove : list Listener) (listener : Listener) : bool :=
  existsb (fun l => Nat.eqb (lid l) (lid listener)) toRemove.

(** [emit(eventName, ...args)]: the bus afterwards and the calls made, each
    a callback with the context it was called on. *)
Definition emit (throws : Listener -> bool) (bus : t) (eventName : string)
  : t * list (nat * option nat) :=
  if negb (JsMap.has String.eqb (events bus) eventName) then (bus, [])
  else
    match JsMap.get String.eqb (events bus) eventName with
    | Some listeners =>
        let calls := map (fun listener => (callback listener, context listener))
                         listeners in
        let toRemove :=
          filter (fun listener => (once_ listener && negb (throws listener))%bool)
                 listeners in
        match toRemove with
        | [] => (bus, calls)
        | _ =>
            let remainingListeners :=
              filter (fun listener => negb (includes toRemove listener))
                     listeners in
            match remainingListeners with
            | [] => (mk (JsMap.delete String.eqb (events bus) eventName)
                        (allocated bus), calls)
            | _ => (mk (JsMap.set String.eqb (events bus) eventName
                          remainingListeners)
                       (allocated bus), calls)
            end
        end
    | None => (bus, [])
    end.

Definition hasListeners (bus : t) (eventName : string) : bool :=
  (JsMap.has String.eqb (events bus) eventName
   && match JsMap.get String.eqb (events bus) eventName with
      | Some listeners => (0 <? List.length listeners)%nat
      | None => false
      end)%bool.

Definition getListenerCount (bus : t) (eventName : string) : nat :=
  if JsMap.has String.eqb (events bus) eventName
  then match JsMap.get String.eqb (events bus) eventName with
       | Some listeners => List.length listeners
       | None => 0%nat
       end
  else 0%nat.

Definition clear (bus : t) : t := mk [] (allocated bus).

Definition getEventNames (bus : t) : list string := map fst (events bus).

End EventBus.

(** The listeners registered for an event, none if the event is unknown. *)
Definition listenersOf (bus : EventBus.t) (eventName : string)
  : list EventBus.Listener :=
  match JsMap.get String.eqb (EventBus.events bus) eventName with
  | Some listeners => listeners
  | None => []
  end.

(** A call to the bus; [emit] comes with the outcome of each callback. *)
Inductive BusCall : Type :=
| BusOn (eventName : string) (cb : nat) (ctx : option nat)
| BusOnce (eventName : string) (cb : nat) (ctx : option nat)
| BusOff (eventName : string) (cb : option nat) (ctx : option nat)
| BusEmit (throws : EventBus.Listener -> bool) (eventName : string)
| BusClear.

Definition busStep (bus : EventBus.t) (c : BusCall) : EventBus.t :=
  match c with
  | BusOn eventName cb ctx => EventBus.on bus eventName cb ctx
  | BusOnce eventName cb ctx => EventBus.once bus eventName cb ctx
  | BusOff eventName cb ctx => EventBus.off bus eventName cb ctx
  | BusEmit throws eventName => fst (EventBus.emit throws bus eventName)
  | BusClear => EventBus.clear bus
  end.

Definition busRun (calls : list BusCall) (bus : EventBus.t) : EventBus.t :=
  fold_left busStep calls bus.

(** What the bus keeps true of its map: one entry per event name, no entry
    with an empty list, and listener objects that are all different and
    were allocated before. *)
Record busInvariant (bus : EventBus.t) : Prop := mkBusInvariant {
  names_unique : NoDup (map fst (EventBus.events bus));
  no_empty_list : forall eventName,
    JsMap.get String.eqb (EventBus.events bus) eventName <> Some [];
  listeners_unique : forall eventName,
    NoDup (map EventBus.lid (listenersOf bus eventName));
  listeners_allocated : forall eventName listener,
    In listener (listenersOf bus eventName) ->
    (EventBus.lid listener < EventBus.allocated bus)%nat
}.

(** A listener stays after [emit]: it is not a one-time listener whose
    callback returned. *)
Definition stays (throws : EventBus.Listener -> bool)
           (listener : EventBus.Listener) : bool :=
  negb (EventBus.once_ listener && negb (throws listener)).

(** ** Entity (src/unnamed/part_002): the methods that use the engine

    Of an entity, the fields these methods read and write: position,
    velocity, acceleration, rotation, the collider, the reference to its
    physics body and the name of its class in lower case, which becomes
    the type tag of the body.  An options object lists no field whose
    value is [undefined]. *)

(** [{ ...base, ...options }]: a field of [options] that is present wins. *)
Definition orElse {A : Type} (o d : option A) : option A :=
  match o with
  | Some v => Some v
  | None => d
  end.

Definition spread (base options : Options.t) : Options.t :=
  Options.mk
    (orElse (Options.position options) (Options.position base))
    (orElse (Options.velocity options) (Options.velocity base))
    (orElse (Options.rotation options) (Options.rotation base))
    (orElse (Options.angularVelocity options) (Options.angularVelocity base))
    (orElse (Options.mass options) (Options.mass base))
    (orElse (Options.type options) (Options.type base))
    (orElse (Options.useGravity options) (Options.useGravity base))
    (orElse (Options.enabled options) (Options.enabled base))
    (orElse (Options.linearDamping options) (Options.linearDamping base))
    (orElse (Options.angularDamping options) (Options.angularDamping base))
    (orElse (Options.maxVelocity options) (Options.maxVelocity base))
    (orElse (Options.shape options) (Options.shape base))
    (orElse (Options.material options) (Options.material base))
    (orElse (Options.collisionLayer options) (Options.collisionLayer base))
    (orElse (Options.collisionMask options) (Options.collisionMask base))
    (orElse (Options.isTrigger options) (Options.isTrigger base))
    (orElse (Options.userData options) (Options.userData base)).

Module Entity.

(** [collider.type] is ['circle'], ['rect'], or another string. *)
Inductive ColliderType : Type := CircleCollider | RectCollider | OtherCollider.

Record Collider : Type := mkCollider {
  enabled : bool;
  type : ColliderType;
  width : R;
  height : R;
  radius : R;
  offset : Vector2.t;
  isTrigger : bool
}.

Record t : Type := mk {
  position : Vector2.t;
  velocity : Vector2.t;
  acceleration : Vector2.t;
  rotation : R;
  physicsBody : option ref;
  usePhysics : bool;
  collider : Collider;
  className : string
}.

Definition set_position (e : t) (p : Vector2.t) : t :=
  mk p (velocity e) (acceleration e) (rotation e) (physicsBody e)
     (usePhysics e) (collider e) (className e).

Definition set_physicsBody (e : t) (body : option ref) (use : bool) : t :=
  mk (position e) (velocity e) (acceleration e) (rotation e) body use
     (collider e) (className e).

(** The [bodyOptions] object of [setPhysicsBody] before [options] is spread
    over it. *)
Definition bodyOptions (e : t) : Options.t :=
  Options.mk (Some (position e)) None (Some (rotation e)) None None None None
    None None None None
    (Some (match type (collider e) with
           | CircleCollider => Circle (radius (collider e))
           | _ => Rect (width (collider e)) (height (collider e))
           end))
    None None None None
    (Some (mkUserData (className e))).

(** [setPhysicsBody(physicsEngine, options)]: the world, the entity and the
    body returned. *)
Definition setPhysicsBody (w : World) (e : t) (options : Options.t)
           (newId : string) : World * t * ref :=
  let w1 := match physicsBody e with
            | Some body => removeBody w body
            | None => w
            end in
  let created := createBody w1 (spread (bodyOptions e) options) newId in
  (fst created, set_physicsBody e (Some (snd created)) true, snd created).

Definition removePhysicsBody (w : World) (e : t) : World * t :=
  match physicsBody e with
  | Some body => (removeBody w body, set_physicsBody e None false)
  | None => (w, e)
  end.

(** [setPosition(x, y)] *)
Definition setPosition (w : World) (e : t) (x y : R) : World * t :=
  let e' := set_position e (Vector2.mk x y) in
  match physicsBody e with
  | Some body =>
      (mkWorld (modify (heap w) body
                  (fun b => PhysicsBody.set_position b (Vector2.mk x y)))
               (physics w) (bus w), e')
  | None => (w, e')
  end.

(** [move(deltaX, deltaY)] *)
Definition move (w : World) (e : t) (deltaX deltaY : R) : World * t :=
  let e' := set_position e (Vector2.add (position e) (Vector2.mk deltaX deltaY)) in
  match physicsBody e with
  | Some body =>
      (mkWorld (modify (heap w) body
                  (fun b => PhysicsBody.set_position b (position e')))
               (physics w) (bus w), e')
  | None => (w, e')
  end.

(** [updatePosition(deltaTime)] *)
Definition updatePosition (w : World) (e : t) : World :=
  match physicsBody e with
  | Some body =>
      mkWorld (modify (heap w) body
                 (fun b => PhysicsBody.set_position b (position e)))
              (physics w) (bus w)
  | None => w
  end.

End Entity.

(** An entity at (0, 100) whose body is the rectangle of [groundWorld]. *)
Definition groundEntity : Entity.t :=
  Entity.mk (Vector2.mk 0 100) Vector2.zero Vector2.zero 0 (Some 0%nat) true
    (Entity.mkCollider true Entity.RectCollider 200 20 100 Vector2.zero false)
    "platform".

(** * Properties *)

(** ** Containers and the object store *)

Section ContainerFacts.

Context {K V : Type} (eqb : K -> K -> bool).
Hypothesis eqb_spec : forall a b, eqb a b = true <-> a = b.

Lemma eqb_refl_of_spec : forall a, eqb a a = true.
Proof. intros a. apply eqb_spec. reflexivity. Qed.

Lemma JsMap_get_set_same : forall (m : list (K * V)) k v,
  JsMap.get eqb (JsMap.set eqb m k v) k = Some v.
Proof.
  induction m as [| [k' v'] rest IH]; intros k v; simpl.
  - rewrite eqb_refl_of_spec. reflexivity.
  - destruct (eqb k k') eqn:E; simpl; rewrite E; auto.
Qed.

Lemma JsMap_get_set_other : forall (m : list (K * V)) k k' v,
  k <> k' -> JsMap.get eqb (JsMap.set eqb m k v) k' = JsMap.get eqb m k'.
Proof.
  induction m as [| [k0 v0] rest IH]; intros k k' v Hne; simpl.
  - destruct (eqb k' k) eqn:E; auto.
    apply eqb_spec in E. congruence.
  - destruct (eqb k k0) eqn:E; simpl.
    + apply eqb_spec in E. subst k0.
      destruct (eqb k' k) eqn:E'; auto.
      apply eqb_spec in E'. congruence.
    + destruct (eqb k' k0); auto.
Qed.

Lemma JsMap_get_In : forall (m : list (K * V)) k v,
  JsMap.get eqb m k = Some v -> In (k, v) m.
Proof.
  induction m as [| [k' v'] rest IH]; intros k v; simpl; [discriminate |].
  destruct (eqb k k') eqn:E; intros H.
  - apply eqb_spec in E. injection H as ->. subst. auto.
  - auto.
Qed.

Lemma JsMap_get_None : forall (m : list (K * V)) k,
  JsMap.get eqb m k = None <-> ~ In k (map fst m).
Proof.
  induction m as [| [k' v'] rest IH]; intros k; simpl.
  - tauto.
  - destruct (eqb k k') eqn:E.
    + apply eqb_spec in E. subst. split; [discriminate | tauto].
    + rewrite IH. split.
      * intros Hn [Heq | Hin]; [| tauto].
        subst. rewrite eqb_refl_of_spec in E. discriminate.
      * tauto.
Qed.

Lemma JsMap_In_get : forall (m : list (K * V)) k v,
  NoDup (map fst m) -> In (k, v) m -> JsMap.get eqb m k = Some v.
Proof.
  induction m as [| [k' v'] rest IH]; intros k v Hnd Hin; simpl in *.
  - contradiction.
  - inversion Hnd as [| ? ? Hnotin Hnd']; subst.
    destruct Hin as [Heq | Hin].
    + injection Heq as -> ->. rewrite eqb_refl_of_spec. reflexivity.
    + destruct (eqb k k') eqn:E.
      * apply eqb_spec in E. subst k'.
        exfalso. apply Hnotin. apply (in_map fst) in Hin. exact Hin.
      * auto.
Qed.

Lemma JsMap_set_fresh : forall (m : list (K * V)) k v,
  JsMap.get eqb m k = None -> JsMap.set eqb m k v = m ++ [(k, v)].
Proof.
  induction m as [| [k' v'] rest IH]; intros k v; simpl; auto.
  destruct (eqb k k'); [discriminate |].
  intros H. rewrite IH; auto.
Qed.

Lemma JsMap_In_delete : forall (m : list (K * V)) k kv,
  In kv (JsMap.delete eqb m k) <-> In kv m /\ fst kv <> k.
Proof.
  intros m k kv. unfold JsMap.delete. rewrite filter_In.
  destruct (eqb k (fst kv)) eqn:E; simpl.
  - apply eqb_spec in E. split; [intros [_ H]; discriminate |].
    intros [_ H]. congruence.
  - split; intros [H _]; split; auto.
    intros Heq. subst k. rewrite eqb_refl_of_spec in E. discriminate.
Qed.

End ContainerFacts.

Section SetFacts.

Context {A : Type} (eqb : A -> A -> bool).
Hypothesis eqb_spec : forall a b, eqb a b = true <-> a = b.

Lemma JsSet_has_In : forall (s : list A) a,
  JsSet.has eqb s a = true <-> In a s.
Proof.
  intros s a. unfold JsSet.has. rewrite existsb_exists. split.
  - intros [a' [Hin E]]. apply eqb_spec in E. subst. exact Hin.
  - intros Hin. exists a. split; auto. apply eqb_spec. reflexivity.
Qed.

Lemma JsSet_In_add : forall (s : list A) a a',
  In a' (JsSet.add eqb s a) <-> In a' s \/ a' = a.
Proof.
  intros s a a'. unfold JsSet.add.
  destruct (JsSet.has eqb s a) eqn:E.
  - apply JsSet_has_In in E. split; auto.
    intros [H | ->]; auto.
  - rewrite in_app_iff. simpl. split.
    + intros [H | [H | []]]; auto.
    + intros [H | ->]; auto.
Qed.

Lemma JsSet_In_delete : forall (s : list A) a a',
  In a' (JsSet.delete eqb s a) <-> In a' s /\ a' <> a.
Proof.
  intros s a a'. unfold JsSet.delete. rewrite filter_In.
  destruct (eqb a a') eqn:E; simpl.
  - apply eqb_spec in E. split; [intros [_ H]; discriminate |].
    intros [_ H]. congruence.
  - split; intros [H _]; split; auto.
    intros Heq. subst a'.
    assert (eqb a a = true) by (apply eqb_spec; reflexivity). congruence.
Qed.

Lemma JsSet_NoDup_add : forall (s : list A) a,
  NoDup s -> NoDup (JsSet.add eqb s a).
Proof.
  intros s a Hnd. unfold JsSet.add.
  destruct (JsSet.has eqb s a) eqn:E; auto.
  apply NoDup_app; auto.
  - constructor; [intros [] | constructor].
  - intros b Hin [Heq | []]. subst b.
    apply JsSet_has_In in Hin. congruence.
Qed.

End SetFacts.

Lemma string_eqb_spec : forall a b : string, String.eqb a b = true <-> a = b.
Proof. intros a b. apply String.eqb_eq. Qed.

Lemma nat_eqb_spec : forall a b : nat, Nat.eqb a b = true <-> a = b.
Proof. intros a b. apply Nat.eqb_eq. Qed.

Lemma deref_alloc_old : forall (hp : Heap) b r,
  (r < List.length hp)%nat -> deref (hp ++ [b]) r = deref hp r.
Proof. intros hp b r H. unfold deref. apply nth_error_app1. exact H. Qed.

Lemma deref_alloc_new : forall (hp : Heap) b,
  deref (hp ++ [b]) (List.length hp) = Some b.
Proof.
  intros hp b. unfold deref. rewrite nth_error_app2 by lia.
  rewrite Nat.sub_diag. reflexivity.
Qed.

Lemma deref_Some_lt : forall (hp : Heap) r b,
  deref hp r = Some b -> (r < List.length hp)%nat.
Proof.
  intros hp r b H. unfold deref in H. apply nth_error_Some. congruence.
Qed.

Lemma deref_store_same : forall (hp : Heap) r b b0,
  deref hp r = Some b0 -> deref (store hp r b) r = Some b.
Proof.
  unfold deref. induction hp as [| b1 rest IH]; intros [| r] b b0 H;
    simpl in *; try discriminate; eauto.
Qed.

Lemma deref_store_other : forall (hp : Heap) r r' b,
  r <> r' -> deref (store hp r b) r' = deref hp r'.
Proof.
  unfold deref. induction hp as [| b1 rest IH]; intros [| r] [| r'] b H;
    simpl in *; auto; try congruence.
Qed.

Lemma length_store : forall (hp : Heap) r b,
  List.length (store hp r b) = List.length hp.
Proof.
  induction hp as [| b1 rest IH]; intros [| r] b; simpl; auto.
Qed.

(** ** The constructor and [createBody] *)

Lemma orR_nonzero : forall o d, d <> 0 -> orR o d <> 0.
Proof.
  intros [v |] d Hd; simpl; auto.
  destruct (Req_dec_T v 0); auto.
Qed.

Lemma orR_zero : forall d, orR (Some 0) d = d.
Proof.
  intros d. simpl. destruct (Req_dec_T 0 0); [reflexivity | contradiction].
Qed.

Lemma orR_none : forall d, orR None d = d.
Proof. reflexivity. Qed.

#[local] Arguments orR : simpl never.

Lemma orZ_nonzero : forall o d, d <> 0%Z -> orZ o d <> 0%Z.
Proof.
  intros [v |] d Hd; simpl; auto.
  destruct (v =? 0)%Z eqn:E; auto.
  apply Z.eqb_neq. exact E.
Qed.

Lemma new_wellFormed : forall o newId, wellFormed (PhysicsBody.new o newId).
Proof.
  intros o newId. unfold wellFormed. simpl. apply orR_nonzero. lra.
Qed.

Lemma createBody_heap : forall w o newId,
  heap (fst (createBody w o newId)) = heap w ++ [PhysicsBody.new o newId].
Proof. reflexivity. Qed.

Lemma createBody_ref : forall w o newId,
  snd (createBody w o newId) = List.length (heap w).
Proof. reflexivity. Qed.

Lemma new_id : forall o newId, PhysicsBody.id (PhysicsBody.new o newId) = newId.
Proof. reflexivity. Qed.

Lemma new_type : forall o newId,
  PhysicsBody.type (PhysicsBody.new o newId) = orObj (Options.type o) Dynamic.
Proof. reflexivity. Qed.

(** C9: a numeric option given as 0 is replaced by the default of the
    field, exactly as when the option is omitted (mass 1, collision layer
    1, linear damping 0.01, angular damping 0.05); hence the constructor
    never yields a body whose mass, collision layer, linear damping or
    angular damping is zero. *)
Theorem C9_zero_option_takes_default : forall (o : Options.t) (newId : string),
  (PhysicsBody.new (Options.with_mass o (Some 0)) newId
   = PhysicsBody.new (Options.with_mass o None) newId
   /\ PhysicsBody.mass (PhysicsBody.new (Options.with_mass o (Some 0)) newId) = 1)
  /\ (PhysicsBody.new (Options.with_collisionLayer o (Some 0%Z)) newId
      = PhysicsBody.new (Options.with_collisionLayer o None) newId
      /\ PhysicsBody.collisionLayer
           (PhysicsBody.new (Options.with_collisionLayer o (Some 0%Z)) newId) = 1%Z)
  /\ (PhysicsBody.new (Options.with_linearDamping o (Some 0)) newId
      = PhysicsBody.new (Options.with_linearDamping o None) newId
      /\ PhysicsBody.linearDamping
           (PhysicsBody.new (Options.with_linearDamping o (Some 0)) newId) = 1 / 100)
  /\ (PhysicsBody.new (Options.with_angularDamping o (Some 0)) newId
      = PhysicsBody.new (Options.with_angularDamping o None) newId
      /\ PhysicsBody.angularDamping
           (PhysicsBody.new (Options.with_angularDamping o (Some 0)) newId) = 5 / 100)
  /\ PhysicsBody.mass (PhysicsBody.new o newId) <> 0
  /\ PhysicsBody.collisionLayer (PhysicsBody.new o newId) <> 0%Z
  /\ PhysicsBody.linearDamping (PhysicsBody.new o newId) <> 0
  /\ PhysicsBody.angularDamping (PhysicsBody.new o newId) <> 0
  /\ deref (heap (fst (createBody newWorld o newId)))
           (snd (createBody newWorld o newId))
     = Some (PhysicsBody.new o newId).
Proof.
  intros o newId.
  split; [| split; [| split; [| split; [| split; [| split; [| split;
    [| split]]]]]]].
  - split; simpl; [unfold PhysicsBody.new; simpl |]; rewrite orR_zero;
      reflexivity.
  - split; reflexivity.
  - split; simpl; [unfold PhysicsBody.new; simpl |]; rewrite orR_zero;
      reflexivity.
  - split; simpl; [unfold PhysicsBody.new; simpl |]; rewrite orR_zero;
      reflexivity.
  - simpl. apply orR_nonzero. lra.
  - simpl. apply orZ_nonzero. discriminate.
  - simpl. apply orR_nonzero. lra.
  - simpl. apply orR_nonzero. lra.
  - reflexivity.
Qed.


Lemma createBody_registers : forall w o newId,
  let w' := fst (createBody w o newId) in
  let r := snd (createBody w o newId) in
  deref (heap w') r = Some (PhysicsBody.new o newId)
  /\ JsMap.get String.eqb (PhysicsEngine.bodies (physics w')) newId = Some r
  /\ In r (typeSet (physics w') (PhysicsBody.type (PhysicsBody.new o newId)))
  /\ bodyCount (PhysicsEngine.stats (physics w'))
     = (bodyCount (PhysicsEngine.stats (physics w)) + 1)%Z.
Proof.
  intros w o newId. cbv zeta.
  rewrite createBody_heap, createBody_ref.
  split; [apply deref_alloc_new |].
  split; [| split].
  - unfold createBody; cbn [fst physics PhysicsEngine.set_registry
                            PhysicsEngine.bodies].
    rewrite new_id. apply (JsMap_get_set_same _ string_eqb_spec).
  - unfold createBody, typeSet; cbn [fst physics PhysicsEngine.set_registry
      PhysicsEngine.staticBodies PhysicsEngine.dynamicBodies].
    destruct (PhysicsBody.type (PhysicsBody.new o newId));
      apply (JsSet_In_add _ nat_eqb_spec); right; reflexivity.
  - reflexivity.
Qed.



(** ** The collision filter *)

Section FilterBits.

Local Open Scope Z_scope.

Lemma ToInt32_cases : forall z,
  (z mod 2 ^ 32 < 2 ^ 31 /\ ToInt32 z = z mod 2 ^ 32)
  \/ (2 ^ 31 <= z mod 2 ^ 32 /\ ToInt32 z = z mod 2 ^ 32 - 2 ^ 32).
Proof.
  intros z. unfold ToInt32.
  change (2 ^ 32) with 4294967296. change (2 ^ 31) with 2147483648.
  pose proof (Z.mod_pos_bound z 4294967296 ltac:(lia)) as Hm.
  pose proof (Z.mod_pos_bound (z + 2147483648) 4294967296 ltac:(lia)) as Hs.
  pose proof (Z.div_mod z 4294967296 ltac:(lia)) as Dz.
  pose proof (Z.div_mod (z + 2147483648) 4294967296 ltac:(lia)) as Ds.
  lia.
Qed.

Lemma testbit_31_of_low : forall m, 0 <= m < 2 ^ 31 -> Z.testbit m 31 = false.
Proof.
  intros m H. destruct (Z.eq_dec m 0) as [-> | Hne]; [reflexivity |].
  apply Z.bits_above_log2; [lia |].
  apply Z.log2_lt_pow2; lia.
Qed.

Lemma testbit_31_of_high : forall m, 2 ^ 31 <= m < 2 ^ 32 -> Z.testbit m 31 = true.
Proof.
  intros m H. apply Z.testbit_true; [lia |].
  assert (E : m / 2 ^ 31 = 1).
  { symmetry. apply Z.div_unique with (r := m - 2 ^ 31); lia. }
  rewrite E. reflexivity.
Qed.

(** The bits of [ToInt32 z]: the low 32 bits of [z], then its bit 31
    repeated. *)
Lemma testbit_ToInt32 : forall z n,
  0 <= n -> Z.testbit (ToInt32 z) n = Z.testbit z (Z.min n 31).
Proof.
  intros z n Hn.
  pose proof (Z.mod_pos_bound z (2 ^ 32) ltac:(lia)) as Hm.
  assert (Hlow : forall i, 0 <= i < 32 ->
            Z.testbit (z mod 2 ^ 32) i = Z.testbit z i).
  { intros i Hi. apply Z.mod_pow2_bits_low. lia. }
  destruct (ToInt32_cases z) as [[Hlt ->] | [Hge ->]].
  - destruct (Z_lt_le_dec n 32) as [L | L].
    + rewrite Z.min_l by lia. apply Hlow. lia.
    + rewrite Z.min_r by lia. rewrite Z.mod_pow2_bits_high by lia.
      rewrite <- (Hlow 31) by lia. symmetry. apply testbit_31_of_low. lia.
  - set (m := z mod 2 ^ 32) in *.
    assert (E : m - 2 ^ 32 = Z.lnot (Z.ldiff (Z.ones 32) m)).
    { rewrite <- Z.sub_nocarry_ldiff.
      - unfold Z.lnot. rewrite Z.ones_equiv. lia.
      - apply Z.bits_inj'. intros i Hi. rewrite Z.ldiff_spec, Z.bits_0.
        destruct (Z_lt_le_dec i 32) as [L | L].
        + rewrite Z.ones_spec_low by lia. apply andb_false_r.
        + unfold m. rewrite Z.mod_pow2_bits_high by lia. reflexivity. }
    rewrite E, Z.lnot_spec, Z.ldiff_spec by lia.
    destruct (Z_lt_le_dec n 32) as [L | L].
    + rewrite Z.ones_spec_low by lia. simpl. rewrite negb_involutive.
      destruct (Z_lt_le_dec n 31).
      * rewrite Z.min_l by lia. apply Hlow. lia.
      * rewrite Z.min_r by lia. replace n with 31 by lia. apply Hlow. lia.
    + rewrite Z.ones_spec_high by lia. simpl.
      rewrite Z.min_r by lia. rewrite <- (Hlow 31) by lia. symmetry.
      apply testbit_31_of_high. fold m. lia.
Qed.

(** [a & b] is zero exactly when [a] and [b] share none of the bits 0 to 31. *)
Lemma bitand_zero_iff : forall a b,
  bitand a b = 0
  <-> forall i, 0 <= i < 32 -> (Z.testbit a i && Z.testbit b i)%bool = false.
Proof.
  intros a b. unfold bitand. split.
  - intros H i Hi.
    assert (E : Z.testbit (Z.land (ToInt32 a) (ToInt32 b)) i = false)
      by (rewrite H; apply Z.bits_0).
    rewrite Z.land_spec, !testbit_ToInt32 in E by lia.
    rewrite Z.min_l in E by lia. exact E.
  - intros H. apply Z.bits_inj'. intros n Hn.
    rewrite Z.land_spec, !testbit_ToInt32, Z.bits_0 by lia.
    apply H. lia.
Qed.

End FilterBits.

(** C4: the filter admits a pair exactly when A's mask and B's layer share
    a bit or B's mask and A's layer share a bit ([&] of the two values is
    non-zero, that is, they have one of the bits 0 to 31 in common); a body
    of layer 1 and mask 2 and a body of layer 2 and mask 1 are admitted,
    whatever their other options are. *)
Theorem C4_shouldCollide_is_symmetric_or : forall (a b : PhysicsBody.t),
  (shouldCollide a b = true
   <-> (bitand (PhysicsBody.collisionMask a) (PhysicsBody.collisionLayer b) <> 0
        \/ bitand (PhysicsBody.collisionMask b) (PhysicsBody.collisionLayer a) <> 0)%Z)
  /\ (shouldCollide a b = false
      <-> (forall i, (0 <= i < 32)%Z ->
             (Z.testbit (PhysicsBody.collisionMask a) i
              && Z.testbit (PhysicsBody.collisionLayer b) i)%bool = false)
          /\ (forall i, (0 <= i < 32)%Z ->
                (Z.testbit (PhysicsBody.collisionMask b) i
                 && Z.testbit (PhysicsBody.collisionLayer a) i)%bool = false))
  /\ (forall (oa ob : Options.t) (idA idB : string),
        shouldCollide (PhysicsBody.new (withFilter oa 1 2) idA)
                      (PhysicsBody.new (withFilter ob 2 1) idB) = true).
Proof.
  intros a b. split; [| split].
  - unfold shouldCollide.
    rewrite orb_true_iff, !negb_true_iff, !Z.eqb_neq. reflexivity.
  - unfold shouldCollide.
    rewrite orb_false_iff, !negb_false_iff, !Z.eqb_eq, !bitand_zero_iff.
    reflexivity.
  - intros oa ob idA idB. reflexivity.
Qed.

(** ** The resolver on pairs without inverse mass *)

Lemma resolvePosition_skip : forall hp ra rb a b n pen,
  deref hp ra = Some a -> deref hp rb = Some b ->
  PhysicsBody.getInverseMass a + PhysicsBody.getInverseMass b = 0 ->
  resolvePosition hp ra rb n pen = hp.
Proof.
  intros hp ra rb a b n pen Ha Hb Hz. unfold resolvePosition.
  rewrite Ha, Hb. destruct (Req_dec_T _ 0); [reflexivity | contradiction].
Qed.

Lemma resolveVelocity_skip : forall hp ra rb a b n,
  deref hp ra = Some a -> deref hp rb = Some b ->
  PhysicsBody.getInverseMass a + PhysicsBody.getInverseMass b = 0 ->
  resolveVelocity hp ra rb n = hp.
Proof.
  intros hp ra rb a b n Ha Hb Hz. unfold resolveVelocity.
  rewrite Ha, Hb. destruct (Rgt_b _ 0); [reflexivity |].
  destruct (Req_dec_T _ 0); [reflexivity | contradiction].
Qed.

Lemma applyFriction_skip : forall hp ra rb a b n s,
  deref hp ra = Some a -> deref hp rb = Some b ->
  PhysicsBody.getInverseMass a + PhysicsBody.getInverseMass b = 0 ->
  applyFriction hp ra rb n s = hp.
Proof.
  intros hp ra rb a b n s Ha Hb Hz. unfold applyFriction.
  rewrite Ha, Hb. destruct (Req_dec_T _ 0); [reflexivity | contradiction].
Qed.

(** C5: when both bodies of a manifold (bodies with a non-zero mass field,
    as the constructor builds them) have inverse mass zero, positional
    correction, velocity resolution and friction each return before the
    division by the total inverse mass, and the whole resolution of the
    manifold leaves the object store as it was: no position, velocity or
    cached box of any body changes. *)
Theorem C5_zero_inverse_mass_is_skipped : forall (hp : Heap) (c : Manifold)
    (a b : PhysicsBody.t) (s : R),
  deref hp (bodyA c) = Some a ->
  deref hp (bodyB c) = Some b ->
  wellFormed a -> wellFormed b ->
  PhysicsBody.getInverseMass a = 0 ->
  PhysicsBody.getInverseMass b = 0 ->
  resolvePosition hp (bodyA c) (bodyB c) (normal c) (penetration c) = hp
  /\ resolveVelocity hp (bodyA c) (bodyB c) (normal c) = hp
  /\ applyFriction hp (bodyA c) (bodyB c) (normal c) s = hp
  /\ resolveCollision hp c = hp.
Proof.
  intros hp c a b s Ha Hb _ _ Hia Hib.
  assert (Hz : PhysicsBody.getInverseMass a + PhysicsBody.getInverseMass b = 0)
    by (rewrite Hia, Hib; lra).
  assert (Hp := resolvePosition_skip hp _ _ a b (normal c) (penetration c) Ha Hb Hz).
  assert (Hv := resolveVelocity_skip hp _ _ a b (normal c) Ha Hb Hz).
  repeat split; auto.
  - eapply applyFriction_skip; eauto.
  - unfold resolveCollision. rewrite Hp. exact Hv.
Qed.

Lemma C5_zero_inverse_mass_is_skipped_witness :
  resolvePosition staticPair 0 1 (Vector2.mk 1 0) 5 = staticPair
  /\ resolveVelocity staticPair 0 1 (Vector2.mk 1 0) = staticPair
  /\ applyFriction staticPair 0 1 (Vector2.mk 1 0) 1 = staticPair
  /\ resolveCollision staticPair staticManifold = staticPair.
Proof.
  apply (C5_zero_inverse_mass_is_skipped staticPair staticManifold
           (PhysicsBody.new (circleOptions 0 0 10 Static) "s1")
           (PhysicsBody.new (circleOptions 15 0 10 Static) "s2") 1);
    try reflexivity; apply new_wellFormed.
Defined.

(** ** Circle against circle *)

Lemma Rlt_b_true : forall a b, Rlt_b a b = true <-> a < b.
Proof.
  intros a b. unfold Rlt_b. destruct (Rlt_dec a b); split; auto; discriminate.
Qed.

Lemma Rlt_b_false : forall a b, Rlt_b a b = false <-> ~ a < b.
Proof.
  intros a b. unfold Rlt_b. destruct (Rlt_dec a b); split; auto;
    try discriminate; contradiction.
Qed.

Lemma Rgt_b_true : forall a b, Rgt_b a b = true <-> b < a.
Proof.
  intros a b. unfold Rgt_b. destruct (Rgt_dec a b); split; auto; discriminate.
Qed.

Lemma Rgt_b_false : forall a b, Rgt_b a b = false <-> ~ b < a.
Proof.
  intros a b. unfold Rgt_b. destruct (Rgt_dec a b); split; auto;
    try discriminate; contradiction.
Qed.

Lemma Rle_b_true : forall a b, Rle_b a b = true <-> a <= b.
Proof.
  intros a b. unfold Rle_b. destruct (Rle_dec a b); split; auto; discriminate.
Qed.

Lemma Rle_b_false : forall a b, Rle_b a b = false <-> ~ a <= b.
Proof.
  intros a b. unfold Rle_b. destruct (Rle_dec a b); split; auto;
    try discriminate; contradiction.
Qed.

Lemma Rabs_bound : forall a b, Rabs a <= b -> - b <= a <= b.
Proof.
  intros a b H. unfold Rabs in H. destruct (Rcase_abs a); lra.
Qed.

Lemma abs_dx_le_distance : forall p q,
  Rabs (Vector2.x p - Vector2.x q) <= Vector2.distanceTo p q.
Proof.
  intros p q. unfold Vector2.distanceTo. cbv zeta.
  rewrite <- sqrt_Rsqr_abs. apply sqrt_le_1_alt. unfold Rsqr.
  pose proof (Rle_0_sqr (Vector2.y p - Vector2.y q)) as H. unfold Rsqr in H. lra.
Qed.

Lemma abs_dy_le_distance : forall p q,
  Rabs (Vector2.y p - Vector2.y q) <= Vector2.distanceTo p q.
Proof.
  intros p q. unfold Vector2.distanceTo. cbv zeta.
  rewrite <- sqrt_Rsqr_abs. apply sqrt_le_1_alt. unfold Rsqr.
  pose proof (Rle_0_sqr (Vector2.x p - Vector2.x q)) as H. unfold Rsqr in H. lra.
Qed.

(** Circles closer than the sum of their radii have overlapping boxes. *)
Lemma circles_close_boxes_overlap : forall a b r1 r2,
  PhysicsBody.shape a = Circle r1 ->
  PhysicsBody.shape b = Circle r2 ->
  boundsFresh a -> boundsFresh b ->
  Vector2.distanceTo (PhysicsBody.position a) (PhysicsBody.position b) < r1 + r2 ->
  aabbOverlap (PhysicsBody.bounds a) (PhysicsBody.bounds b) = true.
Proof.
  intros a b r1 r2 Sa Sb Fa Fb Hd.
  unfold boundsFresh in Fa, Fb. rewrite Sa in Fa. rewrite Sb in Fb.
  simpl in Fa, Fb. rewrite Fa, Fb. unfold aabbOverlap. simpl.
  pose proof (abs_dx_le_distance (PhysicsBody.position a) (PhysicsBody.position b)) as Hx.
  pose proof (abs_dy_le_distance (PhysicsBody.position a) (PhysicsBody.position b)) as Hy.
  apply Rabs_bound in Hx. apply Rabs_bound in Hy.
  assert (E1 : Rlt_b (Vector2.x (PhysicsBody.position a) + r1)
                     (Vector2.x (PhysicsBody.position b) - r2) = false)
    by (apply Rlt_b_false; lra).
  assert (E2 : Rgt_b (Vector2.x (PhysicsBody.position a) - r1)
                     (Vector2.x (PhysicsBody.position b) + r2) = false)
    by (apply Rgt_b_false; lra).
  assert (E3 : Rlt_b (Vector2.y (PhysicsBody.position a) + r1)
                     (Vector2.y (PhysicsBody.position b) - r2) = false)
    by (apply Rlt_b_false; lra).
  assert (E4 : Rgt_b (Vector2.y (PhysicsBody.position a) - r1)
                     (Vector2.y (PhysicsBody.position b) + r2) = false)
    by (apply Rgt_b_false; lra).
  rewrite E1, E2, E3, E4. reflexivity.
Qed.

Lemma circleCircleCollision_hit : forall ra rb a b r1 r2,
  PhysicsBody.shape a = Circle r1 ->
  PhysicsBody.shape b = Circle r2 ->
  Vector2.distanceTo (PhysicsBody.position a) (PhysicsBody.position b) < r1 + r2 ->
  circleCircleCollision ra rb a b
  = Some (mkManifold ra rb
            (Vector2.normalize
               (Vector2.subtract (PhysicsBody.position b) (PhysicsBody.position a)))
            (r1 + r2
             - Vector2.distanceTo (PhysicsBody.position a) (PhysicsBody.position b))
            (Vector2.add (PhysicsBody.position a)
               (Vector2.multiply
                  (Vector2.normalize
                     (Vector2.subtract (PhysicsBody.position b)
                                       (PhysicsBody.position a))) r1))).
Proof.
  intros ra rb a b r1 r2 Sa Sb Hd. unfold circleCircleCollision.
  rewrite Sa, Sb. cbv zeta.
  apply Rlt_b_true in Hd. rewrite Hd. reflexivity.
Qed.

Lemma circleCircleCollision_miss : forall ra rb a b r1 r2,
  PhysicsBody.shape a = Circle r1 ->
  PhysicsBody.shape b = Circle r2 ->
  ~ Vector2.distanceTo (PhysicsBody.position a) (PhysicsBody.position b) < r1 + r2 ->
  circleCircleCollision ra rb a b = None.
Proof.
  intros ra rb a b r1 r2 Sa Sb Hd. unfold circleCircleCollision.
  rewrite Sa, Sb. cbv zeta.
  apply Rlt_b_false in Hd. rewrite Hd. reflexivity.
Qed.

(** With cached boxes that are up to date, the box pre-test never hides
    a collision between two circles. *)
Lemma checkCollision_circles : forall ra rb a b r1 r2,
  PhysicsBody.shape a = Circle r1 ->
  PhysicsBody.shape b = Circle r2 ->
  boundsFresh a -> boundsFresh b ->
  checkCollision ra rb a b = circleCircleCollision ra rb a b.
Proof.
  intros ra rb a b r1 r2 Sa Sb Fa Fb. unfold checkCollision.
  destruct (Rlt_dec (Vector2.distanceTo (PhysicsBody.position a)
                                        (PhysicsBody.position b)) (r1 + r2))
    as [Hd | Hd].
  - rewrite (circles_close_boxes_overlap a b r1 r2 Sa Sb Fa Fb Hd).
    rewrite Sa, Sb. reflexivity.
  - rewrite Sa, Sb, (circleCircleCollision_miss ra rb a b r1 r2 Sa Sb Hd).
    destruct (aabbOverlap _ _); reflexivity.
Qed.

(** C6: for two circles of radii r1 and r2 whose centres are d apart, the
    circle test yields a manifold exactly when d < r1 + r2; the manifold
    has penetration (r1 + r2) - d, normal (centerB - centerA) normalized and
    contact point centerA + normal * r1.  With cached boxes that are up to
    date, [checkCollision] (box pre-test, then dispatch on the shapes) gives
    the same answer as the circle test. *)
Theorem C6_circle_circle_manifold : forall (ra rb : ref) (a b : PhysicsBody.t)
    (r1 r2 : R),
  PhysicsBody.shape a = Circle r1 ->
  PhysicsBody.shape b = Circle r2 ->
  let d := Vector2.distanceTo (PhysicsBody.position a) (PhysicsBody.position b) in
  let n := Vector2.normalize
             (Vector2.subtract (PhysicsBody.position b) (PhysicsBody.position a)) in
  ((exists m, circleCircleCollision ra rb a b = Some m) <-> d < r1 + r2)
  /\ (forall m, circleCircleCollision ra rb a b = Some m ->
        bodyA m = ra /\ bodyB m = rb
        /\ penetration m = (r1 + r2) - d
        /\ normal m = n
        /\ contactPoint m
           = Vector2.add (PhysicsBody.position a) (Vector2.multiply n r1))
  /\ (boundsFresh a -> boundsFresh b ->
      checkCollision ra rb a b = circleCircleCollision ra rb a b).
Proof.
  intros ra rb a b r1 r2 Sa Sb d n.
  destruct (Rlt_dec d (r1 + r2)) as [Hd | Hd].
  - pose proof (circleCircleCollision_hit ra rb a b r1 r2 Sa Sb Hd) as Hhit.
    fold d n in Hhit. split; [| split].
    + split; [intros _; exact Hd | intros _; eexists; exact Hhit].
    + intros m Hm. rewrite Hhit in Hm. injection Hm as <-. simpl. auto.
    + intros Fa Fb. exact (checkCollision_circles ra rb a b r1 r2 Sa Sb Fa Fb).
  - pose proof (circleCircleCollision_miss ra rb a b r1 r2 Sa Sb Hd) as Hmiss.
    split; [| split].
    + split; [intros [m Hm]; congruence | intros H; contradiction].
    + intros m Hm. congruence.
    + intros Fa Fb. exact (checkCollision_circles ra rb a b r1 r2 Sa Sb Fa Fb).
Qed.

Lemma C6_circle_circle_manifold_witness :
  ((exists m, circleCircleCollision 0 1 (circleA Dynamic) (circleB Dynamic) = Some m)
   <-> Vector2.distanceTo (PhysicsBody.position (circleA Dynamic))
                          (PhysicsBody.position (circleB Dynamic)) < 10 + 10)
  /\ (forall m,
        circleCircleCollision 0 1 (circleA Dynamic) (circleB Dynamic) = Some m ->
        bodyA m = 0%nat /\ bodyB m = 1%nat
        /\ penetration m
           = (10 + 10)
             - Vector2.distanceTo (PhysicsBody.position (circleA Dynamic))
                                  (PhysicsBody.position (circleB Dynamic))
        /\ normal m
           = Vector2.normalize
               (Vector2.subtract (PhysicsBody.position (circleB Dynamic))
                                 (PhysicsBody.position (circleA Dynamic)))
        /\ contactPoint m
           = Vector2.add (PhysicsBody.position (circleA Dynamic))
               (Vector2.multiply
                  (Vector2.normalize
                     (Vector2.subtract (PhysicsBody.position (circleB Dynamic))
                                       (PhysicsBody.position (circleA Dynamic))))
                  10))
  /\ (boundsFresh (circleA Dynamic) -> boundsFresh (circleB Dynamic) ->
      checkCollision 0 1 (circleA Dynamic) (circleB Dynamic)
      = circleCircleCollision 0 1 (circleA Dynamic) (circleB Dynamic)).
Proof.
  apply (C6_circle_circle_manifold 0 1 (circleA Dynamic) (circleB Dynamic) 10 10);
    reflexivity.
Defined.

Lemma sqrt_of_square : forall a b, 0 <= b -> a = b * b -> sqrt a = b.
Proof. intros a b Hb ->. apply sqrt_square. exact Hb. Qed.

Lemma circles_15_apart : forall ta tb,
  Vector2.distanceTo (PhysicsBody.position (circleA ta))
                     (PhysicsBody.position (circleB tb)) = 15.
Proof.
  intros ta tb. unfold Vector2.distanceTo. cbn.
  apply sqrt_of_square; lra.
Qed.

Lemma circles_15_normal : forall ta tb,
  Vector2.normalize
    (Vector2.subtract (PhysicsBody.position (circleB tb))
                      (PhysicsBody.position (circleA ta)))
  = Vector2.mk 1 0.
Proof.
  intros ta tb. unfold Vector2.normalize, Vector2.magnitude. cbn.
  assert (E : sqrt ((15 - 0) * (15 - 0) + (0 - 0) * (0 - 0)) = 15)
    by (apply sqrt_of_square; lra).
  rewrite E. destruct (Rlt_dec 0 15) as [_ | H]; [| lra].
  unfold Vector2.divide. destruct (Req_dec_T 15 0) as [H | _]; [lra |].
  cbn. f_equal; field.
Qed.

(** The first end-to-end scenario of the specification: circles of radius
    10 at (0,0) and (15,0) collide with penetration 5 and normal (1,0). *)
Lemma circles_15_manifold : forall ta tb,
  circleCircleCollision 0 1 (circleA ta) (circleB tb)
  = Some (mkManifold 0 1 (Vector2.mk 1 0) 5 (Vector2.mk 10 0)).
Proof.
  intros ta tb.
  rewrite (circleCircleCollision_hit 0 1 (circleA ta) (circleB tb) 10 10)
    by (try reflexivity; rewrite circles_15_apart; lra).
  rewrite circles_15_apart, circles_15_normal. cbn.
  f_equal. f_equal; [lra |]. unfold Vector2.add, Vector2.multiply. cbn.
  f_equal; lra.
Qed.

(** ** Positional correction *)

Lemma deref_modify_same : forall hp r f b,
  deref hp r = Some b -> deref (modify hp r f) r = Some (f b).
Proof.
  intros hp r f b H. unfold modify. rewrite H.
  eapply deref_store_same; eauto.
Qed.

Lemma deref_modify_other : forall hp r r' f,
  r <> r' -> deref (modify hp r f) r' = deref hp r'.
Proof.
  intros hp r r' f H. unfold modify.
  destruct (deref hp r); [apply deref_store_other; exact H | reflexivity].
Qed.

Lemma boundsFresh_updateBounds : forall b, boundsFresh (PhysicsBody.updateBounds b).
Proof.
  intros b. unfold boundsFresh, PhysicsBody.updateBounds. simpl.
  destruct (PhysicsBody.shape b); reflexivity.
Qed.

Lemma resolvePosition_spec : forall hp ra rb a b n pen,
  deref hp ra = Some a -> deref hp rb = Some b -> ra <> rb ->
  PhysicsBody.getInverseMass a + PhysicsBody.getInverseMass b <> 0 ->
  let hp' := resolvePosition hp ra rb n pen in
  deref hp' ra = Some (correctedA a (correctionOf a b n pen))
  /\ deref hp' rb = Some (correctedB b (correctionOf a b n pen))
  /\ (forall r, r <> ra -> r <> rb -> deref hp' r = deref hp r).
Proof.
  intros hp ra rb a b n pen Ha Hb Hne Hz. cbv zeta.
  unfold resolvePosition. rewrite Ha, Hb.
  destruct (Req_dec_T _ 0) as [E | _]; [contradiction |].
  unfold correctedA, correctedB, correctionOf.
  destruct (PhysicsBody.type a) eqn:Ta; destruct (PhysicsBody.type b) eqn:Tb;
    repeat split;
    repeat first
      [ assumption
      | rewrite (deref_modify_same _ _ _ _ Hb)
      | rewrite deref_modify_other by congruence
      | rewrite (deref_modify_same _ _ _ _ Ha)
      | erewrite deref_modify_same
          by (rewrite deref_modify_other by congruence; exact Hb)
      | reflexivity
      | intros ].
Qed.

Lemma normalize_of_positive : forall v,
  0 < Vector2.magnitude v ->
  Vector2.normalize v
  = Vector2.mk (Vector2.x v / Vector2.magnitude v) (Vector2.y v / Vector2.magnitude v).
Proof.
  intros v H. unfold Vector2.normalize. cbv zeta.
  destruct (Rlt_dec 0 (Vector2.magnitude v)) as [_ | N]; [| contradiction].
  unfold Vector2.divide.
  destruct (Req_dec_T (Vector2.magnitude v) 0) as [E | _]; [lra | reflexivity].
Qed.

Lemma magnitude_subtract : forall p q,
  Vector2.magnitude (Vector2.subtract q p) = Vector2.distanceTo p q.
Proof.
  intros p q. unfold Vector2.magnitude, Vector2.distanceTo, Vector2.subtract.
  cbn. f_equal. ring.
Qed.

Lemma sum_squares_nonneg : forall a b, 0 <= a * a + b * b.
Proof.
  intros a b. pose proof (Rle_0_sqr a). pose proof (Rle_0_sqr b).
  unfold Rsqr in *. lra.
Qed.

Lemma distance_after_push : forall p q sa sb,
  0 < Vector2.distanceTo p q ->
  let n := Vector2.normalize (Vector2.subtract q p) in
  Vector2.distanceTo (Vector2.subtract p (Vector2.multiply n sa))
                     (Vector2.add q (Vector2.multiply n sb))
  = Rabs (Vector2.distanceTo p q + sa + sb).
Proof.
  intros p q sa sb Hd n. subst n.
  rewrite normalize_of_positive by (rewrite magnitude_subtract; exact Hd).
  rewrite magnitude_subtract.
  set (d := Vector2.distanceTo p q) in *.
  assert (Hd2 : d * d
                = (Vector2.x p - Vector2.x q) * (Vector2.x p - Vector2.x q)
                  + (Vector2.y p - Vector2.y q) * (Vector2.y p - Vector2.y q)).
  { unfold d, Vector2.distanceTo. cbv zeta. apply sqrt_sqrt. apply sum_squares_nonneg. }
  rewrite <- sqrt_Rsqr_abs.
  unfold Vector2.distanceTo at 1. cbn. f_equal. unfold Rsqr.
  assert (Hne : d <> 0) by lra.
  transitivity
    (((Vector2.x p - Vector2.x q) * (Vector2.x p - Vector2.x q)
      + (Vector2.y p - Vector2.y q) * (Vector2.y p - Vector2.y q))
     * ((d + sa + sb) / d) * ((d + sa + sb) / d)).
  - field. exact Hne.
  - rewrite <- Hd2. field. exact Hne.
Qed.


Lemma vector_eta : forall v, Vector2.mk (Vector2.x v) (Vector2.y v) = v.
Proof. intros []. reflexivity. Qed.

Lemma position_correctedA : forall a n c,
  PhysicsBody.position (correctedA a (Vector2.multiply n c))
  = Vector2.subtract (PhysicsBody.position a)
      (Vector2.multiply n (c * movedInverseMass a)).
Proof.
  intros a n c. unfold correctedA, movedInverseMass.
  destruct (PhysicsBody.type a); cbn;
    try (rewrite <- (vector_eta (PhysicsBody.position a)) at 1);
    unfold Vector2.subtract, Vector2.multiply; cbn; f_equal; ring.
Qed.

Lemma position_correctedB : forall b n c,
  PhysicsBody.position (correctedB b (Vector2.multiply n c))
  = Vector2.add (PhysicsBody.position b)
      (Vector2.multiply n (c * movedInverseMass b)).
Proof.
  intros b n c. unfold correctedB, movedInverseMass.
  destruct (PhysicsBody.type b); cbn;
    try (rewrite <- (vector_eta (PhysicsBody.position b)) at 1);
    unfold Vector2.add, Vector2.multiply; cbn; f_equal; ring.
Qed.

Lemma shape_correctedA : forall a v,
  PhysicsBody.shape (correctedA a v) = PhysicsBody.shape a.
Proof. intros a v. unfold correctedA. destruct (PhysicsBody.type a); reflexivity. Qed.

Lemma shape_correctedB : forall b v,
  PhysicsBody.shape (correctedB b v) = PhysicsBody.shape b.
Proof. intros b v. unfold correctedB. destruct (PhysicsBody.type b); reflexivity. Qed.

Lemma boundsFresh_correctedA : forall a v,
  boundsFresh a -> boundsFresh (correctedA a v).
Proof.
  intros a v H. unfold correctedA.
  destruct (PhysicsBody.type a); auto using boundsFresh_updateBounds.
Qed.

Lemma boundsFresh_correctedB : forall b v,
  boundsFresh b -> boundsFresh (correctedB b v).
Proof.
  intros b v H. unfold correctedB.
  destruct (PhysicsBody.type b); auto using boundsFresh_updateBounds.
Qed.

Lemma inverseMass_nonneg : forall b,
  0 < PhysicsBody.mass b -> 0 <= PhysicsBody.getInverseMass b.
Proof.
  intros b Hm. unfold PhysicsBody.getInverseMass.
  destruct (PhysicsBody.type b); try lra;
    apply Rlt_le; apply Rdiv_lt_0_compat; lra.
Qed.

Lemma movedInverseMass_bounds : forall b,
  0 < PhysicsBody.mass b ->
  0 <= movedInverseMass b <= PhysicsBody.getInverseMass b.
Proof.
  intros b Hm. pose proof (inverseMass_nonneg b Hm) as H.
  unfold movedInverseMass. destruct (PhysicsBody.type b); lra.
Qed.

Lemma movedInverseMass_dynamic : forall b,
  0 < PhysicsBody.mass b -> PhysicsBody.type b = Dynamic ->
  0 < movedInverseMass b.
Proof.
  intros b Hm Ht. unfold movedInverseMass, PhysicsBody.getInverseMass.
  rewrite Ht. apply Rdiv_lt_0_compat; lra.
Qed.

Lemma movedInverseMass_not_kinematic : forall b,
  PhysicsBody.type b <> Kinematic ->
  movedInverseMass b = PhysicsBody.getInverseMass b.
Proof.
  intros b Ht. unfold movedInverseMass, PhysicsBody.getInverseMass.
  destruct (PhysicsBody.type b); congruence.
Qed.

(** The share of the penetration one application removes. *)
Lemma correction_share : forall pen total moved,
  0 < pen -> 0 < moved <= total ->
  0 < pen / total * (8 / 10) * moved <= (8 / 10) * pen.
Proof.
  intros pen total moved Hp [Hm Ht].
  assert (Htot : 0 < total) by lra.
  assert (Hr : 0 < moved / total <= 1).
  { split; [apply Rdiv_lt_0_compat; lra |].
    apply Rmult_le_reg_r with total; [lra |].
    unfold Rdiv. rewrite Rmult_assoc, Rinv_l by lra. lra. }
  replace (pen / total * (8 / 10) * moved)
    with ((8 / 10) * pen * (moved / total)) by (field; lra).
  nra.
Qed.

Lemma circle_penetration_after_correction : forall a b r1 r2,
  PhysicsBody.shape a = Circle r1 ->
  PhysicsBody.shape b = Circle r2 ->
  let d := Vector2.distanceTo (PhysicsBody.position a) (PhysicsBody.position b) in
  let n := Vector2.normalize
             (Vector2.subtract (PhysicsBody.position b) (PhysicsBody.position a)) in
  let pen := r1 + r2 - d in
  let correction := correctionOf a b n pen in
  let d' := Vector2.distanceTo (PhysicsBody.position (correctedA a correction))
                               (PhysicsBody.position (correctedB b correction)) in
  0 < d -> d < r1 + r2 ->
  0 < PhysicsBody.mass a -> 0 < PhysicsBody.mass b ->
  PhysicsBody.type a = Dynamic \/ PhysicsBody.type b = Dynamic ->
  (2 / 10) * pen <= r1 + r2 - d' < pen
  /\ (PhysicsBody.type a <> Kinematic -> PhysicsBody.type b <> Kinematic ->
      r1 + r2 - d' = (2 / 10) * pen).
Proof.
  intros a b r1 r2 Sa Sb d n pen correction d' Hd Hlt Hma Hmb Hdyn.
  pose proof (movedInverseMass_bounds a Hma) as Ba.
  pose proof (movedInverseMass_bounds b Hmb) as Bb.
  set (total := PhysicsBody.getInverseMass a + PhysicsBody.getInverseMass b) in *.
  assert (Hmoved : 0 < movedInverseMass a + movedInverseMass b <= total).
  { unfold total. split; [| lra].
    destruct Hdyn as [H | H];
      [pose proof (movedInverseMass_dynamic a Hma H)
      | pose proof (movedInverseMass_dynamic b Hmb H)]; lra. }
  assert (Hpen : 0 < pen) by (unfold pen; lra).
  pose proof (correction_share pen total _ Hpen Hmoved) as Hk.
  assert (Epen : pen = r1 + r2 - d) by reflexivity.
  assert (Hd' : d' = d + pen / total * (8 / 10)
                         * (movedInverseMass a + movedInverseMass b)).
  { unfold d', correction, correctionOf. fold total.
    rewrite position_correctedA, position_correctedB.
    unfold n. rewrite distance_after_push by exact Hd.
    fold d. rewrite Rabs_right; [ring | lra]. }
  split.
  - lra.
  - intros Ka Kb.
    rewrite Hd', (movedInverseMass_not_kinematic a Ka),
      (movedInverseMass_not_kinematic b Kb).
    fold total. rewrite Epen. field. lra.
Qed.

Lemma circleCircleCollision_fields : forall ra rb a b m,
  circleCircleCollision ra rb a b = Some m ->
  exists r1 r2,
    PhysicsBody.shape a = Circle r1 /\ PhysicsBody.shape b = Circle r2
    /\ Vector2.distanceTo (PhysicsBody.position a) (PhysicsBody.position b) < r1 + r2
    /\ normal m
       = Vector2.normalize
           (Vector2.subtract (PhysicsBody.position b) (PhysicsBody.position a))
    /\ penetration m
       = r1 + r2
         - Vector2.distanceTo (PhysicsBody.position a) (PhysicsBody.position b).
Proof.
  intros ra rb a b m H. unfold circleCircleCollision in H.
  destruct (PhysicsBody.shape a) as [r1 | |] eqn:Sa; try discriminate.
  destruct (PhysicsBody.shape b) as [r2 | |] eqn:Sb; try discriminate.
  cbv zeta in H.
  destruct (Rlt_b _ _) eqn:E; [| discriminate].
  apply Rlt_b_true in E. injection H as <-.
  exists r1, r2. simpl. auto.
Qed.

(** C2, as the code has it.  For a manifold between two distinct bodies
    (with a non-zero mass field, as the constructor builds them) whose
    inverse masses do not sum to zero, positional correction moves a
    body exactly when its type is ['dynamic'] (a static or a kinematic body
    stays where it is): A by the correction vector, normal * (penetration /
    invMassSum * 0.8), times A's inverse mass against the normal, B by the
    correction times B's inverse mass along it; the cached box of a moved
    body is recomputed, and no other object changes.  For a manifold the
    circle test has produced between circles with distinct centres and
    positive masses, at least one of them dynamic, testing the corrected
    bodies again gives a manifold whose penetration is strictly smaller,
    and exactly 20% of the old one when neither body is kinematic. *)
Theorem C2_correction_moves_dynamic_bodies : forall (hp : Heap) (ra rb : ref)
    (a b : PhysicsBody.t) (n : Vector2.t) (pen : R),
  deref hp ra = Some a ->
  deref hp rb = Some b ->
  ra <> rb ->
  wellFormed a -> wellFormed b ->
  PhysicsBody.getInverseMass a + PhysicsBody.getInverseMass b <> 0 ->
  let correction := correctionOf a b n pen in
  let hp' := resolvePosition hp ra rb n pen in
  (deref hp' ra = Some (correctedA a correction)
   /\ deref hp' rb = Some (correctedB b correction)
   /\ (forall r, r <> ra -> r <> rb -> deref hp' r = deref hp r))
  /\ (PhysicsBody.type a = Dynamic ->
      PhysicsBody.position (correctedA a correction)
      = Vector2.subtract (PhysicsBody.position a)
          (Vector2.multiply correction (PhysicsBody.getInverseMass a))
      /\ boundsFresh (correctedA a correction))
  /\ (PhysicsBody.type a <> Dynamic -> correctedA a correction = a)
  /\ (PhysicsBody.type b = Dynamic ->
      PhysicsBody.position (correctedB b correction)
      = Vector2.add (PhysicsBody.position b)
          (Vector2.multiply correction (PhysicsBody.getInverseMass b))
      /\ boundsFresh (correctedB b correction))
  /\ (PhysicsBody.type b <> Dynamic -> correctedB b correction = b)
  /\ (forall m,
        circleCircleCollision ra rb a b = Some m ->
        n = normal m -> pen = penetration m ->
        0 < Vector2.distanceTo (PhysicsBody.position a) (PhysicsBody.position b) ->
        0 < PhysicsBody.mass a -> 0 < PhysicsBody.mass b ->
        PhysicsBody.type a = Dynamic \/ PhysicsBody.type b = Dynamic ->
        exists m',
          circleCircleCollision ra rb (correctedA a correction)
                                (correctedB b correction) = Some m'
          /\ (2 / 10) * penetration m <= penetration m' < penetration m
          /\ (PhysicsBody.type a <> Kinematic -> PhysicsBody.type b <> Kinematic ->
              penetration m' = (2 / 10) * penetration m)).
Proof.
  intros hp ra rb a b n pen Ha Hb Hne _ _ Hz correction hp'.
  split; [exact (resolvePosition_spec hp ra rb a b n pen Ha Hb Hne Hz) |].
  split; [| split; [| split; [| split]]].
  - intros Ta. unfold correctedA. rewrite Ta.
    split; [reflexivity | apply boundsFresh_updateBounds].
  - intros Ta. unfold correctedA.
    destruct (PhysicsBody.type a); congruence.
  - intros Tb. unfold correctedB. rewrite Tb.
    split; [reflexivity | apply boundsFresh_updateBounds].
  - intros Tb. unfold correctedB.
    destruct (PhysicsBody.type b); congruence.
  - intros m Hm Hn Hp Hd Hma Hmb Hdyn.
    destruct (circleCircleCollision_fields _ _ _ _ _ Hm)
      as (r1 & r2 & Sa & Sb & Hlt & En & Ep).
    assert (Ec : correction
                 = correctionOf a b
                     (Vector2.normalize
                        (Vector2.subtract (PhysicsBody.position b)
                                          (PhysicsBody.position a)))
                     (r1 + r2 - Vector2.distanceTo (PhysicsBody.position a)
                                                   (PhysicsBody.position b)))
      by (unfold correction; rewrite Hn, Hp, En, Ep; reflexivity).
    destruct (circle_penetration_after_correction a b r1 r2 Sa Sb Hd Hlt Hma Hmb Hdyn)
      as [Hrange Hexact].
    rewrite <- Ec, <- Ep in Hrange, Hexact.
    assert (Hlt' : Vector2.distanceTo
                     (PhysicsBody.position (correctedA a correction))
                     (PhysicsBody.position (correctedB b correction)) < r1 + r2).
    { assert (0 < penetration m) by (rewrite Ep; lra). lra. }
    eexists. split.
    + apply (circleCircleCollision_hit ra rb _ _ r1 r2);
        [rewrite shape_correctedA; exact Sa
        | rewrite shape_correctedB; exact Sb
        | exact Hlt'].
    + simpl. split; [exact Hrange | exact Hexact].
Qed.

Lemma C2_correction_moves_dynamic_bodies_witness :
  exists m',
    circleCircleCollision 0 1
      (correctedA (circleA Dynamic)
         (correctionOf (circleA Dynamic) (circleB Dynamic) (Vector2.mk 1 0) 5))
      (correctedB (circleB Dynamic)
         (correctionOf (circleA Dynamic) (circleB Dynamic) (Vector2.mk 1 0) 5))
    = Some m'
    /\ penetration m' = 1.
Proof.
  assert (Ha : deref [circleA Dynamic; circleB Dynamic] 0 = Some (circleA Dynamic))
    by reflexivity.
  assert (Hb : deref [circleA Dynamic; circleB Dynamic] 1 = Some (circleB Dynamic))
    by reflexivity.
  assert (Hne : 0%nat <> 1%nat) by discriminate.
  assert (Hz : PhysicsBody.getInverseMass (circleA Dynamic)
               + PhysicsBody.getInverseMass (circleB Dynamic) <> 0).
  { cbn. rewrite orR_none. lra. }
  destruct (C2_correction_moves_dynamic_bodies _ 0 1 _ _ (Vector2.mk 1 0) 5
              Ha Hb Hne (new_wellFormed _ _) (new_wellFormed _ _) Hz)
    as (_ & _ & _ & _ & _ & Hcircle).
  destruct (Hcircle _ (circles_15_manifold Dynamic Dynamic) eq_refl eq_refl)
    as (m' & Hm' & _ & Hexact).
  - rewrite circles_15_apart. lra.
  - cbn. rewrite orR_none. lra.
  - cbn. rewrite orR_none. lra.
  - left. reflexivity.
  - exists m'. split; [exact Hm' |].
    rewrite Hexact by discriminate. cbn. lra.
Defined.

(** C2, as stated, fails: a kinematic body has a non-zero inverse mass, so
    the claim moves it by (-2, 0) here; the code leaves it at (0, 0). *)
Lemma C2_kinematic_body_is_not_displaced :
  circleCircleCollision 0 1 (circleA Kinematic) (circleB Dynamic)
  = Some (mkManifold 0 1 (Vector2.mk 1 0) 5 (Vector2.mk 10 0))
  /\ PhysicsBody.getInverseMass (circleA Kinematic)
     + PhysicsBody.getInverseMass (circleB Dynamic) = 2
  /\ PhysicsBody.getInverseMass (circleA Kinematic) = 1
  /\ Vector2.subtract (PhysicsBody.position (circleA Kinematic))
       (Vector2.multiply
          (correctionOf (circleA Kinematic) (circleB Dynamic) (Vector2.mk 1 0) 5)
          (PhysicsBody.getInverseMass (circleA Kinematic)))
     = Vector2.mk (-2) 0
  /\ deref (resolvePosition kinematicPair 0 1 (Vector2.mk 1 0) 5) 0
     = Some (circleA Kinematic)
  /\ PhysicsBody.position (circleA Kinematic) = Vector2.mk 0 0
  /\ Vector2.mk 0 0 <> Vector2.mk (-2) 0.
Proof.
  assert (Ia : PhysicsBody.getInverseMass (circleA Kinematic) = 1)
    by (cbn; rewrite orR_none; lra).
  assert (Ib : PhysicsBody.getInverseMass (circleB Dynamic) = 1)
    by (cbn; rewrite orR_none; lra).
  split; [apply circles_15_manifold |].
  split; [rewrite Ia, Ib; lra |].
  split; [exact Ia |].
  split.
  { unfold correctionOf. rewrite Ia, Ib. cbn.
    unfold Vector2.subtract, Vector2.multiply. cbn. f_equal; lra. }
  split.
  { assert (Hz : PhysicsBody.getInverseMass (circleA Kinematic)
                 + PhysicsBody.getInverseMass (circleB Dynamic) <> 0)
      by (rewrite Ia, Ib; lra).
    destruct (resolvePosition_spec kinematicPair 0 1 _ _ (Vector2.mk 1 0) 5
                eq_refl eq_refl (ltac:(discriminate)) Hz) as (H & _).
    exact H. }
  split; [reflexivity |].
  intros E. injection E as E. lra.
Qed.

(** ** Velocity resolution *)

Lemma applyToVelocities_spec : forall hp ra rb a b v,
  deref hp ra = Some a -> deref hp rb = Some b -> ra <> rb ->
  let hp' := applyToVelocities hp ra rb v in
  deref hp' ra = Some (impulsedA a v)
  /\ deref hp' rb = Some (impulsedB b v)
  /\ (forall r, r <> ra -> r <> rb -> deref hp' r = deref hp r).
Proof.
  intros hp ra rb a b v Ha Hb Hne. cbv zeta.
  unfold applyToVelocities, impulsedA, impulsedB. rewrite Ha.
  destruct (PhysicsBody.type a) eqn:Ta.
  - rewrite Hb. destruct (PhysicsBody.type b) eqn:Tb.
    + auto.
    + repeat split.
      * rewrite deref_store_other by congruence. exact Ha.
      * eapply deref_store_same; eauto.
      * intros r H1 H2. rewrite deref_store_other by congruence. reflexivity.
    + auto.
  - rewrite deref_store_other by congruence. rewrite Hb.
    destruct (PhysicsBody.type b) eqn:Tb.
    + repeat split.
      * eapply deref_store_same; eauto.
      * rewrite deref_store_other by congruence. exact Hb.
      * intros r H1 H2. rewrite deref_store_other by congruence. reflexivity.
    + repeat split.
      * rewrite deref_store_other by congruence. eapply deref_store_same; eauto.
      * eapply deref_store_same. rewrite deref_store_other by congruence. eauto.
      * intros r H1 H2. rewrite !deref_store_other by congruence. reflexivity.
    + repeat split.
      * eapply deref_store_same; eauto.
      * rewrite deref_store_other by congruence. exact Hb.
      * intros r H1 H2. rewrite deref_store_other by congruence. reflexivity.
  - rewrite Hb. destruct (PhysicsBody.type b) eqn:Tb.
    + auto.
    + repeat split.
      * rewrite deref_store_other by congruence. exact Ha.
      * eapply deref_store_same; eauto.
      * intros r H1 H2. rewrite deref_store_other by congruence. reflexivity.
    + auto.
Qed.

Lemma applyFriction_eq : forall hp ra rb a b n s,
  deref hp ra = Some a -> deref hp rb = Some b ->
  PhysicsBody.getInverseMass a + PhysicsBody.getInverseMass b <> 0 ->
  applyFriction hp ra rb n s = applyToVelocities hp ra rb (frictionOf a b n s).
Proof.
  intros hp ra rb a b n s Ha Hb Hz. unfold applyFriction. rewrite Ha, Hb.
  destruct (Req_dec_T _ 0) as [E | _]; [contradiction | reflexivity].
Qed.

Lemma resolveVelocity_separating : forall hp ra rb a b n,
  deref hp ra = Some a -> deref hp rb = Some b ->
  0 < velocityAlongNormal a b n ->
  resolveVelocity hp ra rb n = hp.
Proof.
  intros hp ra rb a b n Ha Hb Hv. unfold resolveVelocity. rewrite Ha, Hb.
  apply Rgt_b_true in Hv. unfold velocityAlongNormal in Hv. rewrite Hv.
  reflexivity.
Qed.

Lemma resolveVelocity_approaching : forall hp ra rb a b n,
  deref hp ra = Some a -> deref hp rb = Some b ->
  ~ 0 < velocityAlongNormal a b n ->
  PhysicsBody.getInverseMass a + PhysicsBody.getInverseMass b <> 0 ->
  resolveVelocity hp ra rb n
  = applyFriction (applyToVelocities hp ra rb (impulseOf a b n)) ra rb n
                  (impulseScalarOf a b n).
Proof.
  intros hp ra rb a b n Ha Hb Hv Hz. unfold resolveVelocity. rewrite Ha, Hb.
  apply Rgt_b_false in Hv. unfold velocityAlongNormal in Hv. rewrite Hv.
  destruct (Req_dec_T _ 0) as [E | _]; [contradiction | reflexivity].
Qed.

Lemma inverseMass_impulsedA : forall a v,
  PhysicsBody.getInverseMass (impulsedA a v) = PhysicsBody.getInverseMass a.
Proof.
  intros a v. unfold impulsedA. destruct (PhysicsBody.type a); reflexivity.
Qed.

Lemma inverseMass_impulsedB : forall b v,
  PhysicsBody.getInverseMass (impulsedB b v) = PhysicsBody.getInverseMass b.
Proof.
  intros b v. unfold impulsedB. destruct (PhysicsBody.type b); reflexivity.
Qed.

Lemma type_impulsedA : forall a v,
  PhysicsBody.type (impulsedA a v) = PhysicsBody.type a.
Proof.
  intros a v. unfold impulsedA. destruct (PhysicsBody.type a) eqn:E; auto.
Qed.

Lemma type_impulsedB : forall b v,
  PhysicsBody.type (impulsedB b v) = PhysicsBody.type b.
Proof.
  intros b v. unfold impulsedB. destruct (PhysicsBody.type b) eqn:E; auto.
Qed.

(** The two stages of [resolveVelocity] on an approaching pair. *)
Lemma resolveVelocity_spec : forall hp ra rb a b n,
  deref hp ra = Some a -> deref hp rb = Some b -> ra <> rb ->
  ~ 0 < velocityAlongNormal a b n ->
  PhysicsBody.getInverseMass a + PhysicsBody.getInverseMass b <> 0 ->
  let a1 := impulsedA a (impulseOf a b n) in
  let b1 := impulsedB b (impulseOf a b n) in
  let fr := frictionOf a1 b1 n (impulseScalarOf a b n) in
  let hp' := resolveVelocity hp ra rb n in
  deref hp' ra = Some (impulsedA a1 fr)
  /\ deref hp' rb = Some (impulsedB b1 fr)
  /\ (forall r, r <> ra -> r <> rb -> deref hp' r = deref hp r).
Proof.
  intros hp ra rb a b n Ha Hb Hne Hv Hz. cbv zeta.
  rewrite (resolveVelocity_approaching hp ra rb a b n Ha Hb Hv Hz).
  destruct (applyToVelocities_spec hp ra rb a b (impulseOf a b n) Ha Hb Hne)
    as (Ha1 & Hb1 & Ho1).
  rewrite (applyFriction_eq _ ra rb _ _ n _ Ha1 Hb1)
    by (rewrite inverseMass_impulsedA, inverseMass_impulsedB; exact Hz).
  destruct (applyToVelocities_spec _ ra rb _ _
              (frictionOf (impulsedA a (impulseOf a b n))
                          (impulsedB b (impulseOf a b n)) n
                          (impulseScalarOf a b n)) Ha1 Hb1 Hne)
    as (Ha2 & Hb2 & Ho2).
  repeat split; auto.
  intros r H1 H2. rewrite Ho2, Ho1; auto.
Qed.

Lemma dot_normalize_orthogonal : forall u n,
  Vector2.dot u n = 0 -> Vector2.dot (Vector2.normalize u) n = 0.
Proof.
  intros u n H. unfold Vector2.normalize. cbv zeta.
  destruct (Rlt_dec 0 (Vector2.magnitude u)) as [Hm | _]; [| exact H].
  unfold Vector2.divide.
  destruct (Req_dec_T (Vector2.magnitude u) 0) as [_ | Hne]; [exact H |].
  unfold Vector2.dot in *. cbn.
  transitivity ((Vector2.x u * Vector2.x n + Vector2.y u * Vector2.y n)
                / Vector2.magnitude u).
  - field. exact Hne.
  - rewrite H. field. exact Hne.
Qed.

Lemma tangent_orthogonal : forall rel n,
  Vector2.dot n n = 1 ->
  Vector2.dot
    (Vector2.normalize
       (Vector2.subtract rel (Vector2.multiply n (Vector2.dot rel n)))) n = 0.
Proof.
  intros rel n Hn. apply dot_normalize_orthogonal.
  unfold Vector2.dot in *. cbn.
  transitivity ((Vector2.x rel * Vector2.x n + Vector2.y rel * Vector2.y n)
                * (1 - (Vector2.x n * Vector2.x n + Vector2.y n * Vector2.y n))).
  - ring.
  - rewrite Hn. ring.
Qed.

Lemma frictionOf_orthogonal : forall a b n s,
  Vector2.dot n n = 1 -> Vector2.dot (frictionOf a b n s) n = 0.
Proof.
  intros a b n s Hn. unfold frictionOf. cbv zeta.
  pose proof (tangent_orthogonal
                (Vector2.subtract (PhysicsBody.velocity b) (PhysicsBody.velocity a))
                n Hn) as Ht.
  destruct (Rlt_b _ _); unfold Vector2.dot, Vector2.multiply in *; cbn in *;
    match goal with
    | |- ?tx * ?k * ?nx + ?ty * ?k * ?ny = 0 =>
        transitivity ((tx * nx + ty * ny) * k); [ring | rewrite Ht; ring]
    end.
Qed.

(** The relative normal velocity after the impulse and after friction. *)
Lemma restitution_law : forall a b n,
  PhysicsBody.type a = Dynamic -> PhysicsBody.type b = Dynamic ->
  Vector2.dot n n = 1 ->
  PhysicsBody.getInverseMass a + PhysicsBody.getInverseMass b <> 0 ->
  let a1 := impulsedA a (impulseOf a b n) in
  let b1 := impulsedB b (impulseOf a b n) in
  let fr := frictionOf a1 b1 n (impulseScalarOf a b n) in
  velocityAlongNormal a1 b1 n = - restitutionOf a b * velocityAlongNormal a b n
  /\ velocityAlongNormal (impulsedA a1 fr) (impulsedB b1 fr) n
     = - restitutionOf a b * velocityAlongNormal a b n.
Proof.
  intros a b n Ta Tb Hn Hz a1 b1 fr.
  assert (H1 : velocityAlongNormal a1 b1 n
               = - restitutionOf a b * velocityAlongNormal a b n).
  { unfold a1, b1, impulsedA, impulsedB. rewrite Ta, Tb.
    unfold velocityAlongNormal, impulseOf, impulseScalarOf, velocityAlongNormal.
    set (ia := PhysicsBody.getInverseMass a) in *.
    set (ib := PhysicsBody.getInverseMass b) in *.
    set (e := restitutionOf a b).
    unfold Vector2.dot in *. cbn.
    set (vn := (Vector2.x (PhysicsBody.velocity b) - Vector2.x (PhysicsBody.velocity a))
               * Vector2.x n
               + (Vector2.y (PhysicsBody.velocity b) - Vector2.y (PhysicsBody.velocity a))
                 * Vector2.y n).
    transitivity (vn + (- (1 + e) * vn / (ia + ib)) * (ia + ib)
                       * (Vector2.x n * Vector2.x n + Vector2.y n * Vector2.y n)).
    - unfold vn. field. exact Hz.
    - rewrite Hn. field. exact Hz. }
  split; [exact H1 |].
  rewrite <- H1.
  pose proof (frictionOf_orthogonal a1 b1 n (impulseScalarOf a b n) Hn) as Ho.
  fold fr in Ho.
  unfold impulsedA, impulsedB.
  unfold a1 at 1, b1 at 1. rewrite type_impulsedA, type_impulsedB, Ta, Tb.
  unfold velocityAlongNormal, Vector2.dot in *. cbn.
  match goal with
  | |- ?lhs = ?rhs =>
      transitivity (rhs + (Vector2.x fr * Vector2.x n + Vector2.y fr * Vector2.y n)
                          * (PhysicsBody.getInverseMass a1
                             + PhysicsBody.getInverseMass b1))
  end.
  - ring.
  - rewrite Ho. ring.
Qed.

Lemma impulsedA_not_dynamic : forall a v,
  PhysicsBody.type a <> Dynamic -> impulsedA a v = a.
Proof.
  intros a v H. unfold impulsedA. destruct (PhysicsBody.type a); congruence.
Qed.

Lemma impulsedB_not_dynamic : forall b v,
  PhysicsBody.type b <> Dynamic -> impulsedB b v = b.
Proof.
  intros b v H. unfold impulsedB. destruct (PhysicsBody.type b); congruence.
Qed.

(** C3, as the code has it, for two distinct bodies with a non-zero mass
    field.  Velocity resolution projects velB - velA on the normal.  If the projection is positive nothing changes; if the
    inverse masses sum to zero nothing changes either.  Otherwise the
    impulse normal * (-(1 + min(restitutionA, restitutionB)) * projection /
    invMassSum) is subtracted from A's velocity and added to B's, each
    scaled by the body's inverse mass, for a body of type ['dynamic'] only
    (a static or kinematic body keeps its velocity), and friction is then
    applied in the same way to the result.  For two dynamic bodies, a unit
    normal, a non-zero sum of inverse masses and friction coefficients of
    one sign, which covers the 1D equal-mass head-on collision, the
    relative velocity along the normal after the whole resolution is
    -e times the one before, e being the smaller restitution. *)
Theorem C3_velocity_resolution : forall (hp : Heap) (ra rb : ref)
    (a b : PhysicsBody.t) (n : Vector2.t),
  deref hp ra = Some a ->
  deref hp rb = Some b ->
  ra <> rb ->
  wellFormed a -> wellFormed b ->
  let vn := velocityAlongNormal a b n in
  let total := PhysicsBody.getInverseMass a + PhysicsBody.getInverseMass b in
  let impulse := impulseOf a b n in
  let a1 := impulsedA a impulse in
  let b1 := impulsedB b impulse in
  let fr := frictionOf a1 b1 n (impulseScalarOf a b n) in
  let hp' := resolveVelocity hp ra rb n in
  (0 < vn -> hp' = hp)
  /\ (~ 0 < vn -> total = 0 -> hp' = hp)
  /\ (~ 0 < vn -> total <> 0 ->
      deref hp' ra = Some (impulsedA a1 fr)
      /\ deref hp' rb = Some (impulsedB b1 fr)
      /\ (forall r, r <> ra -> r <> rb -> deref hp' r = deref hp r))
  /\ impulse
     = Vector2.multiply n
         (- (1 + Rmin (restitution (PhysicsBody.material a))
                      (restitution (PhysicsBody.material b))) * vn / total)
  /\ (PhysicsBody.type a = Dynamic ->
      PhysicsBody.velocity a1
      = Vector2.subtract (PhysicsBody.velocity a)
          (Vector2.multiply impulse (PhysicsBody.getInverseMass a)))
  /\ (PhysicsBody.type b = Dynamic ->
      PhysicsBody.velocity b1
      = Vector2.add (PhysicsBody.velocity b)
          (Vector2.multiply impulse (PhysicsBody.getInverseMass b)))
  /\ (PhysicsBody.type a <> Dynamic -> impulsedA a1 fr = a)
  /\ (PhysicsBody.type b <> Dynamic -> impulsedB b1 fr = b)
  /\ (PhysicsBody.type a = Dynamic -> PhysicsBody.type b = Dynamic ->
      Vector2.dot n n = 1 -> total <> 0 ->
      0 <= friction (PhysicsBody.material a) * friction (PhysicsBody.material b) ->
      velocityAlongNormal a1 b1 n = - restitutionOf a b * vn
      /\ velocityAlongNormal (impulsedA a1 fr) (impulsedB b1 fr) n
         = - restitutionOf a b * vn).
Proof.
  intros hp ra rb a b n Ha Hb Hne _ _ vn total impulse a1 b1 fr hp'.
  split; [intros Hv; exact (resolveVelocity_separating hp ra rb a b n Ha Hb Hv) |].
  split; [intros _ Hz; exact (resolveVelocity_skip hp ra rb a b n Ha Hb Hz) |].
  split; [intros Hv Hz; exact (resolveVelocity_spec hp ra rb a b n Ha Hb Hne Hv Hz) |].
  split; [reflexivity |].
  split; [intros Ta; unfold a1, impulsedA; rewrite Ta; reflexivity |].
  split; [intros Tb; unfold b1, impulsedB; rewrite Tb; reflexivity |].
  split.
  { intros Ta. unfold a1. rewrite (impulsedA_not_dynamic a impulse Ta).
    apply impulsedA_not_dynamic. exact Ta. }
  split.
  { intros Tb. unfold b1. rewrite (impulsedB_not_dynamic b impulse Tb).
    apply impulsedB_not_dynamic. exact Tb. }
  intros Ta Tb Hn Hz _. exact (restitution_law a b n Ta Tb Hn Hz).
Qed.

Lemma headOn_inverseMass : forall ta tb,
  ta <> Static -> tb <> Static ->
  PhysicsBody.getInverseMass (headOnA ta) = 1
  /\ PhysicsBody.getInverseMass (headOnB tb) = 1.
Proof.
  intros ta tb Ha Hb. unfold PhysicsBody.getInverseMass. cbn.
  destruct ta, tb; try congruence; rewrite orR_none; lra.
Qed.

Lemma headOn_velocityAlongNormal : forall ta tb,
  velocityAlongNormal (headOnA ta) (headOnB tb) (Vector2.mk 1 0) = -2.
Proof.
  intros ta tb. unfold velocityAlongNormal, Vector2.dot. cbn. lra.
Qed.

Lemma headOn_restitution : forall ta tb,
  restitutionOf (headOnA ta) (headOnB tb) = 2 / 10.
Proof.
  intros ta tb. unfold restitutionOf. cbn. apply Rmin_left. lra.
Qed.

Lemma C3_velocity_resolution_witness :
  exists a' b',
    deref (resolveVelocity [headOnA Dynamic; headOnB Dynamic] 0 1 (Vector2.mk 1 0)) 0
    = Some a'
    /\ deref (resolveVelocity [headOnA Dynamic; headOnB Dynamic] 0 1 (Vector2.mk 1 0)) 1
       = Some b'
    /\ velocityAlongNormal (headOnA Dynamic) (headOnB Dynamic) (Vector2.mk 1 0) = -2
    /\ velocityAlongNormal a' b' (Vector2.mk 1 0) = - (2 / 10) * -2.
Proof.
  assert (Ha : deref [headOnA Dynamic; headOnB Dynamic] 0 = Some (headOnA Dynamic))
    by reflexivity.
  assert (Hb : deref [headOnA Dynamic; headOnB Dynamic] 1 = Some (headOnB Dynamic))
    by reflexivity.
  assert (Hne : 0%nat <> 1%nat) by discriminate.
  destruct (headOn_inverseMass Dynamic Dynamic) as [Ia Ib]; try discriminate.
  assert (Hz : PhysicsBody.getInverseMass (headOnA Dynamic)
               + PhysicsBody.getInverseMass (headOnB Dynamic) <> 0)
    by (rewrite Ia, Ib; lra).
  assert (Hv : ~ 0 < velocityAlongNormal (headOnA Dynamic) (headOnB Dynamic)
                                         (Vector2.mk 1 0))
    by (rewrite headOn_velocityAlongNormal; lra).
  assert (Hn : Vector2.dot (Vector2.mk 1 0) (Vector2.mk 1 0) = 1)
    by (unfold Vector2.dot; cbn; lra).
  destruct (C3_velocity_resolution _ 0 1 _ _ (Vector2.mk 1 0) Ha Hb Hne
              (new_wellFormed _ _) (new_wellFormed _ _))
    as (_ & _ & Hres & _ & _ & _ & _ & _ & Hlaw).
  destruct (Hres Hv Hz) as (Ha' & Hb' & _).
  assert (Hf : 0 <= friction (PhysicsBody.material (headOnA Dynamic))
                    * friction (PhysicsBody.material (headOnB Dynamic)))
    by (cbn; lra).
  destruct (Hlaw eq_refl eq_refl Hn Hz Hf) as (_ & Hfinal).
  eexists. eexists.
  split; [exact Ha' |]. split; [exact Hb' |].
  split; [apply headOn_velocityAlongNormal |].
  rewrite Hfinal, headOn_restitution, headOn_velocityAlongNormal. reflexivity.
Defined.

(** C3, as stated, fails: with a kinematic body A of inverse mass 1 moving
    against a dynamic body B, the claim subtracts the impulse from A's
    velocity, (1, 0) becoming (-0.2, 0); the code leaves it at (1, 0). *)
Lemma C3_kinematic_body_gets_no_impulse :
  velocityAlongNormal (headOnA Kinematic) (headOnB Dynamic) (Vector2.mk 1 0) = -2
  /\ PhysicsBody.getInverseMass (headOnA Kinematic) = 1
  /\ Vector2.subtract (PhysicsBody.velocity (headOnA Kinematic))
       (Vector2.multiply
          (impulseOf (headOnA Kinematic) (headOnB Dynamic) (Vector2.mk 1 0))
          (PhysicsBody.getInverseMass (headOnA Kinematic)))
     = Vector2.mk (- 2 / 10) 0
  /\ deref (resolveVelocity [headOnA Kinematic; headOnB Dynamic] 0 1 (Vector2.mk 1 0)) 0
     = Some (headOnA Kinematic)
  /\ PhysicsBody.velocity (headOnA Kinematic) = Vector2.mk 1 0
  /\ Vector2.mk 1 0 <> Vector2.mk (- 2 / 10) 0.
Proof.
  destruct (headOn_inverseMass Kinematic Dynamic) as [Ia Ib]; try discriminate.
  pose proof (headOn_velocityAlongNormal Kinematic Dynamic) as Hvn.
  split; [exact Hvn |]. split; [exact Ia |].
  split.
  { unfold impulseOf, impulseScalarOf.
    rewrite Hvn, Ia, Ib, headOn_restitution.
    unfold Vector2.subtract, Vector2.multiply. cbn. f_equal; lra. }
  split.
  { assert (Hz : PhysicsBody.getInverseMass (headOnA Kinematic)
                 + PhysicsBody.getInverseMass (headOnB Dynamic) <> 0)
      by (rewrite Ia, Ib; lra).
    assert (Hv : ~ 0 < velocityAlongNormal (headOnA Kinematic) (headOnB Dynamic)
                                           (Vector2.mk 1 0))
      by (rewrite Hvn; lra).
    destruct (resolveVelocity_spec [headOnA Kinematic; headOnB Dynamic] 0 1 _ _
                (Vector2.mk 1 0) eq_refl eq_refl (ltac:(discriminate)) Hv Hz)
      as (H & _).
    rewrite H. reflexivity. }
  split; [reflexivity |].
  intros E. injection E as E. lra.
Qed.

(** ** The registry *)

Lemma map_fst_delete_NoDup : forall {V} (m : list (string * V)) k,
  NoDup (map fst m) -> NoDup (map fst (JsMap.delete String.eqb m k)).
Proof.
  intros V m k. induction m as [| [k' v] rest IH]; simpl; intros H; auto.
  inversion H as [| ? ? Hnotin Hnd]; subst.
  destruct (negb (String.eqb k k')); simpl; auto.
  constructor; auto.
  intros Hin. apply Hnotin.
  apply in_map_iff in Hin. destruct Hin as [[k0 v0] [E Hin]].
  simpl in E. subst k0.
  apply (JsMap_In_delete _ string_eqb_spec) in Hin. destruct Hin as [Hin _].
  apply (in_map fst) in Hin. exact Hin.
Qed.

Lemma length_delete_present : forall {V} (m : list (string * V)) k v,
  NoDup (map fst m) -> In (k, v) m ->
  S (List.length (JsMap.delete String.eqb m k)) = List.length m.
Proof.
  intros V m k v. induction m as [| [k' v'] rest IH]; simpl; intros Hnd Hin.
  - contradiction.
  - inversion Hnd as [| ? ? Hnotin Hnd']; subst.
    destruct Hin as [E | Hin].
    + injection E as -> ->. rewrite String.eqb_refl. simpl.
      f_equal. unfold JsMap.delete.
      assert (Hall : forall kv, In kv rest -> negb (String.eqb k (fst kv)) = true).
      { intros [k0 v0] H0. simpl. apply negb_true_iff.
        apply String.eqb_neq. intros ->. apply Hnotin.
        apply (in_map fst) in H0. exact H0. }
      clear - Hall. induction rest as [| kv rest IH]; simpl; auto.
      rewrite Hall by (left; reflexivity). simpl. f_equal.
      apply IH. intros kv' H. apply Hall. right. exact H.
    + destruct (String.eqb k k') eqn:E.
      * apply String.eqb_eq in E. subst k'. exfalso. apply Hnotin.
        apply (in_map fst) in Hin. exact Hin.
      * simpl. f_equal. apply IH; auto.
Qed.

Lemma NoDup_ids_deref_inj : forall (hp : Heap) r r' b b',
  NoDup (map PhysicsBody.id hp) ->
  deref hp r = Some b -> deref hp r' = Some b' ->
  PhysicsBody.id b = PhysicsBody.id b' -> r = r'.
Proof.
  intros hp r r' b b' Hnd Hr Hr' E. unfold deref in *.
  assert (L : (r < List.length (map PhysicsBody.id hp))%nat).
  { rewrite length_map. apply nth_error_Some. congruence. }
  apply (proj1 (NoDup_nth_error (map PhysicsBody.id hp)) Hnd r r' L).
  rewrite !nth_error_map, Hr, Hr'. simpl. congruence.
Qed.

Lemma registryInvariant_new : registryInvariant newWorld.
Proof.
  constructor; simpl.
  - constructor.
  - constructor.
  - intros k r [].
  - intros r. split; [intros [] | intros (k & b & [] & _)].
  - intros r. split; [intros [] | intros (k & b & [] & _)].
  - reflexivity.
Qed.

Lemma registered_key_in_heap : forall w k r,
  registryInvariant w -> In (k, r) (PhysicsEngine.bodies (physics w)) ->
  In k (map PhysicsBody.id (heap w)).
Proof.
  intros w k r I Hin. destruct (keyed_by_id w I k r Hin) as (b & Hd & <-).
  apply in_map. unfold deref in Hd. eapply nth_error_In; eauto.
Qed.

Lemma fresh_id_not_key : forall w newId,
  registryInvariant w -> idFresh w newId ->
  JsMap.get String.eqb (PhysicsEngine.bodies (physics w)) newId = None.
Proof.
  intros w newId I Hf. apply (JsMap_get_None _ string_eqb_spec).
  intros Hin. apply in_map_iff in Hin. destruct Hin as [[k r] [E Hin]].
  simpl in E. subst k. apply Hf. eapply registered_key_in_heap; eauto.
Qed.

Lemma createBody_bodies : forall w o newId,
  registryInvariant w -> idFresh w newId ->
  PhysicsEngine.bodies (physics (fst (createBody w o newId)))
  = PhysicsEngine.bodies (physics w) ++ [(newId, List.length (heap w))].
Proof.
  intros w o newId I Hf. unfold createBody. cbn.
  apply (JsMap_set_fresh _). apply fresh_id_not_key; auto.
Qed.

Lemma registered_ref_lt : forall w k r,
  registryInvariant w -> In (k, r) (PhysicsEngine.bodies (physics w)) ->
  (r < List.length (heap w))%nat.
Proof.
  intros w k r I Hin. destruct (keyed_by_id w I k r Hin) as (b & Hd & _).
  eapply deref_Some_lt; eauto.
Qed.

Lemma createBody_static : forall w o newId,
  PhysicsEngine.staticBodies (physics (fst (createBody w o newId)))
  = match PhysicsBody.type (PhysicsBody.new o newId) with
    | Static => JsSet.add Nat.eqb (PhysicsEngine.staticBodies (physics w))
                          (List.length (heap w))
    | _ => PhysicsEngine.staticBodies (physics w)
    end.
Proof. reflexivity. Qed.

Lemma createBody_dynamic : forall w o newId,
  PhysicsEngine.dynamicBodies (physics (fst (createBody w o newId)))
  = match PhysicsBody.type (PhysicsBody.new o newId) with
    | Static => PhysicsEngine.dynamicBodies (physics w)
    | _ => JsSet.add Nat.eqb (PhysicsEngine.dynamicBodies (physics w))
                     (List.length (heap w))
    end.
Proof. reflexivity. Qed.

Lemma createBody_count : forall w o newId,
  bodyCount (PhysicsEngine.stats (physics (fst (createBody w o newId))))
  = (bodyCount (PhysicsEngine.stats (physics w)) + 1)%Z.
Proof. reflexivity. Qed.

Lemma createBody_preserves : forall w o newId,
  registryInvariant w -> idFresh w newId ->
  registryInvariant (fst (createBody w o newId)).
Proof.
  intros w o newId I Hf.
  pose proof (createBody_bodies w o newId I Hf) as Eb.
  set (r0 := List.length (heap w)) in *.
  set (b0 := PhysicsBody.new o newId) in *.
  assert (Hlt : forall k r, In (k, r) (PhysicsEngine.bodies (physics w)) -> r <> r0).
  { intros k r Hin. pose proof (registered_ref_lt w k r I Hin). unfold r0. lia. }
  assert (Hold : forall k r, In (k, r) (PhysicsEngine.bodies (physics w)) ->
                 deref (heap w ++ [b0]) r = deref (heap w) r).
  { intros k r Hin. apply deref_alloc_old. eapply registered_ref_lt; eauto. }
  constructor.
  - rewrite Eb, map_app. simpl.
    apply NoDup_app; [exact (keys_unique w I) | repeat constructor; intros [] | ].
    intros k Hin [E | []]. subst k.
    apply in_map_iff in Hin. destruct Hin as [[k r] [E Hin]]. simpl in E. subst k.
    apply Hf. eapply registered_key_in_heap; eauto.
  - rewrite createBody_heap, map_app. simpl.
    apply NoDup_app; [exact (ids_unique w I) | repeat constructor; intros [] | ].
    intros k Hin [E | []]. subst k. apply Hf. exact Hin.
  - intros k r Hin. rewrite Eb in Hin. rewrite createBody_heap. fold b0.
    apply in_app_iff in Hin. destruct Hin as [Hin | [E | []]].
    + rewrite (Hold k r Hin). exact (keyed_by_id w I k r Hin).
    + injection E as <- <-. exists b0. split; [apply deref_alloc_new | reflexivity].
  - intros r. rewrite Eb, createBody_heap, createBody_static.
    fold b0 r0. split.
    + intros Hin.
      assert (Hcase : In r (PhysicsEngine.staticBodies (physics w))
                      \/ (r = r0 /\ PhysicsBody.type b0 = Static)).
      { destruct (PhysicsBody.type b0) eqn:T; auto.
        apply (JsSet_In_add _ nat_eqb_spec) in Hin. destruct Hin; auto. }
      destruct Hcase as [Hs | [-> T]].
      * apply (static_set w I) in Hs. destruct Hs as (k & b & Hin' & Hd & T).
        exists k, b. rewrite in_app_iff, (Hold k r Hin'). auto.
      * exists newId, b0. rewrite in_app_iff. simpl.
        split; [auto |]. split; [apply deref_alloc_new | exact T].
    + intros (k & b & Hin & Hd & T).
      apply in_app_iff in Hin. destruct Hin as [Hin | [E | []]].
      * rewrite (Hold k r Hin) in Hd.
        assert (Hs : In r (PhysicsEngine.staticBodies (physics w)))
          by (apply (static_set w I); eauto).
        destruct (PhysicsBody.type b0); auto.
        apply (JsSet_In_add _ nat_eqb_spec). auto.
      * injection E as <- <-. unfold r0 in Hd. rewrite deref_alloc_new in Hd.
        injection Hd as <-. fold r0. rewrite T.
        apply (JsSet_In_add _ nat_eqb_spec). auto.
  - intros r. rewrite Eb, createBody_heap, createBody_dynamic.
    fold b0 r0. split.
    + intros Hin.
      assert (Hcase : In r (PhysicsEngine.dynamicBodies (physics w))
                      \/ (r = r0 /\ PhysicsBody.type b0 <> Static)).
      { destruct (PhysicsBody.type b0) eqn:T; auto;
          apply (JsSet_In_add _ nat_eqb_spec) in Hin;
          destruct Hin; auto; right; split; auto; discriminate. }
      destruct Hcase as [Hs | [-> T]].
      * apply (dynamic_set w I) in Hs. destruct Hs as (k & b & Hin' & Hd & T).
        exists k, b. rewrite in_app_iff, (Hold k r Hin'). auto.
      * exists newId, b0. rewrite in_app_iff. simpl.
        split; [auto |]. split; [apply deref_alloc_new | exact T].
    + intros (k & b & Hin & Hd & T).
      apply in_app_iff in Hin. destruct Hin as [Hin | [E | []]].
      * rewrite (Hold k r Hin) in Hd.
        assert (Hs : In r (PhysicsEngine.dynamicBodies (physics w)))
          by (apply (dynamic_set w I); eauto).
        destruct (PhysicsBody.type b0); auto;
          apply (JsSet_In_add _ nat_eqb_spec); auto.
      * injection E as <- <-. unfold r0 in Hd. rewrite deref_alloc_new in Hd.
        injection Hd as <-. fold r0.
        destruct (PhysicsBody.type b0); try congruence;
          apply (JsSet_In_add _ nat_eqb_spec); auto.
  - rewrite Eb, length_app, createBody_count.
    rewrite (count_is_size w I). simpl. lia.
Qed.

Lemma removeBody_registered : forall w r b,
  deref (heap w) r = Some b ->
  JsMap.has String.eqb (PhysicsEngine.bodies (physics w)) (PhysicsBody.id b) = true ->
  removeBody w r
  = mkWorld (heap w)
      (PhysicsEngine.set_registry (physics w)
         (JsMap.delete String.eqb (PhysicsEngine.bodies (physics w)) (PhysicsBody.id b))
         (JsSet.delete Nat.eqb (PhysicsEngine.staticBodies (physics w)) r)
         (JsSet.delete Nat.eqb (PhysicsEngine.dynamicBodies (physics w)) r)
         (bodyCount (PhysicsEngine.stats (physics w)) - 1)%Z)
      (bus w).
Proof.
  intros w r b Hd Hh. unfold removeBody. rewrite Hd, Hh. reflexivity.
Qed.

Lemma removeBody_unregistered : forall w r,
  (forall b, deref (heap w) r = Some b ->
     JsMap.has String.eqb (PhysicsEngine.bodies (physics w)) (PhysicsBody.id b) = false) ->
  removeBody w r = w.
Proof.
  intros w r H. unfold removeBody.
  destruct (deref (heap w) r) as [b |] eqn:Hd; [| reflexivity].
  rewrite (H b eq_refl). reflexivity.
Qed.

(** With unique ids, the entry whose key is a body's id points to that body. *)
Lemma has_id_registered : forall w r b,
  registryInvariant w -> deref (heap w) r = Some b ->
  JsMap.has String.eqb (PhysicsEngine.bodies (physics w)) (PhysicsBody.id b) = true ->
  In (PhysicsBody.id b, r) (PhysicsEngine.bodies (physics w)).
Proof.
  intros w r b I Hd Hh. unfold JsMap.has in Hh.
  destruct (JsMap.get String.eqb (PhysicsEngine.bodies (physics w)) (PhysicsBody.id b))
    as [r' |] eqn:G; [| discriminate].
  apply (JsMap_get_In _ string_eqb_spec) in G.
  destruct (keyed_by_id w I _ _ G) as (b' & Hd' & E).
  assert (r' = r) by (eapply NoDup_ids_deref_inj; eauto using ids_unique).
  subst r'. exact G.
Qed.

Lemma entry_ref_iff_key : forall w r b k r',
  registryInvariant w -> deref (heap w) r = Some b ->
  In (PhysicsBody.id b, r) (PhysicsEngine.bodies (physics w)) ->
  In (k, r') (PhysicsEngine.bodies (physics w)) ->
  (r' <> r <-> k <> PhysicsBody.id b).
Proof.
  intros w r b k r' I Hd Hin Hin'. split.
  - intros Hne E. subst k. apply Hne.
    pose proof (JsMap_In_get _ string_eqb_spec _ _ _ (keys_unique w I) Hin) as G1.
    pose proof (JsMap_In_get _ string_eqb_spec _ _ _ (keys_unique w I) Hin') as G2.
    congruence.
  - intros Hne E. subst r'. apply Hne.
    destruct (keyed_by_id w I _ _ Hin') as (b' & Hd' & E). congruence.
Qed.

Lemma removeBody_preserves : forall w r,
  registryInvariant w -> registryInvariant (removeBody w r).
Proof.
  intros w r I.
  destruct (deref (heap w) r) as [b |] eqn:Hd.
  2:{ rewrite removeBody_unregistered; [exact I | intros b; congruence]. }
  destruct (JsMap.has String.eqb (PhysicsEngine.bodies (physics w)) (PhysicsBody.id b))
    eqn:Hh.
  2:{ rewrite removeBody_unregistered; [exact I |].
      intros b' Hb'. congruence. }
  rewrite (removeBody_registered w r b Hd Hh).
  pose proof (has_id_registered w r b I Hd Hh) as Hin.
  pose proof (entry_ref_iff_key w r b) as Hiff.
  constructor; cbn.
  - apply map_fst_delete_NoDup. exact (keys_unique w I).
  - exact (ids_unique w I).
  - intros k r' Hin'. apply (JsMap_In_delete _ string_eqb_spec) in Hin'.
    destruct Hin' as [Hin' _]. exact (keyed_by_id w I k r' Hin').
  - intros r'. rewrite (JsSet_In_delete _ nat_eqb_spec), (static_set w I). split.
    + intros [(k & b' & Hin' & Hd' & T) Hne].
      exists k, b'. split; [| auto].
      apply (JsMap_In_delete _ string_eqb_spec). split; [exact Hin' |].
      simpl. apply (Hiff k r' I Hd Hin Hin'). exact Hne.
    + intros (k & b' & Hin' & Hd' & T).
      apply (JsMap_In_delete _ string_eqb_spec) in Hin'. destruct Hin' as [Hin' Hk].
      simpl in Hk. split; [eauto |].
      apply (Hiff k r' I Hd Hin Hin'). exact Hk.
  - intros r'. rewrite (JsSet_In_delete _ nat_eqb_spec), (dynamic_set w I). split.
    + intros [(k & b' & Hin' & Hd' & T) Hne].
      exists k, b'. split; [| auto].
      apply (JsMap_In_delete _ string_eqb_spec). split; [exact Hin' |].
      simpl. apply (Hiff k r' I Hd Hin Hin'). exact Hne.
    + intros (k & b' & Hin' & Hd' & T).
      apply (JsMap_In_delete _ string_eqb_spec) in Hin'. destruct Hin' as [Hin' Hk].
      simpl in Hk. split; [eauto |].
      apply (Hiff k r' I Hd Hin Hin'). exact Hk.
  - rewrite (count_is_size w I).
    pose proof (length_delete_present _ _ _ (keys_unique w I) Hin). lia.
Qed.

Lemma run_preserves : forall calls w,
  registryInvariant w -> idsFresh calls w -> registryInvariant (run calls w).
Proof.
  induction calls as [| c rest IH]; intros w I Hf; simpl in *.
  - exact I.
  - destruct Hf as [Hc Hrest]. apply IH; [| exact Hrest].
    destruct c as [o newId | r]; simpl.
    + apply createBody_preserves; assumption.
    + apply removeBody_preserves; assumption.
Qed.

Lemma registryInvariant_partition : forall w,
  registryInvariant w -> registryPartition w.
Proof.
  intros w I. split; [| split].
  - intros k r Hin. destruct (keyed_by_id w I k r Hin) as (b & Hd & E).
    exists b. split; [exact Hd |].
    assert (Hs : PhysicsBody.type b = Static ->
                 In r (PhysicsEngine.staticBodies (physics w))
                 /\ ~ In r (PhysicsEngine.dynamicBodies (physics w))).
    { intros T. split; [apply (static_set w I); eauto |].
      intros Hdy. apply (dynamic_set w I) in Hdy.
      destruct Hdy as (k' & b' & _ & Hd' & T'). congruence. }
    assert (Hn : PhysicsBody.type b <> Static ->
                 In r (PhysicsEngine.dynamicBodies (physics w))
                 /\ ~ In r (PhysicsEngine.staticBodies (physics w))).
    { intros T. split; [apply (dynamic_set w I); eauto |].
      intros Hst. apply (static_set w I) in Hst.
      destruct Hst as (k' & b' & _ & Hd' & T'). congruence. }
    destruct (PhysicsBody.type b); [apply Hs; reflexivity | |];
      apply Hn; discriminate.
  - intros r [Hs | Hdy].
    + apply (static_set w I) in Hs. destruct Hs as (k & b & Hin & _).
      apply (in_map snd) in Hin. exact Hin.
    + apply (dynamic_set w I) in Hdy. destruct Hdy as (k & b & Hin & _).
      apply (in_map snd) in Hin. exact Hin.
  - exact (count_is_size w I).
Qed.

(** C10: starting from a fresh engine, after any sequence of [createBody]
    and [removeBody] calls in which every id drawn is new, each registered
    body is in exactly one type set (the static set when its type is
    ['static'], the dynamic set otherwise), both sets hold registered
    bodies only, and [bodyCount] is the number of registered bodies; one
    more [createBody] (with a new id) or [removeBody] keeps all of this. *)
Theorem C10_registry_stays_consistent : forall calls : list RegistryCall,
  idsFresh calls newWorld ->
  registryPartition (run calls newWorld)
  /\ registryInvariant (run calls newWorld)
  /\ (forall o newId,
        idFresh (run calls newWorld) newId ->
        registryPartition (fst (createBody (run calls newWorld) o newId))
        /\ registryInvariant (fst (createBody (run calls newWorld) o newId)))
  /\ (forall r,
        registryPartition (removeBody (run calls newWorld) r)
        /\ registryInvariant (removeBody (run calls newWorld) r)).
Proof.
  intros calls Hf.
  pose proof (run_preserves calls newWorld registryInvariant_new Hf) as I.
  split; [apply registryInvariant_partition; exact I |].
  split; [exact I |].
  split.
  - intros o newId Hid.
    pose proof (createBody_preserves _ o newId I Hid) as I'.
    split; [apply registryInvariant_partition |]; exact I'.
  - intros r. pose proof (removeBody_preserves _ r I) as I'.
    split; [apply registryInvariant_partition |]; exact I'.
Qed.

Lemma C10_registry_stays_consistent_witness :
  registryPartition (run demoCalls newWorld)
  /\ PhysicsEngine.bodies (physics (run demoCalls newWorld)) = [("r1"%string, 1%nat)]
  /\ PhysicsEngine.staticBodies (physics (run demoCalls newWorld)) = [1%nat]
  /\ PhysicsEngine.dynamicBodies (physics (run demoCalls newWorld)) = []
  /\ bodyCount (PhysicsEngine.stats (physics (run demoCalls newWorld))) = 1%Z.
Proof.
  assert (Hf : idsFresh demoCalls newWorld).
  { simpl. unfold idFresh. simpl. repeat split; auto.
    intros [E | []]. discriminate. }
  destruct (C10_registry_stays_consistent demoCalls Hf) as (Hp & _).
  split; [exact Hp |].
  repeat split.
Defined.

(** Why ids must be new: a second body drawn with the id of a registered
    one replaces its map entry, while the old body stays in its type set
    and [bodyCount] still grows. *)
Lemma repeated_id_breaks_the_count :
  PhysicsEngine.bodies
    (physics (run [CallCreate Options.empty "x"; CallCreate Options.empty "x"]
                  newWorld))
  = [("x"%string, 1%nat)]
  /\ PhysicsEngine.dynamicBodies
       (physics (run [CallCreate Options.empty "x"; CallCreate Options.empty "x"]
                     newWorld))
     = [0%nat; 1%nat]
  /\ bodyCount
       (PhysicsEngine.stats
          (physics (run [CallCreate Options.empty "x"; CallCreate Options.empty "x"]
                        newWorld)))
     = 2%Z.
Proof. repeat split. Qed.

(** ** The ray caster *)

Lemma comesBefore_le : forall h h',
  comesBefore h h' = true -> hitLe h h'.
Proof.
  intros h h'. unfold comesBefore, hitLe.
  destruct (distance h) as [u | | |], (distance h') as [v | | |];
    simpl; try discriminate; auto.
  intros H. apply Rlt_b_true in H. apply Rle_b_true. lra.
Qed.

Lemma not_comesBefore_ge : forall h h',
  isNumber (distance h) -> isNumber (distance h') ->
  comesBefore h h' = false -> hitLe h' h.
Proof.
  intros h h'. unfold comesBefore, hitLe, isNumber.
  destruct (distance h) as [u | | |], (distance h') as [v | | |];
    simpl; try discriminate; try congruence; auto.
  intros _ _ H. apply Rlt_b_false in H. apply Rle_b_true. lra.
Qed.

Lemma insertHit_In : forall h l x, In x (insertHit h l) <-> x = h \/ In x l.
Proof.
  intros h l x. induction l as [| h' rest IH]; simpl.
  - split; intros [H | H]; auto.
  - destruct (comesBefore h h'); simpl.
    + split; intros [H | H]; auto.
    + rewrite IH. tauto.
Qed.

Lemma insertHit_HdRel : forall h l x,
  hitLe x h -> HdRel hitLe x l -> HdRel hitLe x (insertHit h l).
Proof.
  intros h l x Hx Hl. destruct l as [| h' rest]; simpl.
  - constructor. exact Hx.
  - destruct (comesBefore h h'); constructor; auto.
    inversion Hl; auto.
Qed.

Lemma insertHit_Sorted : forall h l,
  isNumber (distance h) ->
  Forall (fun x => isNumber (distance x)) l ->
  Sorted hitLe l -> Sorted hitLe (insertHit h l).
Proof.
  intros h l Hh. induction l as [| h' rest IH]; intros Hn Hs; simpl.
  - repeat constructor.
  - inversion Hn as [| ? ? Hn' Hnrest]; subst.
    inversion Hs as [| ? ? Hsrest Hhd]; subst.
    destruct (comesBefore h h') eqn:E.
    + constructor; [exact Hs |]. constructor. apply comesBefore_le. exact E.
    + constructor; [apply IH; assumption |].
      apply insertHit_HdRel; [| exact Hhd].
      apply not_comesBefore_ge; assumption.
Qed.

Lemma insertHit_Forall : forall (P : Hit -> Prop) h l,
  P h -> Forall P l -> Forall P (insertHit h l).
Proof.
  intros P h l Hh Hl. apply Forall_forall. intros x Hx.
  apply insertHit_In in Hx. destruct Hx as [-> | Hx]; auto.
  rewrite Forall_forall in Hl. auto.
Qed.

Lemma insertHit_Permutation : forall h l, Permutation (insertHit h l) (h :: l).
Proof.
  intros h l. induction l as [| h' rest IH]; simpl; auto.
  destruct (comesBefore h h'); auto.
  rewrite IH. apply perm_swap.
Qed.

Lemma sortHits_acc : forall l acc,
  Forall (fun x => isNumber (distance x)) l ->
  Forall (fun x => isNumber (distance x)) acc ->
  Sorted hitLe acc ->
  Sorted hitLe (fold_left (fun sorted h => insertHit h sorted) l acc)
  /\ Permutation (fold_left (fun sorted h => insertHit h sorted) l acc) (l ++ acc).
Proof.
  induction l as [| h rest IH]; intros acc Hl Hacc Hs; simpl.
  - split; auto.
  - inversion Hl as [| ? ? Hh Hrest]; subst.
    destruct (IH (insertHit h acc) Hrest
                 (insertHit_Forall _ h acc Hh Hacc)
                 (insertHit_Sorted h acc Hh Hacc Hs)) as [S P].
    split; [exact S |].
    rewrite P. rewrite insertHit_Permutation.
    apply Permutation_sym, Permutation_middle.
Qed.

Lemma sortHits_Permutation_any : forall l acc,
  Permutation (fold_left (fun sorted h => insertHit h sorted) l acc) (l ++ acc).
Proof.
  induction l as [| h rest IH]; intros acc; simpl; auto.
  rewrite IH, insertHit_Permutation.
  apply Permutation_sym, Permutation_middle.
Qed.

Lemma sortHits_Sorted : forall l,
  Forall (fun x => isNumber (distance x)) l -> Sorted hitLe (sortHits l).
Proof.
  intros l Hl. unfold sortHits.
  apply (sortHits_acc l []); auto.
Qed.

Lemma sortHits_Permutation : forall l, Permutation (sortHits l) l.
Proof.
  intros l. unfold sortHits. rewrite sortHits_Permutation_any.
  rewrite app_nil_r. reflexivity.
Qed.

(** The hits collected before sorting. *)
Lemma castAt_acc : forall hp origin direction maxDistance layerMask hits entry,
  castAt hp origin direction maxDistance layerMask hits entry
  = hits ++ entryHits hp origin direction maxDistance layerMask entry.
Proof.
  intros. unfold entryHits, castAt.
  destruct (deref hp (snd entry)) as [b |]; [| rewrite app_nil_r; reflexivity].
  destruct (_ || _)%bool; [rewrite app_nil_r; reflexivity |].
  destruct (raycastBody _ _ _ _ _); [reflexivity | rewrite app_nil_r; reflexivity].
Qed.

Lemma collect_flat_map : forall hp origin direction maxDistance layerMask bs hits,
  fold_left (castAt hp origin direction maxDistance layerMask) bs hits
  = hits ++ flat_map (entryHits hp origin direction maxDistance layerMask) bs.
Proof.
  intros hp origin direction maxDistance layerMask.
  induction bs as [| e rest IH]; intros hits; simpl.
  - rewrite app_nil_r. reflexivity.
  - rewrite IH, castAt_acc, app_assoc. reflexivity.
Qed.

Lemma raycast_eq : forall w origin direction maxDistance layerMask,
  raycast w origin direction maxDistance layerMask
  = sortHits (flat_map (entryHits (heap w) origin direction maxDistance layerMask)
                       (PhysicsEngine.bodies (physics w))).
Proof.
  intros. unfold raycast. rewrite collect_flat_map. reflexivity.
Qed.

Lemma raycastBody_Some : forall origin direction maxDistance r b h,
  raycastBody origin direction maxDistance r b = Some h ->
  (exists width height, PhysicsBody.shape b = Rect width height)
  /\ slabHit origin direction maxDistance (PhysicsBody.bounds b) = true
  /\ body h = r
  /\ distance h
     = slabNear origin (Vector2.normalized direction) (PhysicsBody.bounds b).
Proof.
  intros origin direction maxDistance r b h H. unfold raycastBody in H.
  destruct (PhysicsBody.shape b) as [| width height |] eqn:S; try discriminate.
  cbv zeta in H. unfold slabHit. cbv zeta.
  destruct (_ && _ && _)%bool; [| discriminate].
  injection H as <-. simpl. split; [eauto |]. auto.
Qed.

Lemma raycastBody_rect : forall origin direction maxDistance r b width height,
  PhysicsBody.shape b = Rect width height ->
  (slabHit origin direction maxDistance (PhysicsBody.bounds b) = true ->
   exists h, raycastBody origin direction maxDistance r b = Some h
             /\ body h = r
             /\ distance h
                = slabNear origin (Vector2.normalized direction)
                           (PhysicsBody.bounds b))
  /\ (slabHit origin direction maxDistance (PhysicsBody.bounds b) = false ->
      raycastBody origin direction maxDistance r b = None).
Proof.
  intros origin direction maxDistance r b width height S.
  unfold raycastBody, slabHit. rewrite S. cbv zeta.
  destruct (_ && _ && _)%bool; split; intros H; try discriminate; eauto.
Qed.

Lemma entryHits_In : forall hp origin direction maxDistance layerMask entry h,
  In h (entryHits hp origin direction maxDistance layerMask entry) ->
  exists b,
    deref hp (snd entry) = Some b
    /\ PhysicsBody.enabled b = true
    /\ bitand (PhysicsBody.collisionLayer b) layerMask <> 0%Z
    /\ raycastBody origin direction maxDistance (snd entry) b = Some h.
Proof.
  intros hp origin direction maxDistance layerMask entry h.
  unfold entryHits, castAt.
  destruct (deref hp (snd entry)) as [b |]; [| intros []].
  destruct (PhysicsBody.enabled b) eqn:En; simpl; [| intros []].
  destruct (bitand _ _ =? 0)%Z eqn:L; [intros [] |].
  destruct (raycastBody _ _ _ _ _) as [h' |] eqn:Rb; simpl; [| intros []].
  intros [<- | []]. exists b. repeat split; auto.
  apply Z.eqb_neq. exact L.
Qed.

Lemma slabHit_isNumber : forall origin direction maxDistance bounds,
  slabHit origin direction maxDistance bounds = true ->
  isNumber (slabNear origin (Vector2.normalized direction) bounds).
Proof.
  intros origin direction maxDistance bounds H. unfold slabHit in H.
  cbv zeta in H. apply andb_true_iff in H. destruct H as [H _].
  apply andb_true_iff in H. destruct H as [H _].
  intros E. rewrite E in H. discriminate.
Qed.

Lemma entryHits_body : forall hp origin direction maxDistance layerMask entry h,
  In h (entryHits hp origin direction maxDistance layerMask entry) ->
  body h = snd entry.
Proof.
  intros hp origin direction maxDistance layerMask entry h H.
  apply entryHits_In in H. destruct H as (b & _ & _ & _ & H).
  apply raycastBody_Some in H. tauto.
Qed.

Lemma entryHits_snd : forall hp origin direction maxDistance layerMask k k' r,
  entryHits hp origin direction maxDistance layerMask (k, r)
  = entryHits hp origin direction maxDistance layerMask (k', r).
Proof. reflexivity. Qed.

Lemma filter_all : forall {A} (f : A -> bool) l,
  (forall x, In x l -> f x = true) -> filter f l = l.
Proof.
  intros A f l. induction l as [| a rest IH]; simpl; intros H; auto.
  rewrite H by auto. f_equal. apply IH. auto.
Qed.

Lemma filter_none : forall {A} (f : A -> bool) l,
  (forall x, In x l -> f x = false) -> filter f l = [].
Proof.
  intros A f l. induction l as [| a rest IH]; simpl; intros H; auto.
  rewrite H by auto. apply IH. auto.
Qed.

Lemma hitsOn_collected : forall hp origin direction maxDistance layerMask bs k r,
  NoDup (map snd bs) -> In (k, r) bs ->
  hitsOn r (flat_map (entryHits hp origin direction maxDistance layerMask) bs)
  = entryHits hp origin direction maxDistance layerMask (k, r).
Proof.
  intros hp origin direction maxDistance layerMask bs k r.
  unfold hitsOn. induction bs as [| [k' r'] rest IH]; simpl; intros Hnd Hin.
  - contradiction.
  - inversion Hnd as [| ? ? Hnotin Hnd']; subst.
    rewrite filter_app.
    destruct (Nat.eq_dec r' r) as [-> | Hne].
    + rewrite filter_all.
      2:{ intros h Hh. apply entryHits_body in Hh. simpl in Hh.
          apply Nat.eqb_eq. exact Hh. }
      rewrite filter_none.
      2:{ intros h Hh. apply in_flat_map in Hh. destruct Hh as [[k0 r0] [Hin0 Hh]].
          apply entryHits_body in Hh. simpl in Hh. apply Nat.eqb_neq.
          intros E. apply Hnotin. apply (in_map snd) in Hin0. simpl in Hin0.
          congruence. }
      rewrite app_nil_r. reflexivity.
    + rewrite filter_none.
      2:{ intros h Hh. apply entryHits_body in Hh. simpl in Hh.
          apply Nat.eqb_neq. congruence. }
      simpl. apply IH; auto.
      destruct Hin as [E | Hin]; [congruence | exact Hin].
Qed.

Lemma Permutation_filter_same : forall {A} (f : A -> bool) l l',
  Permutation l l' -> Permutation (filter f l) (filter f l').
Proof.
  intros A f l l' P. induction P; simpl.
  - constructor.
  - destruct (f x); auto.
  - destruct (f x), (f y); auto. apply perm_swap.
  - etransitivity; eauto.
Qed.

Lemma entryHits_rect : forall hp origin direction maxDistance layerMask k r b
    width height,
  deref hp r = Some b ->
  PhysicsBody.enabled b = true ->
  bitand (PhysicsBody.collisionLayer b) layerMask <> 0%Z ->
  PhysicsBody.shape b = Rect width height ->
  (slabHit origin direction maxDistance (PhysicsBody.bounds b) = true ->
   exists h,
     entryHits hp origin direction maxDistance layerMask (k, r) = [h]
     /\ body h = r
     /\ distance h
        = slabNear origin (Vector2.normalized direction) (PhysicsBody.bounds b))
  /\ (slabHit origin direction maxDistance (PhysicsBody.bounds b) = false ->
      entryHits hp origin direction maxDistance layerMask (k, r) = []).
Proof.
  intros hp origin direction maxDistance layerMask k r b width height
         Hd En L S.
  unfold entryHits, castAt. simpl. rewrite Hd, En. simpl.
  apply Z.eqb_neq in L. rewrite L.
  destruct (raycastBody_rect origin direction maxDistance r b width height S)
    as [Hyes Hno].
  split; intros H.
  - destruct (Hyes H) as (h & -> & Hb & Hdist). exists h. auto.
  - rewrite (Hno H). reflexivity.
Qed.

Lemma div_by_nonzero : forall a b, b <> 0 -> JsNum.div a b = JsNum.Fin (a / b).
Proof.
  intros a b H. unfold JsNum.div.
  destruct (Req_dec_T b 0); [contradiction | reflexivity].
Qed.

Lemma div_positive_by_zero : forall a, 0 < a -> JsNum.div a 0 = JsNum.PInf.
Proof.
  intros a H. unfold JsNum.div.
  destruct (Req_dec_T 0 0); [| contradiction].
  destruct (Rlt_dec 0 a); [reflexivity | contradiction].
Qed.

Lemma div_negative_by_zero : forall a, a < 0 -> JsNum.div a 0 = JsNum.NInf.
Proof.
  intros a H. unfold JsNum.div.
  destruct (Req_dec_T 0 0); [| contradiction].
  destruct (Rlt_dec 0 a); [lra |].
  destruct (Rlt_dec a 0); [reflexivity | contradiction].
Qed.

Lemma normalized_unit_x : Vector2.normalized (Vector2.mk 1 0) = Vector2.mk 1 0.
Proof.
  unfold Vector2.normalized.
  assert (M : Vector2.magnitude (Vector2.mk 1 0) = 1).
  { unfold Vector2.magnitude. cbn. apply sqrt_of_square; lra. }
  rewrite normalize_of_positive by (rewrite M; lra).
  rewrite M. cbn. f_equal; field.
Qed.

Lemma slab_of_the_example :
  slabNear (Vector2.mk 0 0) (Vector2.mk 1 0) (Bounds.mk 100 (-5) 110 5)
  = JsNum.Fin 100
  /\ slabFar (Vector2.mk 0 0) (Vector2.mk 1 0) (Bounds.mk 100 (-5) 110 5)
     = JsNum.Fin 110.
Proof.
  unfold slabNear, slabFar. cbn [Bounds.left Bounds.right Bounds.top Bounds.bottom
                                 Vector2.x Vector2.y].
  rewrite !div_by_nonzero by lra.
  rewrite div_negative_by_zero by lra.
  rewrite div_positive_by_zero by lra.
  cbn [JsNum.min JsNum.max].
  split; f_equal.
  - rewrite Rmin_left by lra. field.
  - rewrite Rmax_right by lra. field.
Qed.

Lemma normal_of_the_example :
  calculateHitNormal (mkRayPoint (JsNum.Fin 100) (JsNum.Fin 0))
                     (Bounds.mk 100 (-5) 110 5)
  = Vector2.mk (-1) 0.
Proof.
  unfold calculateHitNormal.
  cbn [Bounds.left Bounds.right Bounds.top Bounds.bottom px py
       JsNum.sub JsNum.opp JsNum.add JsNum.abs JsNum.gtb JsNum.ltb].
  assert (E1 : Rlt_b (Rabs (0 + - ((-5 + 5) / 2))) (Rabs (100 + - ((100 + 110) / 2)))
               = true).
  { apply Rlt_b_true.
    replace (0 + - ((-5 + 5) / 2)) with 0 by field.
    replace (100 + - ((100 + 110) / 2)) with (-5) by field.
    rewrite Rabs_R0, Rabs_left by lra. lra. }
  rewrite E1.
  assert (E2 : Rlt_b 0 (100 + - ((100 + 110) / 2)) = false)
    by (apply Rlt_b_false; lra).
  rewrite E2. reflexivity.
Qed.

Lemma raycastBody_of_the_example : forall r b width height,
  PhysicsBody.shape b = Rect width height ->
  PhysicsBody.bounds b = Bounds.mk 100 (-5) 110 5 ->
  raycastBody (Vector2.mk 0 0) (Vector2.mk 1 0) (JsNum.Fin 1000) r b
  = Some (mkHit r (mkRayPoint (JsNum.Fin 100) (JsNum.Fin 0)) (JsNum.Fin 100)
                (Vector2.mk (-1) 0)).
Proof.
  intros r b width height S B. unfold raycastBody. rewrite S, B.
  cbv zeta. rewrite normalized_unit_x.
  destruct slab_of_the_example as [-> ->].
  cbn [JsNum.leb JsNum.geb Vector2.x Vector2.y JsNum.mul JsNum.add].
  assert (E1 : Rle_b 100 110 = true) by (apply Rle_b_true; lra).
  assert (E2 : Rle_b 0 100 = true) by (apply Rle_b_true; lra).
  assert (E3 : Rle_b 100 1000 = true) by (apply Rle_b_true; lra).
  rewrite E1, E2, E3. cbn [andb].
  replace (0 + 1 * 100) with 100 by ring.
  replace (0 + 0 * 100) with 0 by ring.
  rewrite normal_of_the_example. reflexivity.
Qed.

Lemma rayWorld_bounds :
  PhysicsBody.bounds (PhysicsBody.new (rectOptions 105 0 10 10 Dynamic) "r1")
  = Bounds.mk 100 (-5) 110 5.
Proof. cbn. f_equal; field. Qed.

Lemma raycast_of_the_example :
  raycast rayWorld (Vector2.mk 0 0) (Vector2.mk 1 0) (JsNum.Fin 1000) 4294967295
  = [mkHit 0 (mkRayPoint (JsNum.Fin 100) (JsNum.Fin 0)) (JsNum.Fin 100)
           (Vector2.mk (-1) 0)].
Proof.
  unfold raycast, rayWorld.
  cbn [fst createBody physics PhysicsEngine.bodies PhysicsEngine.set_registry
       heap newWorld PhysicsEngine.new JsMap.set app List.length fold_left].
  unfold castAt.
  cbn [snd deref nth_error PhysicsBody.new PhysicsBody.id].
  change (deref [PhysicsBody.new (rectOptions 105 0 10 10 Dynamic) "r1"] 0)
    with (Some (PhysicsBody.new (rectOptions 105 0 10 10 Dynamic) "r1")).
  cbv iota beta.
  change (PhysicsBody.enabled (PhysicsBody.new (rectOptions 105 0 10 10 Dynamic) "r1"))
    with true.
  change (bitand (PhysicsBody.collisionLayer
                    (PhysicsBody.new (rectOptions 105 0 10 10 Dynamic) "r1"))
                 4294967295 =? 0)%Z with false.
  cbn [negb orb].
  rewrite (raycastBody_of_the_example 0
             (PhysicsBody.new (rectOptions 105 0 10 10 Dynamic) "r1") 10 10
             eq_refl rayWorld_bounds).
  reflexivity.
Qed.

(** C8: the hits of [raycast] are in ascending order of distance; each
    comes from a registered body that is enabled, rectangular and on a
    layer of [layerMask], passes the slab test and has the entry parameter
    as its distance; a registered, enabled, rectangular body on a layer of
    the mask yields exactly one hit, at distance tNear, when tNear <= tFar,
    tNear >= 0 and tNear <= maxDistance, and no hit otherwise.  The ray
    from (0,0) along (1,0) with maxDistance 1000 against the rectangle
    spanning x in [100,110], y in [-5,5] yields one hit, at distance 100
    with normal (-1,0). *)
Theorem C8_raycast_sorted_slab_hits : forall (w : World)
    (origin direction : Vector2.t) (maxDistance : JsNum.t) (layerMask : Z),
  Sorted hitLe (raycast w origin direction maxDistance layerMask)
  /\ (forall h,
        In h (raycast w origin direction maxDistance layerMask) ->
        exists k b width height,
          In (k, body h) (PhysicsEngine.bodies (physics w))
          /\ deref (heap w) (body h) = Some b
          /\ PhysicsBody.enabled b = true
          /\ PhysicsBody.shape b = Rect width height
          /\ bitand (PhysicsBody.collisionLayer b) layerMask <> 0%Z
          /\ slabHit origin direction maxDistance (PhysicsBody.bounds b) = true
          /\ distance h
             = slabNear origin (Vector2.normalized direction) (PhysicsBody.bounds b))
  /\ (forall k r b width height,
        NoDup (map snd (PhysicsEngine.bodies (physics w))) ->
        In (k, r) (PhysicsEngine.bodies (physics w)) ->
        deref (heap w) r = Some b ->
        PhysicsBody.enabled b = true ->
        PhysicsBody.shape b = Rect width height ->
        bitand (PhysicsBody.collisionLayer b) layerMask <> 0%Z ->
        (slabHit origin direction maxDistance (PhysicsBody.bounds b) = true ->
         exists h,
           hitsOn r (raycast w origin direction maxDistance layerMask) = [h]
           /\ distance h
              = slabNear origin (Vector2.normalized direction)
                         (PhysicsBody.bounds b))
        /\ (slabHit origin direction maxDistance (PhysicsBody.bounds b) = false ->
            hitsOn r (raycast w origin direction maxDistance layerMask) = []))
  /\ raycast rayWorld (Vector2.mk 0 0) (Vector2.mk 1 0) (JsNum.Fin 1000) 4294967295
     = [mkHit 0 (mkRayPoint (JsNum.Fin 100) (JsNum.Fin 0)) (JsNum.Fin 100)
              (Vector2.mk (-1) 0)].
Proof.
  intros w origin direction maxDistance layerMask.
  rewrite raycast_eq.
  set (collected := flat_map (entryHits (heap w) origin direction maxDistance
                                        layerMask)
                             (PhysicsEngine.bodies (physics w))).
  assert (Hsrc : forall h, In h collected ->
            exists k b width height,
              In (k, body h) (PhysicsEngine.bodies (physics w))
              /\ deref (heap w) (body h) = Some b
              /\ PhysicsBody.enabled b = true
              /\ PhysicsBody.shape b = Rect width height
              /\ bitand (PhysicsBody.collisionLayer b) layerMask <> 0%Z
              /\ slabHit origin direction maxDistance (PhysicsBody.bounds b) = true
              /\ distance h
                 = slabNear origin (Vector2.normalized direction)
                            (PhysicsBody.bounds b)).
  { intros h Hin. apply in_flat_map in Hin. destruct Hin as [[k r] [Hin Hh]].
    apply entryHits_In in Hh. simpl in Hh.
    destruct Hh as (b & Hd & En & L & Hrb).
    apply raycastBody_Some in Hrb.
    destruct Hrb as ((width & height & S) & Hslab & Hbody & Hdist).
    exists k, b, width, height. rewrite Hbody. auto 10. }
  split; [| split; [| split]].
  - apply sortHits_Sorted. apply Forall_forall. intros h Hin.
    destruct (Hsrc h Hin) as (k & b & width & height & _ & _ & _ & _ & _ & Hs & Hd).
    rewrite Hd. eapply slabHit_isNumber; eauto.
  - intros h Hin. apply Hsrc.
    eapply Permutation_in; [apply sortHits_Permutation | exact Hin].
  - intros k r b width height Hnd Hin Hd En S L.
    assert (P : Permutation (hitsOn r (sortHits collected))
                  (entryHits (heap w) origin direction maxDistance layerMask (k, r))).
    { rewrite <- (hitsOn_collected _ _ _ _ _ _ k r Hnd Hin).
      apply Permutation_filter_same. apply sortHits_Permutation. }
    destruct (entryHits_rect (heap w) origin direction maxDistance layerMask k r b
                width height Hd En L S) as [Hyes Hno].
    split; intros Hslab.
    + destruct (Hyes Hslab) as (h & Eh & _ & Hdist).
      rewrite Eh in P. apply Permutation_sym, Permutation_length_1_inv in P.
      exists h. auto.
    + rewrite (Hno Hslab) in P. apply Permutation_sym, Permutation_nil in P.
      exact P.
  - exact raycast_of_the_example.
Qed.

(** ** The spatial hash: candidate pairs *)

Lemma pairKey_sym : forall s t, SpatialHash.pairKey s t = SpatialHash.pairKey t s.
Proof.
  intros s t. unfold SpatialHash.pairKey, String.ltb.
  rewrite (String.compare_antisym t s).
  destruct (String.compare s t) eqn:E; simpl; try reflexivity.
  apply String.compare_eq_iff in E. subst. reflexivity.
Qed.

Lemma cellPairs_In : forall l x y,
  In x l -> In y l -> x <> y ->
  In (x, y) (SpatialHash.cellPairs l) \/ In (y, x) (SpatialHash.cellPairs l).
Proof.
  induction l as [| a rest IH]; intros x y Hx Hy Hne; simpl in *.
  - contradiction.
  - destruct Hx as [-> | Hx], Hy as [-> | Hy].
    + congruence.
    + left. apply in_or_app. left. apply in_map. exact Hy.
    + right. apply in_or_app. left. apply in_map. exact Hx.
    + destruct (IH x y Hx Hy Hne) as [H | H]; [left | right];
        apply in_or_app; right; exact H.
Qed.

Section Candidates.

Variable hp : Heap.

Lemma visitPair_grows : forall st p,
  (forall q, In q (fst st) -> In q (fst (SpatialHash.visitPair hp st p)))
  /\ (forall k, In k (snd st) -> In k (snd (SpatialHash.visitPair hp st p))).
Proof.
  intros st p. unfold SpatialHash.visitPair.
  destruct (deref hp (fst p)), (deref hp (snd p)); auto.
  destruct (JsSet.has _ _ _); auto.
  simpl. split; intros; apply in_or_app; auto.
Qed.

Lemma visitPair_marks : forall st p k,
  keyOfPair hp p = Some k -> In k (snd (SpatialHash.visitPair hp st p)).
Proof.
  intros st p k Hk. unfold SpatialHash.visitPair, keyOfPair in *.
  destruct (deref hp (fst p)), (deref hp (snd p)); try discriminate.
  injection Hk as <-.
  destruct (JsSet.has _ _ _) eqn:E.
  - apply (JsSet_has_In _ string_eqb_spec) in E. exact E.
  - simpl. apply in_or_app. right. left. reflexivity.
Qed.

Lemma visitPair_covered : forall st p,
  keysCovered hp st -> keysCovered hp (SpatialHash.visitPair hp st p).
Proof.
  intros st p Hc k Hin. unfold SpatialHash.visitPair in *.
  destruct (deref hp (fst p)) as [a |] eqn:Da; [| auto].
  destruct (deref hp (snd p)) as [b |] eqn:Db; [| auto].
  destruct (JsSet.has _ _ _); [auto |].
  simpl in *. apply in_app_or in Hin. destruct Hin as [Hin | [<- | []]].
  - destruct (Hc k Hin) as (q & Hq & Hk). exists q. split; [| exact Hk].
    apply in_or_app. auto.
  - exists p. split; [apply in_or_app; right; left; reflexivity |].
    unfold keyOfPair. rewrite Da, Db. reflexivity.
Qed.

Lemma visitPairs_facts : forall ps st,
  keysCovered hp st ->
  let st' := fold_left (SpatialHash.visitPair hp) ps st in
  keysCovered hp st'
  /\ (forall q, In q (fst st) -> In q (fst st'))
  /\ (forall k, In k (snd st) -> In k (snd st'))
  /\ (forall p k, In p ps -> keyOfPair hp p = Some k -> In k (snd st')).
Proof.
  induction ps as [| p rest IH]; intros st Hc; simpl.
  - repeat split; auto. intros p k [].
  - destruct (IH _ (visitPair_covered st p Hc)) as (C & G1 & G2 & M).
    destruct (visitPair_grows st p) as [V1 V2].
    repeat split; auto.
    intros q k [<- | Hin] Hk.
    + apply G2. apply visitPair_marks. exact Hk.
    + eapply M; eauto.
Qed.

Lemma visitCells_facts : forall cells st,
  keysCovered hp st ->
  let st' := fold_left (SpatialHash.visitCell hp) cells st in
  keysCovered hp st'
  /\ (forall k, In k (snd st) -> In k (snd st'))
  /\ (forall c s p k, In (c, s) cells -> In p (SpatialHash.cellPairs s) ->
        keyOfPair hp p = Some k -> In k (snd st')).
Proof.
  induction cells as [| [c0 s0] rest IH]; intros st Hc; simpl.
  - repeat split; auto. intros c s p k [].
  - unfold SpatialHash.visitCell at 2 4 6. simpl.
    destruct (visitPairs_facts (SpatialHash.cellPairs s0) st Hc)
      as (C1 & _ & K1 & M1).
    destruct (IH _ C1) as (C & K & M).
    repeat split; auto.
    intros c s p k [E | Hin] Hp Hk.
    + injection E as <- <-. apply K. eapply M1; eauto.
    + eapply M; eauto.
Qed.

(** Two bodies that share a cell give a candidate pair with their key. *)
Lemma shared_cell_gives_candidate : forall h c s ra rb a b,
  In (c, s) (SpatialHash.grid h) ->
  In ra s -> In rb s -> ra <> rb ->
  deref hp ra = Some a -> deref hp rb = Some b ->
  exists q,
    In q (SpatialHash.getPotentialCollisions hp h)
    /\ keyOfPair hp q
       = Some (SpatialHash.pairKey (PhysicsBody.id a) (PhysicsBody.id b)).
Proof.
  intros h c s ra rb a b Hc Ha Hb Hne Da Db.
  unfold SpatialHash.getPotentialCollisions.
  assert (H0 : keysCovered hp ([], [])) by (intros k []).
  destruct (visitCells_facts (SpatialHash.grid h) ([], []) H0) as (C & _ & M).
  apply C.
  destruct (cellPairs_In s ra rb Ha Hb Hne) as [Hp | Hp].
  - apply (M c s (ra, rb)); auto. unfold keyOfPair. simpl. rewrite Da, Db.
    reflexivity.
  - apply (M c s (rb, ra)); auto. unfold keyOfPair. simpl. rewrite Da, Db.
    rewrite pairKey_sym. reflexivity.
Qed.

End Candidates.

Lemma append_dash_inj : forall s1 t1 s2 t2,
  dashFree s1 -> dashFree t1 ->
  (s1 ++ "-" ++ s2 = t1 ++ "-" ++ t2)%string -> s1 = t1 /\ s2 = t2.
Proof.
  induction s1 as [| c s1 IH]; intros [| d t1] s2 t2 Hs Ht E; simpl in *.
  - injection E as ->. auto.
  - injection E as <- _. destruct Ht as [Hd _]. congruence.
  - injection E as -> _. destruct Hs as [Hc _]. congruence.
  - injection E as -> E. destruct Hs as [_ Hs], Ht as [_ Ht].
    destruct (IH t1 s2 t2 Hs Ht E) as [-> ->]. auto.
Qed.

Lemma pairKey_inj : forall s t s' t',
  dashFree s -> dashFree t -> dashFree s' -> dashFree t' ->
  SpatialHash.pairKey s t = SpatialHash.pairKey s' t' ->
  (s = s' /\ t = t') \/ (s = t' /\ t = s').
Proof.
  intros s t s' t' Hs Ht Hs' Ht'. unfold SpatialHash.pairKey.
  destruct (String.ltb s t), (String.ltb s' t'); intros E;
    apply append_dash_inj in E; auto; destruct E as [-> ->]; auto.
Qed.

(** With ids that are unique and free of dashes, the candidate is the pair
    itself, in one order or the other. *)
Lemma key_identifies_pair : forall (hp : Heap) q ra rb a b,
  NoDup (map PhysicsBody.id hp) ->
  Forall dashFree (map PhysicsBody.id hp) ->
  deref hp ra = Some a -> deref hp rb = Some b ->
  keyOfPair hp q = Some (SpatialHash.pairKey (PhysicsBody.id a) (PhysicsBody.id b)) ->
  q = (ra, rb) \/ q = (rb, ra).
Proof.
  intros hp [qa qb] ra rb a b Hnd Hdf Da Db Hk. unfold keyOfPair in Hk.
  simpl in Hk.
  destruct (deref hp qa) as [a' |] eqn:Da'; [| discriminate].
  destruct (deref hp qb) as [b' |] eqn:Db'; [| discriminate].
  injection Hk as Hk.
  assert (Hfree : forall r x, deref hp r = Some x -> dashFree (PhysicsBody.id x)).
  { intros r x Hx. rewrite Forall_forall in Hdf. apply Hdf. apply in_map.
    unfold deref in Hx. eapply nth_error_In; eauto. }
  apply pairKey_inj in Hk; eauto.
  destruct Hk as [[Ea Eb] | [Ea Eb]].
  - left. f_equal; eapply NoDup_ids_deref_inj; eauto.
  - right. f_equal; eapply NoDup_ids_deref_inj; eauto.
Qed.

Lemma cell_eqb_spec : forall c d : SpatialHash.cell,
  SpatialHash.cell_eqb c d = true <-> c = d.
Proof.
  intros [cx cy] [dx dy]. unfold SpatialHash.cell_eqb. simpl.
  rewrite andb_true_iff, !Z.eqb_eq. split.
  - intros [-> ->]. reflexivity.
  - intros E. injection E as -> ->. auto.
Qed.

Lemma addToCell_holds : forall g c r, cellHolds (SpatialHash.addToCell g c r) c r.
Proof.
  intros g c r. unfold cellHolds, SpatialHash.addToCell.
  set (g1 := if JsMap.has SpatialHash.cell_eqb g c then g
             else JsMap.set SpatialHash.cell_eqb g c []).
  assert (H1 : exists s0, JsMap.get SpatialHash.cell_eqb g1 c = Some s0).
  { unfold g1, JsMap.has.
    destruct (JsMap.get SpatialHash.cell_eqb g c) as [s0 |] eqn:G.
    - eauto.
    - rewrite (JsMap_get_set_same _ cell_eqb_spec). eauto. }
  destruct H1 as [s0 G1]. rewrite G1.
  rewrite (JsMap_get_set_same _ cell_eqb_spec).
  eexists. split; [reflexivity |].
  apply (JsSet_In_add _ nat_eqb_spec). auto.
Qed.

Lemma addToCell_keeps : forall g c r c' r',
  cellHolds g c' r' -> cellHolds (SpatialHash.addToCell g c r) c' r'.
Proof.
  intros g c r c' r' (s & G & Hin). unfold cellHolds, SpatialHash.addToCell.
  set (g1 := if JsMap.has SpatialHash.cell_eqb g c then g
             else JsMap.set SpatialHash.cell_eqb g c []).
  assert (G1 : JsMap.get SpatialHash.cell_eqb g1 c' = Some s).
  { unfold g1, JsMap.has.
    destruct (JsMap.get SpatialHash.cell_eqb g c) as [s0 |] eqn:G0; [exact G |].
    rewrite (JsMap_get_set_other _ cell_eqb_spec); [exact G |].
    intros ->. congruence. }
  destruct (JsMap.get SpatialHash.cell_eqb g1 c) as [s0 |] eqn:G1c.
  - destruct (SpatialHash.cell_eqb c c') eqn:E.
    + apply cell_eqb_spec in E. subst c'.
      rewrite (JsMap_get_set_same _ cell_eqb_spec).
      eexists. split; [reflexivity |].
      apply (JsSet_In_add _ nat_eqb_spec). left.
      rewrite G1 in G1c. injection G1c as <-. exact Hin.
    + rewrite (JsMap_get_set_other _ cell_eqb_spec).
      * eauto.
      * intros ->. rewrite (proj2 (cell_eqb_spec c' c') eq_refl) in E. discriminate.
  - eauto.
Qed.

Lemma addToCells_facts : forall cells g r,
  let g' := fold_left (fun g cellKey => SpatialHash.addToCell g cellKey r) cells g in
  (forall c, In c cells -> cellHolds g' c r)
  /\ (forall c' r', cellHolds g c' r' -> cellHolds g' c' r').
Proof.
  induction cells as [| c rest IH]; intros g r; simpl.
  - split; [intros c [] | auto].
  - destruct (IH (SpatialHash.addToCell g c r) r) as [H1 H2]. split.
    + intros c' [<- | Hin]; [apply H2, addToCell_holds | apply H1; exact Hin].
    + intros c' r' H. apply H2, addToCell_keeps. exact H.
Qed.

Lemma insert_cellSize : forall hp h r,
  SpatialHash.cellSize (SpatialHash.insert hp h r) = SpatialHash.cellSize h.
Proof.
  intros hp h r. unfold SpatialHash.insert. destruct (deref hp r); reflexivity.
Qed.

Lemma insert_facts : forall hp h r b,
  deref hp r = Some b ->
  (forall c, In c (SpatialHash.getCells h (PhysicsBody.bounds b)) ->
     cellHolds (SpatialHash.grid (SpatialHash.insert hp h r)) c r)
  /\ (forall c' r', cellHolds (SpatialHash.grid h) c' r' ->
        cellHolds (SpatialHash.grid (SpatialHash.insert hp h r)) c' r').
Proof.
  intros hp h r b Hd. unfold SpatialHash.insert. rewrite Hd. simpl.
  apply addToCells_facts.
Qed.

Lemma insert_keeps : forall hp h r c' r',
  cellHolds (SpatialHash.grid h) c' r' ->
  cellHolds (SpatialHash.grid (SpatialHash.insert hp h r)) c' r'.
Proof.
  intros hp h r c' r' H. destruct (deref hp r) as [b |] eqn:Hd.
  - apply (insert_facts hp h r b Hd). exact H.
  - unfold SpatialHash.insert. rewrite Hd. exact H.
Qed.

Lemma getCells_cellSize : forall h h' bounds,
  SpatialHash.cellSize h = SpatialHash.cellSize h' ->
  SpatialHash.getCells h bounds = SpatialHash.getCells h' bounds.
Proof.
  intros h h' bounds E. unfold SpatialHash.getCells. rewrite E. reflexivity.
Qed.

(** The fold of [updateSpatialHash]. *)
Lemma rebuild_facts : forall hp entries h,
  let step := fun h (entry : string * ref) =>
                match deref hp (snd entry) with
                | Some body =>
                    if PhysicsBody.enabled body
                    then SpatialHash.insert hp h (snd entry)
                    else h
                | None => h
                end in
  let h' := fold_left step entries h in
  SpatialHash.cellSize h' = SpatialHash.cellSize h
  /\ (forall c' r', cellHolds (SpatialHash.grid h) c' r' ->
        cellHolds (SpatialHash.grid h') c' r')
  /\ (forall k r b c,
        In (k, r) entries -> deref hp r = Some b ->
        PhysicsBody.enabled b = true ->
        In c (SpatialHash.getCells h (PhysicsBody.bounds b)) ->
        cellHolds (SpatialHash.grid h') c r).
Proof.
  intros hp. induction entries as [| [k0 r0] rest IH]; intros h; simpl.
  - repeat split; auto. intros k r b c [].
  - set (h1 := match deref hp r0 with
               | Some body =>
                   if PhysicsBody.enabled body
                   then SpatialHash.insert hp h r0 else h
               | None => h
               end).
    assert (S1 : SpatialHash.cellSize h1 = SpatialHash.cellSize h).
    { unfold h1. destruct (deref hp r0) as [b0 |]; [| reflexivity].
      destruct (PhysicsBody.enabled b0); [apply insert_cellSize | reflexivity]. }
    assert (K1 : forall c' r', cellHolds (SpatialHash.grid h) c' r' ->
                   cellHolds (SpatialHash.grid h1) c' r').
    { intros c' r' H. unfold h1. destruct (deref hp r0) as [b0 |]; [| exact H].
      destruct (PhysicsBody.enabled b0); [apply insert_keeps |]; exact H. }
    destruct (IH h1) as (Sz & K & M). cbv zeta in Sz, K, M.
    split; [rewrite Sz; exact S1 |]. split; [auto |].
    intros k r b c [E | Hin] Hd En Hc.
    + injection E as <- <-. apply K. unfold h1. rewrite Hd, En.
      destruct (insert_facts hp h r0 b Hd) as [F _]. apply F. exact Hc.
    + apply (M k r b c Hin Hd En).
      rewrite (getCells_cellSize h1 h _ S1). exact Hc.
Qed.

(** What [updateSpatialHash] leaves: every enabled registered body is
    listed in every cell its cached box touches, so two such bodies whose
    boxes share a cell form a candidate pair of the rebuilt hash. *)
Lemma rebuilt_hash_pairs_shared_cells : forall w ka kb ra rb a b c,
  In (ka, ra) (PhysicsEngine.bodies (physics w)) ->
  In (kb, rb) (PhysicsEngine.bodies (physics w)) ->
  ra <> rb ->
  deref (heap w) ra = Some a -> deref (heap w) rb = Some b ->
  PhysicsBody.enabled a = true -> PhysicsBody.enabled b = true ->
  In c (SpatialHash.getCells (PhysicsEngine.broadPhase (physics w))
                             (PhysicsBody.bounds a)) ->
  In c (SpatialHash.getCells (PhysicsEngine.broadPhase (physics w))
                             (PhysicsBody.bounds b)) ->
  exists q,
    In q (SpatialHash.getPotentialCollisions (heap w)
            (PhysicsEngine.broadPhase (physics (updateSpatialHash w))))
    /\ keyOfPair (heap w) q
       = Some (SpatialHash.pairKey (PhysicsBody.id a) (PhysicsBody.id b))
    /\ (NoDup (map PhysicsBody.id (heap w)) ->
        Forall dashFree (map PhysicsBody.id (heap w)) ->
        q = (ra, rb) \/ q = (rb, ra)).
Proof.
  intros w ka kb ra rb a b c Ha Hb Hne Da Db Ea Eb Ca Cb.
  destruct (rebuild_facts (heap w) (PhysicsEngine.bodies (physics w))
              (SpatialHash.clear (PhysicsEngine.broadPhase (physics w))))
    as (_ & _ & M).
  cbv zeta in M.
  destruct (M ka ra a c Ha Da Ea Ca) as (sa & Ga & Ia).
  destruct (M kb rb b c Hb Db Eb Cb) as (sb & Gb & Ib).
  assert (sb = sa) by congruence. subst sb.
  apply (JsMap_get_In _ cell_eqb_spec) in Ga.
  destruct (shared_cell_gives_candidate (heap w)
              (PhysicsEngine.broadPhase (physics (updateSpatialHash w)))
              c sa ra rb a b Ga Ia Ib Hne Da Db) as (q & Hq & Hk).
  exists q. split; [exact Hq |]. split; [exact Hk |].
  intros Hnd Hdf. eapply key_identifies_pair; eauto.
Qed.

(** ** The tick and the spatial hash *)

Lemma examinePair_checks : forall hp d pair,
  checks (examinePair hp d pair) = (checks d + 1)%Z.
Proof.
  intros hp d pair. unfold examinePair.
  destruct (deref hp (fst pair)), (deref hp (snd pair)); try reflexivity.
  destruct (Nat.eqb _ _); [reflexivity |].
  destruct (_ && _)%bool; [reflexivity |].
  destruct (negb _); [reflexivity |].
  destruct (checkCollision _ _ _ _); reflexivity.
Qed.

Lemma examined_checks : forall hp pairs d,
  checks (fold_left (examinePair hp) pairs d)
  = (checks d + Z.of_nat (List.length pairs))%Z.
Proof.
  intros hp. induction pairs as [| p rest IH]; intros d; simpl.
  - lia.
  - rewrite IH, examinePair_checks. lia.
Qed.

Section TickFacts.

Variable Math_pow : R -> R -> R.

(** The candidate pairs of a tick come from the hash as it stood when
    [update] was called, read against the bodies as integration left them. *)
Lemma update_candidates : forall w deltaTime,
  collisionChecks (PhysicsEngine.stats (physics (update Math_pow w deltaTime)))
  = Z.of_nat
      (List.length
         (SpatialHash.getPotentialCollisions
            (heap (updateDynamicBodies Math_pow w deltaTime))
            (PhysicsEngine.broadPhase (physics w)))).
Proof.
  intros w deltaTime. unfold update. cbn.
  rewrite examined_checks. cbn. reflexivity.
Qed.

Lemma update_empty_hash : forall w deltaTime,
  SpatialHash.grid (PhysicsEngine.broadPhase (physics w)) = [] ->
  collisionChecks (PhysicsEngine.stats (physics (update Math_pow w deltaTime))) = 0%Z
  /\ collisionsDetected
       (PhysicsEngine.stats (physics (update Math_pow w deltaTime))) = 0%Z
  /\ PhysicsEngine.collisionPairs (physics (update Math_pow w deltaTime)) = []
  /\ heap (update Math_pow w deltaTime)
     = heap (updateDynamicBodies Math_pow w deltaTime).
Proof.
  intros w deltaTime Hg. unfold update. cbn.
  unfold SpatialHash.getPotentialCollisions. rewrite Hg. cbn. auto.
Qed.

Lemma integrate_still : forall g b,
  PhysicsBody.enabled b = true ->
  let b' := integrate Math_pow g 0 b in
  PhysicsBody.position b' = PhysicsBody.position b
  /\ PhysicsBody.shape b' = PhysicsBody.shape b
  /\ PhysicsBody.enabled b' = true
  /\ PhysicsBody.id b' = PhysicsBody.id b
  /\ PhysicsBody.type b' = PhysicsBody.type b
  /\ boundsFresh b'.
Proof.
  intros g b En. cbv zeta. unfold integrate. rewrite En. cbn [negb].
  cbv zeta. repeat split; try (apply boundsFresh_updateBounds).
  - cbn. rewrite <- (vector_eta (PhysicsBody.position b)) at 2.
    unfold Vector2.add, Vector2.multiply. cbn. f_equal; ring.
  - cbn. exact En.
Qed.

Lemma twoCircles_integrated : forall deltaTime,
  heap (updateDynamicBodies Math_pow twoCircles deltaTime)
  = [integrate Math_pow (Vector2.mk 0 980) deltaTime
       (PhysicsBody.new tickOptionsA "t1");
     integrate Math_pow (Vector2.mk 0 980) deltaTime
       (PhysicsBody.new tickOptionsB "t2")].
Proof. reflexivity. Qed.

End TickFacts.

Lemma Math_floor_unit : forall r, 0 <= r < 1 -> Math_floor r = 0%Z.
Proof.
  intros r H. unfold Math_floor. symmetry. apply Int_part_spec. simpl. lra.
Qed.

Lemma getCells_inside_first_cell : forall h bounds,
  SpatialHash.cellSize h = 64 ->
  0 <= Bounds.left bounds -> Bounds.left bounds <= Bounds.right bounds ->
  Bounds.right bounds < 64 ->
  0 <= Bounds.top bounds -> Bounds.top bounds <= Bounds.bottom bounds ->
  Bounds.bottom bounds < 64 ->
  SpatialHash.getCells h bounds = [(0, 0)%Z].
Proof.
  intros h bounds Hs H1 H2 H3 H4 H5 H6. unfold SpatialHash.getCells.
  rewrite Hs. rewrite !Math_floor_unit by lra.
  reflexivity.
Qed.

Lemma tick_circles_collide : forall a b,
  PhysicsBody.position a = Vector2.mk 20 20 ->
  PhysicsBody.position b = Vector2.mk 35 20 ->
  PhysicsBody.shape a = Circle 10 ->
  PhysicsBody.shape b = Circle 10 ->
  boundsFresh a -> boundsFresh b ->
  exists m, checkCollision 0 1 a b = Some m /\ penetration m = 5.
Proof.
  intros a b Pa Pb Sa Sb Fa Fb.
  assert (D : Vector2.distanceTo (PhysicsBody.position a) (PhysicsBody.position b) = 15).
  { rewrite Pa, Pb. unfold Vector2.distanceTo. cbn. apply sqrt_of_square; lra. }
  rewrite (checkCollision_circles 0 1 a b 10 10 Sa Sb Fa Fb).
  rewrite (circleCircleCollision_hit 0 1 a b 10 10 Sa Sb) by (rewrite D; lra).
  eexists. split; [reflexivity |]. simpl. rewrite D. lra.
Qed.


Lemma createBody_broadPhase : forall w o newId,
  PhysicsEngine.broadPhase (physics (fst (createBody w o newId)))
  = PhysicsEngine.broadPhase (physics w).
Proof. reflexivity. Qed.

Lemma removeBody_broadPhase : forall w r,
  PhysicsEngine.broadPhase (physics (removeBody w r))
  = PhysicsEngine.broadPhase (physics w).
Proof.
  intros w r. unfold removeBody.
  destruct (deref (heap w) r); [| reflexivity].
  destruct (JsMap.has _ _ _); reflexivity.
Qed.

(** No registry call touches the spatial hash: before the first tick it is
    empty whatever has been created. *)
Lemma run_broadPhase : forall calls w,
  PhysicsEngine.broadPhase (physics (run calls w))
  = PhysicsEngine.broadPhase (physics w).
Proof.
  induction calls as [| c rest IH]; intros w; simpl; [reflexivity |].
  rewrite IH. destruct c; [apply createBody_broadPhase | apply removeBody_broadPhase].
Qed.

Lemma fresh_circle_cell : forall h b cx cy,
  SpatialHash.cellSize h = 64 ->
  PhysicsBody.position b = Vector2.mk cx cy ->
  PhysicsBody.shape b = Circle 10 ->
  boundsFresh b ->
  10 <= cx < 54 -> 10 <= cy < 54 ->
  SpatialHash.getCells h (PhysicsBody.bounds b) = [(0, 0)%Z].
Proof.
  intros h b cx cy Hs P S F Hx Hy. unfold boundsFresh in F. rewrite F, P, S.
  apply getCells_inside_first_cell; cbn; try assumption; lra.
Qed.

Lemma insert_single_cell : forall hp h r b c,
  deref hp r = Some b ->
  SpatialHash.getCells h (PhysicsBody.bounds b) = [c] ->
  SpatialHash.insert hp h r
  = SpatialHash.mk (SpatialHash.cellSize h)
                   (SpatialHash.addToCell (SpatialHash.grid h) c r).
Proof.
  intros hp h r b c Hd Hc. unfold SpatialHash.insert. rewrite Hd, Hc.
  reflexivity.
Qed.

Lemma length_modify : forall hp r f, List.length (modify hp r f) = List.length hp.
Proof.
  intros hp r f. unfold modify. destruct (deref hp r); [apply length_store | reflexivity].
Qed.

Lemma fold_modify_length : forall (f : PhysicsBody.t -> PhysicsBody.t) rs hp,
  List.length (fold_left (fun hp r => modify hp r f) rs hp) = List.length hp.
Proof.
  intros f. induction rs as [| r rest IH]; intros hp; simpl; [reflexivity |].
  rewrite IH. apply length_modify.
Qed.

Lemma deref_defined : forall (hp : Heap) r,
  (r < List.length hp)%nat -> exists b, deref hp r = Some b.
Proof.
  intros hp r H. unfold deref.
  destruct (nth_error hp r) as [b |] eqn:E; [eauto |].
  apply nth_error_None in E. lia.
Qed.

(** A cell that holds two bodies gives their pair as a candidate. *)
Lemma candidates_of_one_cell : forall hp size c r1 r2 a b,
  deref hp r1 = Some a -> deref hp r2 = Some b ->
  SpatialHash.getPotentialCollisions hp (SpatialHash.mk size [(c, [r1; r2])])
  = [(r1, r2)].
Proof.
  intros hp size c r1 r2 a b Ha Hb.
  unfold SpatialHash.getPotentialCollisions, SpatialHash.visitCell,
    SpatialHash.visitPair. simpl. rewrite Ha, Hb. reflexivity.
Qed.

Section FirstTicks.

Variable Math_pow : R -> R -> R.

Lemma first_update_heap :
  heap (update Math_pow twoCircles 0) = [(tickedA Math_pow); (tickedB Math_pow)].
Proof.
  destruct (update_empty_hash Math_pow twoCircles 0 eq_refl) as (_ & _ & _ & H).
  rewrite H. apply twoCircles_integrated.
Qed.

Lemma ticked_cells : forall h,
  SpatialHash.cellSize h = 64 ->
  SpatialHash.getCells h (PhysicsBody.bounds (tickedA Math_pow)) = [(0, 0)%Z]
  /\ SpatialHash.getCells h (PhysicsBody.bounds (tickedB Math_pow)) = [(0, 0)%Z].
Proof.
  intros h Hs. unfold tickedA, tickedB.
  destruct (integrate_still Math_pow (Vector2.mk 0 980)
              (PhysicsBody.new tickOptionsA "t1") eq_refl)
    as (Pa & Sa & _ & _ & _ & Fa).
  destruct (integrate_still Math_pow (Vector2.mk 0 980)
              (PhysicsBody.new tickOptionsB "t2") eq_refl)
    as (Pb & Sb & _ & _ & _ & Fb).
  split; [apply (fresh_circle_cell h _ 20 20) | apply (fresh_circle_cell h _ 35 20)];
    auto; lra.
Qed.

Lemma ticked_collide :
  exists m, checkCollision 0 1 (tickedA Math_pow) (tickedB Math_pow) = Some m /\ penetration m = 5.
Proof.
  unfold tickedA, tickedB.
  destruct (integrate_still Math_pow (Vector2.mk 0 980)
              (PhysicsBody.new tickOptionsA "t1") eq_refl)
    as (Pa & Sa & _ & _ & _ & Fa).
  destruct (integrate_still Math_pow (Vector2.mk 0 980)
              (PhysicsBody.new tickOptionsB "t2") eq_refl)
    as (Pb & Sb & _ & _ & _ & Fb).
  apply tick_circles_collide; assumption.
Qed.

Lemma update_hash : forall w deltaTime,
  PhysicsEngine.broadPhase (physics (update Math_pow w deltaTime))
  = fold_left
      (fun h entry =>
         match deref (heap (update Math_pow w deltaTime)) (snd entry) with
         | Some body =>
             if PhysicsBody.enabled body
             then SpatialHash.insert (heap (update Math_pow w deltaTime)) h
                                     (snd entry)
             else h
         | None => h
         end)
      (PhysicsEngine.bodies (physics w))
      (SpatialHash.clear (PhysicsEngine.broadPhase (physics w))).
Proof. reflexivity. Qed.


Lemma ticked_enabled :
  PhysicsBody.enabled (tickedA Math_pow) = true
  /\ PhysicsBody.enabled (tickedB Math_pow) = true.
Proof.
  unfold tickedA, tickedB.
  destruct (integrate_still Math_pow (Vector2.mk 0 980)
              (PhysicsBody.new tickOptionsA "t1") eq_refl)
    as (_ & _ & Ea & _).
  destruct (integrate_still Math_pow (Vector2.mk 0 980)
              (PhysicsBody.new tickOptionsB "t2") eq_refl)
    as (_ & _ & Eb & _).
  auto.
Qed.

Lemma first_update_hash :
  PhysicsEngine.broadPhase (physics (update Math_pow twoCircles 0))
  = SpatialHash.mk 64 [((0, 0)%Z, [0%nat; 1%nat])].
Proof.
  rewrite update_hash, first_update_heap.
  change (PhysicsEngine.bodies (physics twoCircles))
    with [("t1"%string, 0%nat); ("t2"%string, 1%nat)].
  change (SpatialHash.clear (PhysicsEngine.broadPhase (physics twoCircles)))
    with (SpatialHash.mk 64 []).
  destruct ticked_enabled as [Ea Eb].
  unfold fold_left, snd.
  replace (deref [tickedA Math_pow; tickedB Math_pow] 0)
    with (Some (tickedA Math_pow)) by reflexivity.
  replace (deref [tickedA Math_pow; tickedB Math_pow] 1)
    with (Some (tickedB Math_pow)) by reflexivity.
  rewrite Ea, Eb.
  cbv iota.
  assert (Da : deref [tickedA Math_pow; tickedB Math_pow] 0 = Some (tickedA Math_pow))
    by reflexivity.
  assert (Db : deref [tickedA Math_pow; tickedB Math_pow] 1 = Some (tickedB Math_pow))
    by reflexivity.
  destruct (ticked_cells (SpatialHash.mk 64 []) eq_refl) as [Ca _].
  rewrite (insert_single_cell _ _ _ _ _ Da Ca).
  destruct (ticked_cells
              (SpatialHash.mk 64 (SpatialHash.addToCell [] (0, 0)%Z 0)) eq_refl)
    as [_ Cb].
  cbn [SpatialHash.cellSize SpatialHash.grid].
  rewrite (insert_single_cell _ _ _ _ _ Db Cb).
  reflexivity.
Qed.

Lemma second_update_heap_length :
  List.length (heap (updateDynamicBodies Math_pow (update Math_pow twoCircles 0) 0))
  = 2%nat.
Proof.
  unfold updateDynamicBodies. cbn [heap].
  rewrite fold_modify_length, first_update_heap. reflexivity.
Qed.

(** The pair is examined one call late. *)
Lemma second_update_examines_the_pair :
  collisionChecks
    (PhysicsEngine.stats
       (physics (update Math_pow (update Math_pow twoCircles 0) 0))) = 1%Z.
Proof.
  rewrite update_candidates, first_update_hash.
  pose proof second_update_heap_length as L.
  destruct (deref_defined _ 0 ltac:(rewrite L; lia)) as [a Ha].
  destruct (deref_defined _ 1 ltac:(rewrite L; lia)) as [b Hb].
  rewrite (candidates_of_one_cell _ _ _ _ _ _ _ Ha Hb). reflexivity.
Qed.
End FirstTicks.

(** C1 fails on the code: [update] pulls the candidate pairs before it
    rebuilds the hash.  On a fresh engine with two enabled circles that
    overlap by 5 inside the grid cell (0,0), the first [update] examines no
    pair and detects nothing, although after it both bodies are still
    enabled, still overlap by 5 and still lie in that one cell; the pair
    becomes a candidate in the second call only. *)
Theorem C1_first_update_examines_no_pair : forall (Math_pow : R -> R -> R),
  collisionChecks
    (PhysicsEngine.stats (physics (update Math_pow twoCircles 0))) = 0%Z
  /\ collisionsDetected
       (PhysicsEngine.stats (physics (update Math_pow twoCircles 0))) = 0%Z
  /\ PhysicsEngine.collisionPairs (physics (update Math_pow twoCircles 0)) = []
  /\ (exists a b,
        deref (heap (update Math_pow twoCircles 0)) 0 = Some a
        /\ deref (heap (update Math_pow twoCircles 0)) 1 = Some b
        /\ PhysicsBody.enabled a = true
        /\ PhysicsBody.enabled b = true
        /\ (exists m, checkCollision 0 1 a b = Some m /\ penetration m = 5)
        /\ SpatialHash.getCells (PhysicsEngine.broadPhase (physics twoCircles))
                                (PhysicsBody.bounds a) = [(0, 0)%Z]
        /\ SpatialHash.getCells (PhysicsEngine.broadPhase (physics twoCircles))
                                (PhysicsBody.bounds b) = [(0, 0)%Z])
  /\ collisionChecks
       (PhysicsEngine.stats
          (physics (update Math_pow (update Math_pow twoCircles 0) 0))) = 1%Z.
Proof.
  intros Math_pow.
  destruct (update_empty_hash Math_pow twoCircles 0 eq_refl)
    as (Hchecks & Hdet & Hpairs & _).
  split; [exact Hchecks |]. split; [exact Hdet |]. split; [exact Hpairs |].
  split; [| apply second_update_examines_the_pair].
  rewrite first_update_heap.
  destruct (ticked_enabled Math_pow) as [Ea Eb].
  destruct (ticked_cells Math_pow (PhysicsEngine.broadPhase (physics twoCircles))
              eq_refl) as [Ca Cb].
  exists (tickedA Math_pow), (tickedB Math_pow).
  split; [reflexivity |]. split; [reflexivity |].
  split; [exact Ea |]. split; [exact Eb |].
  split; [apply ticked_collide |].
  split; [exact Ca | exact Cb].
Qed.

(** ** Rectangle against rectangle: the direction of the normal *)

(** [rectRectCollision] points its normal from B towards A, the opposite
    of what [circleCircleCollision] does and of what the resolver assumes:
    positional correction then pushes the rectangles into each other. *)
Lemma rectRectCollision_horizontal : forall ra rb a b ox oy,
  Rmin (Bounds.right (PhysicsBody.bounds a)) (Bounds.right (PhysicsBody.bounds b))
  - Rmax (Bounds.left (PhysicsBody.bounds a)) (Bounds.left (PhysicsBody.bounds b)) = ox ->
  Rmin (Bounds.bottom (PhysicsBody.bounds a)) (Bounds.bottom (PhysicsBody.bounds b))
  - Rmax (Bounds.top (PhysicsBody.bounds a)) (Bounds.top (PhysicsBody.bounds b)) = oy ->
  0 < ox -> ox < oy ->
  exists m,
    rectRectCollision ra rb a b = Some m
    /\ penetration m = ox
    /\ normal m
       = Vector2.mk
           (if Rlt_b (Vector2.x (PhysicsBody.position a))
                     (Vector2.x (PhysicsBody.position b)) then -1 else 1) 0.
Proof.
  intros ra rb a b ox oy Hx Hy Hpos Hlt. unfold rectRectCollision.
  cbv zeta. rewrite Hx, Hy.
  assert (E1 : Rgt_b ox 0 = true) by (apply Rgt_b_true; lra).
  assert (E2 : Rgt_b oy 0 = true) by (apply Rgt_b_true; lra).
  assert (E3 : Rlt_b ox oy = true) by (apply Rlt_b_true; lra).
  rewrite E1, E2, E3. simpl. eexists. split; [reflexivity |]. simpl. auto.
Qed.

Lemma square_inverseMass :
  PhysicsBody.getInverseMass squareA = 1 /\ PhysicsBody.getInverseMass squareB = 1.
Proof. unfold PhysicsBody.getInverseMass. cbn. rewrite orR_none. lra. Qed.

Lemma rect_rect_correction_increases_overlap :
  (exists m,
     rectRectCollision 0 1 squareA squareB = Some m
     /\ penetration m = 22
     /\ normal m = Vector2.mk (-1) 0)
  /\ Vector2.x (PhysicsBody.position squareA) < Vector2.x (PhysicsBody.position squareB)
  /\ (exists m',
        rectRectCollision 0 1
          (correctedA squareA (correctionOf squareA squareB (Vector2.mk (-1) 0) 22))
          (correctedB squareB (correctionOf squareA squareB (Vector2.mk (-1) 0) 22))
        = Some m'
        /\ penetration m' = 122 / 5).
Proof.
  destruct square_inverseMass as [Ia Ib].
  split; [| split].
  - destruct (rectRectCollision_horizontal 0 1 squareA squareB 22 32)
      as (m & Hm & Hp & Hn).
    + cbn. rewrite Rmin_left, Rmax_right by lra. lra.
    + cbn. rewrite Rmin_left, Rmax_right by lra. lra.
    + lra.
    + lra.
    + exists m. split; [exact Hm |]. split; [exact Hp |].
      rewrite Hn. cbn.
      assert (E : Rlt_b 0 10 = true) by (apply Rlt_b_true; lra).
      rewrite E. reflexivity.
  - cbn. lra.
  - unfold correctionOf. rewrite Ia, Ib.
    destruct (rectRectCollision_horizontal 0 1
                (correctedA squareA (Vector2.multiply (Vector2.mk (-1) 0)
                                       (22 / (1 + 1) * (8 / 10))))
                (correctedB squareB (Vector2.multiply (Vector2.mk (-1) 0)
                                       (22 / (1 + 1) * (8 / 10))))
                (122 / 5) 32)
      as (m & Hm & Hp & _).
    + unfold correctedA, correctedB. cbn. rewrite !orR_none.
      rewrite Rmin_right, Rmax_left by lra. lra.
    + unfold correctedA, correctedB. cbn.
      rewrite Rmin_left, Rmax_right by lra. lra.
    + lra.
    + lra.
    + exists m. auto.
Qed.

(** ** What a tick keeps: bodies, registry, boxes *)

Lemma constants_fields : forall b b',
  constants b' = constants b ->
  PhysicsBody.id b' = PhysicsBody.id b
  /\ PhysicsBody.type b' = PhysicsBody.type b
  /\ PhysicsBody.shape b' = PhysicsBody.shape b
  /\ PhysicsBody.enabled b' = PhysicsBody.enabled b
  /\ PhysicsBody.mass b' = PhysicsBody.mass b.
Proof.
  intros b b' H.
  repeat split.
  - exact (f_equal PhysicsBody.id H).
  - exact (f_equal PhysicsBody.type H).
  - exact (f_equal PhysicsBody.shape H).
  - exact (f_equal PhysicsBody.enabled H).
  - exact (f_equal PhysicsBody.mass H).
Qed.

Lemma heapRel_refl : forall (R : PhysicsBody.t -> PhysicsBody.t -> Prop) hp,
  (forall b, R b b) -> heapRel R hp hp.
Proof.
  intros R hp HR. split; [reflexivity |].
  intros r b H. exists b. split; [exact H | apply HR].
Qed.

Lemma heapRel_trans : forall (R : PhysicsBody.t -> PhysicsBody.t -> Prop)
    hp1 hp2 hp3,
  (forall a b c, R a b -> R b c -> R a c) ->
  heapRel R hp1 hp2 -> heapRel R hp2 hp3 -> heapRel R hp1 hp3.
Proof.
  intros R hp1 hp2 hp3 HT [L12 H12] [L23 H23]. split; [congruence |].
  intros r b H. destruct (H12 r b H) as (b2 & D2 & R2).
  destruct (H23 r b2 D2) as (b3 & D3 & R3).
  exists b3. split; [exact D3 | exact (HT _ _ _ R2 R3)].
Qed.

Lemma heapRel_store : forall (R : PhysicsBody.t -> PhysicsBody.t -> Prop)
    hp r b b',
  (forall x, R x x) ->
  deref hp r = Some b -> R b b' -> heapRel R hp (store hp r b').
Proof.
  intros R hp r b b' HR D Rb. split; [apply length_store |].
  intros r' x Dx. destruct (Nat.eq_dec r r') as [<- | Hne].
  - exists b'. split; [exact (deref_store_same hp r b' b D) |].
    rewrite D in Dx. injection Dx as <-. exact Rb.
  - exists x. split; [rewrite deref_store_other by exact Hne; exact Dx | apply HR].
Qed.

Lemma heapRel_modify : forall (R : PhysicsBody.t -> PhysicsBody.t -> Prop)
    hp r f,
  (forall x, R x x) ->
  (forall b, deref hp r = Some b -> R b (f b)) ->
  heapRel R hp (modify hp r f).
Proof.
  intros R hp r f HR Hf. unfold modify.
  destruct (deref hp r) as [b |] eqn:D.
  - apply (heapRel_store R hp r b (f b) HR D). apply Hf. reflexivity.
  - apply heapRel_refl. exact HR.
Qed.

Lemma heapRel_inv : forall (R : PhysicsBody.t -> PhysicsBody.t -> Prop)
    hp hp' r b',
  heapRel R hp hp' -> deref hp' r = Some b' ->
  exists b, deref hp r = Some b /\ R b b'.
Proof.
  intros R hp hp' r b' [L H] D.
  assert (Hlt : (r < List.length hp)%nat).
  { rewrite <- L. exact (deref_Some_lt hp' r b' D). }
  destruct (deref_defined hp r Hlt) as (b & Db).
  exists b. split; [exact Db |].
  destruct (H r b Db) as (b2 & D2 & R2).
  rewrite D in D2. injection D2 as <-. exact R2.
Qed.

Lemma heapRel_weaken : forall (R R' : PhysicsBody.t -> PhysicsBody.t -> Prop)
    hp hp',
  (forall a b, R a b -> R' a b) -> heapRel R hp hp' -> heapRel R' hp hp'.
Proof.
  intros R R' hp hp' HW [L H]. split; [exact L |].
  intros r b D. destruct (H r b D) as (b' & D' & Rb).
  exists b'. split; [exact D' | exact (HW _ _ Rb)].
Qed.

(** *** The resolver *)

Lemma resolved_refl : forall b, resolved b b.
Proof. intros b. split; [reflexivity | split; [reflexivity | tauto]]. Qed.

Lemma resolved_trans : forall a b c, resolved a b -> resolved b c -> resolved a c.
Proof.
  intros a b c (C1 & N1 & F1) (C2 & N2 & F2).
  split; [congruence |]. split.
  - intros Hn. rewrite <- (N1 Hn). apply N2.
    rewrite (N1 Hn). exact Hn.
  - intros Hf. apply F2, F1, Hf.
Qed.

Lemma resolved_type : forall b b', resolved b b' ->
  PhysicsBody.type b' = PhysicsBody.type b.
Proof. intros b b' (C & _). exact (f_equal PhysicsBody.type C). Qed.

Lemma resolved_moved : forall b p,
  PhysicsBody.type b = Dynamic ->
  resolved b (PhysicsBody.updateBounds (PhysicsBody.set_position b p)).
Proof.
  intros b p Hd. split; [reflexivity |]. split.
  - intros Hn. contradiction.
  - intros _. apply boundsFresh_updateBounds.
Qed.

Lemma resolved_pushed : forall b v,
  PhysicsBody.type b = Dynamic ->
  resolved b (PhysicsBody.set_velocity b v).
Proof.
  intros b v Hd. split; [reflexivity |]. split.
  - intros Hn. contradiction.
  - intros Hf. exact Hf.
Qed.

Lemma resolvePosition_rel : forall hp ra rb n pen,
  heapRel resolved hp (resolvePosition hp ra rb n pen).
Proof.
  intros hp ra rb n pen. unfold resolvePosition.
  destruct (deref hp ra) as [a |] eqn:Da; [| apply heapRel_refl, resolved_refl].
  destruct (deref hp rb) as [b |] eqn:Db; [| apply heapRel_refl, resolved_refl].
  destruct (Req_dec_T _ 0); [apply heapRel_refl, resolved_refl |].
  match goal with
  | |- heapRel _ _ (match PhysicsBody.type b with
                    | Dynamic => modify ?h1 _ _ | _ => _ end) =>
      assert (H1 : heapRel resolved hp h1)
  end.
  { destruct (PhysicsBody.type a) eqn:Ta; try (apply heapRel_refl, resolved_refl).
    apply heapRel_modify; [apply resolved_refl |].
    intros x Dx. apply resolved_moved. congruence. }
  destruct (PhysicsBody.type b) eqn:Tb; try exact H1.
  eapply heapRel_trans; [exact resolved_trans | exact H1 |].
  apply heapRel_modify; [apply resolved_refl |].
  intros x Dx. apply resolved_moved.
  destruct H1 as [_ H1]. destruct (H1 rb b Db) as (b1 & D1 & R1).
  rewrite Dx in D1. injection D1 as <-.
  rewrite (resolved_type _ _ R1). exact Tb.
Qed.

Lemma applyToVelocities_rel : forall hp ra rb v,
  heapRel resolved hp (applyToVelocities hp ra rb v).
Proof.
  intros hp ra rb v. unfold applyToVelocities.
  match goal with
  | |- heapRel _ _ (match deref ?h1 rb with _ => _ end) =>
      assert (H1 : heapRel resolved hp h1); [| set (hp1 := h1) in * ]
  end.
  { destruct (deref hp ra) as [a |] eqn:Da; [| apply heapRel_refl, resolved_refl].
    destruct (PhysicsBody.type a) eqn:Ta; try (apply heapRel_refl, resolved_refl).
    apply (heapRel_store resolved hp ra a); [apply resolved_refl | exact Da |].
    apply resolved_pushed. exact Ta. }
  destruct (deref hp1 rb) as [b |] eqn:Db; [| exact H1].
  destruct (PhysicsBody.type b) eqn:Tb; try exact H1.
  eapply heapRel_trans; [exact resolved_trans | exact H1 |].
  apply (heapRel_store resolved hp1 rb b); [apply resolved_refl | exact Db |].
  apply resolved_pushed. exact Tb.
Qed.

Lemma applyFriction_rel : forall hp ra rb n s,
  heapRel resolved hp (applyFriction hp ra rb n s).
Proof.
  intros hp ra rb n s. unfold applyFriction.
  destruct (deref hp ra) as [a |]; [| apply heapRel_refl, resolved_refl].
  destruct (deref hp rb) as [b |]; [| apply heapRel_refl, resolved_refl].
  destruct (Req_dec_T _ 0); [apply heapRel_refl, resolved_refl |].
  apply applyToVelocities_rel.
Qed.

Lemma resolveVelocity_rel : forall hp ra rb n,
  heapRel resolved hp (resolveVelocity hp ra rb n).
Proof.
  intros hp ra rb n. unfold resolveVelocity.
  destruct (deref hp ra) as [a |]; [| apply heapRel_refl, resolved_refl].
  destruct (deref hp rb) as [b |]; [| apply heapRel_refl, resolved_refl].
  destruct (Rgt_b _ 0); [apply heapRel_refl, resolved_refl |].
  destruct (Req_dec_T _ 0); [apply heapRel_refl, resolved_refl |].
  eapply heapRel_trans; [exact resolved_trans | apply applyToVelocities_rel |].
  apply applyFriction_rel.
Qed.

Lemma resolveCollision_rel : forall hp c,
  heapRel resolved hp (resolveCollision hp c).
Proof.
  intros hp c. unfold resolveCollision.
  eapply heapRel_trans; [exact resolved_trans | apply resolvePosition_rel |].
  apply resolveVelocity_rel.
Qed.

Lemma resolveCollisions_rel : forall cs hp,
  heapRel resolved hp (resolveCollisions hp cs).
Proof.
  unfold resolveCollisions.
  induction cs as [| c cs IH]; intros hp; simpl.
  - apply heapRel_refl, resolved_refl.
  - eapply heapRel_trans; [exact resolved_trans | apply resolveCollision_rel |].
    apply IH.
Qed.

(** *** Integration *)

Lemma ticked_refl : forall b, ticked b b.
Proof. intros b. split; [reflexivity | tauto]. Qed.

Lemma ticked_trans : forall a b c, ticked a b -> ticked b c -> ticked a c.
Proof.
  intros a b c (C1 & F1) (C2 & F2). split; [congruence | tauto].
Qed.

Lemma resolved_ticked : forall b b', resolved b b' -> ticked b b'.
Proof. intros b b' (C & _ & F). split; assumption. Qed.

Section IntegrationFacts.

Variable Math_pow : R -> R -> R.

Lemma integrate_ticked : forall g deltaTime b,
  ticked b (integrate Math_pow g deltaTime b).
Proof.
  intros g deltaTime b. unfold integrate.
  destruct (PhysicsBody.enabled b) eqn:E; simpl.
  - split; [| intros _; apply boundsFresh_updateBounds].
    unfold constants. simpl. rewrite E. reflexivity.
  - apply ticked_refl.
Qed.

Lemma integrate_disabled : forall g deltaTime b,
  PhysicsBody.enabled b = false -> integrate Math_pow g deltaTime b = b.
Proof. intros g deltaTime b E. unfold integrate. rewrite E. reflexivity. Qed.

Lemma fold_modify_rel : forall (f : PhysicsBody.t -> PhysicsBody.t) rs hp,
  (forall b, ticked b (f b)) ->
  heapRel ticked hp (fold_left (fun hp r => modify hp r f) rs hp)
  /\ (forall r, ~ In r rs ->
        deref (fold_left (fun hp r => modify hp r f) rs hp) r = deref hp r).
Proof.
  intros f rs. induction rs as [| r0 rs IH]; intros hp Hf; simpl.
  - split; [apply heapRel_refl, ticked_refl | reflexivity].
  - destruct (IH (modify hp r0 f) Hf) as [IH1 IH2]. split.
    + eapply heapRel_trans; [exact ticked_trans | | exact IH1].
      apply heapRel_modify; [apply ticked_refl |]. intros b _. apply Hf.
    + intros r Hn. rewrite IH2 by tauto.
      apply deref_modify_other. intros ->. apply Hn. left. reflexivity.
Qed.

Lemma updateDynamicBodies_rel : forall w deltaTime,
  heapRel ticked (heap w) (heap (updateDynamicBodies Math_pow w deltaTime))
  /\ (forall r, ~ In r (PhysicsEngine.dynamicBodies (physics w)) ->
        deref (heap (updateDynamicBodies Math_pow w deltaTime)) r
        = deref (heap w) r).
Proof.
  intros w deltaTime. unfold updateDynamicBodies. simpl.
  apply fold_modify_rel. intros b. apply integrate_ticked.
Qed.

Lemma update_heap : forall w deltaTime,
  exists cs,
    heap (update Math_pow w deltaTime)
    = resolveCollisions (heap (updateDynamicBodies Math_pow w deltaTime)) cs.
Proof.
  intros w deltaTime. eexists. reflexivity.
Qed.

Lemma update_rel : forall w deltaTime,
  heapRel ticked (heap w) (heap (update Math_pow w deltaTime)).
Proof.
  intros w deltaTime. destruct (update_heap w deltaTime) as (cs & ->).
  eapply heapRel_trans; [exact ticked_trans | |].
  - apply (proj1 (updateDynamicBodies_rel w deltaTime)).
  - eapply heapRel_weaken; [exact resolved_ticked | apply resolveCollisions_rel].
Qed.

Lemma update_registry : forall w deltaTime,
  PhysicsEngine.bodies (physics (update Math_pow w deltaTime))
  = PhysicsEngine.bodies (physics w)
  /\ PhysicsEngine.staticBodies (physics (update Math_pow w deltaTime))
     = PhysicsEngine.staticBodies (physics w)
  /\ PhysicsEngine.dynamicBodies (physics (update Math_pow w deltaTime))
     = PhysicsEngine.dynamicBodies (physics w)
  /\ bodyCount (PhysicsEngine.stats (physics (update Math_pow w deltaTime)))
     = bodyCount (PhysicsEngine.stats (physics w))
  /\ PhysicsEngine.gravity (physics (update Math_pow w deltaTime))
     = PhysicsEngine.gravity (physics w).
Proof. intros w deltaTime. repeat split. Qed.

End IntegrationFacts.

Lemma ticked_constants : forall b b', ticked b b' -> constants b' = constants b.
Proof. intros b b' [C _]. exact C. Qed.

Lemma heapRel_ids : forall hp hp',
  heapRel (fun b b' => constants b' = constants b) hp hp' ->
  map PhysicsBody.id hp' = map PhysicsBody.id hp.
Proof.
  induction hp as [| b hp IH]; intros hp' [L H].
  - destruct hp'; [reflexivity | discriminate L].
  - destruct hp' as [| b' hp']; [discriminate L |].
    simpl. f_equal.
    + destruct (H 0%nat b eq_refl) as (x & Dx & C).
      simpl in Dx. injection Dx as <-. exact (f_equal PhysicsBody.id C).
    + apply IH. split; [simpl in L; lia |].
      intros r x D. apply (H (S r) x). exact D.
Qed.

(** The registry of [w] stays consistent when the heap is replaced by one
    that holds the same objects with the same constants. *)
Lemma registryInvariant_heapRel : forall w w',
  registryInvariant w ->
  heapRel (fun b b' => constants b' = constants b) (heap w) (heap w') ->
  PhysicsEngine.bodies (physics w') = PhysicsEngine.bodies (physics w) ->
  PhysicsEngine.staticBodies (physics w') = PhysicsEngine.staticBodies (physics w) ->
  PhysicsEngine.dynamicBodies (physics w') = PhysicsEngine.dynamicBodies (physics w) ->
  bodyCount (PhysicsEngine.stats (physics w'))
  = bodyCount (PhysicsEngine.stats (physics w)) ->
  registryInvariant w'.
Proof.
  intros w w' [KU IU KB SS DS CS] HR Eb Es Ed Ec.
  constructor.
  - rewrite Eb. exact KU.
  - rewrite (heapRel_ids _ _ HR). exact IU.
  - rewrite Eb. intros k r Hin.
    destruct (KB k r Hin) as (b & D & I).
    destruct (proj2 HR r b D) as (b' & D' & C).
    exists b'. split; [exact D' |].
    rewrite <- I. exact (f_equal PhysicsBody.id C).
  - rewrite Eb, Es. intros r. rewrite SS. split.
    + intros (k & b & Hin & D & T).
      destruct (proj2 HR r b D) as (b' & D' & C).
      exists k, b'. split; [exact Hin |]. split; [exact D' |].
      rewrite <- T. exact (f_equal PhysicsBody.type C).
    + intros (k & b' & Hin & D' & T).
      destruct (heapRel_inv _ _ _ _ _ HR D') as (b & D & C).
      exists k, b. split; [exact Hin |]. split; [exact D |].
      rewrite <- T. symmetry. exact (f_equal PhysicsBody.type C).
  - rewrite Eb, Ed. intros r. rewrite DS. split.
    + intros (k & b & Hin & D & T).
      destruct (proj2 HR r b D) as (b' & D' & C).
      exists k, b'. split; [exact Hin |]. split; [exact D' |].
      intros T'. apply T. rewrite <- T'. symmetry.
      exact (f_equal PhysicsBody.type C).
    + intros (k & b' & Hin & D' & T).
      destruct (heapRel_inv _ _ _ _ _ HR D') as (b & D & C).
      exists k, b. split; [exact Hin |]. split; [exact D |].
      intros T'. apply T. rewrite <- T'.
      exact (f_equal PhysicsBody.type C).
  - rewrite Ec, Eb. exact CS.
Qed.

Lemma update_preserves : forall Math_pow w deltaTime,
  registryInvariant w -> registryInvariant (update Math_pow w deltaTime).
Proof.
  intros Math_pow w deltaTime Inv.
  destruct (update_registry Math_pow w deltaTime) as (Eb & Es & Ed & Ec & _).
  exact (registryInvariant_heapRel w _ Inv
           (heapRel_weaken _ _ _ _ ticked_constants (update_rel Math_pow w deltaTime))
           Eb Es Ed Ec).
Qed.

Lemma engineRun_preserves : forall Math_pow calls w,
  registryInvariant w -> engineIdsFresh Math_pow calls w ->
  registryInvariant (engineRun Math_pow calls w).
Proof.
  intros Math_pow calls. unfold engineRun.
  induction calls as [| c calls IH]; intros w Inv Hf; simpl.
  - exact Inv.
  - destruct Hf as [Hc Hrest]. apply IH; [| exact Hrest].
    destruct c as [[o newId | r] | dt]; simpl.
    + apply createBody_preserves; assumption.
    + apply removeBody_preserves. exact Inv.
    + apply update_preserves. exact Inv.
Qed.


Lemma heapRel_Forall_fresh : forall hp hp',
  heapRel ticked hp hp' -> Forall boundsFresh hp -> Forall boundsFresh hp'.
Proof.
  intros hp hp' HR HF. apply Forall_forall. intros b' Hin.
  destruct (In_nth_error _ _ Hin) as (r & D').
  destruct (heapRel_inv _ _ _ _ _ HR D') as (b & D & (_ & F)).
  apply F. rewrite Forall_forall in HF. apply HF.
  exact (nth_error_In _ _ D).
Qed.

Lemma engineStep_fresh : forall Math_pow w c,
  Forall boundsFresh (heap w) ->
  Forall boundsFresh (heap (engineStep Math_pow w c)).
Proof.
  intros Math_pow w [[o newId | r] | dt] HF; simpl.
  - apply Forall_app. split; [exact HF |].
    constructor; [| constructor]. apply boundsFresh_updateBounds.
  - unfold removeBody. destruct (deref (heap w) r); [| exact HF].
    destruct (JsMap.has _ _ _); exact HF.
  - exact (heapRel_Forall_fresh _ _ (update_rel Math_pow w dt) HF).
Qed.

Lemma engineRun_fresh : forall Math_pow calls w,
  Forall boundsFresh (heap w) ->
  Forall boundsFresh (heap (engineRun Math_pow calls w)).
Proof.
  intros Math_pow calls. unfold engineRun.
  induction calls as [| c calls IH]; intros w HF; simpl.
  - exact HF.
  - apply IH. apply engineStep_fresh. exact HF.
Qed.

(** X3: the cached box of a body never goes stale
    through the engine.  After any sequence of [createBody], [removeBody]
    and [update] calls on a new engine, the [bounds] of every body object
    are the box [updateBounds] computes from its current position and
    shape; [update] and [createBody] each keep that property of a heap. *)
Theorem bounds_stay_fresh : forall (Math_pow : R -> R -> R)
    (calls : list EngineCall),
  Forall boundsFresh (heap (engineRun Math_pow calls newWorld))
  /\ (forall w deltaTime,
        Forall boundsFresh (heap w) ->
        Forall boundsFresh (heap (update Math_pow w deltaTime)))
  /\ (forall w o newId,
        Forall boundsFresh (heap w) ->
        Forall boundsFresh (heap (fst (createBody w o newId)))).
Proof.
  intros Math_pow calls. split; [| split].
  - apply engineRun_fresh. constructor.
  - intros w deltaTime HF.
    exact (engineStep_fresh Math_pow w (Tick deltaTime) HF).
  - intros w o newId HF.
    exact (engineStep_fresh Math_pow w (Registry (CallCreate o newId)) HF).
Qed.


Lemma static_not_dynamic_set : forall w r b,
  registryInvariant w -> deref (heap w) r = Some b ->
  PhysicsBody.type b = Static ->
  ~ In r (PhysicsEngine.dynamicBodies (physics w)).
Proof.
  intros w r b Inv D T Hin.
  destruct (proj1 (dynamic_set w Inv r) Hin) as (k & b0 & _ & D0 & T0).
  rewrite D in D0. injection D0 as <-. contradiction.
Qed.

Lemma resolveCollisions_keeps : forall hp cs r b,
  deref hp r = Some b -> PhysicsBody.type b <> Dynamic ->
  deref (resolveCollisions hp cs) r = Some b.
Proof.
  intros hp cs r b D T.
  destruct (proj2 (resolveCollisions_rel cs hp) r b D) as (b' & D' & (_ & N & _)).
  rewrite D'. f_equal. apply N. exact T.
Qed.

Lemma update_keeps_static : forall Math_pow w deltaTime r b,
  registryInvariant w -> deref (heap w) r = Some b ->
  PhysicsBody.type b = Static ->
  deref (heap (update Math_pow w deltaTime)) r = Some b.
Proof.
  intros Math_pow w deltaTime r b Inv D T.
  destruct (update_heap Math_pow w deltaTime) as (cs & ->).
  apply resolveCollisions_keeps; [| rewrite T; discriminate].
  rewrite (proj2 (updateDynamicBodies_rel Math_pow w deltaTime) r); [exact D |].
  exact (static_not_dynamic_set w r b Inv D T).
Qed.

Lemma engineStep_keeps_static : forall Math_pow w c r b,
  registryInvariant w -> deref (heap w) r = Some b ->
  PhysicsBody.type b = Static ->
  deref (heap (engineStep Math_pow w c)) r = Some b.
Proof.
  intros Math_pow w [[o newId | r0] | dt] r b Inv D T; simpl.
  - rewrite deref_alloc_old; [exact D | exact (deref_Some_lt _ _ _ D)].
  - unfold removeBody. destruct (deref (heap w) r0); [| exact D].
    destruct (JsMap.has _ _ _); exact D.
  - apply update_keeps_static; assumption.
Qed.

Lemma static_bodies_never_change_aux : forall (Math_pow : R -> R -> R)
    (calls : list EngineCall) (w : World) (r : ref) (b : PhysicsBody.t),
  registryInvariant w ->
  engineIdsFresh Math_pow calls w ->
  deref (heap w) r = Some b ->
  PhysicsBody.type b = Static ->
  deref (heap (engineRun Math_pow calls w)) r = Some b.
Proof.
  intros Math_pow calls. unfold engineRun.
  induction calls as [| c calls IH]; intros w r b Inv Hf D T; simpl.
  - exact D.
  - destruct Hf as [Hc Hrest]. apply IH; try assumption.
    + destruct c as [[o newId | r0] | dt]; simpl.
      * apply createBody_preserves; assumption.
      * apply removeBody_preserves. exact Inv.
      * apply update_preserves. exact Inv.
    + apply engineStep_keeps_static; assumption.
Qed.


(** X4: the engine never writes to a static
    body.  In a consistent registry, whatever calls follow ([createBody]
    with fresh ids, [removeBody], [update]), the object of a body of type
    ['static'] keeps every field, position, velocity and box included. *)
Theorem static_bodies_never_change : forall (Math_pow : R -> R -> R)
    (calls : list EngineCall) (w : World) (r : ref) (b : PhysicsBody.t),
  registryInvariant w ->
  engineIdsFresh Math_pow calls w ->
  deref (heap w) r = Some b ->
  PhysicsBody.type b = Static ->
  deref (heap (engineRun Math_pow calls w)) r = Some b.
Proof.
  exact static_bodies_never_change_aux.
Qed.

Lemma groundWorld_invariant : registryInvariant groundWorld.
Proof.
  apply createBody_preserves; [exact registryInvariant_new |].
  intros H. exact H.
Qed.

Lemma static_bodies_never_change_witness :
  deref (heap (engineRun (fun _ _ => 1)
                 [Tick (1 / 60); Registry (CallCreate Options.empty "b2");
                  Tick (1 / 60)] groundWorld)) 0
  = Some (PhysicsBody.new (rectOptions 0 100 200 20 Static) "g1").
Proof.
  apply (static_bodies_never_change (fun _ _ => 1)
           [Tick (1 / 60); Registry (CallCreate Options.empty "b2");
            Tick (1 / 60)] groundWorld 0
           (PhysicsBody.new (rectOptions 0 100 200 20 Static) "g1")).
  - exact groundWorld_invariant.
  - split; [exact I |]. split; [| split; [exact I | exact I]].
    unfold idFresh. cbn [engineStep].
    rewrite (heapRel_ids _ _
               (heapRel_weaken _ _ _ _ ticked_constants
                  (update_rel (fun _ _ => 1) groundWorld (1 / 60)))).
    simpl. intros [H | []]. discriminate H.
  - reflexivity.
  - reflexivity.
Defined.

(** X5: collision resolution never
    writes to a body whose type is not ['dynamic'].  Whatever the
    manifolds, and whether or not the body is one of the pair,
    [resolveCollisions], [resolvePosition], [resolveVelocity] and
    [applyFriction] leave a static or kinematic body as it was. *)
Theorem resolver_leaves_non_dynamic_bodies : forall (hp : Heap)
    (cs : list Manifold) (r : ref) (b : PhysicsBody.t),
  deref hp r = Some b ->
  PhysicsBody.type b <> Dynamic ->
  deref (resolveCollisions hp cs) r = Some b
  /\ (forall ra rb n pen, deref (resolvePosition hp ra rb n pen) r = Some b)
  /\ (forall ra rb n, deref (resolveVelocity hp ra rb n) r = Some b)
  /\ (forall ra rb n s, deref (applyFriction hp ra rb n s) r = Some b).
Proof.
  intros hp cs r b D T. split; [exact (resolveCollisions_keeps hp cs r b D T) |].
  split; [| split].
  - intros ra rb n pen.
    destruct (proj2 (resolvePosition_rel hp ra rb n pen) r b D)
      as (b' & D' & (_ & N & _)).
    rewrite D'. f_equal. exact (N T).
  - intros ra rb n.
    destruct (proj2 (resolveVelocity_rel hp ra rb n) r b D)
      as (b' & D' & (_ & N & _)).
    rewrite D'. f_equal. exact (N T).
  - intros ra rb n s.
    destruct (proj2 (applyFriction_rel hp ra rb n s) r b D)
      as (b' & D' & (_ & N & _)).
    rewrite D'. f_equal. exact (N T).
Qed.

Lemma resolver_leaves_non_dynamic_bodies_witness :
  deref (resolveCollisions kinematicPair
           [mkManifold 0 1 (Vector2.mk 1 0) 5 (Vector2.mk 10 0)]) 0
  = Some (circleA Kinematic)
  /\ (forall ra rb n pen,
        deref (resolvePosition kinematicPair ra rb n pen) 0
        = Some (circleA Kinematic))
  /\ (forall ra rb n,
        deref (resolveVelocity kinematicPair ra rb n) 0 = Some (circleA Kinematic))
  /\ (forall ra rb n s,
        deref (applyFriction kinematicPair ra rb n s) 0 = Some (circleA Kinematic)).
Proof.
  apply (resolver_leaves_non_dynamic_bodies kinematicPair
           [mkManifold 0 1 (Vector2.mk 1 0) 5 (Vector2.mk 10 0)] 0
           (circleA Kinematic)).
  - reflexivity.
  - discriminate.
Defined.

(** X1: the registry stays consistent
    when ticks are interleaved with the registry calls.  After any sequence
    of [createBody] (with fresh ids), [removeBody] and [update] on a new
    engine, the map has one entry per id that points to the body with that
    id, the static and dynamic sets partition the registered bodies by
    type, and [bodyCount] is the size of the map. *)
Theorem engine_registry_stays_consistent : forall (Math_pow : R -> R -> R)
    (calls : list EngineCall),
  engineIdsFresh Math_pow calls newWorld ->
  registryInvariant (engineRun Math_pow calls newWorld)
  /\ registryPartition (engineRun Math_pow calls newWorld)
  /\ (forall deltaTime,
        registryInvariant
          (update Math_pow (engineRun Math_pow calls newWorld) deltaTime)).
Proof.
  intros Math_pow calls Hf.
  assert (Inv : registryInvariant (engineRun Math_pow calls newWorld)).
  { apply engineRun_preserves; [exact registryInvariant_new | exact Hf]. }
  split; [exact Inv |]. split.
  - apply registryInvariant_partition. exact Inv.
  - intros deltaTime. apply update_preserves. exact Inv.
Qed.

Lemma engine_registry_stays_consistent_witness :
  registryInvariant (engineRun (fun _ _ => 1) engineDemo newWorld)
  /\ registryPartition (engineRun (fun _ _ => 1) engineDemo newWorld)
  /\ (forall deltaTime,
        registryInvariant
          (update (fun _ _ => 1) (engineRun (fun _ _ => 1) engineDemo newWorld)
                  deltaTime)).
Proof.
  apply (engine_registry_stays_consistent (fun _ _ => 1) engineDemo).
  split; [intros H; exact H |].
  split; [| split; [exact I | split; [exact I | split; [exact I | exact I]]]].
  intros [H | []]. discriminate H.
Defined.

(** *** Detection *)

Lemma examinePair_found : forall hp d pair m,
  In m (found (examinePair hp d pair))
  <-> In m (found d) \/ manifoldOf hp pair m.
Proof.
  intros hp d pair m. unfold examinePair, manifoldOf.
  destruct (deref hp (fst pair)) as [a |] eqn:Da;
    [| simpl; split; [tauto | intros [H | (a & b & H & _)]; [exact H | discriminate H]]].
  destruct (deref hp (snd pair)) as [b |] eqn:Db;
    [| simpl; split;
       [tauto | intros [H | (a' & b' & _ & H & _)]; [exact H | discriminate H]]].
  destruct (Nat.eqb (fst pair) (snd pair)) eqn:E.
  { simpl. split; [tauto |].
    intros [H | (a' & b' & _ & _ & Hne & _)]; [exact H |].
    apply Nat.eqb_eq in E. contradiction. }
  apply Nat.eqb_neq in E.
  destruct (BodyType_eqb (PhysicsBody.type a) Static
            && BodyType_eqb (PhysicsBody.type b) Static)%bool eqn:St.
  { simpl. split; [tauto |].
    intros [H | (a' & b' & Ha & Hb & _ & Hns & _)]; [exact H |].
    injection Ha as <-. injection Hb as <-. exfalso. apply Hns.
    apply andb_true_iff in St. destruct St as [S1 S2].
    destruct (PhysicsBody.type a); try discriminate S1.
    destruct (PhysicsBody.type b); try discriminate S2.
    split; reflexivity. }
  assert (Hns : ~ (PhysicsBody.type a = Static /\ PhysicsBody.type b = Static)).
  { intros [T1 T2]. rewrite T1, T2 in St. discriminate St. }
  destruct (shouldCollide a b) eqn:Sc; simpl.
  2:{ split; [tauto |].
      intros [H | (a' & b' & Ha & Hb & _ & _ & Hs & _)]; [exact H |].
      injection Ha as <-. injection Hb as <-. congruence. }
  destruct (checkCollision (fst pair) (snd pair) a b) as [c |] eqn:Cc; simpl.
  - rewrite in_app_iff. simpl. split.
    + intros [H | [<- | []]]; [left; exact H | right].
      exists a, b. repeat split; try assumption; tauto.
    + intros [H | (a' & b' & Ha & Hb & _ & _ & _ & Hc)]; [left; exact H |].
      injection Ha as <-. injection Hb as <-.
      right. left. congruence.
  - split; [tauto |].
    intros [H | (a' & b' & Ha & Hb & _ & _ & _ & Hc)]; [exact H |].
    injection Ha as <-. injection Hb as <-. congruence.
Qed.

Lemma examinePair_detected : forall hp d pair,
  (detected (examinePair hp d pair)
   - Z.of_nat (List.length (found (examinePair hp d pair))))%Z
  = (detected d - Z.of_nat (List.length (found d)))%Z
  /\ (List.length (found (examinePair hp d pair))
      <= S (List.length (found d)))%nat.
Proof.
  intros hp d pair. unfold examinePair.
  destruct (deref hp (fst pair)); [| simpl; lia].
  destruct (deref hp (snd pair)); [| simpl; lia].
  destruct (Nat.eqb _ _); [simpl; lia |].
  destruct (_ && _)%bool; [simpl; lia |].
  destruct (negb _); [simpl; lia |].
  destruct (checkCollision _ _ _ _); simpl; [| lia].
  rewrite length_app. simpl. lia.
Qed.

Lemma examined_found : forall hp pairs d m,
  In m (found (fold_left (examinePair hp) pairs d))
  <-> In m (found d) \/ exists pair, In pair pairs /\ manifoldOf hp pair m.
Proof.
  intros hp pairs. induction pairs as [| p pairs IH]; intros d m; simpl.
  - split; [tauto | intros [H | (pair & [] & _)]; exact H].
  - rewrite IH, examinePair_found. split.
    + intros [[H | H] | (pair & Hin & H)].
      * left. exact H.
      * right. exists p. split; [left; reflexivity | exact H].
      * right. exists pair. split; [right; exact Hin | exact H].
    + intros [H | (pair & [<- | Hin] & H)].
      * left. left. exact H.
      * left. right. exact H.
      * right. exists pair. split; assumption.
Qed.

Lemma examined_detected : forall hp pairs d,
  (detected (fold_left (examinePair hp) pairs d)
   - Z.of_nat (List.length (found (fold_left (examinePair hp) pairs d))))%Z
  = (detected d - Z.of_nat (List.length (found d)))%Z
  /\ (List.length (found (fold_left (examinePair hp) pairs d))
      <= List.length (found d) + List.length pairs)%nat.
Proof.
  intros hp pairs. induction pairs as [| p pairs IH]; intros d; simpl.
  - lia.
  - destruct (IH (examinePair hp d p)) as [E L].
    destruct (examinePair_detected hp d p) as [E1 L1]. lia.
Qed.

(** X6:
    [detectCollisions] records a manifold exactly when it is what
    [checkCollision] returns for a candidate pair of the spatial hash whose
    two bodies are different objects, are not both static and pass
    [shouldCollide]; it writes to no body, and leaves the registry and the
    hash alone. *)
Theorem detectCollisions_records_exactly_the_colliding_candidates :
  forall (w : World) (m : Manifold),
  (In m (PhysicsEngine.collisionPairs (physics (detectCollisions w)))
   <-> exists pair,
         In pair (SpatialHash.getPotentialCollisions (heap w)
                    (PhysicsEngine.broadPhase (physics w)))
         /\ manifoldOf (heap w) pair m)
  /\ heap (detectCollisions w) = heap w
  /\ PhysicsEngine.bodies (physics (detectCollisions w))
     = PhysicsEngine.bodies (physics w)
  /\ PhysicsEngine.broadPhase (physics (detectCollisions w))
     = PhysicsEngine.broadPhase (physics w).
Proof.
  intros w m. split; [| repeat split].
  unfold detectCollisions. cbn [physics PhysicsEngine.collisionPairs
                                 PhysicsEngine.set_collisions].
  rewrite examined_found. simpl. split.
  - intros [[] | H]. exact H.
  - intros H. right. exact H.
Qed.

Lemma detectCollisions_detected : forall w,
  collisionsDetected (PhysicsEngine.stats (physics (detectCollisions w)))
  = (collisionsDetected (PhysicsEngine.stats (physics w))
     + Z.of_nat (List.length
                   (PhysicsEngine.collisionPairs (physics (detectCollisions w)))))%Z
  /\ (List.length (PhysicsEngine.collisionPairs (physics (detectCollisions w)))
      <= List.length
           (SpatialHash.getPotentialCollisions (heap w)
              (PhysicsEngine.broadPhase (physics w))))%nat.
Proof.
  intros w. unfold detectCollisions.
  set (d0 := mkDetection [] (collisionChecks (PhysicsEngine.stats (physics w)))
               (collisionsDetected (PhysicsEngine.stats (physics w))) []).
  set (ps := SpatialHash.getPotentialCollisions (heap w)
               (PhysicsEngine.broadPhase (physics w))).
  destruct (examined_detected (heap w) ps d0) as [E L].
  set (d' := fold_left (examinePair (heap w)) ps d0) in *.
  cbn [physics PhysicsEngine.collisionPairs PhysicsEngine.set_collisions
       PhysicsEngine.stats collisionsDetected].
  simpl in E, L. split; [lia | exact L].
Qed.

(** X7: the statistics after [update].
    [collisionChecks] is the number of candidate pairs the hash gave,
    [collisionsDetected] is the number of manifolds in [collisionPairs],
    which is at most [collisionChecks], and [bodyCount] is untouched. *)
Theorem update_statistics : forall (Math_pow : R -> R -> R) (w : World)
    (deltaTime : R),
  let w' := update Math_pow w deltaTime in
  collisionChecks (PhysicsEngine.stats (physics w'))
  = Z.of_nat
      (List.length
         (SpatialHash.getPotentialCollisions
            (heap (updateDynamicBodies Math_pow w deltaTime))
            (PhysicsEngine.broadPhase (physics w))))
  /\ collisionsDetected (PhysicsEngine.stats (physics w'))
     = Z.of_nat (List.length (PhysicsEngine.collisionPairs (physics w')))
  /\ (0 <= collisionsDetected (PhysicsEngine.stats (physics w'))
      <= collisionChecks (PhysicsEngine.stats (physics w')))%Z
  /\ bodyCount (PhysicsEngine.stats (physics w'))
     = bodyCount (PhysicsEngine.stats (physics w)).
Proof.
  intros Math_pow w deltaTime w'.
  pose proof (update_candidates Math_pow w deltaTime) as C.
  fold w' in C.
  set (w0 := mkWorld (heap w)
               (PhysicsEngine.set_collisions (physics w)
                  (PhysicsEngine.collisionPairs (physics w)) 0 0) (bus w)).
  destruct (detectCollisions_detected (updateDynamicBodies Math_pow w0 deltaTime))
    as [D L].
  assert (E1 : collisionsDetected (PhysicsEngine.stats (physics w'))
               = collisionsDetected
                   (PhysicsEngine.stats
                      (physics (detectCollisions
                                  (updateDynamicBodies Math_pow w0 deltaTime)))))
    by reflexivity.
  assert (E2 : PhysicsEngine.collisionPairs (physics w')
               = PhysicsEngine.collisionPairs
                   (physics (detectCollisions
                               (updateDynamicBodies Math_pow w0 deltaTime))))
    by reflexivity.
  rewrite <- E1, <- E2 in D. rewrite <- E2 in L.
  change (collisionsDetected
            (PhysicsEngine.stats
               (physics (updateDynamicBodies Math_pow w0 deltaTime))))
    with 0%Z in D.
  change (heap (updateDynamicBodies Math_pow w0 deltaTime))
    with (heap (updateDynamicBodies Math_pow w deltaTime)) in L.
  change (PhysicsEngine.broadPhase
            (physics (updateDynamicBodies Math_pow w0 deltaTime)))
    with (PhysicsEngine.broadPhase (physics w)) in L.
  split; [exact C |]. split; [lia |]. split; [| reflexivity].
  rewrite C. lia.
Qed.

(** *** Removal *)

Lemma JsMap_delete_absent : forall {V} (m : list (string * V)) k,
  JsMap.get String.eqb m k = None -> JsMap.delete String.eqb m k = m.
Proof.
  intros V m k G. unfold JsMap.delete. apply filter_all.
  intros [k' v] Hin. simpl.
  destruct (String.eqb k k') eqn:E; [| reflexivity].
  apply String.eqb_eq in E. subst k'.
  apply (JsMap_get_None String.eqb string_eqb_spec) in G.
  exfalso. apply G. apply in_map_iff. exists (k, v). split; [reflexivity | exact Hin].
Qed.

Lemma JsMap_get_delete_same : forall {V} (m : list (string * V)) k,
  JsMap.get String.eqb (JsMap.delete String.eqb m k) k = None.
Proof.
  intros V m k. apply (JsMap_get_None String.eqb string_eqb_spec).
  intros Hin. apply in_map_iff in Hin. destruct Hin as (kv & E & Hin).
  apply (JsMap_In_delete String.eqb string_eqb_spec) in Hin.
  destruct Hin as [_ Hne]. contradiction.
Qed.

Lemma JsMap_get_delete_other : forall {V} (m : list (string * V)) k k',
  k <> k' ->
  JsMap.get String.eqb (JsMap.delete String.eqb m k) k'
  = JsMap.get String.eqb m k'.
Proof.
  intros V m k k' Hne. induction m as [| [k0 v0] m IH]; simpl; [reflexivity |].
  destruct (String.eqb k k0) eqn:E; simpl.
  - apply String.eqb_eq in E. subst k0.
    destruct (String.eqb k' k) eqn:E'.
    + apply String.eqb_eq in E'. congruence.
    + exact IH.
  - destruct (String.eqb k' k0); [reflexivity | exact IH].
Qed.

Lemma JsSet_delete_absent : forall (s : list ref) r,
  ~ In r s -> JsSet.delete Nat.eqb s r = s.
Proof.
  intros s r Hn. unfold JsSet.delete. apply filter_all.
  intros x Hin. destruct (Nat.eqb r x) eqn:E; [| reflexivity].
  apply Nat.eqb_eq in E. subst x. contradiction.
Qed.

Lemma JsSet_delete_add : forall (s : list ref) r,
  ~ In r s -> JsSet.delete Nat.eqb (JsSet.add Nat.eqb s r) r = s.
Proof.
  intros s r Hn. unfold JsSet.add.
  destruct (JsSet.has Nat.eqb s r) eqn:H.
  - apply (JsSet_has_In Nat.eqb nat_eqb_spec) in H. contradiction.
  - unfold JsSet.delete. rewrite filter_app. simpl.
    rewrite Nat.eqb_refl. simpl. rewrite app_nil_r.
    apply (JsSet_delete_absent s r Hn).
Qed.

Lemma set_ref_lt : forall w r,
  registryInvariant w ->
  In r (PhysicsEngine.staticBodies (physics w))
  \/ In r (PhysicsEngine.dynamicBodies (physics w)) ->
  (r < List.length (heap w))%nat.
Proof.
  intros w r Inv [H | H].
  - destruct (proj1 (static_set w Inv r) H) as (k & b & _ & D & _).
    exact (deref_Some_lt _ _ _ D).
  - destruct (proj1 (dynamic_set w Inv r) H) as (k & b & _ & D & _).
    exact (deref_Some_lt _ _ _ D).
Qed.

Lemma set_ref_registered : forall w r b,
  registryInvariant w -> deref (heap w) r = Some b ->
  In r (PhysicsEngine.staticBodies (physics w))
  \/ In r (PhysicsEngine.dynamicBodies (physics w)) ->
  In (PhysicsBody.id b, r) (PhysicsEngine.bodies (physics w)).
Proof.
  intros w r b Inv D H.
  assert (E : exists k b0, In (k, r) (PhysicsEngine.bodies (physics w))
                           /\ deref (heap w) r = Some b0).
  { destruct H as [H | H].
    - destruct (proj1 (static_set w Inv r) H) as (k & b0 & Hin & D0 & _).
      exists k, b0. split; assumption.
    - destruct (proj1 (dynamic_set w Inv r) H) as (k & b0 & Hin & D0 & _).
      exists k, b0. split; assumption. }
  destruct E as (k & b0 & Hin & D0).
  destruct (keyed_by_id w Inv k r Hin) as (b1 & D1 & I1).
  rewrite D in D1. injection D1 as <-. rewrite I1. exact Hin.
Qed.

Lemma engine_eta : forall e : PhysicsEngine.t,
  PhysicsEngine.set_registry e (PhysicsEngine.bodies e)
    (PhysicsEngine.staticBodies e) (PhysicsEngine.dynamicBodies e)
    (bodyCount (PhysicsEngine.stats e)) = e.
Proof. intros [g t v p bs st dy cp bp [c1 c2 c3]]. reflexivity. Qed.

Lemma set_registry_of_createBody : forall w o newId bs st dy count,
  PhysicsEngine.set_registry (physics (fst (createBody w o newId))) bs st dy count
  = PhysicsEngine.set_registry (physics w) bs st dy count.
Proof. reflexivity. Qed.

(** X9: removing the
    body [createBody] has just returned undoes the registration.  In a
    consistent registry and for a fresh id, the engine state (map, both
    sets, [bodyCount], collision pairs, hash) is again what it was before
    the [createBody]; only the body object itself remains, unregistered. *)
Theorem createBody_then_removeBody_restores_the_registry :
  forall (w : World) (o : Options.t) (newId : string),
  registryInvariant w ->
  idFresh w newId ->
  let w1 := fst (createBody w o newId) in
  let r := snd (createBody w o newId) in
  physics (removeBody w1 r) = physics w
  /\ heap (removeBody w1 r) = heap w ++ [PhysicsBody.new o newId]
  /\ bus (removeBody w1 r) = bus w
  /\ ~ registered (removeBody w1 r) r.
Proof.
  intros w o newId Inv Hf w1 r.
  pose proof (createBody_registers w o newId) as (D & G & _ & _).
  assert (Hh : JsMap.has String.eqb
                 (PhysicsEngine.bodies (physics (fst (createBody w o newId))))
                 (PhysicsBody.id (PhysicsBody.new o newId)) = true).
  { unfold JsMap.has. rewrite new_id, G. reflexivity. }
  subst w1 r.
  rewrite (removeBody_registered _ _ _ D Hh).
  cbn [physics heap bus].
  assert (Hr : snd (createBody w o newId) = List.length (heap w)) by reflexivity.
  assert (Ns : ~ In (List.length (heap w)) (PhysicsEngine.staticBodies (physics w))).
  { intros H. pose proof (set_ref_lt w _ Inv (or_introl H)). lia. }
  assert (Nd : ~ In (List.length (heap w)) (PhysicsEngine.dynamicBodies (physics w))).
  { intros H. pose proof (set_ref_lt w _ Inv (or_intror H)). lia. }
  split; [| split; [reflexivity | split; [reflexivity |]]].
  - rewrite new_id, set_registry_of_createBody.
    rewrite (createBody_bodies w o newId Inv Hf).
    rewrite createBody_static, createBody_dynamic, createBody_count, Hr.
    assert (Eb : JsMap.delete String.eqb
                   (PhysicsEngine.bodies (physics w) ++ [(newId, List.length (heap w))])
                   newId = PhysicsEngine.bodies (physics w)).
    { unfold JsMap.delete. rewrite filter_app. simpl.
      rewrite String.eqb_refl. simpl. rewrite app_nil_r.
      apply JsMap_delete_absent. apply fresh_id_not_key; assumption. }
    rewrite Eb.
    replace (bodyCount (PhysicsEngine.stats (physics w)) + 1 - 1)%Z
      with (bodyCount (PhysicsEngine.stats (physics w))) by lia.
    destruct (PhysicsBody.type (PhysicsBody.new o newId)).
    + rewrite (JsSet_delete_add _ _ Ns), (JsSet_delete_absent _ _ Nd).
      apply engine_eta.
    + rewrite (JsSet_delete_add _ _ Nd), (JsSet_delete_absent _ _ Ns).
      apply engine_eta.
    + rewrite (JsSet_delete_add _ _ Nd), (JsSet_delete_absent _ _ Ns).
      apply engine_eta.
  - intros (b' & D' & G').
    cbn [heap physics] in D', G'. rewrite D in D'. injection D' as <-.
    cbn [PhysicsEngine.bodies PhysicsEngine.set_registry] in G'.
    rewrite JsMap_get_delete_same in G'. discriminate G'.
Qed.

Lemma createBody_then_removeBody_restores_the_registry_witness :
  physics (removeBody (fst (createBody groundWorld Options.empty "b2"))
                      (snd (createBody groundWorld Options.empty "b2")))
  = physics groundWorld
  /\ heap (removeBody (fst (createBody groundWorld Options.empty "b2"))
                      (snd (createBody groundWorld Options.empty "b2")))
     = heap groundWorld ++ [PhysicsBody.new Options.empty "b2"]
  /\ bus (removeBody (fst (createBody groundWorld Options.empty "b2"))
                     (snd (createBody groundWorld Options.empty "b2")))
     = bus groundWorld
  /\ ~ registered (removeBody (fst (createBody groundWorld Options.empty "b2"))
                              (snd (createBody groundWorld Options.empty "b2")))
                  (snd (createBody groundWorld Options.empty "b2")).
Proof.
  apply (createBody_then_removeBody_restores_the_registry groundWorld
           Options.empty "b2").
  - exact groundWorld_invariant.
  - simpl. intros [H | []]. discriminate H.
Defined.

Lemma removeBody_absent_key : forall w r b,
  registryInvariant w -> deref (heap w) r = Some b ->
  JsMap.get String.eqb (PhysicsEngine.bodies (physics (removeBody w r)))
            (PhysicsBody.id b) = None.
Proof.
  intros w r b Inv D. unfold removeBody. rewrite D.
  destruct (JsMap.has String.eqb (PhysicsEngine.bodies (physics w))
              (PhysicsBody.id b)) eqn:Hh.
  - cbn [physics PhysicsEngine.bodies PhysicsEngine.set_registry].
    apply JsMap_get_delete_same.
  - unfold JsMap.has in Hh.
    destruct (JsMap.get String.eqb (PhysicsEngine.bodies (physics w))
                (PhysicsBody.id b)); [discriminate Hh | reflexivity].
Qed.

(** X10: [removeBody] in a consistent
    registry.  Afterwards the body is under no key of the map and in
    neither type set, and a second [removeBody] does nothing; the count
    goes down by one if the body was registered, and nothing at all
    changes if it was not; every other body is registered after exactly
    when it was before, and no body object is written to. *)
Theorem removeBody_unregisters_the_body : forall (w : World) (r : ref)
    (b : PhysicsBody.t),
  registryInvariant w ->
  deref (heap w) r = Some b ->
  let w' := removeBody w r in
  ~ registered w' r
  /\ JsMap.get String.eqb (PhysicsEngine.bodies (physics w')) (PhysicsBody.id b)
     = None
  /\ ~ In r (PhysicsEngine.staticBodies (physics w'))
  /\ ~ In r (PhysicsEngine.dynamicBodies (physics w'))
  /\ removeBody w' r = w'
  /\ (registered w r ->
      bodyCount (PhysicsEngine.stats (physics w'))
      = (bodyCount (PhysicsEngine.stats (physics w)) - 1)%Z)
  /\ (~ registered w r -> w' = w)
  /\ (forall r', r' <> r -> registered w' r' <-> registered w r')
  /\ heap w' = heap w.
Proof.
  intros w r b Inv D w'.
  pose proof (removeBody_absent_key w r b Inv D) as G. fold w' in G.
  pose proof (removeBody_preserves w r Inv) as Inv'. fold w' in Inv'.
  assert (Hh' : heap w' = heap w).
  { unfold w', removeBody. rewrite D.
    destruct (JsMap.has _ _ _); reflexivity. }
  assert (D' : deref (heap w') r = Some b) by (rewrite Hh'; exact D).
  assert (Nr : ~ registered w' r).
  { intros (b0 & D0 & G0). rewrite D' in D0. injection D0 as <-.
    rewrite G in G0. discriminate G0. }
  assert (Nset : ~ (In r (PhysicsEngine.staticBodies (physics w'))
                    \/ In r (PhysicsEngine.dynamicBodies (physics w')))).
  { intros H. pose proof (set_ref_registered w' r b Inv' D' H) as Hin.
    apply (JsMap_In_get String.eqb string_eqb_spec) in Hin;
      [| exact (keys_unique w' Inv')].
    rewrite G in Hin. discriminate Hin. }
  split; [exact Nr |]. split; [exact G |].
  split; [tauto |]. split; [tauto |].
  split.
  { apply removeBody_unregistered. intros b0 D0.
    rewrite D' in D0. injection D0 as <-.
    unfold JsMap.has. rewrite G. reflexivity. }
  split.
  { intros (b0 & D0 & G0). rewrite D in D0. injection D0 as <-.
    unfold w'. rewrite (removeBody_registered w r b D);
      [reflexivity | unfold JsMap.has; rewrite G0; reflexivity]. }
  split.
  { intros Hn. unfold w', removeBody. rewrite D.
    destruct (JsMap.has String.eqb (PhysicsEngine.bodies (physics w))
                (PhysicsBody.id b)) eqn:Hh; [| reflexivity].
    exfalso. apply Hn. exists b. split; [exact D |].
    apply (JsMap_In_get String.eqb string_eqb_spec);
      [exact (keys_unique w Inv) |].
    exact (has_id_registered w r b Inv D Hh). }
  split; [| exact Hh'].
  intros r' Hne. unfold registered. rewrite Hh'.
  assert (E : forall b', deref (heap w) r' = Some b' ->
                JsMap.get String.eqb (PhysicsEngine.bodies (physics w'))
                          (PhysicsBody.id b')
                = JsMap.get String.eqb (PhysicsEngine.bodies (physics w))
                            (PhysicsBody.id b')).
  { intros b' Db'. unfold w', removeBody. rewrite D.
    destruct (JsMap.has String.eqb (PhysicsEngine.bodies (physics w))
                (PhysicsBody.id b)); [| reflexivity].
    cbn [physics PhysicsEngine.bodies PhysicsEngine.set_registry].
    apply JsMap_get_delete_other. intros Hid. apply Hne.
    exact (NoDup_ids_deref_inj (heap w) r' r b' b (ids_unique w Inv) Db' D
             (eq_sym Hid)). }
  split; intros (b' & Db' & Gb'); exists b'; (split; [exact Db' |]).
  - rewrite <- (E b' Db'). exact Gb'.
  - rewrite (E b' Db'). exact Gb'.
Qed.

Lemma removeBody_unregisters_the_body_witness :
  ~ registered (removeBody groundWorld 0) 0
  /\ JsMap.get String.eqb
       (PhysicsEngine.bodies (physics (removeBody groundWorld 0)))
       (PhysicsBody.id (PhysicsBody.new (rectOptions 0 100 200 20 Static) "g1"))
     = None
  /\ ~ In 0%nat (PhysicsEngine.staticBodies (physics (removeBody groundWorld 0)))
  /\ ~ In 0%nat (PhysicsEngine.dynamicBodies (physics (removeBody groundWorld 0)))
  /\ removeBody (removeBody groundWorld 0) 0 = removeBody groundWorld 0
  /\ (registered groundWorld 0 ->
      bodyCount (PhysicsEngine.stats (physics (removeBody groundWorld 0)))
      = (bodyCount (PhysicsEngine.stats (physics groundWorld)) - 1)%Z)
  /\ (~ registered groundWorld 0 -> removeBody groundWorld 0 = groundWorld)
  /\ (forall r', r' <> 0%nat ->
        registered (removeBody groundWorld 0) r' <-> registered groundWorld r')
  /\ heap (removeBody groundWorld 0) = heap groundWorld.
Proof.
  apply (removeBody_unregisters_the_body groundWorld 0
           (PhysicsBody.new (rectOptions 0 100 200 20 Static) "g1")).
  - exact groundWorld_invariant.
  - reflexivity.
Defined.

(** ** Collision events *)

Lemma emitCollisionEvent_cases : forall ra rb a b c,
  (tagsAre a b "player" "enemy"
   /\ emitCollisionEvent ra rb a b c = [COLLISION_PLAYER_ENEMY ra rb c])
  \/ (tagsAre a b "bullet" "enemy"
      /\ emitCollisionEvent ra rb a b c = [COLLISION_BULLET_ENEMY ra rb c])
  \/ (tagsAre a b "player" "powerup"
      /\ emitCollisionEvent ra rb a b c = [COLLISION_PLAYER_POWERUP ra rb c])
  \/ (~ tagsAre a b "player" "enemy" /\ ~ tagsAre a b "bullet" "enemy"
      /\ ~ tagsAre a b "player" "powerup"
      /\ emitCollisionEvent ra rb a b c = []).
Proof.
  intros ra rb a b c. unfold emitCollisionEvent, tagsAre.
  destruct (PhysicsBody.userData a) as [[ta] |].
  2:{ right. right. right.
      repeat split; try reflexivity; intros (ua & ub & H & _); discriminate H. }
  destruct (PhysicsBody.userData b) as [[tb] |].
  2:{ right. right. right.
      repeat split; try reflexivity; intros (ua & ub & _ & H & _); discriminate H. }
  simpl.
  destruct (String.eqb_spec ta "player"); destruct (String.eqb_spec ta "enemy");
    destruct (String.eqb_spec ta "bullet"); destruct (String.eqb_spec ta "powerup");
    try (subst; discriminate);
    destruct (String.eqb_spec tb "player"); destruct (String.eqb_spec tb "enemy");
    destruct (String.eqb_spec tb "bullet"); destruct (String.eqb_spec tb "powerup");
    try (subst; discriminate); simpl;
    first
      [ left; split; [| reflexivity];
        eexists _, _; split; [reflexivity |]; split; [reflexivity |]; simpl;
        subst; tauto
      | right; left; split; [| reflexivity];
        eexists _, _; split; [reflexivity |]; split; [reflexivity |]; simpl;
        subst; tauto
      | right; right; left; split; [| reflexivity];
        eexists _, _; split; [reflexivity |]; split; [reflexivity |]; simpl;
        subst; tauto
      | right; right; right;
        repeat split; try reflexivity;
        intros (ua & ub & Ha & Hb & Ht);
        injection Ha as <-; injection Hb as <-; simpl in Ht;
        destruct Ht as [[H1 H2] | [H1 H2]]; subst; congruence ].
Qed.

Lemma tagsAre_sym : forall a b s t, tagsAre a b s t -> tagsAre b a s t.
Proof.
  intros a b s t (ua & ub & Ha & Hb & H). exists ub, ua.
  split; [exact Hb |]. split; [exact Ha |]. tauto.
Qed.

Lemma tagsAre_exclusive : forall a b,
  ~ (tagsAre a b "player" "enemy" /\ tagsAre a b "bullet" "enemy")
  /\ ~ (tagsAre a b "player" "enemy" /\ tagsAre a b "player" "powerup")
  /\ ~ (tagsAre a b "bullet" "enemy" /\ tagsAre a b "player" "powerup").
Proof.
  intros a b. unfold tagsAre.
  repeat split; intros [(ua & ub & Ha & Hb & H) (ua' & ub' & Ha' & Hb' & H')];
    rewrite Ha in Ha'; rewrite Hb in Hb';
    injection Ha' as <-; injection Hb' as <-;
    destruct H as [[H1 H2] | [H1 H2]]; destruct H' as [[H3 H4] | [H3 H4]];
    rewrite H1 in H3; rewrite H2 in H4; discriminate.
Qed.

Lemma examinePair_sent : forall hp d pair,
  (List.length (sent (examinePair hp d pair))
   + List.length (found d)
   <= List.length (sent d) + List.length (found (examinePair hp d pair)))%nat
  /\ exists evs, sent (examinePair hp d pair) = sent d ++ evs.
Proof.
  intros hp d pair. unfold examinePair.
  assert (Z : forall d1 : Detection,
            sent d1 = sent d -> found d1 = found d ->
            (List.length (sent d1) + List.length (found d)
             <= List.length (sent d) + List.length (found d1))%nat
            /\ exists evs, sent d1 = sent d ++ evs).
  { intros d1 E1 E2. rewrite E1, E2. split; [lia |].
    exists []. rewrite app_nil_r. reflexivity. }
  destruct (deref hp (fst pair)) as [a |]; [| apply Z; reflexivity].
  destruct (deref hp (snd pair)) as [b |]; [| apply Z; reflexivity].
  destruct (Nat.eqb _ _); [apply Z; reflexivity |].
  destruct (_ && _)%bool; [apply Z; reflexivity |].
  destruct (negb _); [apply Z; reflexivity |].
  destruct (checkCollision _ _ a b) as [c |]; [| apply Z; reflexivity].
  simpl. rewrite !length_app. simpl. split; [| eexists; reflexivity].
  destruct (emitCollisionEvent_cases (fst pair) (snd pair) a b c)
    as [[_ E] | [[_ E] | [[_ E] | (_ & _ & _ & E)]]]; rewrite E; simpl; lia.
Qed.

Lemma examined_sent : forall hp pairs d,
  (List.length (sent (fold_left (examinePair hp) pairs d))
   + List.length (found d)
   <= List.length (sent d)
      + List.length (found (fold_left (examinePair hp) pairs d)))%nat
  /\ exists evs, sent (fold_left (examinePair hp) pairs d) = sent d ++ evs.
Proof.
  intros hp pairs. induction pairs as [| p pairs IH]; intros d; simpl.
  - split; [lia |]. exists []. rewrite app_nil_r. reflexivity.
  - destruct (IH (examinePair hp d p)) as [L (evs & E)].
    destruct (examinePair_sent hp d p) as [L1 (evs1 & E1)].
    split; [lia |]. exists (evs1 ++ evs). rewrite E, E1, app_assoc. reflexivity.
Qed.

(** X8: which notification a collision sends.
    [emitCollisionEvent] sends at most one event, and which one depends
    only on the two type tags, not on their order: the player-enemy event
    exactly when both bodies carry user data tagged ['player'] and
    ['enemy'], the bullet-enemy event exactly for ['bullet'] and
    ['enemy'], the player-powerup event exactly for ['player'] and
    ['powerup'], and nothing in every other case.  The event carries the
    two bodies in the order given and the manifold.  [detectCollisions]
    therefore adds at most one event per manifold it records, after the
    events already sent. *)
Theorem emitCollisionEvent_kinds : forall (ra rb : ref) (a b : PhysicsBody.t)
    (c : Manifold),
  (emitCollisionEvent ra rb a b c = [COLLISION_PLAYER_ENEMY ra rb c]
   <-> tagsAre a b "player" "enemy")
  /\ (emitCollisionEvent ra rb a b c = [COLLISION_BULLET_ENEMY ra rb c]
      <-> tagsAre a b "bullet" "enemy")
  /\ (emitCollisionEvent ra rb a b c = [COLLISION_PLAYER_POWERUP ra rb c]
      <-> tagsAre a b "player" "powerup")
  /\ (emitCollisionEvent ra rb a b c = []
      <-> ~ tagsAre a b "player" "enemy" /\ ~ tagsAre a b "bullet" "enemy"
          /\ ~ tagsAre a b "player" "powerup")
  /\ (List.length (emitCollisionEvent ra rb a b c) <= 1)%nat
  /\ (emitCollisionEvent ra rb a b c = []
      <-> emitCollisionEvent rb ra b a c = [])
  /\ (forall w,
        (List.length (bus (detectCollisions w))
         <= List.length (bus w)
            + List.length (PhysicsEngine.collisionPairs
                             (physics (detectCollisions w))))%nat
        /\ exists evs, bus (detectCollisions w) = bus w ++ evs).
Proof.
  intros ra rb a b c.
  destruct (tagsAre_exclusive a b) as (X1 & X2 & X3).
  pose proof (emitCollisionEvent_cases ra rb a b c) as C.
  pose proof (emitCollisionEvent_cases rb ra b a c) as C'.
  split.
  { destruct C as [[T E] | [[T E] | [[T E] | (N1 & N2 & N3 & E)]]]; rewrite E;
      split; intros H; try discriminate H; tauto. }
  split.
  { destruct C as [[T E] | [[T E] | [[T E] | (N1 & N2 & N3 & E)]]]; rewrite E;
      split; intros H; try discriminate H; tauto. }
  split.
  { destruct C as [[T E] | [[T E] | [[T E] | (N1 & N2 & N3 & E)]]]; rewrite E;
      split; intros H; try discriminate H; tauto. }
  split.
  { destruct C as [[T E] | [[T E] | [[T E] | (N1 & N2 & N3 & E)]]]; rewrite E;
      split; intros H; try discriminate H; tauto. }
  split.
  { destruct C as [[T E] | [[T E] | [[T E] | (N1 & N2 & N3 & E)]]]; rewrite E;
      simpl; lia. }
  split.
  { destruct C as [[T E] | [[T E] | [[T E] | (N1 & N2 & N3 & E)]]];
      destruct C' as [[T' E'] | [[T' E'] | [[T' E'] | (N1' & N2' & N3' & E')]]];
      rewrite E, E'; split; intros H; try discriminate H; try reflexivity;
      exfalso;
      try (apply tagsAre_sym in T); try (apply tagsAre_sym in T'); tauto. }
  intros w. unfold detectCollisions. cbn [bus physics PhysicsEngine.collisionPairs
                                          PhysicsEngine.set_collisions].
  match goal with
  | |- context [fold_left (examinePair ?hp) ?ps ?d] =>
      destruct (examined_sent hp ps d) as [L (evs & E)];
      set (d' := fold_left (examinePair hp) ps d) in *
  end.
  simpl in L, E. split.
  - rewrite length_app. lia.
  - exists (sent d'). reflexivity.
Qed.

(** ** Vector2 *)

Lemma magnitude_nonneg : forall v, 0 <= Vector2.magnitude v.
Proof. intros v. apply sqrt_pos. Qed.

Lemma magnitudeSquared_nonneg : forall v, 0 <= Vector2.magnitudeSquared v.
Proof. intros v. apply sum_squares_nonneg. Qed.

Lemma magnitude_sqr : forall v,
  Vector2.magnitude v * Vector2.magnitude v = Vector2.magnitudeSquared v.
Proof. intros v. apply sqrt_sqrt. apply sum_squares_nonneg. Qed.

Lemma sum_squares_zero : forall a b, a * a + b * b = 0 -> a = 0 /\ b = 0.
Proof.
  intros a b H.
  pose proof (Rle_0_sqr a) as Ha. pose proof (Rle_0_sqr b) as Hb.
  unfold Rsqr in Ha, Hb.
  assert (Ea : a * a = 0) by lra. assert (Eb : b * b = 0) by lra.
  split; [destruct (Rmult_integral _ _ Ea) | destruct (Rmult_integral _ _ Eb)];
    assumption.
Qed.

Lemma magnitude_zero_iff : forall v, Vector2.magnitude v = 0 <-> v = Vector2.zero.
Proof.
  intros [a b]. unfold Vector2.magnitude, Vector2.zero. simpl. split.
  - intros H. apply sqrt_eq_0 in H; [| apply sum_squares_nonneg].
    destruct (sum_squares_zero a b H) as [-> ->]. reflexivity.
  - intros H. injection H as -> ->.
    replace (0 * 0 + 0 * 0) with 0 by ring. apply sqrt_0.
Qed.

Lemma magnitude_positive : forall v, v <> Vector2.zero -> 0 < Vector2.magnitude v.
Proof.
  intros v Hv. destruct (magnitude_nonneg v) as [H | H]; [exact H |].
  exfalso. apply Hv. apply magnitude_zero_iff. symmetry. exact H.
Qed.

Lemma magnitude_multiply : forall v s,
  Vector2.magnitude (Vector2.multiply v s) = Rabs s * Vector2.magnitude v.
Proof.
  intros [a b] s. unfold Vector2.magnitude, Vector2.multiply. simpl.
  replace (a * s * (a * s) + b * s * (b * s)) with ((s * s) * (a * a + b * b))
    by ring.
  rewrite sqrt_mult_alt by (apply Rle_0_sqr).
  f_equal. fold (Rsqr s). apply sqrt_Rsqr_abs.
Qed.

Lemma normalize_zero : Vector2.normalize Vector2.zero = Vector2.zero.
Proof.
  unfold Vector2.normalize.
  destruct (Rlt_dec 0 (Vector2.magnitude Vector2.zero)) as [H | H]; [| reflexivity].
  exfalso. rewrite (proj2 (magnitude_zero_iff Vector2.zero) eq_refl) in H. lra.
Qed.

Lemma normalize_scales : forall v,
  v <> Vector2.zero ->
  Vector2.normalize v = Vector2.multiply v (/ Vector2.magnitude v).
Proof.
  intros v Hv. rewrite (normalize_of_positive v (magnitude_positive v Hv)).
  reflexivity.
Qed.

Lemma magnitude_normalize : forall v,
  v <> Vector2.zero -> Vector2.magnitude (Vector2.normalize v) = 1.
Proof.
  intros v Hv. pose proof (magnitude_positive v Hv) as Hm.
  rewrite (normalize_scales v Hv), magnitude_multiply.
  rewrite Rabs_right.
  - field. lra.
  - apply Rle_ge. left. apply Rinv_0_lt_compat. exact Hm.
Qed.

Lemma normalize_not_zero : forall v,
  v <> Vector2.zero -> Vector2.normalize v <> Vector2.zero.
Proof.
  intros v Hv H. pose proof (magnitude_normalize v Hv) as M.
  rewrite H in M. rewrite (proj2 (magnitude_zero_iff Vector2.zero) eq_refl) in M.
  lra.
Qed.




Lemma magnitude_le_abs : forall v m,
  Vector2.magnitudeSquared v <= m * m -> Vector2.magnitude v <= Rabs m.
Proof.
  intros v m H. unfold Vector2.magnitude. fold (Vector2.magnitudeSquared v).
  rewrite <- (sqrt_Rsqr_abs m). apply sqrt_le_1_alt. exact H.
Qed.

Lemma abs_lt_magnitude : forall v m,
  m * m < Vector2.magnitudeSquared v -> Rabs m < Vector2.magnitude v.
Proof.
  intros v m H. unfold Vector2.magnitude. fold (Vector2.magnitudeSquared v).
  rewrite <- (sqrt_Rsqr_abs m). apply sqrt_lt_1_alt.
  split; [apply Rle_0_sqr | exact H].
Qed.

(** X24: [limit(max)] caps the length of a
    vector.  The result is never longer than [|max|]; a vector whose
    squared length is at most [max * max] is left as it is; a longer one
    becomes its unit vector times [max], of length exactly [|max|] (so a
    negative [max] reverses the direction); and [limit] is idempotent. *)
Theorem limit_caps_the_magnitude : forall (v : Vector2.t) (max : R),
  Vector2.magnitude (Vector2.limit v max) <= Rabs max
  /\ (Vector2.magnitudeSquared v <= max * max -> Vector2.limit v max = v)
  /\ (max * max < Vector2.magnitudeSquared v ->
      Vector2.limit v max = Vector2.multiply (Vector2.normalize v) max
      /\ Vector2.magnitude (Vector2.limit v max) = Rabs max)
  /\ Vector2.limit (Vector2.limit v max) max = Vector2.limit v max.
Proof.
  intros v max.
  assert (Long : max * max < Vector2.magnitudeSquared v ->
                 Vector2.limit v max = Vector2.multiply (Vector2.normalize v) max
                 /\ Vector2.magnitude (Vector2.limit v max) = Rabs max).
  { intros H. unfold Vector2.limit.
    destruct (Rlt_dec (max * max) (Vector2.magnitudeSquared v)); [| contradiction].
    split; [reflexivity |].
    rewrite magnitude_multiply, magnitude_normalize; [ring |].
    intros ->. unfold Vector2.magnitudeSquared, Vector2.zero in H. simpl in H.
    pose proof (Rle_0_sqr max) as Hs. unfold Rsqr in Hs. lra. }
  assert (Short : Vector2.magnitudeSquared v <= max * max -> Vector2.limit v max = v).
  { intros H. unfold Vector2.limit.
    destruct (Rlt_dec (max * max) (Vector2.magnitudeSquared v)); [lra | reflexivity]. }
  assert (Cap : Vector2.magnitude (Vector2.limit v max) <= Rabs max).
  { destruct (Rlt_dec (max * max) (Vector2.magnitudeSquared v)) as [H | H].
    - destruct (Long H) as [_ ->]. lra.
    - rewrite Short by lra. apply magnitude_le_abs. lra. }
  split; [exact Cap |]. split; [exact Short |]. split; [exact Long |].
  unfold Vector2.limit at 1.
  destruct (Rlt_dec (max * max) (Vector2.magnitudeSquared (Vector2.limit v max)))
    as [H | H]; [| reflexivity].
  exfalso. apply abs_lt_magnitude in H. lra.
Qed.

(** *** Distances *)

Lemma distanceTo_sym : forall p q, Vector2.distanceTo p q = Vector2.distanceTo q p.
Proof.
  intros p q. unfold Vector2.distanceTo. f_equal. ring.
Qed.

Lemma distanceTo_magnitude : forall p q,
  Vector2.distanceTo p q = Vector2.magnitude (Vector2.subtract p q).
Proof. reflexivity. Qed.

Lemma cauchy_schwarz : forall v w,
  Vector2.dot v w <= Vector2.magnitude v * Vector2.magnitude w.
Proof.
  intros v w.
  apply Rsqr_incr_0_var.
  2:{ apply Rmult_le_pos; apply magnitude_nonneg. }
  unfold Rsqr.
  replace (Vector2.magnitude v * Vector2.magnitude w
           * (Vector2.magnitude v * Vector2.magnitude w))
    with ((Vector2.magnitude v * Vector2.magnitude v)
          * (Vector2.magnitude w * Vector2.magnitude w)) by ring.
  rewrite !magnitude_sqr.
  destruct v as [a b], w as [c d].
  unfold Vector2.dot, Vector2.magnitudeSquared. simpl.
  pose proof (Rle_0_sqr (a * d - b * c)) as H. unfold Rsqr in H.
  lra.
Qed.

Lemma magnitude_add_le : forall v w,
  Vector2.magnitude (Vector2.add v w)
  <= Vector2.magnitude v + Vector2.magnitude w.
Proof.
  intros v w.
  apply Rsqr_incr_0_var.
  2:{ pose proof (magnitude_nonneg v). pose proof (magnitude_nonneg w). lra. }
  unfold Rsqr. rewrite magnitude_sqr.
  pose proof (cauchy_schwarz v w) as CS.
  pose proof (magnitude_sqr v) as Mv. pose proof (magnitude_sqr w) as Mw.
  replace ((Vector2.magnitude v + Vector2.magnitude w)
           * (Vector2.magnitude v + Vector2.magnitude w))
    with (Vector2.magnitude v * Vector2.magnitude v
          + Vector2.magnitude w * Vector2.magnitude w
          + 2 * (Vector2.magnitude v * Vector2.magnitude w)) by ring.
  rewrite Mv, Mw.
  destruct v as [a b], w as [c d].
  unfold Vector2.dot, Vector2.magnitudeSquared, Vector2.add in *. simpl in *.
  lra.
Qed.

(** X25: [distanceTo] is a distance.  It is never
    negative, zero exactly between equal vectors, the same in both
    directions, and obeys the triangle inequality; its square is
    [distanceToSquared], and it is the length of the difference. *)
Theorem distanceTo_is_a_metric : forall p q r : Vector2.t,
  0 <= Vector2.distanceTo p q
  /\ (Vector2.distanceTo p q = 0 <-> p = q)
  /\ Vector2.distanceTo p q = Vector2.distanceTo q p
  /\ Vector2.distanceTo p r <= Vector2.distanceTo p q + Vector2.distanceTo q r
  /\ Vector2.distanceTo p q * Vector2.distanceTo p q
     = Vector2.distanceToSquared p q
  /\ Vector2.distanceTo p q = Vector2.magnitude (Vector2.subtract p q).
Proof.
  intros p q r.
  split; [apply sqrt_pos |]. split; [| split; [apply distanceTo_sym |]].
  - rewrite distanceTo_magnitude, magnitude_zero_iff.
    destruct p as [a b], q as [c d]. unfold Vector2.subtract, Vector2.zero. simpl.
    split; intros H; injection H as H1 H2; f_equal; lra.
  - split; [| split; [| reflexivity]].
    + rewrite !distanceTo_magnitude.
      replace (Vector2.subtract p r)
        with (Vector2.add (Vector2.subtract p q) (Vector2.subtract q r)).
      * apply magnitude_add_le.
      * destruct p, q, r. unfold Vector2.add, Vector2.subtract. simpl.
        f_equal; ring.
    + unfold Vector2.distanceTo, Vector2.distanceToSquared.
      apply sqrt_sqrt. apply sum_squares_nonneg.
Qed.

(** X26: the products of two vectors.  [dot] and
    [cross] satisfy Lagrange's identity, so the absolute value of each is
    at most the product of the lengths; [dot] is symmetric and [cross]
    antisymmetric, a vector's [dot] with itself is its squared length, and
    its [cross] with itself is zero. *)
Theorem dot_and_cross_products : forall v w : Vector2.t,
  Vector2.dot v w * Vector2.dot v w + Vector2.cross v w * Vector2.cross v w
  = Vector2.magnitudeSquared v * Vector2.magnitudeSquared w
  /\ Rabs (Vector2.dot v w) <= Vector2.magnitude v * Vector2.magnitude w
  /\ Rabs (Vector2.cross v w) <= Vector2.magnitude v * Vector2.magnitude w
  /\ Vector2.dot v w = Vector2.dot w v
  /\ Vector2.cross v w = - Vector2.cross w v
  /\ Vector2.dot v v = Vector2.magnitudeSquared v
  /\ Vector2.cross v v = 0.
Proof.
  intros v w.
  assert (L : Vector2.dot v w * Vector2.dot v w
              + Vector2.cross v w * Vector2.cross v w
              = Vector2.magnitudeSquared v * Vector2.magnitudeSquared w).
  { destruct v, w. unfold Vector2.dot, Vector2.cross, Vector2.magnitudeSquared.
    simpl. ring. }
  assert (B : forall t, t * t <= Vector2.magnitudeSquared v * Vector2.magnitudeSquared w ->
                Rabs t <= Vector2.magnitude v * Vector2.magnitude w).
  { intros t Ht. rewrite <- sqrt_Rsqr_abs.
    unfold Vector2.magnitude. fold (Vector2.magnitudeSquared v).
    fold (Vector2.magnitudeSquared w).
    rewrite <- sqrt_mult_alt by apply magnitudeSquared_nonneg.
    apply sqrt_le_1_alt. exact Ht. }
  split; [exact L |].
  split.
  { apply B. pose proof (Rle_0_sqr (Vector2.cross v w)) as H. unfold Rsqr in H. lra. }
  split.
  { apply B. pose proof (Rle_0_sqr (Vector2.dot v w)) as H. unfold Rsqr in H. lra. }
  destruct v, w. unfold Vector2.dot, Vector2.cross, Vector2.magnitudeSquared.
  simpl. repeat split; ring.
Qed.

(** [rotate] is a rotation about the origin.
    It keeps the length of a vector and the [dot] and [cross] products of
    two vectors, rotating by zero changes nothing, two rotations compose
    to the rotation by the sum of the angles, so rotating back by the
    opposite angle restores the vector; [fromAngle] is the unit vector
    along x, rotated. *)
Theorem rotate_is_a_rotation : forall (v w : Vector2.t) (a b : R),
  Vector2.magnitude (Vector2.rotate v a) = Vector2.magnitude v
  /\ Vector2.dot (Vector2.rotate v a) (Vector2.rotate w a) = Vector2.dot v w
  /\ Vector2.cross (Vector2.rotate v a) (Vector2.rotate w a) = Vector2.cross v w
  /\ Vector2.rotate v 0 = v
  /\ Vector2.rotate (Vector2.rotate v a) b = Vector2.rotate v (a + b)
  /\ Vector2.rotate (Vector2.rotate v a) (- a) = v
  /\ Vector2.fromAngle a = Vector2.rotate (Vector2.mk 1 0) a
  /\ Vector2.magnitude (Vector2.fromAngle a) = 1.
Proof.
  intros v w a b.
  assert (T : forall t, sin t * sin t + cos t * cos t = 1).
  { intros t. pose proof (sin2_cos2 t) as H. unfold Rsqr in H. exact H. }
  assert (Z : Vector2.rotate v 0 = v).
  { destruct v. unfold Vector2.rotate. simpl. rewrite cos_0, sin_0. f_equal; ring. }
  assert (C : forall c d, Vector2.rotate (Vector2.rotate v c) d
                          = Vector2.rotate v (c + d)).
  { intros c d. destruct v. unfold Vector2.rotate. simpl.
    rewrite cos_plus, sin_plus. f_equal; ring. }
  split.
  { destruct v as [x y]. unfold Vector2.magnitude, Vector2.rotate. simpl. f_equal.
    replace ((x * cos a - y * sin a) * (x * cos a - y * sin a)
             + (x * sin a + y * cos a) * (x * sin a + y * cos a))
      with ((x * x + y * y) * (sin a * sin a + cos a * cos a)) by ring.
    rewrite T. ring. }
  split.
  { destruct v as [x y], w as [x' y']. unfold Vector2.dot, Vector2.rotate. simpl.
    replace ((x * cos a - y * sin a) * (x' * cos a - y' * sin a)
             + (x * sin a + y * cos a) * (x' * sin a + y' * cos a))
      with ((x * x' + y * y') * (sin a * sin a + cos a * cos a)) by ring.
    rewrite T. ring. }
  split.
  { destruct v as [x y], w as [x' y']. unfold Vector2.cross, Vector2.rotate. simpl.
    replace ((x * cos a - y * sin a) * (x' * sin a + y' * cos a)
             - (x * sin a + y * cos a) * (x' * cos a - y' * sin a))
      with ((x * y' - y * x') * (sin a * sin a + cos a * cos a)) by ring.
    rewrite T. ring. }
  split; [exact Z |]. split; [apply C |].
  split.
  { rewrite C. replace (a + - a) with 0 by ring. exact Z. }
  split.
  { unfold Vector2.fromAngle, Vector2.rotate. simpl. f_equal; ring. }
  unfold Vector2.magnitude, Vector2.fromAngle. simpl.
  replace (cos a * cos a + sin a * sin a) with 1 by (rewrite <- (T a); ring).
  apply sqrt_1.
Qed.

(** ** The narrow phase *)

Ltac minmax :=
  unfold Rmin, Rmax in *;
  repeat match goal with
         | |- context [Rle_dec ?a ?b] => destruct (Rle_dec a b)
         | H : context [Rle_dec ?a ?b] |- _ => destruct (Rle_dec a b)
         end.

Lemma aabbOverlap_true : forall boundsA boundsB,
  aabbOverlap boundsA boundsB = true
  <-> Bounds.left boundsB <= Bounds.right boundsA
      /\ Bounds.left boundsA <= Bounds.right boundsB
      /\ Bounds.top boundsB <= Bounds.bottom boundsA
      /\ Bounds.top boundsA <= Bounds.bottom boundsB.
Proof.
  intros boundsA boundsB. unfold aabbOverlap.
  rewrite negb_true_iff, !orb_false_iff, !Rlt_b_false, !Rgt_b_false.
  split; intros H; repeat split; lra.
Qed.

Lemma aabbOverlap_sym : forall boundsA boundsB,
  aabbOverlap boundsA boundsB = aabbOverlap boundsB boundsA.
Proof.
  intros boundsA boundsB.
  destruct (aabbOverlap boundsA boundsB) eqn:E1;
    destruct (aabbOverlap boundsB boundsA) eqn:E2; try reflexivity.
  - apply aabbOverlap_true in E1.
    assert (E : aabbOverlap boundsB boundsA = true)
      by (apply aabbOverlap_true; tauto).
    congruence.
  - apply aabbOverlap_true in E2.
    assert (E : aabbOverlap boundsA boundsB = true)
      by (apply aabbOverlap_true; tauto).
    congruence.
Qed.

Lemma overlapX_sym : forall boundsA boundsB,
  overlapX boundsA boundsB = overlapX boundsB boundsA.
Proof.
  intros. unfold overlapX. rewrite Rmin_comm, Rmax_comm. reflexivity.
Qed.

Lemma overlapY_sym : forall boundsA boundsB,
  overlapY boundsA boundsB = overlapY boundsB boundsA.
Proof.
  intros. unfold overlapY. rewrite Rmin_comm, Rmax_comm. reflexivity.
Qed.

Lemma rectRectCollision_cases : forall ra rb a b,
  let ox := overlapX (PhysicsBody.bounds a) (PhysicsBody.bounds b) in
  let oy := overlapY (PhysicsBody.bounds a) (PhysicsBody.bounds b) in
  (0 < ox /\ 0 < oy
   /\ exists n,
        rectRectCollision ra rb a b
        = Some (mkManifold ra rb n (Rmin ox oy)
                  (Vector2.mk
                     ((Rmax (Bounds.left (PhysicsBody.bounds a))
                            (Bounds.left (PhysicsBody.bounds b))
                       + Rmin (Bounds.right (PhysicsBody.bounds a))
                              (Bounds.right (PhysicsBody.bounds b))) / 2)
                     ((Rmax (Bounds.top (PhysicsBody.bounds a))
                            (Bounds.top (PhysicsBody.bounds b))
                       + Rmin (Bounds.bottom (PhysicsBody.bounds a))
                              (Bounds.bottom (PhysicsBody.bounds b))) / 2)))
        /\ axisUnit n
        /\ (ox < oy -> Vector2.y n = 0)
        /\ (oy <= ox -> Vector2.x n = 0)
        /\ Vector2.dot n (Vector2.subtract (PhysicsBody.position b)
                                           (PhysicsBody.position a)) <= 0)
  \/ (~ (0 < ox /\ 0 < oy) /\ rectRectCollision ra rb a b = None).
Proof.
  intros ra rb a b ox oy. unfold rectRectCollision.
  fold (overlapX (PhysicsBody.bounds a) (PhysicsBody.bounds b)).
  fold (overlapY (PhysicsBody.bounds a) (PhysicsBody.bounds b)).
  fold ox. fold oy.
  destruct (Rgt_b ox 0) eqn:Ex; simpl.
  2:{ right. apply Rgt_b_false in Ex. split; [tauto | reflexivity]. }
  destruct (Rgt_b oy 0) eqn:Ey; simpl.
  2:{ right. apply Rgt_b_false in Ey. split; [tauto | reflexivity]. }
  apply Rgt_b_true in Ex. apply Rgt_b_true in Ey.
  left. split; [exact Ex |]. split; [exact Ey |].
  destruct (Rlt_b ox oy) eqn:Lt.
  - apply Rlt_b_true in Lt.
    replace (Rmin ox oy) with ox by (unfold Rmin; destruct (Rle_dec ox oy); lra).
    eexists. split; [reflexivity |].
    destruct (Rlt_b (Vector2.x (PhysicsBody.position a))
                    (Vector2.x (PhysicsBody.position b))) eqn:P.
    + apply Rlt_b_true in P. split; [left; reflexivity |].
      split; [reflexivity |]. split; [lra |].
      unfold Vector2.dot, Vector2.subtract. simpl. lra.
    + apply Rlt_b_false in P. split; [right; left; reflexivity |].
      split; [reflexivity |]. split; [lra |].
      unfold Vector2.dot, Vector2.subtract. simpl. lra.
  - apply Rlt_b_false in Lt.
    replace (Rmin ox oy) with oy by (unfold Rmin; destruct (Rle_dec ox oy); lra).
    eexists. split; [reflexivity |].
    destruct (Rlt_b (Vector2.y (PhysicsBody.position a))
                    (Vector2.y (PhysicsBody.position b))) eqn:P.
    + apply Rlt_b_true in P. split; [right; right; left; reflexivity |].
      split; [lra |]. split; [reflexivity |].
      unfold Vector2.dot, Vector2.subtract. simpl. lra.
    + apply Rlt_b_false in P. split; [right; right; right; reflexivity |].
      split; [lra |]. split; [reflexivity |].
      unfold Vector2.dot, Vector2.subtract. simpl. lra.
Qed.

Lemma axisUnit_magnitude : forall n, axisUnit n -> Vector2.magnitude n = 1.
Proof.
  intros n [-> | [-> | [-> | ->]]]; unfold Vector2.magnitude; simpl;
    match goal with
    | |- sqrt ?e = 1 => replace e with 1 by ring
    end; apply sqrt_1.
Qed.

(** X14: the manifold of two rectangles.
    [rectRectCollision] reports a collision exactly when the two boxes
    overlap by a positive amount on both axes (boxes that only touch give
    none).  The manifold names the two bodies in the order given, its
    penetration is the smaller of the two overlaps and is positive, its
    normal is a unit vector along the axis of the smaller overlap which
    never points from A towards B, and its contact point, the centre of
    the overlap region, lies in both boxes. *)
Theorem rectRectCollision_manifold : forall (ra rb : ref) (a b : PhysicsBody.t),
  let ox := overlapX (PhysicsBody.bounds a) (PhysicsBody.bounds b) in
  let oy := overlapY (PhysicsBody.bounds a) (PhysicsBody.bounds b) in
  ((exists m, rectRectCollision ra rb a b = Some m) <-> 0 < ox /\ 0 < oy)
  /\ (forall m,
        rectRectCollision ra rb a b = Some m ->
        bodyA m = ra /\ bodyB m = rb
        /\ penetration m = Rmin ox oy
        /\ 0 < penetration m
        /\ axisUnit (normal m)
        /\ Vector2.magnitude (normal m) = 1
        /\ (ox < oy -> Vector2.y (normal m) = 0)
        /\ (oy <= ox -> Vector2.x (normal m) = 0)
        /\ Vector2.dot (normal m)
             (Vector2.subtract (PhysicsBody.position b) (PhysicsBody.position a))
           <= 0
        /\ inBox (contactPoint m) (PhysicsBody.bounds a)
        /\ inBox (contactPoint m) (PhysicsBody.bounds b)).
Proof.
  intros ra rb a b ox oy.
  pose proof (rectRectCollision_cases ra rb a b) as C. cbv zeta in C.
  fold ox oy in C.
  destruct C as [(Hx & Hy & n & E & U & Ny & Nx & Dn) | [Hn E]].
  - split.
    + split; [intros _; split; assumption | intros _; eexists; exact E].
    + intros m Hm. rewrite E in Hm. injection Hm as <-. simpl.
      assert (Hp : 0 < Rmin ox oy)
        by (unfold Rmin; destruct (Rle_dec ox oy); lra).
      split; [reflexivity |]. split; [reflexivity |]. split; [reflexivity |].
      split; [exact Hp |]. split; [exact U |].
      split; [exact (axisUnit_magnitude n U) |].
      split; [exact Ny |]. split; [exact Nx |]. split; [exact Dn |].
      clear E Ny Nx Hp. unfold inBox, ox, oy, overlapX, overlapY in *. simpl.
      split; minmax; lra.
  - split.
    + split; [intros (m & Hm); rewrite E in Hm; discriminate Hm | tauto].
    + intros m Hm. rewrite E in Hm. discriminate Hm.
Qed.

Lemma closestPoint_inBox : forall c rect,
  Bounds.left rect <= Bounds.right rect ->
  Bounds.top rect <= Bounds.bottom rect ->
  inBox (closestPoint c rect) rect.
Proof.
  intros c rect Hx Hy. unfold inBox, closestPoint. simpl. split; minmax; lra.
Qed.

Lemma closestPoint_fixed : forall c rect,
  inBox c rect -> closestPoint c rect = c.
Proof.
  intros [cx cy] rect [[H1 H2] [H3 H4]]. unfold closestPoint. simpl in *.
  f_equal; minmax; lra.
Qed.

Lemma sqr_le_of_abs_le : forall u v, Rabs u <= Rabs v -> u * u <= v * v.
Proof.
  intros u v H. fold (Rsqr u). fold (Rsqr v). apply Rsqr_le_abs_1. exact H.
Qed.

Lemma closestPoint_nearest : forall c rect p,
  inBox p rect ->
  Vector2.distanceTo c (closestPoint c rect) <= Vector2.distanceTo c p.
Proof.
  intros [cx cy] rect [x y] [[H1 H2] [H3 H4]].
  unfold Vector2.distanceTo, closestPoint. simpl in *.
  apply sqrt_le_1_alt. apply Rplus_le_compat; apply sqr_le_of_abs_le.
  - unfold Rabs. minmax;
      repeat match goal with
             | |- context [Rcase_abs ?e] => destruct (Rcase_abs e)
             end; lra.
  - unfold Rabs. minmax;
      repeat match goal with
             | |- context [Rcase_abs ?e] => destruct (Rcase_abs e)
             end; lra.
Qed.

Lemma distance_zero_iff : forall p q, Vector2.distanceTo p q = 0 <-> p = q.
Proof.
  intros p q. rewrite distanceTo_magnitude, magnitude_zero_iff.
  destruct p as [a b], q as [c d]. unfold Vector2.subtract, Vector2.zero. simpl.
  split; intros H; injection H as H1 H2; f_equal; lra.
Qed.

Lemma subtract_zero_iff : forall p q, Vector2.subtract p q = Vector2.zero <-> p = q.
Proof.
  intros [a b] [c d]. unfold Vector2.subtract, Vector2.zero. simpl.
  split; intros H; injection H as H1 H2; f_equal; lra.
Qed.

(** X15: the manifold of a circle and a
    rectangle.  For a box with [left <= right] and [top <= bottom], the
    point [circleRectCollision] clamps the centre to lies in the box and
    is the point of the box nearest to the centre.  A collision is reported
    exactly when that point is closer to the centre than the radius; the
    manifold has the circle as body A and the rectangle as body B, the
    nearest point as contact point, and a penetration of radius minus
    distance, which is positive and at most the radius.  Its normal is the
    unit vector from the contact point to the centre, except when the
    centre is inside the box: then the normal is the zero vector and the
    penetration is the whole radius. *)
Theorem circleRectCollision_manifold : forall (rc rr : ref)
    (circleBody rectBody : PhysicsBody.t) (radius : R),
  PhysicsBody.shape circleBody = Circle radius ->
  Bounds.left (PhysicsBody.bounds rectBody)
  <= Bounds.right (PhysicsBody.bounds rectBody) ->
  Bounds.top (PhysicsBody.bounds rectBody)
  <= Bounds.bottom (PhysicsBody.bounds rectBody) ->
  let c := PhysicsBody.position circleBody in
  let q := closestPoint c (PhysicsBody.bounds rectBody) in
  let d := Vector2.distanceTo c q in
  inBox q (PhysicsBody.bounds rectBody)
  /\ (forall p, inBox p (PhysicsBody.bounds rectBody) ->
        d <= Vector2.distanceTo c p)
  /\ ((exists m, circleRectCollision rc rr circleBody rectBody = Some m)
      <-> d < radius)
  /\ (forall m,
        circleRectCollision rc rr circleBody rectBody = Some m ->
        bodyA m = rc /\ bodyB m = rr
        /\ contactPoint m = q
        /\ penetration m = radius - d
        /\ 0 < penetration m <= radius
        /\ (inBox c (PhysicsBody.bounds rectBody) ->
            normal m = Vector2.zero /\ penetration m = radius)
        /\ (~ inBox c (PhysicsBody.bounds rectBody) ->
            Vector2.magnitude (normal m) = 1
            /\ normal m = Vector2.multiply (Vector2.subtract c q) (/ d))).
Proof.
  intros rc rr circleBody rectBody radius Hs Hx Hy c q d.
  split; [apply closestPoint_inBox; assumption |].
  split; [intros p Hp; apply closestPoint_nearest; exact Hp |].
  assert (E : circleRectCollision rc rr circleBody rectBody
              = if Rlt_b d radius
                then Some (mkManifold rc rr
                             (Vector2.normalize (Vector2.subtract c q))
                             (radius - d) q)
                else None).
  { unfold circleRectCollision. rewrite Hs. reflexivity. }
  split.
  - rewrite E. destruct (Rlt_b d radius) eqn:L.
    + apply Rlt_b_true in L. split; [intros _; exact L | intros _; eexists; reflexivity].
    + apply Rlt_b_false in L.
      split; [intros (m & Hm); discriminate Hm | intros H; contradiction].
  - intros m Hm. rewrite E in Hm.
    destruct (Rlt_b d radius) eqn:L; [| discriminate Hm].
    apply Rlt_b_true in L. injection Hm as <-. simpl.
    assert (Hd : 0 <= d) by apply sqrt_pos.
    split; [reflexivity |]. split; [reflexivity |]. split; [reflexivity |].
    split; [reflexivity |]. split; [lra |]. split.
    + intros Hin.
      assert (Eq : q = c) by (apply closestPoint_fixed; exact Hin).
      assert (Ed : d = 0) by (apply distance_zero_iff; symmetry; exact Eq).
      split; [| lra].
      rewrite (proj2 (subtract_zero_iff c q) (eq_sym Eq)). apply normalize_zero.
    + intros Hout.
      assert (Hne : Vector2.subtract c q <> Vector2.zero).
      { intros H. apply (proj1 (subtract_zero_iff c q)) in H. apply Hout. rewrite H.
        apply closestPoint_inBox; assumption. }
      split; [apply magnitude_normalize; exact Hne |].
      rewrite (normalize_scales _ Hne). reflexivity.
Qed.

Lemma circleRectCollision_manifold_witness :
  inBox (closestPoint (PhysicsBody.position ballBody) (PhysicsBody.bounds wallBody))
        (PhysicsBody.bounds wallBody)
  /\ (forall p, inBox p (PhysicsBody.bounds wallBody) ->
        Vector2.distanceTo (PhysicsBody.position ballBody)
          (closestPoint (PhysicsBody.position ballBody) (PhysicsBody.bounds wallBody))
        <= Vector2.distanceTo (PhysicsBody.position ballBody) p)
  /\ ((exists m, circleRectCollision 0 1 ballBody wallBody = Some m)
      <-> Vector2.distanceTo (PhysicsBody.position ballBody)
            (closestPoint (PhysicsBody.position ballBody)
                          (PhysicsBody.bounds wallBody)) < 10)
  /\ (forall m,
        circleRectCollision 0 1 ballBody wallBody = Some m ->
        bodyA m = 0%nat /\ bodyB m = 1%nat
        /\ contactPoint m
           = closestPoint (PhysicsBody.position ballBody) (PhysicsBody.bounds wallBody)
        /\ penetration m
           = 10 - Vector2.distanceTo (PhysicsBody.position ballBody)
                    (closestPoint (PhysicsBody.position ballBody)
                                  (PhysicsBody.bounds wallBody))
        /\ 0 < penetration m <= 10
        /\ (inBox (PhysicsBody.position ballBody) (PhysicsBody.bounds wallBody) ->
            normal m = Vector2.zero /\ penetration m = 10)
        /\ (~ inBox (PhysicsBody.position ballBody) (PhysicsBody.bounds wallBody) ->
            Vector2.magnitude (normal m) = 1
            /\ normal m
               = Vector2.multiply
                   (Vector2.subtract (PhysicsBody.position ballBody)
                      (closestPoint (PhysicsBody.position ballBody)
                                    (PhysicsBody.bounds wallBody)))
                   (/ Vector2.distanceTo (PhysicsBody.position ballBody)
                        (closestPoint (PhysicsBody.position ballBody)
                                      (PhysicsBody.bounds wallBody))))).
Proof.
  apply (circleRectCollision_manifold 0 1 ballBody wallBody 10).
  - reflexivity.
  - simpl. lra.
  - simpl. lra.
Defined.

(** *** Dispatch *)

Lemma circleCircleCollision_penetration : forall ra rb a b m,
  circleCircleCollision ra rb a b = Some m ->
  0 < penetration m /\ bodyA m = ra /\ bodyB m = rb.
Proof.
  intros ra rb a b m. unfold circleCircleCollision.
  destruct (PhysicsBody.shape a); try discriminate.
  destruct (PhysicsBody.shape b); try discriminate.
  destruct (Rlt_b _ _) eqn:L; [| discriminate].
  apply Rlt_b_true in L. intros H. injection H as <-. simpl.
  split; [lra | split; reflexivity].
Qed.

Lemma circleCircleCollision_sym : forall ra rb a b,
  option_map penetration (circleCircleCollision ra rb a b)
  = option_map penetration (circleCircleCollision rb ra b a).
Proof.
  intros ra rb a b. unfold circleCircleCollision.
  destruct (PhysicsBody.shape a) as [r1 | |]; destruct (PhysicsBody.shape b) as [r2 | |];
    try reflexivity.
  rewrite (distanceTo_sym (PhysicsBody.position b) (PhysicsBody.position a)).
  rewrite (Rplus_comm r2 r1).
  destruct (Rlt_b _ _); reflexivity.
Qed.

Lemma rectRectCollision_sym : forall ra rb a b,
  option_map penetration (rectRectCollision ra rb a b)
  = option_map penetration (rectRectCollision rb ra b a).
Proof.
  intros ra rb a b.
  pose proof (rectRectCollision_cases ra rb a b) as C1.
  pose proof (rectRectCollision_cases rb ra b a) as C2.
  cbv zeta in C1, C2.
  rewrite (overlapX_sym (PhysicsBody.bounds b)), (overlapY_sym (PhysicsBody.bounds b))
    in C2.
  destruct C1 as [(Hx & Hy & n & E & _) | [Hn E]];
    destruct C2 as [(Hx' & Hy' & n' & E' & _) | [Hn' E']];
    rewrite E, E'; try reflexivity; tauto.
Qed.

Lemma circleRectCollision_penetration : forall rc rr a b m,
  circleRectCollision rc rr a b = Some m ->
  0 < penetration m /\ bodyA m = rc /\ bodyB m = rr.
Proof.
  intros rc rr a b m. unfold circleRectCollision.
  destruct (PhysicsBody.shape a); try discriminate.
  destruct (Rlt_b _ _) eqn:L; [| discriminate].
  apply Rlt_b_true in L. intros H. injection H as <-. simpl.
  split; [lra | split; reflexivity].
Qed.

Lemma rectRectCollision_penetration : forall ra rb a b m,
  rectRectCollision ra rb a b = Some m ->
  0 < penetration m /\ bodyA m = ra /\ bodyB m = rb.
Proof.
  intros ra rb a b m Hm.
  pose proof (rectRectCollision_cases ra rb a b) as C. cbv zeta in C.
  destruct C as [(Hx & Hy & n & E & _) | [Hn E]]; rewrite E in Hm;
    [| discriminate Hm].
  injection Hm as <-. simpl.
  split; [| split; reflexivity].
  unfold Rmin. destruct (Rle_dec _ _); lra.
Qed.

(** X16: how [checkCollision] dispatches.  It
    answers null when the two cached boxes do not overlap or when a shape
    is neither a circle nor a rectangle.  Whether it reports a collision,
    and with what penetration, does not depend on the order of the two
    bodies; the penetration of a reported manifold is positive.  The
    manifold names the two bodies in the order given, except for a
    rectangle against a circle, where the circle becomes body A: the
    result is then the very manifold of the call in the other order. *)
Theorem checkCollision_dispatch : forall (ra rb : ref) (a b : PhysicsBody.t),
  option_map penetration (checkCollision ra rb a b)
  = option_map penetration (checkCollision rb ra b a)
  /\ (forall m,
        checkCollision ra rb a b = Some m ->
        0 < penetration m
        /\ aabbOverlap (PhysicsBody.bounds a) (PhysicsBody.bounds b) = true
        /\ ((bodyA m = ra /\ bodyB m = rb)
            \/ (bodyA m = rb /\ bodyB m = ra
                /\ exists width height radius,
                     PhysicsBody.shape a = Rect width height
                     /\ PhysicsBody.shape b = Circle radius)))
  /\ (aabbOverlap (PhysicsBody.bounds a) (PhysicsBody.bounds b) = false ->
      checkCollision ra rb a b = None)
  /\ (PhysicsBody.shape a = OtherShape \/ PhysicsBody.shape b = OtherShape ->
      checkCollision ra rb a b = None)
  /\ (forall width height radius,
        PhysicsBody.shape a = Rect width height ->
        PhysicsBody.shape b = Circle radius ->
        checkCollision ra rb a b = checkCollision rb ra b a).
Proof.
  intros ra rb a b. split; [| split; [| split; [| split]]].
  - unfold checkCollision.
    rewrite (aabbOverlap_sym (PhysicsBody.bounds b) (PhysicsBody.bounds a)).
    destruct (aabbOverlap (PhysicsBody.bounds a) (PhysicsBody.bounds b));
      [| reflexivity]. simpl.
    destruct (PhysicsBody.shape a) eqn:Sa; destruct (PhysicsBody.shape b) eqn:Sb;
      try reflexivity.
    + apply circleCircleCollision_sym.
    + apply rectRectCollision_sym.
  - intros m Hm. unfold checkCollision in Hm.
    destruct (aabbOverlap (PhysicsBody.bounds a) (PhysicsBody.bounds b));
      [| discriminate Hm]. simpl in Hm.
    split; [| split; [reflexivity |]].
    + destruct (PhysicsBody.shape a); destruct (PhysicsBody.shape b);
        try discriminate Hm.
      * exact (proj1 (circleCircleCollision_penetration _ _ _ _ _ Hm)).
      * exact (proj1 (circleRectCollision_penetration _ _ _ _ _ Hm)).
      * exact (proj1 (circleRectCollision_penetration _ _ _ _ _ Hm)).
      * exact (proj1 (rectRectCollision_penetration _ _ _ _ _ Hm)).
    + destruct (PhysicsBody.shape a) eqn:Sa; destruct (PhysicsBody.shape b) eqn:Sb;
        try discriminate Hm.
      * left. exact (proj2 (circleCircleCollision_penetration _ _ _ _ _ Hm)).
      * left. exact (proj2 (circleRectCollision_penetration _ _ _ _ _ Hm)).
      * right. destruct (circleRectCollision_penetration _ _ _ _ _ Hm) as (_ & A & B).
        split; [exact A |]. split; [exact B |]. eauto.
      * left. exact (proj2 (rectRectCollision_penetration _ _ _ _ _ Hm)).
  - intros H. unfold checkCollision. rewrite H. reflexivity.
  - intros H. unfold checkCollision.
    destruct (negb _); [reflexivity |].
    destruct H as [H | H]; rewrite H; [reflexivity |].
    destruct (PhysicsBody.shape a); reflexivity.
  - intros width height radius Sa Sb. unfold checkCollision.
    rewrite (aabbOverlap_sym (PhysicsBody.bounds b) (PhysicsBody.bounds a)).
    rewrite Sa, Sb. reflexivity.
Qed.

(** ** The spatial hash: cells and candidates *)

Lemma Math_floor_bounds : forall r,
  IZR (Math_floor r) <= r < IZR (Math_floor r) + 1.
Proof.
  intros r. unfold Math_floor. destruct (base_Int_part r) as [H1 H2]. lra.
Qed.

Lemma Math_floor_monotone : forall r s, r <= s -> (Math_floor r <= Math_floor s)%Z.
Proof.
  intros r s H.
  destruct (Math_floor_bounds r) as [R1 _].
  destruct (Math_floor_bounds s) as [_ S2].
  assert (L : IZR (Math_floor r) < IZR (Math_floor s + 1)).
  { rewrite plus_IZR. simpl. lra. }
  apply lt_IZR in L. lia.
Qed.

Lemma range_In : forall lo hi z, In z (range lo hi) <-> (lo <= z <= hi)%Z.
Proof.
  intros lo hi z. unfold range. rewrite in_map_iff. split.
  - intros (i & <- & Hi). apply in_seq in Hi. lia.
  - intros H. exists (Z.to_nat (z - lo)). split; [lia |].
    apply in_seq. lia.
Qed.

Lemma range_NoDup : forall lo hi, NoDup (range lo hi).
Proof.
  intros lo hi. unfold range. apply NoDup_map_NoDup_ForallPairs.
  - intros i j _ _ H. lia.
  - apply seq_NoDup.
Qed.

Lemma range_empty : forall lo hi, (hi < lo)%Z -> range lo hi = [].
Proof.
  intros lo hi H. unfold range.
  replace (Z.to_nat (hi - lo + 1)) with 0%nat by lia. reflexivity.
Qed.

Lemma getCells_In : forall h bounds c,
  In c (SpatialHash.getCells h bounds)
  <-> (Math_floor (Bounds.left bounds / SpatialHash.cellSize h) <= fst c
       <= Math_floor (Bounds.right bounds / SpatialHash.cellSize h))%Z
      /\ (Math_floor (Bounds.top bounds / SpatialHash.cellSize h) <= snd c
          <= Math_floor (Bounds.bottom bounds / SpatialHash.cellSize h))%Z.
Proof.
  intros h bounds [cx cy]. unfold SpatialHash.getCells.
  rewrite in_flat_map. simpl. split.
  - intros (x & Hx & Hin). apply in_map_iff in Hin.
    destruct Hin as (y & E & Hy). injection E as <- <-.
    apply range_In in Hx. apply range_In in Hy. split; assumption.
  - intros [Hx Hy]. exists cx. split; [apply range_In; exact Hx |].
    apply in_map_iff. exists cy. split; [reflexivity | apply range_In; exact Hy].
Qed.

Lemma pairs_NoDup : forall (xs ys : list Z),
  NoDup xs -> NoDup ys ->
  NoDup (flat_map (fun x => map (fun y => (x, y)) ys) xs).
Proof.
  intros xs ys Hx Hy. induction Hx as [| x xs Hn Hx IH]; simpl.
  - constructor.
  - apply NoDup_app.
    + apply NoDup_map_NoDup_ForallPairs; [| exact Hy].
      intros a b _ _ E. injection E as E. exact E.
    + exact IH.
    + intros [a b] Hin Hin'. apply in_map_iff in Hin.
      destruct Hin as (y & E & _). injection E as <- <-.
      apply in_flat_map in Hin'. destruct Hin' as (x' & Hx' & Hin').
      apply in_map_iff in Hin'. destruct Hin' as (y' & E & _).
      injection E as -> _. contradiction.
Qed.

Lemma div_le_div : forall a b s, 0 < s -> a <= b -> a / s <= b / s.
Proof.
  intros a b s Hs H. unfold Rdiv. apply Rmult_le_compat_r; [| exact H].
  left. apply Rinv_0_lt_compat. exact Hs.
Qed.

(** X17: the cells [getCells] lists for a box.
    For a positive cell size, every point of the box, borders included,
    falls into one of the listed cells, and so does every box it contains;
    no cell is listed twice; and a box whose right border falls into a
    cell column left of the one of its left border gets no cell at all. *)
Theorem getCells_covers_the_box : forall (h : SpatialHash.t)
    (bounds : Bounds.t) (p : Vector2.t),
  0 < SpatialHash.cellSize h ->
  inBox p bounds ->
  In (cellOf (SpatialHash.cellSize h) p) (SpatialHash.getCells h bounds)
  /\ NoDup (SpatialHash.getCells h bounds)
  /\ (forall inner,
        inBox (Vector2.mk (Bounds.left inner) (Bounds.top inner)) bounds ->
        inBox (Vector2.mk (Bounds.right inner) (Bounds.bottom inner)) bounds ->
        forall c, In c (SpatialHash.getCells h inner) ->
                  In c (SpatialHash.getCells h bounds))
  /\ (forall other,
        (Math_floor (Bounds.right other / SpatialHash.cellSize h)
         < Math_floor (Bounds.left other / SpatialHash.cellSize h))%Z ->
        SpatialHash.getCells h other = []).
Proof.
  intros h bounds p Hs [[X1 X2] [Y1 Y2]].
  split; [| split; [| split]].
  - apply getCells_In. unfold cellOf. simpl.
    repeat split; apply Math_floor_monotone; apply div_le_div; assumption.
  - unfold SpatialHash.getCells. apply pairs_NoDup; apply range_NoDup.
  - intros inner [[A1 A2] [A3 A4]] [[B1 B2] [B3 B4]] c Hc. simpl in *.
    apply getCells_In in Hc. apply getCells_In.
    destruct Hc as [[C1 C2] [C3 C4]].
    pose proof (Math_floor_monotone _ _
                  (div_le_div _ _ _ Hs A1)) as M1.
    pose proof (Math_floor_monotone _ _
                  (div_le_div _ _ _ Hs B2)) as M2.
    pose proof (Math_floor_monotone _ _
                  (div_le_div _ _ _ Hs A3)) as M3.
    pose proof (Math_floor_monotone _ _
                  (div_le_div _ _ _ Hs B4)) as M4.
    lia.
  - intros other Ho. unfold SpatialHash.getCells.
    rewrite (range_empty _ _ Ho). reflexivity.
Qed.

Lemma getCells_covers_the_box_witness :
  In (cellOf 64 (Vector2.mk 70 10))
     (SpatialHash.getCells (SpatialHash.new 64) (Bounds.mk 60 0 80 20))
  /\ NoDup (SpatialHash.getCells (SpatialHash.new 64) (Bounds.mk 60 0 80 20))
  /\ (forall inner,
        inBox (Vector2.mk (Bounds.left inner) (Bounds.top inner))
              (Bounds.mk 60 0 80 20) ->
        inBox (Vector2.mk (Bounds.right inner) (Bounds.bottom inner))
              (Bounds.mk 60 0 80 20) ->
        forall c, In c (SpatialHash.getCells (SpatialHash.new 64) inner) ->
                  In c (SpatialHash.getCells (SpatialHash.new 64)
                          (Bounds.mk 60 0 80 20)))
  /\ (forall other,
        (Math_floor (Bounds.right other / 64)
         < Math_floor (Bounds.left other / 64))%Z ->
        SpatialHash.getCells (SpatialHash.new 64) other = []).
Proof.
  apply (getCells_covers_the_box (SpatialHash.new 64) (Bounds.mk 60 0 80 20)
           (Vector2.mk 70 10)).
  - simpl. lra.
  - unfold inBox. simpl. lra.
Defined.

Lemma cellPairs_members : forall l x y,
  In (x, y) (SpatialHash.cellPairs l) ->
  In x l /\ In y l /\ (NoDup l -> x <> y).
Proof.
  induction l as [| a rest IH]; intros x y Hin; simpl in Hin; [contradiction |].
  apply in_app_iff in Hin. destruct Hin as [Hin | Hin].
  - apply in_map_iff in Hin. destruct Hin as (b & E & Hb). injection E as <- <-.
    split; [left; reflexivity |]. split; [right; exact Hb |].
    intros Hnd. inversion Hnd as [| ? ? Hn _]. subst. intros ->. contradiction.
  - destruct (IH x y Hin) as (Hx & Hy & Hne).
    split; [right; exact Hx |]. split; [right; exact Hy |].
    intros Hnd. inversion Hnd. subst. auto.
Qed.

Lemma NoDup_snoc : forall {A} (l : list A) a, NoDup l -> ~ In a l -> NoDup (l ++ [a]).
Proof.
  intros A l a Hl Hn. apply NoDup_app; [exact Hl | repeat constructor; intros [] |].
  intros x Hx [<- | []]. contradiction.
Qed.

Lemma NoDup_map_eq : forall {A B} (f : A -> B) l x y,
  NoDup (map f l) -> In x l -> In y l -> f x = f y -> x = y.
Proof.
  intros A B f l. induction l as [| a l IH]; intros x y Hnd Hx Hy E;
    [contradiction |].
  simpl in Hnd. inversion Hnd as [| ? ? Hn Hnd']. subst.
  destruct Hx as [<- | Hx]; destruct Hy as [<- | Hy].
  - reflexivity.
  - exfalso. apply Hn. rewrite E. apply in_map. exact Hy.
  - exfalso. apply Hn. rewrite <- E. apply in_map. exact Hx.
  - apply IH; assumption.
Qed.

Section Dedup.

Variable hp : Heap.

Lemma visitPair_inStep : forall st p,
  inStep hp st -> inStep hp (SpatialHash.visitPair hp st p).
Proof.
  intros st p [E Hnd]. unfold SpatialHash.visitPair.
  destruct (deref hp (fst p)) as [a |] eqn:Da; [| split; assumption].
  destruct (deref hp (snd p)) as [b |] eqn:Db; [| split; assumption].
  destruct (JsSet.has String.eqb (snd st) _) eqn:H; [split; assumption |].
  split; simpl.
  - rewrite !map_app, E. simpl. unfold keyOfPair. rewrite Da, Db. reflexivity.
  - apply NoDup_snoc; [exact Hnd |]. intros Hin.
    apply (JsSet_has_In String.eqb string_eqb_spec) in Hin. congruence.
Qed.

Lemma visitPair_from : forall st p q,
  In q (fst (SpatialHash.visitPair hp st p)) ->
  In q (fst st) \/ (q = p /\ keyOfPair hp p <> None).
Proof.
  intros st p q. unfold SpatialHash.visitPair, keyOfPair.
  destruct (deref hp (fst p)) as [a |]; [| tauto].
  destruct (deref hp (snd p)) as [b |]; [| tauto].
  destruct (JsSet.has String.eqb (snd st) _); [tauto |].
  simpl. rewrite in_app_iff. simpl. intros [H | [<- | []]]; [left; exact H |].
  right. split; [reflexivity | discriminate].
Qed.

Lemma visitPairs_from : forall ps st q,
  In q (fst (fold_left (SpatialHash.visitPair hp) ps st)) ->
  In q (fst st) \/ (In q ps /\ keyOfPair hp q <> None).
Proof.
  induction ps as [| p ps IH]; intros st q Hin; simpl in Hin; [left; exact Hin |].
  destruct (IH _ _ Hin) as [H | [H K]].
  - destruct (visitPair_from _ _ _ H) as [H' | [-> K]].
    + left. exact H'.
    + right. split; [left; reflexivity | exact K].
  - right. split; [right; exact H | exact K].
Qed.

Lemma visitPairs_inStep : forall ps st,
  inStep hp st -> inStep hp (fold_left (SpatialHash.visitPair hp) ps st).
Proof.
  induction ps as [| p ps IH]; intros st H; simpl; [exact H |].
  apply IH. apply visitPair_inStep. exact H.
Qed.

Lemma visitCells_sound : forall cells st,
  inStep hp st ->
  inStep hp (fold_left (SpatialHash.visitCell hp) cells st)
  /\ forall q,
       In q (fst (fold_left (SpatialHash.visitCell hp) cells st)) ->
       In q (fst st)
       \/ (keyOfPair hp q <> None
           /\ exists c s, In (c, s) cells /\ In q (SpatialHash.cellPairs s)).
Proof.
  induction cells as [| [c s] cells IH]; intros st H; simpl.
  - split; [exact H | tauto].
  - assert (H1 : inStep hp (SpatialHash.visitCell hp st (c, s))).
    { unfold SpatialHash.visitCell. apply visitPairs_inStep. exact H. }
    destruct (IH _ H1) as [I1 I2]. split; [exact I1 |].
    intros q Hq. destruct (I2 q Hq) as [Hq' | (K & c' & s' & Hin & Hp)].
    + unfold SpatialHash.visitCell in Hq'. simpl in Hq'.
      destruct (visitPairs_from _ _ _ Hq') as [Hq0 | [Hq0 K]].
      * left. exact Hq0.
      * right. split; [exact K |]. exists c, s. split; [left; reflexivity | exact Hq0].
    + right. split; [exact K |]. exists c', s'. split; [right; exact Hin | exact Hp].
Qed.

Lemma candidates_sound : forall h,
  NoDup (map (keyOfPair hp) (SpatialHash.getPotentialCollisions hp h))
  /\ fromCells hp (SpatialHash.grid h) (SpatialHash.getPotentialCollisions hp h).
Proof.
  intros h. unfold SpatialHash.getPotentialCollisions.
  assert (H0 : inStep hp ([], [])) by (split; [reflexivity | constructor]).
  destruct (visitCells_sound (SpatialHash.grid h) ([], []) H0) as [[E Hnd] F].
  split.
  - rewrite E. apply NoDup_map_NoDup_ForallPairs; [| exact Hnd].
    intros a b _ _ Hab. injection Hab as Hab. exact Hab.
  - intros p Hp. destruct (F p Hp) as [[] | H]. exact H.
Qed.

End Dedup.

(** X18: the candidate
    pairs of the spatial hash.  [getPotentialCollisions] never returns two
    pairs with the same key, so a pair of bodies that share several cells
    is reported once, and never in both orders; the two bodies of every
    pair it returns are listed together in some cell; conversely two
    different bodies listed in one cell give a pair with their key; and a
    hash that was just cleared has no candidates. *)
Theorem getPotentialCollisions_reports_each_pair_once : forall (hp : Heap)
    (h : SpatialHash.t),
  NoDup (map (keyOfPair hp) (SpatialHash.getPotentialCollisions hp h))
  /\ NoDup (SpatialHash.getPotentialCollisions hp h)
  /\ (forall ra rb,
        In (ra, rb) (SpatialHash.getPotentialCollisions hp h) ->
        In (rb, ra) (SpatialHash.getPotentialCollisions hp h) ->
        ra = rb)
  /\ (forall ra rb,
        In (ra, rb) (SpatialHash.getPotentialCollisions hp h) ->
        exists c s a b,
          In (c, s) (SpatialHash.grid h) /\ In ra s /\ In rb s
          /\ (NoDup s -> ra <> rb)
          /\ deref hp ra = Some a /\ deref hp rb = Some b)
  /\ (forall c s ra rb a b,
        In (c, s) (SpatialHash.grid h) ->
        In ra s -> In rb s -> ra <> rb ->
        deref hp ra = Some a -> deref hp rb = Some b ->
        exists q,
          In q (SpatialHash.getPotentialCollisions hp h)
          /\ keyOfPair hp q
             = Some (SpatialHash.pairKey (PhysicsBody.id a) (PhysicsBody.id b)))
  /\ SpatialHash.getPotentialCollisions hp (SpatialHash.clear h) = [].
Proof.
  intros hp h. destruct (candidates_sound hp h) as [Hnd F].
  split; [exact Hnd |].
  split; [exact (NoDup_map_inv _ _ Hnd) |].
  split.
  { intros ra rb H1 H2.
    destruct (F _ H1) as [K _].
    assert (E : keyOfPair hp (ra, rb) = keyOfPair hp (rb, ra)).
    { unfold keyOfPair in *. simpl in *.
      destruct (deref hp ra); [| destruct (deref hp rb); reflexivity].
      destruct (deref hp rb); [| reflexivity].
      rewrite pairKey_sym. reflexivity. }
    pose proof (NoDup_map_eq _ _ _ _ Hnd H1 H2 E) as Hpq.
    injection Hpq as Hpq _. exact Hpq. }
  split.
  { intros ra rb Hin. destruct (F _ Hin) as (K & c & s & Hc & Hp).
    destruct (cellPairs_members _ _ _ Hp) as (Ha & Hb & Hne).
    unfold keyOfPair in K. simpl in K.
    destruct (deref hp ra) as [a |] eqn:Da; [| contradiction].
    destruct (deref hp rb) as [b |] eqn:Db; [| contradiction].
    exists c, s, a, b. repeat split; assumption. }
  split.
  { intros c s ra rb a b. apply shared_cell_gives_candidate. }
  reflexivity.
Qed.

Lemma addToCell_get : forall g c r c',
  JsMap.get SpatialHash.cell_eqb (SpatialHash.addToCell g c r) c'
  = if SpatialHash.cell_eqb c' c
    then Some (JsSet.add Nat.eqb
                 (match JsMap.get SpatialHash.cell_eqb g c with
                  | Some s => s
                  | None => []
                  end) r)
    else JsMap.get SpatialHash.cell_eqb g c'.
Proof.
  intros g c r c'. unfold SpatialHash.addToCell, JsMap.has.
  destruct (JsMap.get SpatialHash.cell_eqb g c) as [s0 |] eqn:G.
  - rewrite G.
    destruct (SpatialHash.cell_eqb c' c) eqn:E.
    + apply cell_eqb_spec in E. subst c'.
      apply (JsMap_get_set_same _ cell_eqb_spec).
    + apply (JsMap_get_set_other _ cell_eqb_spec).
      intros ->. rewrite (proj2 (cell_eqb_spec c' c') eq_refl) in E. discriminate E.
  - rewrite (JsMap_get_set_same _ cell_eqb_spec).
    destruct (SpatialHash.cell_eqb c' c) eqn:E.
    + apply cell_eqb_spec in E. subst c'.
      apply (JsMap_get_set_same _ cell_eqb_spec).
    + assert (Hne : c <> c').
      { intros ->. rewrite (proj2 (cell_eqb_spec c' c') eq_refl) in E. discriminate E. }
      rewrite !(JsMap_get_set_other _ cell_eqb_spec) by exact Hne. reflexivity.
Qed.

Lemma cellHolds_addToCell : forall g c r c' r',
  cellHolds (SpatialHash.addToCell g c r) c' r'
  <-> cellHolds g c' r' \/ (c' = c /\ r' = r).
Proof.
  intros g c r c' r'. unfold cellHolds. rewrite addToCell_get.
  destruct (SpatialHash.cell_eqb c' c) eqn:E.
  - apply cell_eqb_spec in E. subst c'. split.
    + intros (s & Hs & Hin). injection Hs as <-.
      apply (JsSet_In_add _ nat_eqb_spec) in Hin. destruct Hin as [Hin | ->].
      * destruct (JsMap.get SpatialHash.cell_eqb g c) as [s0 |]; [| contradiction].
        left. exists s0. split; [reflexivity | exact Hin].
      * right. split; reflexivity.
    + intros [(s & Hs & Hin) | [_ ->]]; eexists; (split; [reflexivity |]);
        apply (JsSet_In_add _ nat_eqb_spec).
      * left. rewrite Hs. exact Hin.
      * right. reflexivity.
  - split; [intros H; left; exact H |].
    intros [H | [-> _]]; [exact H |].
    rewrite (proj2 (cell_eqb_spec c c) eq_refl) in E. discriminate E.
Qed.

Lemma JsMap_set_keys : forall {V} (m : list (SpatialHash.cell * V)) k v,
  map fst (JsMap.set SpatialHash.cell_eqb m k v)
  = if JsMap.has SpatialHash.cell_eqb m k then map fst m else map fst m ++ [k].
Proof.
  intros V m k v. unfold JsMap.has.
  induction m as [| [k' v'] m IH]; simpl; [reflexivity |].
  destruct (SpatialHash.cell_eqb k k') eqn:E; simpl; [reflexivity |].
  rewrite IH. destruct (JsMap.get SpatialHash.cell_eqb m k); reflexivity.
Qed.

Lemma JsMap_set_NoDup : forall {V} (m : list (SpatialHash.cell * V)) k v,
  NoDup (map fst m) -> NoDup (map fst (JsMap.set SpatialHash.cell_eqb m k v)).
Proof.
  intros V m k v H. rewrite JsMap_set_keys. unfold JsMap.has.
  destruct (JsMap.get SpatialHash.cell_eqb m k) eqn:G; [exact H |].
  apply NoDup_snoc; [exact H |].
  apply (JsMap_get_None _ cell_eqb_spec). exact G.
Qed.

Lemma gridWellFormed_get : forall g c s,
  gridWellFormed g ->
  (In (c, s) g <-> JsMap.get SpatialHash.cell_eqb g c = Some s).
Proof.
  intros g c s [K _]. split.
  - apply (JsMap_In_get _ cell_eqb_spec). exact K.
  - apply (JsMap_get_In _ cell_eqb_spec).
Qed.

Lemma addToCell_wellFormed : forall g c r,
  gridWellFormed g -> gridWellFormed (SpatialHash.addToCell g c r).
Proof.
  intros g c r W. pose proof W as [K S].
  assert (K' : NoDup (map fst (SpatialHash.addToCell g c r))).
  { unfold SpatialHash.addToCell.
    set (g1 := if JsMap.has SpatialHash.cell_eqb g c then g
               else JsMap.set SpatialHash.cell_eqb g c []).
    assert (K1 : NoDup (map fst g1)).
    { unfold g1. destruct (JsMap.has _ g c); [exact K | apply JsMap_set_NoDup; exact K]. }
    destruct (JsMap.get SpatialHash.cell_eqb g1 c); [| exact K1].
    apply JsMap_set_NoDup. exact K1. }
  split; [exact K' |].
  intros c' s' Hin.
  apply (JsMap_In_get _ cell_eqb_spec _ _ _ K') in Hin.
  rewrite addToCell_get in Hin.
  destruct (SpatialHash.cell_eqb c' c).
  - injection Hin as <-. apply (JsSet_NoDup_add _ nat_eqb_spec).
    destruct (JsMap.get SpatialHash.cell_eqb g c) as [s0 |] eqn:G; [| constructor].
    apply (S c s0). apply (JsMap_get_In _ cell_eqb_spec). exact G.
  - apply (S c' s'). apply (JsMap_get_In _ cell_eqb_spec). exact Hin.
Qed.

Lemma addToCells_iff : forall cells g r c' r',
  cellHolds (fold_left (fun g cellKey => SpatialHash.addToCell g cellKey r) cells g)
            c' r'
  <-> cellHolds g c' r' \/ (In c' cells /\ r' = r).
Proof.
  induction cells as [| c cells IH]; intros g r c' r'; simpl.
  - tauto.
  - rewrite IH, cellHolds_addToCell. split.
    + intros [[H | [-> ->]] | [H ->]]; auto.
    + intros [H | [[<- | H] ->]]; auto.
Qed.

Lemma addToCells_wellFormed : forall cells g r,
  gridWellFormed g ->
  gridWellFormed
    (fold_left (fun g cellKey => SpatialHash.addToCell g cellKey r) cells g).
Proof.
  induction cells as [| c cells IH]; intros g r W; simpl; [exact W |].
  apply IH. apply addToCell_wellFormed. exact W.
Qed.

Lemma rehash_facts : forall hp h entry,
  SpatialHash.cellSize (rehash hp h entry) = SpatialHash.cellSize h
  /\ (gridWellFormed (SpatialHash.grid h) ->
      gridWellFormed (SpatialHash.grid (rehash hp h entry)))
  /\ (forall c r,
        cellHolds (SpatialHash.grid (rehash hp h entry)) c r
        <-> cellHolds (SpatialHash.grid h) c r
            \/ (r = snd entry
                /\ exists b, deref hp r = Some b
                             /\ PhysicsBody.enabled b = true
                             /\ In c (SpatialHash.getCells h (PhysicsBody.bounds b)))).
Proof.
  intros hp h entry. unfold rehash.
  destruct (deref hp (snd entry)) as [b |] eqn:D.
  2:{ split; [reflexivity |]. split; [tauto |]. intros c r. split; [tauto |].
      intros [H | [-> (b & Db & _)]]; [exact H | congruence]. }
  destruct (PhysicsBody.enabled b) eqn:E.
  2:{ split; [reflexivity |]. split; [tauto |]. intros c r. split; [tauto |].
      intros [H | [-> (b' & Db & Eb & _)]]; [exact H | congruence]. }
  unfold SpatialHash.insert. rewrite D. simpl.
  split; [reflexivity |]. split; [apply addToCells_wellFormed |].
  intros c r. rewrite addToCells_iff. split.
  - intros [H | [H ->]]; [left; exact H |]. right. split; [reflexivity |].
    exists b. repeat split; assumption.
  - intros [H | [-> (b' & Db & _ & Hc)]]; [left; exact H |].
    right. split; [| reflexivity]. rewrite D in Db. injection Db as <-. exact Hc.
Qed.

Lemma rehashAll_facts : forall hp entries h,
  SpatialHash.cellSize (fold_left (rehash hp) entries h) = SpatialHash.cellSize h
  /\ (gridWellFormed (SpatialHash.grid h) ->
      gridWellFormed (SpatialHash.grid (fold_left (rehash hp) entries h)))
  /\ (forall c r,
        cellHolds (SpatialHash.grid (fold_left (rehash hp) entries h)) c r
        <-> cellHolds (SpatialHash.grid h) c r
            \/ exists k b, In (k, r) entries
                           /\ deref hp r = Some b
                           /\ PhysicsBody.enabled b = true
                           /\ In c (SpatialHash.getCells h (PhysicsBody.bounds b))).
Proof.
  intros hp. induction entries as [| [k0 r0] entries IH]; intros h; simpl.
  - split; [reflexivity |]. split; [tauto |]. intros c r. split; [tauto |].
    intros [H | (k & b & [] & _)]. exact H.
  - destruct (IH (rehash hp h (k0, r0))) as (S1 & W1 & I1).
    destruct (rehash_facts hp h (k0, r0)) as (S0 & W0 & I0).
    split; [congruence |]. split; [tauto |].
    intros c r. rewrite I1, I0. simpl. split.
    + intros [[H | [-> (b & D & E & Hc)]] | (k & b & Hin & D & E & Hc)].
      * left. exact H.
      * right. exists k0, b. repeat split; auto.
      * right. exists k, b. split; [right; exact Hin |].
        split; [exact D |]. split; [exact E |].
        rewrite (getCells_cellSize h (rehash hp h (k0, r0))); [exact Hc |].
        symmetry. exact S0.
    + intros [H | (k & b & [Heq | Hin] & D & E & Hc)].
      * left. left. exact H.
      * injection Heq as <- <-. left. right. split; [reflexivity |].
        exists b. repeat split; assumption.
      * right. exists k, b. split; [exact Hin |].
        split; [exact D |]. split; [exact E |].
        rewrite (getCells_cellSize (rehash hp h (k0, r0)) h); [exact Hc |].
        exact S0.
Qed.

Lemma updateSpatialHash_fold : forall w,
  PhysicsEngine.broadPhase (physics (updateSpatialHash w))
  = fold_left (rehash (heap w)) (PhysicsEngine.bodies (physics w))
              (SpatialHash.clear (PhysicsEngine.broadPhase (physics w))).
Proof. reflexivity. Qed.

Lemma updateSpatialHash_rebuilds_the_grid_aux : forall w,
  (forall c r,
     cellHolds (SpatialHash.grid
                  (PhysicsEngine.broadPhase (physics (updateSpatialHash w)))) c r
     <-> exists k b,
           In (k, r) (PhysicsEngine.bodies (physics w))
           /\ deref (heap w) r = Some b
           /\ PhysicsBody.enabled b = true
           /\ In c (SpatialHash.getCells (PhysicsEngine.broadPhase (physics w))
                                         (PhysicsBody.bounds b)))
  /\ gridWellFormed
       (SpatialHash.grid (PhysicsEngine.broadPhase (physics (updateSpatialHash w)))).
Proof.
  intros w. rewrite updateSpatialHash_fold.
  destruct (rehashAll_facts (heap w) (PhysicsEngine.bodies (physics w))
              (SpatialHash.clear (PhysicsEngine.broadPhase (physics w))))
    as (S1 & W1 & I1).
  split.
  - intros c r. rewrite I1. split.
    + intros [(s & G & _) | H]; [discriminate G | exact H].
    + intros H. right. exact H.
  - apply W1. split; [constructor | intros c s []].
Qed.

(** X19: what [updateSpatialHash]
    leaves in the grid.  After the rebuild a cell lists a body exactly
    when the body is registered and enabled and the cell is one of those
    [getCells] gives for its cached box: nothing of the old grid
    survives, disabled and unregistered bodies are absent.  No cell key is
    repeated and no cell lists a body twice; the cell size, the bodies and
    the registry are untouched. *)
Theorem updateSpatialHash_rebuilds_the_grid : forall (w : World),
  let w' := updateSpatialHash w in
  (forall c r,
     cellHolds (SpatialHash.grid (PhysicsEngine.broadPhase (physics w'))) c r
     <-> exists k b,
           In (k, r) (PhysicsEngine.bodies (physics w))
           /\ deref (heap w) r = Some b
           /\ PhysicsBody.enabled b = true
           /\ In c (SpatialHash.getCells (PhysicsEngine.broadPhase (physics w))
                                         (PhysicsBody.bounds b)))
  /\ gridWellFormed (SpatialHash.grid (PhysicsEngine.broadPhase (physics w')))
  /\ SpatialHash.cellSize (PhysicsEngine.broadPhase (physics w'))
     = SpatialHash.cellSize (PhysicsEngine.broadPhase (physics w))
  /\ heap w' = heap w
  /\ PhysicsEngine.bodies (physics w') = PhysicsEngine.bodies (physics w)
  /\ PhysicsEngine.collisionPairs (physics w')
     = PhysicsEngine.collisionPairs (physics w).
Proof.
  intros w w'. unfold w'.
  destruct (updateSpatialHash_rebuilds_the_grid_aux w) as (I & W).
  split; [exact I |]. split; [exact W |].
  split; [| repeat split].
  rewrite updateSpatialHash_fold.
  exact (proj1 (rehashAll_facts (heap w) (PhysicsEngine.bodies (physics w))
                  (SpatialHash.clear (PhysicsEngine.broadPhase (physics w))))).
Qed.

Lemma cellHolds_In : forall g c r,
  gridWellFormed g ->
  (cellHolds g c r <-> exists s, In (c, s) g /\ In r s).
Proof.
  intros g c r W. unfold cellHolds. split; intros (s & H1 & H2); exists s;
    (split; [apply (gridWellFormed_get g c s W); exact H1 | exact H2]).
Qed.

(** X20: the candidate pairs [detectCollisions]
    gets from a hash that [updateSpatialHash] has just rebuilt.  When the
    ids are distinct and hold no dash, two bodies form a candidate pair, in
    one order or the other, exactly when they are different objects, both
    registered and enabled, and their cached boxes have a grid cell in
    common. *)
Theorem candidates_after_a_rebuild : forall (w : World) (ra rb : ref),
  NoDup (map PhysicsBody.id (heap w)) ->
  Forall dashFree (map PhysicsBody.id (heap w)) ->
  let candidates :=
    SpatialHash.getPotentialCollisions (heap w)
      (PhysicsEngine.broadPhase (physics (updateSpatialHash w))) in
  (In (ra, rb) candidates \/ In (rb, ra) candidates)
  <-> ra <> rb /\ shareCell w ra rb.
Proof.
  intros w ra rb Hnd Hdf candidates.
  destruct (updateSpatialHash_rebuilds_the_grid_aux w) as (I & W).
  split.
  - assert (F : forall x y, In (x, y) candidates -> x <> y /\ shareCell w x y).
    { intros x y Hin.
      destruct (candidates_sound (heap w)
                  (PhysicsEngine.broadPhase (physics (updateSpatialHash w))))
        as [_ F].
      destruct (F _ Hin) as (_ & c & s & Hc & Hp).
      destruct (cellPairs_members _ _ _ Hp) as (Hx & Hy & Hne).
      split; [apply Hne; exact (proj2 W c s Hc) |].
      assert (Cx : cellHolds (SpatialHash.grid
                    (PhysicsEngine.broadPhase (physics (updateSpatialHash w)))) c x).
      { apply (cellHolds_In _ _ _ W). exists s. split; assumption. }
      assert (Cy : cellHolds (SpatialHash.grid
                    (PhysicsEngine.broadPhase (physics (updateSpatialHash w)))) c y).
      { apply (cellHolds_In _ _ _ W). exists s. split; assumption. }
      apply I in Cx. apply I in Cy.
      destruct Cx as (ka & a & H1 & H2 & H3 & H4).
      destruct Cy as (kb & b & H5 & H6 & H7 & H8).
      exists c, ka, kb, a, b. repeat split; assumption. }
    intros [H | H].
    + exact (F _ _ H).
    + destruct (F _ _ H) as (Hne & c & ka & kb & a & b & H1 & H2 & H3 & H4 & H5 & H6 & H7 & H8).
      split; [intros E; apply Hne; symmetry; exact E |].
      exists c, kb, ka, b, a. repeat split; assumption.
  - intros (Hne & c & ka & kb & a & b & H1 & H2 & H3 & H4 & H5 & H6 & H7 & H8).
    destruct (rebuilt_hash_pairs_shared_cells w ka kb ra rb a b c H1 H2 Hne H3 H4
                H5 H6 H7 H8) as (q & Hq & _ & Hid).
    destruct (Hid Hnd Hdf) as [-> | ->]; [left | right]; exact Hq.
Qed.

Lemma candidates_after_a_rebuild_witness :
  let candidates :=
    SpatialHash.getPotentialCollisions (heap twoCircles)
      (PhysicsEngine.broadPhase (physics (updateSpatialHash twoCircles))) in
  (In (0%nat, 1%nat) candidates \/ In (1%nat, 0%nat) candidates)
  <-> 0%nat <> 1%nat /\ shareCell twoCircles 0 1.
Proof.
  apply (candidates_after_a_rebuild twoCircles 0 1).
  - simpl. constructor; [intros [H | []]; discriminate H |].
    constructor; [intros [] | constructor].
  - simpl. repeat constructor; discriminate.
Defined.

(** ** The ray caster: where a hit lies *)

Lemma slabNear_axes : forall origin dirNorm bounds,
  slabNear origin dirNorm bounds
  = JsNum.max
      (slabMin (Bounds.left bounds) (Bounds.right bounds)
               (Vector2.x origin) (Vector2.x dirNorm))
      (slabMin (Bounds.top bounds) (Bounds.bottom bounds)
               (Vector2.y origin) (Vector2.y dirNorm)).
Proof. reflexivity. Qed.

Lemma slabFar_axes : forall origin dirNorm bounds,
  slabFar origin dirNorm bounds
  = JsNum.min
      (slabMax (Bounds.left bounds) (Bounds.right bounds)
               (Vector2.x origin) (Vector2.x dirNorm))
      (slabMax (Bounds.top bounds) (Bounds.bottom bounds)
               (Vector2.y origin) (Vector2.y dirNorm)).
Proof. reflexivity. Qed.

Lemma slab_axis : forall lo hi o d,
  (d <> 0
   /\ slabMin lo hi o d = JsNum.Fin (Rmin ((lo - o) / d) ((hi - o) / d))
   /\ slabMax lo hi o d = JsNum.Fin (Rmax ((lo - o) / d) ((hi - o) / d)))
  \/ (d = 0
      /\ ((slabMin lo hi o d = JsNum.NaN /\ slabMax lo hi o d = JsNum.NaN
           /\ (lo = o \/ hi = o))
          \/ (slabMin lo hi o d = JsNum.PInf /\ slabMax lo hi o d = JsNum.PInf
              /\ o < Rmin lo hi)
          \/ (slabMin lo hi o d = JsNum.NInf /\ slabMax lo hi o d = JsNum.NInf
              /\ Rmax lo hi < o)
          \/ (slabMin lo hi o d = JsNum.NInf /\ slabMax lo hi o d = JsNum.PInf
              /\ Rmin lo hi < o < Rmax lo hi))).
Proof.
  intros lo hi o d. unfold slabMin, slabMax, JsNum.div.
  destruct (Req_dec_T d 0) as [Hd | Hd].
  - right. split; [exact Hd |].
    destruct (Rlt_dec 0 (lo - o)); destruct (Rlt_dec 0 (hi - o));
      try destruct (Rlt_dec (lo - o) 0); try destruct (Rlt_dec (hi - o) 0);
      simpl; try lra;
      first [ left; split; [reflexivity | split; [reflexivity | lra]]
            | right; left; split; [reflexivity | split; [reflexivity |]];
              unfold Rmin; destruct (Rle_dec lo hi); lra
            | right; right; left; split; [reflexivity | split; [reflexivity |]];
              unfold Rmax; destruct (Rle_dec lo hi); lra
            | right; right; right; split; [reflexivity | split; [reflexivity |]];
              unfold Rmin, Rmax; destruct (Rle_dec lo hi); lra ].
  - left. split; [exact Hd |]. split; reflexivity.
Qed.

Lemma axis_point : forall lo hi o d t,
  d <> 0 ->
  Rmin ((lo - o) / d) ((hi - o) / d) <= t <= Rmax ((lo - o) / d) ((hi - o) / d) ->
  Rmin lo hi <= o + d * t <= Rmax lo hi.
Proof.
  intros lo hi o d t Hd Ht.
  set (a := (lo - o) / d) in *. set (b := (hi - o) / d) in *.
  assert (Ea : lo = o + d * a) by (unfold a; field; exact Hd).
  assert (Eb : hi = o + d * b) by (unfold b; field; exact Hd).
  rewrite Ea, Eb. clearbody a b. clear Ea Eb.
  assert (Hc : 0 < d \/ d < 0) by (destruct (Rtotal_order d 0) as [H | [H | H]]; lra).
  unfold Rmin, Rmax in *.
  destruct (Rle_dec a b); destruct (Rle_dec (o + d * a) (o + d * b));
    destruct Hc; nra.
Qed.

Lemma axis_entry : forall lo hi o d,
  d <> 0 ->
  o + d * Rmin ((lo - o) / d) ((hi - o) / d) = lo
  \/ o + d * Rmin ((lo - o) / d) ((hi - o) / d) = hi.
Proof.
  intros lo hi o d Hd. unfold Rmin. destruct (Rle_dec _ _); [left | right];
    field; exact Hd.
Qed.

Lemma leb_zero_fin : forall a m,
  JsNum.geb a (JsNum.Fin 0) = true -> JsNum.leb a m = true ->
  (exists t, a = JsNum.Fin t /\ 0 <= t) \/ (a = JsNum.PInf /\ m = JsNum.PInf).
Proof.
  intros a m H0 Hm. unfold JsNum.geb in H0.
  destruct a as [t | | |]; simpl in *; try discriminate.
  - left. exists t. split; [reflexivity |]. apply Rle_b_true. exact H0.
  - right. split; [reflexivity |]. destruct m; try discriminate. reflexivity.
Qed.

Lemma normalized_nonzero : forall v,
  v <> Vector2.zero ->
  Vector2.x (Vector2.normalized v) <> 0 \/ Vector2.y (Vector2.normalized v) <> 0.
Proof.
  intros v Hv. pose proof (normalize_not_zero v Hv) as H.
  unfold Vector2.normalized.
  destruct (Vector2.normalize v) as [a b]. simpl.
  destruct (Req_dec_T a 0) as [-> | Ha]; [| left; exact Ha].
  destruct (Req_dec_T b 0) as [-> | Hb]; [| right; exact Hb].
  exfalso. apply H. reflexivity.
Qed.

Lemma calculateHitNormal_axis : forall p bounds,
  axisUnit (calculateHitNormal p bounds).
Proof.
  intros p bounds. unfold calculateHitNormal, axisUnit.
  destruct (JsNum.gtb _ _).
  - destruct (JsNum.gtb _ _); auto.
  - destruct (JsNum.gtb _ _); auto.
Qed.

(** The slab test on finite entry: what the three comparisons give. *)
Lemma slab_finite_hit : forall lox hix loy hiy ox oy dx dy t,
  JsNum.max (slabMin lox hix ox dx) (slabMin loy hiy oy dy) = JsNum.Fin t ->
  JsNum.leb (JsNum.Fin t)
    (JsNum.min (slabMax lox hix ox dx) (slabMax loy hiy oy dy)) = true ->
  (Rmin lox hix <= ox + dx * t <= Rmax lox hix)
  /\ (Rmin loy hiy <= oy + dy * t <= Rmax loy hiy)
  /\ (ox + dx * t = lox \/ ox + dx * t = hix
      \/ oy + dy * t = loy \/ oy + dy * t = hiy).
Proof.
  intros lox hix loy hiy ox oy dx dy t Hn Hf.
  destruct (slab_axis lox hix ox dx)
    as [(Hdx & Mx & Xx) | (Hdx & [(Mx & Xx & Ix) | [(Mx & Xx & Ix) | [(Mx & Xx & Ix) | (Mx & Xx & Ix)]]])];
  destruct (slab_axis loy hiy oy dy)
    as [(Hdy & My & Xy) | (Hdy & [(My & Xy & Iy) | [(My & Xy & Iy) | [(My & Xy & Iy) | (My & Xy & Iy)]]])];
  rewrite Mx, My in Hn; rewrite Xx, Xy in Hf; simpl in Hn, Hf;
    try discriminate Hn; try discriminate Hf.
  - (* both axes advance *)
    injection Hn as Hn. apply Rle_b_true in Hf.
    assert (Tx : Rmin ((lox - ox) / dx) ((hix - ox) / dx) <= t
                 <= Rmax ((lox - ox) / dx) ((hix - ox) / dx)).
    { rewrite <- Hn. split; [apply Rmax_l |].
      rewrite Hn. eapply Rle_trans; [exact Hf | apply Rmin_l]. }
    assert (Ty : Rmin ((loy - oy) / dy) ((hiy - oy) / dy) <= t
                 <= Rmax ((loy - oy) / dy) ((hiy - oy) / dy)).
    { rewrite <- Hn. split; [apply Rmax_r |].
      rewrite Hn. eapply Rle_trans; [exact Hf | apply Rmin_r]. }
    split; [exact (axis_point _ _ _ _ _ Hdx Tx) |].
    split; [exact (axis_point _ _ _ _ _ Hdy Ty) |].
    destruct (Rle_dec (Rmin ((lox - ox) / dx) ((hix - ox) / dx))
                      (Rmin ((loy - oy) / dy) ((hiy - oy) / dy))) as [Hle | Hgt].
    + rewrite Rmax_right in Hn by exact Hle. rewrite <- Hn.
      destruct (axis_entry loy hiy oy dy Hdy) as [H | H]; auto.
    + rewrite Rmax_left in Hn by lra. rewrite <- Hn.
      destruct (axis_entry lox hix ox dx Hdx) as [H | H]; auto.
  - (* x advances, y stands between its borders *)
    injection Hn as Hn. apply Rle_b_true in Hf.
    assert (Tx : Rmin ((lox - ox) / dx) ((hix - ox) / dx) <= t
                 <= Rmax ((lox - ox) / dx) ((hix - ox) / dx)).
    { rewrite <- Hn. split; [apply Rle_refl |]. rewrite Hn. exact Hf. }
    split; [exact (axis_point _ _ _ _ _ Hdx Tx) |].
    split; [rewrite Hdy; lra |].
    rewrite <- Hn. destruct (axis_entry lox hix ox dx Hdx) as [H | H]; auto.
  - (* y advances, x stands between its borders *)
    injection Hn as Hn. apply Rle_b_true in Hf.
    assert (Ty : Rmin ((loy - oy) / dy) ((hiy - oy) / dy) <= t
                 <= Rmax ((loy - oy) / dy) ((hiy - oy) / dy)).
    { rewrite <- Hn. split; [apply Rle_refl |]. rewrite Hn. exact Hf. }
    split; [rewrite Hdx; lra |].
    split; [exact (axis_point _ _ _ _ _ Hdy Ty) |].
    rewrite <- Hn. destruct (axis_entry loy hiy oy dy Hdy) as [H | H]; auto.
Qed.

Lemma slab_infinite_hit : forall lox hix loy hiy ox oy dx dy,
  dx <> 0 \/ dy <> 0 ->
  JsNum.max (slabMin lox hix ox dx) (slabMin loy hiy oy dy) = JsNum.PInf ->
  JsNum.leb JsNum.PInf
    (JsNum.min (slabMax lox hix ox dx) (slabMax loy hiy oy dy)) = true ->
  False.
Proof.
  intros lox hix loy hiy ox oy dx dy Hd Hn Hf.
  destruct (slab_axis lox hix ox dx)
    as [(Hdx & Mx & Xx) | (Hdx & [(Mx & Xx & Ix) | [(Mx & Xx & Ix) | [(Mx & Xx & Ix) | (Mx & Xx & Ix)]]])];
  destruct (slab_axis loy hiy oy dy)
    as [(Hdy & My & Xy) | (Hdy & [(My & Xy & Iy) | [(My & Xy & Iy) | [(My & Xy & Iy) | (My & Xy & Iy)]]])];
  rewrite Mx, My in Hn; rewrite Xx, Xy in Hf; simpl in Hn, Hf;
    try discriminate Hn; try discriminate Hf; tauto.
Qed.

Lemma raycastBody_unfold : forall origin direction maxDistance r b h,
  raycastBody origin direction maxDistance r b = Some h ->
  let dirNorm := Vector2.normalized direction in
  let tNear := slabNear origin dirNorm (PhysicsBody.bounds b) in
  let tFar := slabFar origin dirNorm (PhysicsBody.bounds b) in
  JsNum.leb tNear tFar = true
  /\ JsNum.geb tNear (JsNum.Fin 0) = true
  /\ JsNum.leb tNear maxDistance = true
  /\ h = mkHit r
           (mkRayPoint
              (JsNum.add (JsNum.Fin (Vector2.x origin))
                 (JsNum.mul (JsNum.Fin (Vector2.x dirNorm)) tNear))
              (JsNum.add (JsNum.Fin (Vector2.y origin))
                 (JsNum.mul (JsNum.Fin (Vector2.y dirNorm)) tNear)))
           tNear
           (calculateHitNormal
              (mkRayPoint
                 (JsNum.add (JsNum.Fin (Vector2.x origin))
                    (JsNum.mul (JsNum.Fin (Vector2.x dirNorm)) tNear))
                 (JsNum.add (JsNum.Fin (Vector2.y origin))
                    (JsNum.mul (JsNum.Fin (Vector2.y dirNorm)) tNear)))
              (PhysicsBody.bounds b)).
Proof.
  intros origin direction maxDistance r b h H dirNorm tNear tFar.
  unfold raycastBody in H. destruct (PhysicsBody.shape b); try discriminate H.
  fold dirNorm tNear tFar in H.
  destruct (JsNum.leb tNear tFar && JsNum.geb tNear (JsNum.Fin 0)
            && JsNum.leb tNear maxDistance)%bool eqn:C; [| discriminate H].
  apply andb_true_iff in C. destruct C as [C C3].
  apply andb_true_iff in C. destruct C as [C1 C2].
  injection H as <-. repeat split; assumption.
Qed.

(** X21: where a hit of the ray caster lies.
    For a direction that is not the zero vector, a hit that [raycastBody]
    reports has a finite distance [t] that is not negative and is within
    [maxDistance]; its point is the origin advanced by [t] along the unit
    direction, at distance [t] from the origin; the point lies within the
    box of the body and on the line of one of its four borders; and the
    normal is one of the four unit vectors along the axes. *)
Theorem raycastBody_hit_geometry : forall (origin direction : Vector2.t)
    (maxDistance : JsNum.t) (r : ref) (b : PhysicsBody.t) (h : Hit),
  direction <> Vector2.zero ->
  raycastBody origin direction maxDistance r b = Some h ->
  let dirNorm := Vector2.normalized direction in
  exists t,
    distance h = JsNum.Fin t
    /\ 0 <= t
    /\ JsNum.leb (JsNum.Fin t) maxDistance = true
    /\ point h
       = mkRayPoint (JsNum.Fin (Vector2.x origin + Vector2.x dirNorm * t))
                    (JsNum.Fin (Vector2.y origin + Vector2.y dirNorm * t))
    /\ Vector2.distanceTo origin
         (Vector2.add origin (Vector2.multiply dirNorm t)) = t
    /\ inSpan (point h) (PhysicsBody.bounds b)
    /\ onBorder (point h) (PhysicsBody.bounds b)
    /\ axisUnit (hitNormal h)
    /\ body h = r.
Proof.
  intros origin direction maxDistance r b h Hd H dirNorm.
  pose proof (raycastBody_unfold _ _ _ _ _ _ H) as U. cbv zeta in U.
  fold dirNorm in U. destruct U as (C1 & C2 & C3 & ->).
  rewrite slabNear_axes in *. rewrite slabFar_axes in C1.
  destruct (leb_zero_fin _ _ C2 C3) as [(t & Et & Ht) | [Einf _]].
  2:{ exfalso. rewrite Einf in C1.
      exact (slab_infinite_hit _ _ _ _ _ _ _ _ (normalized_nonzero direction Hd)
               Einf C1). }
  rewrite Et in *.
  destruct (slab_finite_hit _ _ _ _ _ _ _ _ _ Et C1) as (Sx & Sy & Bd).
  exists t. simpl.
  split; [reflexivity |]. split; [exact Ht |]. split; [exact C3 |].
  split; [reflexivity |].
  split.
  { rewrite (distanceTo_sym origin). rewrite distanceTo_magnitude.
    replace (Vector2.subtract (Vector2.add origin (Vector2.multiply dirNorm t)) origin)
      with (Vector2.multiply dirNorm t)
      by (destruct origin, dirNorm; unfold Vector2.subtract, Vector2.add,
            Vector2.multiply; simpl; f_equal; ring).
    rewrite magnitude_multiply. unfold dirNorm, Vector2.normalized.
    rewrite (magnitude_normalize direction Hd).
    rewrite Rabs_right by lra. ring. }
  split.
  { eexists _, _. split; [reflexivity |]. split; assumption. }
  split.
  { unfold onBorder. simpl.
    destruct Bd as [B | [B | [B | B]]]; rewrite B; auto. }
  split; [apply calculateHitNormal_axis | reflexivity].
Qed.

Lemma rayTarget_hit :
  raycastBody (Vector2.mk 0 0) (Vector2.mk 1 0) (JsNum.Fin 1000) 0 rayTarget
  = Some (mkHit 0 (mkRayPoint (JsNum.Fin 100) (JsNum.Fin 0)) (JsNum.Fin 100)
                (Vector2.mk (-1) 0)).
Proof.
  apply (raycastBody_of_the_example 0 rayTarget 10 10).
  - reflexivity.
  - exact rayWorld_bounds.
Qed.

Lemma raycastBody_hit_geometry_witness :
  exists t,
    distance (mkHit 0 (mkRayPoint (JsNum.Fin 100) (JsNum.Fin 0)) (JsNum.Fin 100)
                    (Vector2.mk (-1) 0)) = JsNum.Fin t
    /\ 0 <= t
    /\ JsNum.leb (JsNum.Fin t) (JsNum.Fin 1000) = true
    /\ point (mkHit 0 (mkRayPoint (JsNum.Fin 100) (JsNum.Fin 0)) (JsNum.Fin 100)
                    (Vector2.mk (-1) 0))
       = mkRayPoint
           (JsNum.Fin (Vector2.x (Vector2.mk 0 0)
                       + Vector2.x (Vector2.normalized (Vector2.mk 1 0)) * t))
           (JsNum.Fin (Vector2.y (Vector2.mk 0 0)
                       + Vector2.y (Vector2.normalized (Vector2.mk 1 0)) * t))
    /\ Vector2.distanceTo (Vector2.mk 0 0)
         (Vector2.add (Vector2.mk 0 0)
            (Vector2.multiply (Vector2.normalized (Vector2.mk 1 0)) t)) = t
    /\ inSpan (point (mkHit 0 (mkRayPoint (JsNum.Fin 100) (JsNum.Fin 0))
                            (JsNum.Fin 100) (Vector2.mk (-1) 0)))
              (PhysicsBody.bounds rayTarget)
    /\ onBorder (point (mkHit 0 (mkRayPoint (JsNum.Fin 100) (JsNum.Fin 0))
                              (JsNum.Fin 100) (Vector2.mk (-1) 0)))
                (PhysicsBody.bounds rayTarget)
    /\ axisUnit (hitNormal (mkHit 0 (mkRayPoint (JsNum.Fin 100) (JsNum.Fin 0))
                                  (JsNum.Fin 100) (Vector2.mk (-1) 0)))
    /\ body (mkHit 0 (mkRayPoint (JsNum.Fin 100) (JsNum.Fin 0)) (JsNum.Fin 100)
                   (Vector2.mk (-1) 0)) = 0%nat.
Proof.
  apply (raycastBody_hit_geometry (Vector2.mk 0 0) (Vector2.mk 1 0)
           (JsNum.Fin 1000) 0 rayTarget).
  - intros H. injection H as H. lra.
  - exact rayTarget_hit.
Defined.

Lemma quotient_negative : forall a d,
  (a < 0 /\ 0 < d) \/ (0 < a /\ d < 0) -> a / d < 0.
Proof.
  intros a d [[Ha Hd] | [Ha Hd]]; unfold Rdiv.
  - pose proof (Rinv_0_lt_compat d Hd). nra.
  - pose proof (Rinv_lt_0_compat d Hd). nra.
Qed.

Lemma slabMin_inside : forall lo hi o d,
  lo < o < hi ->
  slabMin lo hi o d = JsNum.NInf
  \/ exists u, slabMin lo hi o d = JsNum.Fin u /\ u < 0.
Proof.
  intros lo hi o d Hin.
  destruct (slab_axis lo hi o d)
    as [(Hd & M & _) | (Hd & [(M & _ & I) | [(M & _ & I) | [(M & _ & I) | (M & _ & I)]]])].
  - right. eexists. split; [exact M |].
    assert (Hc : 0 < d \/ d < 0)
      by (destruct (Rtotal_order d 0) as [H | [H | H]]; lra).
    destruct Hc as [Hp | Hn].
    + eapply Rle_lt_trans; [apply Rmin_l |].
      apply quotient_negative; lra.
    + eapply Rle_lt_trans; [apply Rmin_r |].
      apply quotient_negative; lra.
  - lra.
  - unfold Rmin in I. destruct (Rle_dec lo hi); lra.
  - left. exact M.
  - left. exact M.
Qed.

(** X22: a ray that starts strictly inside
    the box of a body does not hit that body: whatever the direction and
    the range, [raycastBody] answers null, since the entry parameter of the
    slab test is then negative. *)
Theorem raycastBody_from_inside_misses : forall (origin direction : Vector2.t)
    (maxDistance : JsNum.t) (r : ref) (b : PhysicsBody.t),
  Bounds.left (PhysicsBody.bounds b) < Vector2.x origin
  < Bounds.right (PhysicsBody.bounds b) ->
  Bounds.top (PhysicsBody.bounds b) < Vector2.y origin
  < Bounds.bottom (PhysicsBody.bounds b) ->
  raycastBody origin direction maxDistance r b = None.
Proof.
  intros origin direction maxDistance r b Hx Hy.
  destruct (raycastBody origin direction maxDistance r b) as [h |] eqn:H;
    [| reflexivity].
  exfalso.
  pose proof (raycastBody_unfold _ _ _ _ _ _ H) as U. cbv zeta in U.
  destruct U as (_ & C2 & _). rewrite slabNear_axes in C2.
  destruct (slabMin_inside _ _ _ (Vector2.x (Vector2.normalized direction)) Hx)
    as [Mx | (u & Mx & Hu)];
  destruct (slabMin_inside _ _ _ (Vector2.y (Vector2.normalized direction)) Hy)
    as [My | (v & My & Hv)];
  rewrite Mx, My in C2; unfold JsNum.geb in C2; simpl in C2;
    try discriminate C2.
  - apply Rle_b_true in C2. lra.
  - apply Rle_b_true in C2. lra.
  - apply Rle_b_true in C2. unfold Rmax in C2. destruct (Rle_dec u v); lra.
Qed.

Lemma raycastBody_from_inside_misses_witness :
  raycastBody (Vector2.mk 105 0) (Vector2.mk 1 0) JsNum.PInf 0 rayTarget = None.
Proof.
  apply (raycastBody_from_inside_misses (Vector2.mk 105 0) (Vector2.mk 1 0)
           JsNum.PInf 0 rayTarget).
  - unfold rayTarget. rewrite rayWorld_bounds. simpl. lra.
  - unfold rayTarget. rewrite rayWorld_bounds. simpl. lra.
Defined.

(** ** Integration *)

Lemma multiply_zero_vector : forall s,
  Vector2.multiply Vector2.zero s = Vector2.zero.
Proof.
  intros s. unfold Vector2.multiply, Vector2.zero. simpl. f_equal; ring.
Qed.

Lemma add_zero_vector : forall v, Vector2.add v Vector2.zero = v.
Proof.
  intros [a b]. unfold Vector2.add, Vector2.zero. simpl. f_equal; ring.
Qed.

Lemma limit_zero_vector : forall m, Vector2.limit Vector2.zero m = Vector2.zero.
Proof.
  intros m. unfold Vector2.limit.
  destruct (Rlt_dec (m * m) (Vector2.magnitudeSquared Vector2.zero)) as [H | H];
    [| reflexivity].
  exfalso. unfold Vector2.magnitudeSquared, Vector2.zero in H. simpl in H.
  pose proof (Rle_0_sqr m) as Hm. unfold Rsqr in Hm. lra.
Qed.

Lemma limit_magnitude : forall v m,
  Vector2.magnitude (Vector2.limit v m) <= Rabs m.
Proof.
  intros v m. unfold Vector2.limit.
  destruct (Rlt_dec (m * m) (Vector2.magnitudeSquared v)) as [H | H].
  - rewrite magnitude_multiply, magnitude_normalize; [lra |].
    intros ->. unfold Vector2.magnitudeSquared, Vector2.zero in H. simpl in H.
    pose proof (Rle_0_sqr m) as Hs. unfold Rsqr in Hs. lra.
  - apply magnitude_le_abs. lra.
Qed.

(** X11: one step of [updateDynamicBodies] on an enabled
    body.  The new position is the old one advanced by the new velocity
    times the time step (the velocity is updated first), and likewise the
    rotation by the new angular velocity.  With a positive [maxVelocity]
    the new speed never exceeds it; without one the new velocity is the
    accelerated velocity times the damping factor.  A body that ignores
    gravity and has no velocity stays where it is.  The cached box is
    refreshed, and nothing but motion is written. *)
Theorem integrate_step : forall (Math_pow : R -> R -> R) (g : Vector2.t)
    (deltaTime : R) (body : PhysicsBody.t),
  PhysicsBody.enabled body = true ->
  let body' := integrate Math_pow g deltaTime body in
  PhysicsBody.position body'
  = Vector2.add (PhysicsBody.position body)
      (Vector2.multiply (PhysicsBody.velocity body') deltaTime)
  /\ PhysicsBody.rotation body'
     = PhysicsBody.rotation body + PhysicsBody.angularVelocity body' * deltaTime
  /\ PhysicsBody.angularVelocity body'
     = PhysicsBody.angularVelocity body
       * Math_pow (1 - PhysicsBody.angularDamping body) deltaTime
  /\ (0 < PhysicsBody.maxVelocity body ->
      Vector2.magnitude (PhysicsBody.velocity body') <= PhysicsBody.maxVelocity body)
  /\ (PhysicsBody.maxVelocity body <= 0 ->
      PhysicsBody.velocity body'
      = Vector2.multiply (acceleratedVelocity g deltaTime body)
          (Math_pow (1 - PhysicsBody.linearDamping body) deltaTime))
  /\ (PhysicsBody.useGravity body = false ->
      PhysicsBody.velocity body = Vector2.zero ->
      PhysicsBody.velocity body' = Vector2.zero
      /\ PhysicsBody.position body' = PhysicsBody.position body)
  /\ boundsFresh body'
  /\ constants body' = constants body.
Proof.
  intros Math_pow g deltaTime body E body'.
  assert (U : body' = integrate Math_pow g deltaTime body) by reflexivity.
  unfold integrate in U. rewrite E in U. simpl in U.
  fold (acceleratedVelocity g deltaTime body) in U.
  split; [rewrite U; reflexivity |]. split; [rewrite U; reflexivity |].
  split; [rewrite U; reflexivity |].
  split.
  { intros Hm. rewrite U. simpl.
    destruct (Rgt_b (PhysicsBody.maxVelocity body) 0) eqn:G.
    - eapply Rle_trans; [apply limit_magnitude |].
      rewrite Rabs_right by lra. lra.
    - apply Rgt_b_false in G. lra. }
  split.
  { intros Hm. rewrite U. simpl.
    destruct (Rgt_b (PhysicsBody.maxVelocity body) 0) eqn:G; [| reflexivity].
    apply Rgt_b_true in G. lra. }
  split.
  { intros Hg Hv.
    assert (V : PhysicsBody.velocity body' = Vector2.zero).
    { rewrite U. simpl. unfold acceleratedVelocity. rewrite Hg, Hv.
      rewrite multiply_zero_vector.
      destruct (Rgt_b _ 0); [apply limit_zero_vector | reflexivity]. }
    split; [exact V |].
    assert (P : PhysicsBody.position body'
                = Vector2.add (PhysicsBody.position body)
                    (Vector2.multiply (PhysicsBody.velocity body') deltaTime))
      by (rewrite U; reflexivity).
    rewrite P, V, multiply_zero_vector. apply add_zero_vector. }
  split.
  { rewrite U. apply boundsFresh_updateBounds. }
  destruct (integrate_ticked Math_pow g deltaTime body) as [C _]. exact C.
Qed.

Lemma integrate_step_witness :
  let body' := integrate (fun _ _ => 1) (Vector2.mk 0 980) (1 / 60) fastBody in
  PhysicsBody.position body'
  = Vector2.add (PhysicsBody.position fastBody)
      (Vector2.multiply (PhysicsBody.velocity body') (1 / 60))
  /\ PhysicsBody.rotation body'
     = PhysicsBody.rotation fastBody + PhysicsBody.angularVelocity body' * (1 / 60)
  /\ PhysicsBody.angularVelocity body'
     = PhysicsBody.angularVelocity fastBody
       * (fun _ _ : R => 1) (1 - PhysicsBody.angularDamping fastBody) (1 / 60)
  /\ (0 < PhysicsBody.maxVelocity fastBody ->
      Vector2.magnitude (PhysicsBody.velocity body') <= PhysicsBody.maxVelocity fastBody)
  /\ (PhysicsBody.maxVelocity fastBody <= 0 ->
      PhysicsBody.velocity body'
      = Vector2.multiply (acceleratedVelocity (Vector2.mk 0 980) (1 / 60) fastBody)
          ((fun _ _ : R => 1) (1 - PhysicsBody.linearDamping fastBody) (1 / 60)))
  /\ (PhysicsBody.useGravity fastBody = false ->
      PhysicsBody.velocity fastBody = Vector2.zero ->
      PhysicsBody.velocity body' = Vector2.zero
      /\ PhysicsBody.position body' = PhysicsBody.position fastBody)
  /\ boundsFresh body'
  /\ constants body' = constants fastBody.
Proof.
  apply (integrate_step (fun _ _ => 1) (Vector2.mk 0 980) (1 / 60) fastBody).
  reflexivity.
Defined.

Lemma fold_modify_once : forall (f : PhysicsBody.t -> PhysicsBody.t) rs hp r b,
  NoDup rs -> In r rs -> deref hp r = Some b ->
  deref (fold_left (fun hp r => modify hp r f) rs hp) r = Some (f b).
Proof.
  intros f rs. induction rs as [| r0 rs IH]; intros hp r b Hnd Hin D;
    [contradiction |].
  inversion Hnd as [| ? ? Hn Hnd']. subst. simpl.
  destruct Hin as [-> | Hin].
  - assert (K : forall rs' hp', ~ In r rs' ->
                  deref (fold_left (fun hp r => modify hp r f) rs' hp') r
                  = deref hp' r).
    { induction rs' as [| x rs' IH']; intros hp' Hn'; simpl; [reflexivity |].
      rewrite IH' by (intros H; apply Hn'; right; exact H).
      apply deref_modify_other. intros ->. apply Hn'. left. reflexivity. }
    rewrite (K rs _ Hn). apply deref_modify_same. exact D.
  - apply IH; [exact Hnd' | exact Hin |].
    rewrite deref_modify_other; [exact D |].
    intros ->. contradiction.
Qed.

(** X12: what
    [updateDynamicBodies] does to the heap.  Every body of the dynamic set
    (which lists no body twice) is replaced by its integration step, which
    leaves a disabled body as it is; every other body, the static ones
    among them, is not written to; the engine state and the notifications
    are unchanged. *)
Theorem updateDynamicBodies_integrates_each_body_once :
  forall (Math_pow : R -> R -> R) (w : World) (deltaTime : R) (r : ref)
         (b : PhysicsBody.t),
  NoDup (PhysicsEngine.dynamicBodies (physics w)) ->
  deref (heap w) r = Some b ->
  let w' := updateDynamicBodies Math_pow w deltaTime in
  (In r (PhysicsEngine.dynamicBodies (physics w)) ->
   deref (heap w') r
   = Some (integrate Math_pow (PhysicsEngine.gravity (physics w)) deltaTime b))
  /\ (In r (PhysicsEngine.dynamicBodies (physics w)) ->
      PhysicsBody.enabled b = false -> deref (heap w') r = Some b)
  /\ (~ In r (PhysicsEngine.dynamicBodies (physics w)) ->
      deref (heap w') r = Some b)
  /\ physics w' = physics w
  /\ bus w' = bus w
  /\ List.length (heap w') = List.length (heap w).
Proof.
  intros Math_pow w deltaTime r b Hnd D w'.
  assert (A : In r (PhysicsEngine.dynamicBodies (physics w)) ->
              deref (heap w') r
              = Some (integrate Math_pow (PhysicsEngine.gravity (physics w))
                        deltaTime b)).
  { intros Hin. unfold w', updateDynamicBodies. simpl.
    apply fold_modify_once; assumption. }
  split; [exact A |]. split.
  { intros Hin E. rewrite (A Hin). f_equal. apply integrate_disabled. exact E. }
  split.
  { intros Hn. rewrite <- D.
    exact (proj2 (updateDynamicBodies_rel Math_pow w deltaTime) r Hn). }
  split; [reflexivity |]. split; [reflexivity |].
  exact (proj1 (proj1 (updateDynamicBodies_rel Math_pow w deltaTime))).
Qed.

Lemma updateDynamicBodies_integrates_each_body_once_witness :
  let w' := updateDynamicBodies (fun _ _ => 1) twoCircles (1 / 60) in
  (In 0%nat (PhysicsEngine.dynamicBodies (physics twoCircles)) ->
   deref (heap w') 0
   = Some (integrate (fun _ _ => 1) (PhysicsEngine.gravity (physics twoCircles))
             (1 / 60) (PhysicsBody.new tickOptionsA "t1")))
  /\ (In 0%nat (PhysicsEngine.dynamicBodies (physics twoCircles)) ->
      PhysicsBody.enabled (PhysicsBody.new tickOptionsA "t1") = false ->
      deref (heap w') 0 = Some (PhysicsBody.new tickOptionsA "t1"))
  /\ (~ In 0%nat (PhysicsEngine.dynamicBodies (physics twoCircles)) ->
      deref (heap w') 0 = Some (PhysicsBody.new tickOptionsA "t1"))
  /\ physics w' = physics twoCircles
  /\ bus w' = bus twoCircles
  /\ List.length (heap w') = List.length (heap twoCircles).
Proof.
  apply (updateDynamicBodies_integrates_each_body_once (fun _ _ => 1) twoCircles
           (1 / 60) 0 (PhysicsBody.new tickOptionsA "t1")).
  - simpl. constructor; [intros [H | []]; discriminate H |].
    constructor; [intros [] | constructor].
  - reflexivity.
Defined.

(** ** Forces and impulses on a body *)

(** X13: [applyImpulse] and [applyForce]
    on a body.  On a dynamic body of non-zero mass the velocity changes by
    the impulse divided by the mass, so mass times the change of velocity
    is the impulse, and nothing else is written; a static or kinematic
    body is left as it is.  [applyForce] does the very same thing, with no
    time step involved.  Impulses add up, and the opposite impulse undoes
    an impulse. *)
Theorem applyImpulse_changes_the_momentum : forall (b : PhysicsBody.t)
    (impulse other : Vector2.t),
  (PhysicsBody.type b = Dynamic ->
   PhysicsBody.mass b <> 0 ->
   Vector2.multiply
     (Vector2.subtract (PhysicsBody.velocity (PhysicsBody.applyImpulse b impulse))
                       (PhysicsBody.velocity b))
     (PhysicsBody.mass b) = impulse)
  /\ (PhysicsBody.type b = Dynamic ->
      PhysicsBody.applyImpulse b impulse
      = PhysicsBody.set_velocity b
          (Vector2.add (PhysicsBody.velocity b)
             (Vector2.multiply impulse (1 / PhysicsBody.mass b))))
  /\ (PhysicsBody.type b <> Dynamic -> PhysicsBody.applyImpulse b impulse = b)
  /\ PhysicsBody.applyForce b impulse = PhysicsBody.applyImpulse b impulse
  /\ PhysicsBody.applyImpulse (PhysicsBody.applyImpulse b impulse) other
     = PhysicsBody.applyImpulse b (Vector2.add impulse other)
  /\ PhysicsBody.velocity
       (PhysicsBody.applyImpulse (PhysicsBody.applyImpulse b impulse)
                                 (Vector2.negate impulse))
     = PhysicsBody.velocity b
  /\ constants (PhysicsBody.applyImpulse b impulse) = constants b
  /\ PhysicsBody.position (PhysicsBody.applyImpulse b impulse)
     = PhysicsBody.position b
  /\ PhysicsBody.bounds (PhysicsBody.applyImpulse b impulse) = PhysicsBody.bounds b.
Proof.
  intros b [ix iy] [jx jy].
  unfold PhysicsBody.applyImpulse, PhysicsBody.applyForce,
    PhysicsBody.getInverseMass.
  destruct b as [id [px py] [vx vy] rot av mass ty ug en ld ad mv sh mat cl cm tr bd ud].
  simpl.
  split.
  { intros -> Hm. simpl. unfold Vector2.multiply, Vector2.subtract. simpl.
    f_equal; field; exact Hm. }
  split; [intros ->; reflexivity |].
  split; [intros H; destruct ty; try reflexivity; contradiction |].
  split; [reflexivity |].
  destruct ty; simpl; unfold PhysicsBody.set_velocity, Vector2.add,
    Vector2.multiply, Vector2.negate; simpl;
    repeat split; try reflexivity; f_equal; f_equal; ring.
Qed.



(** ** The event bus *)

Lemma JsMap_set_string_keys : forall {V} (m : list (string * V)) k v,
  map fst (JsMap.set String.eqb m k v)
  = if JsMap.has String.eqb m k then map fst m else map fst m ++ [k].
Proof.
  intros V m k v. unfold JsMap.has.
  induction m as [| [k' v'] m IH]; simpl; [reflexivity |].
  destruct (String.eqb k k') eqn:E; simpl; [reflexivity |].
  rewrite IH. destruct (JsMap.get String.eqb m k); reflexivity.
Qed.

Lemma JsMap_set_string_NoDup : forall {V} (m : list (string * V)) k v,
  NoDup (map fst m) -> NoDup (map fst (JsMap.set String.eqb m k v)).
Proof.
  intros V m k v H. rewrite JsMap_set_string_keys. unfold JsMap.has.
  destruct (JsMap.get String.eqb m k) eqn:G; [exact H |].
  apply NoDup_app; [exact H | repeat constructor; intros [] |].
  intros x Hx [<- | []].
  apply (JsMap_get_None String.eqb string_eqb_spec) in G. contradiction.
Qed.

Lemma get_set_string : forall {V} (m : list (string * V)) k v k',
  JsMap.get String.eqb (JsMap.set String.eqb m k v) k'
  = if String.eqb k' k then Some v else JsMap.get String.eqb m k'.
Proof.
  intros V m k v k'. destruct (String.eqb k' k) eqn:E.
  - apply String.eqb_eq in E. subst k'.
    apply (JsMap_get_set_same String.eqb string_eqb_spec).
  - apply String.eqb_neq in E.
    apply (JsMap_get_set_other String.eqb string_eqb_spec). congruence.
Qed.

Lemma get_delete_string : forall {V} (m : list (string * V)) k k',
  JsMap.get String.eqb (JsMap.delete String.eqb m k) k'
  = if String.eqb k' k then None else JsMap.get String.eqb m k'.
Proof.
  intros V m k k'. destruct (String.eqb k' k) eqn:E.
  - apply String.eqb_eq in E. subst k'. apply JsMap_get_delete_same.
  - apply String.eqb_neq in E. apply JsMap_get_delete_other. congruence.
Qed.

Lemma on_get : forall bus eventName cb ctx e,
  JsMap.get String.eqb (EventBus.events (EventBus.on bus eventName cb ctx)) e
  = if String.eqb e eventName
    then Some (listenersOf bus eventName
               ++ [EventBus.mkListener (EventBus.allocated bus) cb ctx false])
    else JsMap.get String.eqb (EventBus.events bus) e.
Proof.
  intros bus eventName cb ctx e. unfold EventBus.on, listenersOf, JsMap.has.
  destruct (JsMap.get String.eqb (EventBus.events bus) eventName) as [ls |] eqn:G;
    simpl.
  - rewrite G. simpl. apply get_set_string.
  - rewrite get_set_string, String.eqb_refl. simpl.
    rewrite !get_set_string. destruct (String.eqb e eventName); reflexivity.
Qed.

Lemma once_get : forall bus eventName cb ctx e,
  JsMap.get String.eqb (EventBus.events (EventBus.once bus eventName cb ctx)) e
  = if String.eqb e eventName
    then Some (listenersOf bus eventName
               ++ [EventBus.mkListener (EventBus.allocated bus) cb ctx true])
    else JsMap.get String.eqb (EventBus.events bus) e.
Proof.
  intros bus eventName cb ctx e. unfold EventBus.once, listenersOf, JsMap.has.
  destruct (JsMap.get String.eqb (EventBus.events bus) eventName) as [ls |] eqn:G;
    simpl.
  - rewrite G. simpl. apply get_set_string.
  - rewrite get_set_string, String.eqb_refl. simpl.
    rewrite !get_set_string. destruct (String.eqb e eventName); reflexivity.
Qed.

Lemma on_allocated : forall bus eventName cb ctx,
  EventBus.allocated (EventBus.on bus eventName cb ctx) = S (EventBus.allocated bus).
Proof.
  intros bus eventName cb ctx. unfold EventBus.on, JsMap.has.
  destruct (JsMap.get String.eqb (EventBus.events bus) eventName) as [ls |] eqn:G;
    simpl.
  - rewrite G. reflexivity.
  - rewrite get_set_string, String.eqb_refl. reflexivity.
Qed.

Lemma once_allocated : forall bus eventName cb ctx,
  EventBus.allocated (EventBus.once bus eventName cb ctx)
  = S (EventBus.allocated bus).
Proof.
  intros bus eventName cb ctx. unfold EventBus.once, JsMap.has.
  destruct (JsMap.get String.eqb (EventBus.events bus) eventName) as [ls |] eqn:G;
    simpl.
  - rewrite G. reflexivity.
  - rewrite get_set_string, String.eqb_refl. reflexivity.
Qed.

Lemma on_names : forall bus eventName cb ctx,
  NoDup (map fst (EventBus.events bus)) ->
  NoDup (map fst (EventBus.events (EventBus.on bus eventName cb ctx))).
Proof.
  intros bus eventName cb ctx H. unfold EventBus.on.
  set (ev := if negb (JsMap.has String.eqb (EventBus.events bus) eventName)
             then JsMap.set String.eqb (EventBus.events bus) eventName []
             else EventBus.events bus).
  assert (H1 : NoDup (map fst ev)).
  { unfold ev. destruct (negb _); [apply JsMap_set_string_NoDup |]; exact H. }
  destruct (JsMap.get String.eqb ev eventName); simpl;
    [apply JsMap_set_string_NoDup |]; exact H1.
Qed.

Lemma once_names : forall bus eventName cb ctx,
  NoDup (map fst (EventBus.events bus)) ->
  NoDup (map fst (EventBus.events (EventBus.once bus eventName cb ctx))).
Proof.
  intros bus eventName cb ctx H. unfold EventBus.once.
  set (ev := if negb (JsMap.has String.eqb (EventBus.events bus) eventName)
             then JsMap.set String.eqb (EventBus.events bus) eventName []
             else EventBus.events bus).
  assert (H1 : NoDup (map fst ev)).
  { unfold ev. destruct (negb _); [apply JsMap_set_string_NoDup |]; exact H. }
  destruct (JsMap.get String.eqb ev eventName); simpl;
    [apply JsMap_set_string_NoDup |]; exact H1.
Qed.

(** The listeners [off] leaves for the event it is called on. *)
Lemma off_get : forall bus eventName cb ctx e,
  JsMap.get String.eqb (EventBus.events (EventBus.off bus eventName cb ctx)) e
  = if String.eqb e eventName
    then match cb with
         | None => None
         | Some c =>
             match filter (fun l => negb (EventBus.selected c ctx l))
                          (listenersOf bus eventName) with
             | [] => None
             | l :: rest => Some (l :: rest)
             end
         end
    else JsMap.get String.eqb (EventBus.events bus) e.
Proof.
  intros bus eventName cb ctx e. unfold EventBus.off, listenersOf, JsMap.has.
  destruct (JsMap.get String.eqb (EventBus.events bus) eventName) as [ls |] eqn:G;
    simpl.
  - destruct cb as [c |]; simpl.
    + destruct (filter _ ls) as [| l rest]; simpl.
      * apply get_delete_string.
      * apply get_set_string.
    + apply get_delete_string.
  - destruct (String.eqb e eventName) eqn:E; [| reflexivity].
    apply String.eqb_eq in E. subst e. rewrite G. destruct cb; reflexivity.
Qed.

Lemma off_listeners : forall bus eventName cb ctx e,
  listenersOf (EventBus.off bus eventName cb ctx) e
  = if String.eqb e eventName
    then match cb with
         | None => []
         | Some c => filter (fun l => negb (EventBus.selected c ctx l))
                            (listenersOf bus eventName)
         end
    else listenersOf bus e.
Proof.
  intros bus eventName cb ctx e. unfold listenersOf at 1. rewrite off_get.
  destruct (String.eqb e eventName); [| reflexivity].
  destruct cb as [c |]; [| reflexivity].
  destruct (filter _ (listenersOf bus eventName)); reflexivity.
Qed.

Lemma off_names : forall bus eventName cb ctx,
  NoDup (map fst (EventBus.events bus)) ->
  NoDup (map fst (EventBus.events (EventBus.off bus eventName cb ctx))).
Proof.
  intros bus eventName cb ctx H. unfold EventBus.off.
  destruct (negb _); [exact H |].
  destruct (JsMap.get String.eqb (EventBus.events bus) eventName); [| exact H].
  destruct cb as [c |]; simpl.
  - destruct (filter _ _); simpl;
      [apply map_fst_delete_NoDup | apply JsMap_set_string_NoDup]; exact H.
  - apply map_fst_delete_NoDup. exact H.
Qed.

Lemma off_allocated : forall bus eventName cb ctx,
  EventBus.allocated (EventBus.off bus eventName cb ctx) = EventBus.allocated bus.
Proof.
  intros bus eventName cb ctx. unfold EventBus.off.
  destruct (negb _); [reflexivity |].
  destruct (JsMap.get _ _ _); [| reflexivity].
  destruct cb; [destruct (filter _ _) |]; reflexivity.
Qed.

Lemma includes_true : forall toRemove l,
  EventBus.includes toRemove l = true
  <-> exists l', In l' toRemove /\ EventBus.lid l' = EventBus.lid l.
Proof.
  intros toRemove l. unfold EventBus.includes. rewrite existsb_exists.
  split; intros (l' & Hin & E); exists l'; (split; [exact Hin |]).
  - apply Nat.eqb_eq. exact E.
  - apply Nat.eqb_eq. exact E.
Qed.

Lemma NoDup_lid_eq : forall (ls : list EventBus.Listener) l l',
  NoDup (map EventBus.lid ls) -> In l ls -> In l' ls ->
  EventBus.lid l' = EventBus.lid l -> l' = l.
Proof.
  induction ls as [| a ls IH]; intros l l' Hnd Hl Hl' E; [contradiction |].
  simpl in Hnd. inversion Hnd as [| ? ? Hn Hnd']. subst.
  destruct Hl as [<- | Hl]; destruct Hl' as [<- | Hl'].
  - reflexivity.
  - exfalso. apply Hn. rewrite <- E. apply in_map. exact Hl'.
  - exfalso. apply Hn. rewrite E. apply in_map. exact Hl.
  - apply IH; assumption.
Qed.

Lemma remaining_filter : forall throws (ls : list EventBus.Listener),
  NoDup (map EventBus.lid ls) ->
  filter (fun l =>
            negb (EventBus.includes
                    (filter (fun l => (EventBus.once_ l && negb (throws l))%bool) ls)
                    l)) ls
  = filter (stays throws) ls.
Proof.
  intros throws ls Hnd. apply filter_ext_in. intros l Hl. unfold stays. f_equal.
  destruct (EventBus.once_ l && negb (throws l))%bool eqn:P.
  - apply includes_true. exists l. split; [| reflexivity].
    apply filter_In. split; assumption.
  - destruct (EventBus.includes _ l) eqn:I; [| reflexivity].
    apply includes_true in I. destruct I as (l' & Hin & E).
    apply filter_In in Hin. destruct Hin as [Hin P'].
    rewrite (NoDup_lid_eq ls l l' Hnd Hl Hin E) in P'. congruence.
Qed.

Lemma filter_nil_all : forall {A} (p : A -> bool) l,
  filter p l = [] -> filter (fun x => negb (p x)) l = l.
Proof.
  intros A p l. induction l as [| a l IH]; simpl; [reflexivity |].
  destruct (p a); [discriminate |]. intros H. simpl. f_equal. exact (IH H).
Qed.

Lemma emit_get : forall throws bus eventName e,
  NoDup (map EventBus.lid (listenersOf bus eventName)) ->
  JsMap.get String.eqb (EventBus.events bus) eventName <> Some [] ->
  JsMap.get String.eqb
    (EventBus.events (fst (EventBus.emit throws bus eventName))) e
  = if String.eqb e eventName
    then match filter (stays throws) (listenersOf bus eventName) with
         | [] => None
         | l :: rest => Some (l :: rest)
         end
    else JsMap.get String.eqb (EventBus.events bus) e.
Proof.
  intros throws bus eventName e Hnd Hne.
  unfold EventBus.emit, listenersOf in *. unfold JsMap.has.
  destruct (JsMap.get String.eqb (EventBus.events bus) eventName) as [ls |] eqn:G;
    simpl.
  2:{ destruct (String.eqb e eventName) eqn:E; [| reflexivity].
      apply String.eqb_eq in E. subst e. exact G. }
  destruct (filter (fun l => (EventBus.once_ l && negb (throws l))%bool) ls)
    as [| r0 rs] eqn:F.
  - simpl.
    assert (S : filter (stays throws) ls = ls).
    { unfold stays. apply (filter_nil_all _ ls F). }
    rewrite S.
    destruct (String.eqb e eventName) eqn:E; [| reflexivity].
    apply String.eqb_eq in E. subst e. rewrite G.
    destruct ls; [congruence | reflexivity].
  - rewrite <- F. rewrite (remaining_filter throws ls Hnd).
    destruct (filter (stays throws) ls) as [| l rest]; simpl.
    + apply get_delete_string.
    + apply get_set_string.
Qed.

Lemma emit_calls : forall throws bus eventName,
  snd (EventBus.emit throws bus eventName)
  = map (fun l => (EventBus.callback l, EventBus.context l))
        (listenersOf bus eventName).
Proof.
  intros throws bus eventName. unfold EventBus.emit, listenersOf, JsMap.has.
  destruct (JsMap.get String.eqb (EventBus.events bus) eventName) as [ls |];
    simpl; [| reflexivity].
  destruct (filter _ ls); [reflexivity |].
  destruct (filter _ ls); reflexivity.
Qed.

Lemma emit_names : forall throws bus eventName,
  NoDup (map fst (EventBus.events bus)) ->
  NoDup (map fst (EventBus.events (fst (EventBus.emit throws bus eventName)))).
Proof.
  intros throws bus eventName H. unfold EventBus.emit.
  destruct (negb _); [exact H |].
  destruct (JsMap.get String.eqb (EventBus.events bus) eventName) as [ls |];
    [| exact H].
  destruct (filter _ ls); [exact H |].
  destruct (filter _ ls); simpl;
    [apply map_fst_delete_NoDup | apply JsMap_set_string_NoDup]; exact H.
Qed.

Lemma emit_allocated : forall throws bus eventName,
  EventBus.allocated (fst (EventBus.emit throws bus eventName))
  = EventBus.allocated bus.
Proof.
  intros throws bus eventName. unfold EventBus.emit.
  destruct (negb _); [reflexivity |].
  destruct (JsMap.get _ _ _) as [ls |]; [| reflexivity].
  destruct (filter _ ls); [reflexivity |].
  destruct (filter _ ls); reflexivity.
Qed.

Lemma filter_lids_NoDup : forall (p : EventBus.Listener -> bool) ls,
  NoDup (map EventBus.lid ls) -> NoDup (map EventBus.lid (filter p ls)).
Proof.
  intros p ls. induction ls as [| a ls IH]; simpl; intros H; [constructor |].
  inversion H as [| ? ? Hn Hnd]. subst.
  destruct (p a); simpl; [| exact (IH Hnd)].
  constructor; [| exact (IH Hnd)].
  intros Hin. apply Hn. apply in_map_iff in Hin.
  destruct Hin as (x & E & Hx). apply filter_In in Hx.
  apply in_map_iff. exists x. tauto.
Qed.

Lemma on_listeners : forall bus eventName cb ctx e,
  listenersOf (EventBus.on bus eventName cb ctx) e
  = if String.eqb e eventName
    then listenersOf bus eventName
         ++ [EventBus.mkListener (EventBus.allocated bus) cb ctx false]
    else listenersOf bus e.
Proof.
  intros bus eventName cb ctx e. unfold listenersOf at 1. rewrite on_get.
  destruct (String.eqb e eventName); reflexivity.
Qed.

Lemma once_listeners : forall bus eventName cb ctx e,
  listenersOf (EventBus.once bus eventName cb ctx) e
  = if String.eqb e eventName
    then listenersOf bus eventName
         ++ [EventBus.mkListener (EventBus.allocated bus) cb ctx true]
    else listenersOf bus e.
Proof.
  intros bus eventName cb ctx e. unfold listenersOf at 1. rewrite once_get.
  destruct (String.eqb e eventName); reflexivity.
Qed.

Lemma emit_listeners : forall throws bus eventName e,
  busInvariant bus ->
  listenersOf (fst (EventBus.emit throws bus eventName)) e
  = if String.eqb e eventName
    then filter (stays throws) (listenersOf bus eventName)
    else listenersOf bus e.
Proof.
  intros throws bus eventName e Inv. unfold listenersOf at 1.
  rewrite (emit_get throws bus eventName e (listeners_unique bus Inv eventName)
             (no_empty_list bus Inv eventName)).
  destruct (String.eqb e eventName); [| reflexivity].
  destruct (filter _ (listenersOf bus eventName)); reflexivity.
Qed.

Lemma appended_unique : forall bus eventName (x : EventBus.Listener),
  busInvariant bus ->
  EventBus.lid x = EventBus.allocated bus ->
  NoDup (map EventBus.lid (listenersOf bus eventName ++ [x])).
Proof.
  intros bus eventName x Inv Hx. rewrite map_app. simpl.
  apply NoDup_app; [exact (listeners_unique bus Inv eventName)
                   | repeat constructor; intros [] |].
  intros n Hn [<- | []]. apply in_map_iff in Hn.
  destruct Hn as (l & E & Hl).
  pose proof (listeners_allocated bus Inv eventName l Hl). lia.
Qed.

Lemma on_preserves : forall bus eventName cb ctx,
  busInvariant bus -> busInvariant (EventBus.on bus eventName cb ctx).
Proof.
  intros bus eventName cb ctx Inv. constructor.
  - apply on_names. exact (names_unique bus Inv).
  - intros e. rewrite on_get. destruct (String.eqb e eventName).
    + intros H. injection H as H. destruct (listenersOf bus eventName); discriminate H.
    + exact (no_empty_list bus Inv e).
  - intros e. rewrite on_listeners. destruct (String.eqb e eventName).
    + apply appended_unique; [exact Inv | reflexivity].
    + exact (listeners_unique bus Inv e).
  - intros e l. rewrite on_listeners, on_allocated.
    destruct (String.eqb e eventName).
    + intros Hin. apply in_app_iff in Hin. destruct Hin as [Hin | [<- | []]].
      * pose proof (listeners_allocated bus Inv eventName l Hin). lia.
      * simpl. lia.
    + intros Hin. pose proof (listeners_allocated bus Inv e l Hin). lia.
Qed.

Lemma once_preserves : forall bus eventName cb ctx,
  busInvariant bus -> busInvariant (EventBus.once bus eventName cb ctx).
Proof.
  intros bus eventName cb ctx Inv. constructor.
  - apply once_names. exact (names_unique bus Inv).
  - intros e. rewrite once_get. destruct (String.eqb e eventName).
    + intros H. injection H as H. destruct (listenersOf bus eventName); discriminate H.
    + exact (no_empty_list bus Inv e).
  - intros e. rewrite once_listeners. destruct (String.eqb e eventName).
    + apply appended_unique; [exact Inv | reflexivity].
    + exact (listeners_unique bus Inv e).
  - intros e l. rewrite once_listeners, once_allocated.
    destruct (String.eqb e eventName).
    + intros Hin. apply in_app_iff in Hin. destruct Hin as [Hin | [<- | []]].
      * pose proof (listeners_allocated bus Inv eventName l Hin). lia.
      * simpl. lia.
    + intros Hin. pose proof (listeners_allocated bus Inv e l Hin). lia.
Qed.

Lemma off_preserves : forall bus eventName cb ctx,
  busInvariant bus -> busInvariant (EventBus.off bus eventName cb ctx).
Proof.
  intros bus eventName cb ctx Inv. constructor.
  - apply off_names. exact (names_unique bus Inv).
  - intros e. rewrite off_get. destruct (String.eqb e eventName).
    + destruct cb as [c |]; [| discriminate].
      destruct (filter _ _); discriminate.
    + exact (no_empty_list bus Inv e).
  - intros e. rewrite off_listeners. destruct (String.eqb e eventName).
    + destruct cb as [c |]; [| constructor].
      apply filter_lids_NoDup. exact (listeners_unique bus Inv eventName).
    + exact (listeners_unique bus Inv e).
  - intros e l. rewrite off_listeners, off_allocated.
    destruct (String.eqb e eventName).
    + destruct cb as [c |]; [| intros []].
      intros Hin. apply filter_In in Hin.
      exact (listeners_allocated bus Inv eventName l (proj1 Hin)).
    + exact (listeners_allocated bus Inv e l).
Qed.

Lemma emit_preserves : forall throws bus eventName,
  busInvariant bus -> busInvariant (fst (EventBus.emit throws bus eventName)).
Proof.
  intros throws bus eventName Inv. constructor.
  - apply emit_names. exact (names_unique bus Inv).
  - intros e.
    rewrite (emit_get throws bus eventName e (listeners_unique bus Inv eventName)
               (no_empty_list bus Inv eventName)).
    destruct (String.eqb e eventName).
    + destruct (filter _ _); discriminate.
    + exact (no_empty_list bus Inv e).
  - intros e. rewrite (emit_listeners throws bus eventName e Inv).
    destruct (String.eqb e eventName).
    + apply filter_lids_NoDup. exact (listeners_unique bus Inv eventName).
    + exact (listeners_unique bus Inv e).
  - intros e l. rewrite (emit_listeners throws bus eventName e Inv), emit_allocated.
    destruct (String.eqb e eventName).
    + intros Hin. apply filter_In in Hin.
      exact (listeners_allocated bus Inv eventName l (proj1 Hin)).
    + exact (listeners_allocated bus Inv e l).
Qed.

Lemma clear_preserves : forall bus, busInvariant (EventBus.clear bus).
Proof.
  intros bus. constructor; simpl.
  - constructor.
  - intros e. discriminate.
  - intros e. constructor.
  - intros e l [].
Qed.

Lemma busRun_preserves : forall calls bus,
  busInvariant bus -> busInvariant (busRun calls bus).
Proof.
  unfold busRun. induction calls as [| c calls IH]; intros bus Inv; simpl;
    [exact Inv |].
  apply IH. destruct c; simpl.
  - apply on_preserves. exact Inv.
  - apply once_preserves. exact Inv.
  - apply off_preserves. exact Inv.
  - apply emit_preserves. exact Inv.
  - apply clear_preserves.
Qed.

Lemma busInvariant_new : busInvariant EventBus.new.
Proof. exact (clear_preserves EventBus.new). Qed.

Lemma getListenerCount_length : forall bus e,
  EventBus.getListenerCount bus e = List.length (listenersOf bus e).
Proof.
  intros bus e. unfold EventBus.getListenerCount, listenersOf, JsMap.has.
  destruct (JsMap.get _ _ _); reflexivity.
Qed.

Lemma hasListeners_length : forall bus e,
  EventBus.hasListeners bus e = (0 <? List.length (listenersOf bus e))%nat.
Proof.
  intros bus e. unfold EventBus.hasListeners, listenersOf, JsMap.has.
  destruct (JsMap.get _ _ _); reflexivity.
Qed.

(** X28: registering and removing listeners.  On a bus
    reached from a new one by any calls, [on] and [once] append one
    listener to the list of their event, so the count goes up by one, and
    touch no other event; [off] with a callback removes from its event
    exactly the listeners with that callback (and that context, if one is
    given) and keeps the others in order, [off] without a callback removes
    them all, and neither touches another event.  The map never holds an
    empty list: an event has listeners exactly when its name is a key,
    which is exactly when its count is positive. *)
Theorem bus_registration : forall (calls : list BusCall) (eventName : string)
    (cb : nat) (ctx : option nat),
  let bus := busRun calls EventBus.new in
  busInvariant bus
  /\ listenersOf (EventBus.on bus eventName cb ctx) eventName
     = listenersOf bus eventName
       ++ [EventBus.mkListener (EventBus.allocated bus) cb ctx false]
  /\ listenersOf (EventBus.once bus eventName cb ctx) eventName
     = listenersOf bus eventName
       ++ [EventBus.mkListener (EventBus.allocated bus) cb ctx true]
  /\ EventBus.getListenerCount (EventBus.on bus eventName cb ctx) eventName
     = S (EventBus.getListenerCount bus eventName)
  /\ EventBus.hasListeners (EventBus.on bus eventName cb ctx) eventName = true
  /\ listenersOf (EventBus.off bus eventName (Some cb) ctx) eventName
     = filter (fun l => negb (EventBus.selected cb ctx l))
              (listenersOf bus eventName)
  /\ listenersOf (EventBus.off bus eventName None ctx) eventName = []
  /\ EventBus.hasListeners (EventBus.off bus eventName None ctx) eventName = false
  /\ (forall other,
        other <> eventName ->
        listenersOf (EventBus.on bus eventName cb ctx) other = listenersOf bus other
        /\ listenersOf (EventBus.once bus eventName cb ctx) other
           = listenersOf bus other
        /\ forall cbo,
             listenersOf (EventBus.off bus eventName cbo ctx) other
             = listenersOf bus other)
  /\ (EventBus.hasListeners bus eventName = true
      <-> In eventName (EventBus.getEventNames bus))
  /\ (EventBus.hasListeners bus eventName = true
      <-> (0 < EventBus.getListenerCount bus eventName)%nat).
Proof.
  intros calls eventName cb ctx bus.
  assert (Inv : busInvariant bus) by (apply busRun_preserves, busInvariant_new).
  split; [exact Inv |].
  split; [rewrite on_listeners, String.eqb_refl; reflexivity |].
  split; [rewrite once_listeners, String.eqb_refl; reflexivity |].
  split.
  { rewrite !getListenerCount_length, on_listeners, String.eqb_refl.
    rewrite length_app. simpl. lia. }
  split.
  { rewrite hasListeners_length, on_listeners, String.eqb_refl.
    rewrite length_app. simpl. apply Nat.ltb_lt. lia. }
  split; [rewrite off_listeners, String.eqb_refl; reflexivity |].
  split; [rewrite off_listeners, String.eqb_refl; reflexivity |].
  split.
  { rewrite hasListeners_length, off_listeners, String.eqb_refl. reflexivity. }
  split.
  { intros other Hne. apply String.eqb_neq in Hne.
    rewrite on_listeners, once_listeners, Hne.
    split; [reflexivity |]. split; [reflexivity |].
    intros cbo. rewrite off_listeners, Hne. reflexivity. }
  split.
  { rewrite hasListeners_length. unfold EventBus.getEventNames, listenersOf.
    destruct (JsMap.get String.eqb (EventBus.events bus) eventName) as [ls |] eqn:G.
    - split.
      + intros _. apply (JsMap_get_In String.eqb string_eqb_spec) in G.
        apply in_map_iff. exists (eventName, ls). split; [reflexivity | exact G].
      + intros _. apply Nat.ltb_lt.
        pose proof (no_empty_list bus Inv eventName) as Hne.
        destruct ls; [congruence | simpl; lia].
    - split; [discriminate |].
      intros Hin. apply (JsMap_get_None String.eqb string_eqb_spec) in G.
      contradiction. }
  rewrite hasListeners_length, getListenerCount_length. apply Nat.ltb_lt.
Qed.

(** X27: what [emit] does, for callbacks that do
    not call back into the bus.  On a bus reached from a new one by any
    calls, [emit] calls every listener of the event once, in the order of
    registration and each on its context, whether or not earlier callbacks
    threw.  Afterwards the event has lost exactly its one-time listeners
    whose callback returned; a one-time listener whose callback threw
    stays registered.  Other events are untouched, and an event without
    listeners gives no call and no change. *)
Theorem emit_calls_every_listener : forall (calls : list BusCall)
    (throws : EventBus.Listener -> bool) (eventName : string),
  let bus := busRun calls EventBus.new in
  let bus' := fst (EventBus.emit throws bus eventName) in
  snd (EventBus.emit throws bus eventName)
  = map (fun l => (EventBus.callback l, EventBus.context l))
        (listenersOf bus eventName)
  /\ listenersOf bus' eventName
     = filter (stays throws) (listenersOf bus eventName)
  /\ (forall l,
        In l (listenersOf bus eventName) ->
        (In l (listenersOf bus' eventName)
         <-> EventBus.once_ l = false \/ throws l = true))
  /\ (forall other,
        other <> eventName -> listenersOf bus' other = listenersOf bus other)
  /\ (listenersOf bus eventName = [] ->
      bus' = bus /\ snd (EventBus.emit throws bus eventName) = [])
  /\ ((forall l, throws l = false) ->
      forall l, In l (listenersOf bus' eventName) -> EventBus.once_ l = false)
  /\ busInvariant bus'.
Proof.
  intros calls throws eventName bus bus'.
  assert (Inv : busInvariant bus) by (apply busRun_preserves, busInvariant_new).
  assert (L : listenersOf bus' eventName
              = filter (stays throws) (listenersOf bus eventName)).
  { unfold bus'. rewrite (emit_listeners throws bus eventName eventName Inv).
    rewrite String.eqb_refl. reflexivity. }
  split; [apply emit_calls |]. split; [exact L |].
  split.
  { intros l Hl. rewrite L, filter_In. unfold stays.
    destruct (EventBus.once_ l); destruct (throws l); simpl; intuition congruence. }
  split.
  { intros other Hne. apply String.eqb_neq in Hne. unfold bus'.
    rewrite (emit_listeners throws bus eventName other Inv), Hne. reflexivity. }
  split.
  { intros Hnil. unfold bus', EventBus.emit, JsMap.has.
    unfold listenersOf in Hnil.
    destruct (JsMap.get String.eqb (EventBus.events bus) eventName) as [ls |] eqn:G;
      simpl; [| split; reflexivity].
    subst ls. exfalso. exact (no_empty_list bus Inv eventName G). }
  split.
  { intros Hth l Hin. rewrite L in Hin. apply filter_In in Hin.
    destruct Hin as [_ Hs]. unfold stays in Hs. rewrite Hth in Hs.
    destruct (EventBus.once_ l); [discriminate Hs | reflexivity]. }
  apply emit_preserves. exact Inv.
Qed.

(** ** Entities and their bodies *)

Lemma heapRel_set_position : forall hp r p,
  heapRel (fun b b' => constants b' = constants b) hp
    (modify hp r (fun b => PhysicsBody.set_position b p)).
Proof.
  intros hp r p. apply heapRel_modify; [reflexivity |]. reflexivity.
Qed.

Lemma boundsOf_injective : forall p q s old,
  s <> OtherShape ->
  PhysicsBody.boundsOf p s old = PhysicsBody.boundsOf q s old -> p = q.
Proof.
  intros [px py] [qx qy] s old Hs H. destruct s as [rad | w h |]; simpl in H.
  - injection H as H1 H2 _ _. f_equal; lra.
  - injection H as H1 H2 _ _. f_equal; lra.
  - contradiction.
Qed.

(** X30: an entity that moves its body.
    [setPosition], [move] and [updatePosition] write the new position into
    the physics body and nothing else: the cached box is not recomputed.
    For a circle or a rectangle whose box was fresh, the box is stale as
    soon as the position really changes.  If the body is static the engine
    never repairs it: whatever calls follow, the body keeps the new
    position with the old box.  The registry stays consistent. *)
Theorem setPosition_leaves_the_box_stale : forall (w : World) (e : Entity.t)
    (x y : R) (r : ref) (b : PhysicsBody.t),
  Entity.physicsBody e = Some r ->
  deref (heap w) r = Some b ->
  let w' := fst (Entity.setPosition w e x y) in
  let b' := PhysicsBody.set_position b (Vector2.mk x y) in
  deref (heap w') r = Some b'
  /\ Entity.position (snd (Entity.setPosition w e x y)) = Vector2.mk x y
  /\ PhysicsBody.bounds b' = PhysicsBody.bounds b
  /\ physics w' = physics w
  /\ (forall r', r' <> r -> deref (heap w') r' = deref (heap w) r')
  /\ Entity.move w e (x - Vector2.x (Entity.position e))
                     (y - Vector2.y (Entity.position e))
     = Entity.setPosition w e x y
  /\ Entity.updatePosition w (Entity.set_position e (Vector2.mk x y)) = w'
  /\ (boundsFresh b ->
      PhysicsBody.shape b <> OtherShape ->
      Vector2.mk x y <> PhysicsBody.position b ->
      ~ boundsFresh b')
  /\ (registryInvariant w -> registryInvariant w')
  /\ (registryInvariant w ->
      PhysicsBody.type b = Static ->
      forall Math_pow calls,
        engineIdsFresh Math_pow calls w' ->
        deref (heap (engineRun Math_pow calls w')) r = Some b').
Proof.
  intros w e x y r b He D w' b'.
  assert (Ew : w' = mkWorld (modify (heap w) r
                               (fun b => PhysicsBody.set_position b (Vector2.mk x y)))
                            (physics w) (bus w)).
  { unfold w', Entity.setPosition. rewrite He. reflexivity. }
  assert (D' : deref (heap w') r = Some b').
  { rewrite Ew. simpl.
    exact (deref_modify_same (heap w) r
             (fun b => PhysicsBody.set_position b (Vector2.mk x y)) b D). }
  assert (Inv' : registryInvariant w -> registryInvariant w').
  { intros Inv. apply (registryInvariant_heapRel w w' Inv);
      rewrite Ew; try reflexivity. simpl. apply heapRel_set_position. }
  split; [exact D' |].
  split; [unfold Entity.setPosition; rewrite He; reflexivity |].
  split; [reflexivity |].
  split; [rewrite Ew; reflexivity |].
  split.
  { intros r' Hne. rewrite Ew. simpl. apply deref_modify_other. congruence. }
  split.
  { unfold Entity.move, Entity.setPosition. rewrite He.
    assert (Ep : Vector2.add (Entity.position e)
                   (Vector2.mk (x - Vector2.x (Entity.position e))
                               (y - Vector2.y (Entity.position e)))
                 = Vector2.mk x y).
    { unfold Vector2.add. simpl. f_equal; ring. }
    unfold Entity.set_position. simpl. rewrite Ep. reflexivity. }
  split.
  { unfold Entity.updatePosition. simpl. rewrite He. symmetry. exact Ew. }
  split.
  { intros Hf Hs Hp Hf'. unfold boundsFresh in Hf, Hf'. unfold b' in Hf'.
    simpl in Hf'. rewrite Hf in Hf' at 1.
    apply Hp. symmetry.
    exact (boundsOf_injective _ _ _ _ Hs Hf'). }
  split; [exact Inv' |].
  intros Inv T Math_pow calls Hfr.
  apply (static_bodies_never_change_aux Math_pow calls w' r b' (Inv' Inv) Hfr D').
  exact T.
Qed.

Lemma setPosition_leaves_the_box_stale_witness :
  let w' := fst (Entity.setPosition groundWorld groundEntity 50 100) in
  let b' := PhysicsBody.set_position
              (PhysicsBody.new (rectOptions 0 100 200 20 Static) "g1")
              (Vector2.mk 50 100) in
  deref (heap w') 0 = Some b'
  /\ Entity.position (snd (Entity.setPosition groundWorld groundEntity 50 100))
     = Vector2.mk 50 100
  /\ PhysicsBody.bounds b'
     = PhysicsBody.bounds (PhysicsBody.new (rectOptions 0 100 200 20 Static) "g1")
  /\ physics w' = physics groundWorld
  /\ (forall r', r' <> 0%nat -> deref (heap w') r' = deref (heap groundWorld) r')
  /\ Entity.move groundWorld groundEntity
       (50 - Vector2.x (Entity.position groundEntity))
       (100 - Vector2.y (Entity.position groundEntity))
     = Entity.setPosition groundWorld groundEntity 50 100
  /\ Entity.updatePosition groundWorld
       (Entity.set_position groundEntity (Vector2.mk 50 100)) = w'
  /\ (boundsFresh (PhysicsBody.new (rectOptions 0 100 200 20 Static) "g1") ->
      PhysicsBody.shape (PhysicsBody.new (rectOptions 0 100 200 20 Static) "g1")
      <> OtherShape ->
      Vector2.mk 50 100
      <> PhysicsBody.position
           (PhysicsBody.new (rectOptions 0 100 200 20 Static) "g1") ->
      ~ boundsFresh b')
  /\ (registryInvariant groundWorld -> registryInvariant w')
  /\ (registryInvariant groundWorld ->
      PhysicsBody.type (PhysicsBody.new (rectOptions 0 100 200 20 Static) "g1")
      = Static ->
      forall Math_pow calls,
        engineIdsFresh Math_pow calls w' ->
        deref (heap (engineRun Math_pow calls w')) 0 = Some b').
Proof.
  apply (setPosition_leaves_the_box_stale groundWorld groundEntity 50 100 0
           (PhysicsBody.new (rectOptions 0 100 200 20 Static) "g1")).
  - reflexivity.
  - reflexivity.
Defined.

Lemma spread_defaults : forall base,
  spread base Options.empty = base.
Proof. intros []. reflexivity. Qed.

(** X29: an entity has at most one
    registered body.  In a consistent registry and for a fresh id,
    [setPhysicsBody] leaves the entity with the new body, registered, and
    its former body, if it had one, unregistered: the body count is
    unchanged when a registered body was replaced and one more when the
    entity had none.  Unless the options say otherwise, the new body is at
    the position of the entity, with the shape of its collider, the class
    name as type tag, and a fresh box.  [removePhysicsBody] then
    unregisters the body and clears the reference.  The registry stays
    consistent throughout. *)
Theorem setPhysicsBody_replaces_the_body : forall (w : World) (e : Entity.t)
    (options : Options.t) (newId : string),
  registryInvariant w ->
  idFresh w newId ->
  let w' := fst (fst (Entity.setPhysicsBody w e options newId)) in
  let e' := snd (fst (Entity.setPhysicsBody w e options newId)) in
  let r := snd (Entity.setPhysicsBody w e options newId) in
  Entity.physicsBody e' = Some r
  /\ Entity.usePhysics e' = true
  /\ registered w' r
  /\ registryInvariant w'
  /\ deref (heap w') r
     = Some (PhysicsBody.new (spread (Entity.bodyOptions e) options) newId)
  /\ (forall old b,
        Entity.physicsBody e = Some old ->
        deref (heap w) old = Some b ->
        old <> r /\ ~ registered w' old
        /\ (registered w old ->
            bodyCount (PhysicsEngine.stats (physics w'))
            = bodyCount (PhysicsEngine.stats (physics w))))
  /\ (Entity.physicsBody e = None ->
      bodyCount (PhysicsEngine.stats (physics w'))
      = (bodyCount (PhysicsEngine.stats (physics w)) + 1)%Z)
  /\ (forall b,
        deref (heap w') r = Some b ->
        boundsFresh b
        /\ (Options.position options = None ->
            PhysicsBody.position b = Entity.position e)
        /\ (Options.shape options = None ->
            PhysicsBody.shape b
            = match Entity.type (Entity.collider e) with
              | Entity.CircleCollider => Circle (Entity.radius (Entity.collider e))
              | _ => Rect (Entity.width (Entity.collider e))
                          (Entity.height (Entity.collider e))
              end)
        /\ (Options.userData options = None ->
            PhysicsBody.userData b = Some (mkUserData (Entity.className e))))
  /\ ~ registered (fst (Entity.removePhysicsBody w' e')) r
  /\ Entity.physicsBody (snd (Entity.removePhysicsBody w' e')) = None
  /\ Entity.usePhysics (snd (Entity.removePhysicsBody w' e')) = false
  /\ registryInvariant (fst (Entity.removePhysicsBody w' e')).
Proof.
  intros w e options newId Inv Hf w' e' r.
  set (w1 := match Entity.physicsBody e with
             | Some body => removeBody w body
             | None => w
             end).
  assert (Inv1 : registryInvariant w1).
  { unfold w1. destruct (Entity.physicsBody e); [apply removeBody_preserves |];
      exact Inv. }
  assert (H1 : heap w1 = heap w).
  { unfold w1. destruct (Entity.physicsBody e) as [old |]; [| reflexivity].
    unfold removeBody. destruct (deref (heap w) old); [| reflexivity].
    destruct (JsMap.has _ _ _); reflexivity. }
  assert (Hf1 : idFresh w1 newId) by (unfold idFresh; rewrite H1; exact Hf).
  assert (Ew : w' = fst (createBody w1 (spread (Entity.bodyOptions e) options) newId))
    by reflexivity.
  assert (Er : r = List.length (heap w)).
  { change r with (List.length (heap w1)). rewrite H1. reflexivity. }
  assert (Inv' : registryInvariant w').
  { rewrite Ew. apply createBody_preserves; assumption. }
  pose proof (createBody_registers w1 (spread (Entity.bodyOptions e) options) newId)
    as (D & G & _ & Cnt).
  rewrite <- Ew in D, G, Cnt.
  change (snd (createBody w1 (spread (Entity.bodyOptions e) options) newId))
    with r in D, G.
  assert (Reg : registered w' r).
  { exists (PhysicsBody.new (spread (Entity.bodyOptions e) options) newId).
    split; [exact D | rewrite new_id; exact G]. }
  split; [reflexivity |]. split; [reflexivity |]. split; [exact Reg |].
  split; [exact Inv' |]. split; [exact D |].
  split.
  { intros old b Ho Db.
    assert (Hlt : (old < List.length (heap w))%nat) by exact (deref_Some_lt _ _ _ Db).
    split; [lia |].
    assert (W1 : w1 = removeBody w old) by (unfold w1; rewrite Ho; reflexivity).
    pose proof (removeBody_absent_key w old b Inv Db) as K. rewrite <- W1 in K.
    assert (Db' : deref (heap w') old = Some b).
    { rewrite Ew, createBody_heap. rewrite deref_alloc_old.
      - rewrite H1. exact Db.
      - rewrite H1. exact Hlt. }
    assert (Hid : PhysicsBody.id b <> newId).
    { intros E. apply Hf. unfold idFresh. rewrite <- E.
      apply in_map. exact (nth_error_In _ _ Db). }
    split.
    - intros (b0 & D0 & G0). rewrite Db' in D0. injection D0 as <-.
      rewrite Ew in G0. rewrite (createBody_bodies w1 _ newId Inv1 Hf1) in G0.
      apply (JsMap_get_In String.eqb string_eqb_spec) in G0.
      apply in_app_iff in G0. destruct G0 as [G0 | [G0 | []]].
      + apply (JsMap_In_get String.eqb string_eqb_spec) in G0;
          [| exact (keys_unique w1 Inv1)].
        rewrite K in G0. discriminate G0.
      + injection G0 as G0 _. congruence.
    - intros (b0 & D0 & G0). rewrite Db in D0. injection D0 as <-.
      rewrite Cnt, W1.
      rewrite (removeBody_registered w old b Db);
        [| unfold JsMap.has; rewrite G0; reflexivity].
      simpl. lia. }
  split.
  { intros Hn. rewrite Cnt. unfold w1. rewrite Hn. reflexivity. }
  split.
  { intros b Db. rewrite D in Db. injection Db as <-.
    split; [apply boundsFresh_updateBounds |].
    split; [intros E; simpl; rewrite E; reflexivity |].
    split; [intros E; simpl; rewrite E; reflexivity |].
    intros E. simpl. rewrite E. reflexivity. }
  assert (Erm : Entity.removePhysicsBody w' e'
                = (removeBody w' r, Entity.set_physicsBody e' None false))
    by reflexivity.
  rewrite Erm. simpl.
  split.
  { intros (b0 & D0 & G0).
    assert (Hh : heap (removeBody w' r) = heap w').
    { unfold removeBody. rewrite D. destruct (JsMap.has _ _ _); reflexivity. }
    rewrite Hh, D in D0. injection D0 as <-.
    rewrite (removeBody_absent_key w' r _ Inv' D) in G0. discriminate G0. }
  split; [reflexivity |]. split; [reflexivity |].
  apply removeBody_preserves. exact Inv'.
Qed.

Lemma setPhysicsBody_replaces_the_body_witness :
  let w' := fst (fst (Entity.setPhysicsBody groundWorld groundEntity
                        Options.empty "g2")) in
  let e' := snd (fst (Entity.setPhysicsBody groundWorld groundEntity
                        Options.empty "g2")) in
  let r := snd (Entity.setPhysicsBody groundWorld groundEntity Options.empty "g2") in
  Entity.physicsBody e' = Some r
  /\ Entity.usePhysics e' = true
  /\ registered w' r
  /\ registryInvariant w'
  /\ deref (heap w') r
     = Some (PhysicsBody.new (spread (Entity.bodyOptions groundEntity) Options.empty)
               "g2")
  /\ (forall old b,
        Entity.physicsBody groundEntity = Some old ->
        deref (heap groundWorld) old = Some b ->
        old <> r /\ ~ registered w' old
        /\ (registered groundWorld old ->
            bodyCount (PhysicsEngine.stats (physics w'))
            = bodyCount (PhysicsEngine.stats (physics groundWorld))))
  /\ (Entity.physicsBody groundEntity = None ->
      bodyCount (PhysicsEngine.stats (physics w'))
      = (bodyCount (PhysicsEngine.stats (physics groundWorld)) + 1)%Z)
  /\ (forall b,
        deref (heap w') r = Some b ->
        boundsFresh b
        /\ (Options.position Options.empty = None ->
            PhysicsBody.position b = Entity.position groundEntity)
        /\ (Options.shape Options.empty = None ->
            PhysicsBody.shape b
            = match Entity.type (Entity.collider groundEntity) with
              | Entity.CircleCollider =>
                  Circle (Entity.radius (Entity.collider groundEntity))
              | _ => Rect (Entity.width (Entity.collider groundEntity))
                          (Entity.height (Entity.collider groundEntity))
              end)
        /\ (Options.userData Options.empty = None ->
            PhysicsBody.userData b
            = Some (mkUserData (Entity.className groundEntity))))
  /\ ~ registered (fst (Entity.removePhysicsBody w' e')) r
  /\ Entity.physicsBody (snd (Entity.removePhysicsBody w' e')) = None
  /\ Entity.usePhysics (snd (Entity.removePhysicsBody w' e')) = false
  /\ registryInvariant (fst (Entity.removePhysicsBody w' e')).
Proof.
  apply (setPhysicsBody_replaces_the_body groundWorld groundEntity Options.empty
           "g2").
  - exact groundWorld_invariant.
  - simpl. intros [H | []]. discriminate H.
Defined.
